(* ===== verification/_CoqProject ===== *)
-Q . S2P
Prelude.v
System.v
SystemFacts.v
Ipfs.v
IpfsFacts.v
IpfsIndex.v
Balances.v
BalancesFacts.v
BalancesOps.v
BalancesTransfer.v
BalancesCorrect.v
BalancesTheorems.v
BalancesNamed.v
Assets.v
AssetsFacts.v
AssetsCalls.v
AssetsTheorems.v
AssetsBalances.v
Council.v
CouncilFacts.v
CouncilCorrect.v
CouncilTheorems.v
CouncilNode.v
Allocator.v
AllocatorFacts.v
AllocatorTheorems.v
AllocatorGuest.v
Overlay.v
OverlayFacts.v
OverlayChanges.v
OverlayTheorems.v
Ext.v
ExtTheorems.v
ExtBackend.v
IpfsNode.v
IpfsNodeFacts.v
IpfsLive.v
IpfsWorker.v
IpfsWorkerFacts.v
IpfsDemo.v
BigUint.v
BigUintFacts.v
BigUintNum.v
BigUintDiv.v
BigUintExact.v
BigUintTheorems.v
ForkTree.v
ForkTreeFacts.v
ForkTreeImport.v
ForkTreeFinal.v
ForkTreeSim.v
ForkTreeFind.v
ForkTreeDesc.v
ForkTreeTheorems.v
ForkTreeAgree.v
Grandpa.v
GrandpaFacts.v
GrandpaInv.v
GrandpaTheorems.v
Database.v
HeaderMetadata.v
HeaderChain.v
HeaderRoutes.v
HeaderDescent.v
ChainBackend.v
ChainDemo.v
Leaves.v
LeavesFacts.v
InMem.v
InMemCanon.v
InMemFacts.v
InMemOps.v
InMemBest.v
InMemTheorems.v
InMemBackend.v
InMemImport.v
HeaderTheorems.v
BlockDb.v
BlockDbFacts.v
BlockDbTheorems.v
