(* ===== verification/Prelude.v ===== *)
(** * Cherry-Node: a verification library for the node's runtime

    Cherry-Node is a Substrate node for a chain that keeps a registry of IPFS
    assets.  Users register, pin and share assets with [pallet-ipfs]; the pallet
    queues commands that the offchain worker of each node sends to its IPFS
    node, whose successes come back as transactions.  The registry is governed
    by [pallet-council], whose members vote with the tokens of [pallet_assets];
    deposits and fees are paid in [pallet_balances], which keeps its accounts in
    [frame_system].  The runtime is a Wasm guest: its heap is managed by the
    host's allocator, and its storage is an overlay with nested transactions
    over the database.  Blocks are a tree of headers, with its leaves and the
    canonical chain of its head, in memory or in a database behind caches;
    finality and the authority sets are kept in fork trees that ask the client
    for ancestry, and arithmetic that must not lose precision goes through big
    integers.

    The library is a shallow embedding: a function of the source is a function
    here, written over [M S E A], which passes a state, returns a [Result] and
    may panic.  An error keeps the writes made before it, as it does in the code.

    ** Files

    - [Prelude] (this file): build profiles, the monad, machine integers and
      their overflow, what the code uses of Rust's vectors and of SCALE-bounded
      collections, and the calculus ([wp], [wlp]) of the proofs.
    - [System], [SystemFacts]: [frame/system/src/lib.rs], origins, events and
      the reference counters of accounts.
    - [Ipfs], [IpfsFacts], [IpfsIndex]: the pallet
      [bin/node/pallets/pallet-ipfs/src/lib.rs] on chain.
    - [Balances], [BalancesFacts], [BalancesOps], [BalancesTransfer],
      [BalancesCorrect], [BalancesTheorems], [BalancesNamed]:
      [frame/balances/src/lib.rs].
    - [Assets], [AssetsFacts], [AssetsCalls], [AssetsTheorems]:
      [frame/assets/src], against the interface [AssetsRuntime] of a currency;
      [AssetsBalances] discharges it with [Balances].
    - [Council], [CouncilFacts], [CouncilCorrect], [CouncilTheorems]:
      [bin/node/pallets/pallet-council/src/lib.rs], against an interface of the
      calls that motions carry; [CouncilNode] discharges it with the calls of
      the council and of pallet_assets over the pallets below.
    - [Allocator], [AllocatorFacts], [AllocatorTheorems], [AllocatorGuest]:
      [client/allocator/src/freeing_bump.rs], against the class [Memory].
    - [Overlay], [OverlayFacts], [OverlayChanges], [OverlayTheorems]:
      [primitives/state-machine/src/overlayed_changes]; [Ext], [ExtTheorems],
      [ExtBackend]: [primitives/state-machine/src/ext.rs] over the class of
      backends, and maps as a backend.
    - [IpfsNode], [IpfsNodeFacts], [IpfsLive]: [client/offchain/src/api/ipfs.rs],
      the API, its worker and their channels under every schedule;
      [IpfsWorker], [IpfsWorkerFacts], [IpfsDemo]: the offchain worker of the
      pallet, against the promises of the requests, which the API keeps.
    - [BigUint], [BigUintFacts], [BigUintNum], [BigUintDiv], [BigUintExact],
      [BigUintTheorems]: [primitives/arithmetic/src/biguint.rs],
      [helpers_128bit.rs] and [rational.rs].
    - [ForkTree], [ForkTreeFacts], [ForkTreeImport], [ForkTreeFinal],
      [ForkTreeSim], [ForkTreeFind], [ForkTreeDesc], [ForkTreeTheorems],
      [ForkTreeAgree]: [utils/fork-tree/src/lib.rs], against the class [Ancestry]
      of the client's answers, of which the last file shows that only those about
      the blocks of the tree and of the call matter; [Grandpa], [GrandpaFacts], [GrandpaInv], [GrandpaTheorems]:
      [client/finality-grandpa/src/authorities.rs] over it.
    - [HeaderMetadata], [HeaderChain], [HeaderRoutes], [HeaderDescent],
      [HeaderTheorems]: [primitives/blockchain/src/header_metadata.rs] and the
      tests of descent of [client/api/src/lib.rs] and of the synchronization,
      over the class [HeaderServer] of backends that serve a tree, which the
      chain in memory and the block database both satisfy; the last file
      discharges [Ancestry] with the client.
    - [ChainBackend]: the default methods of
      [primitives/blockchain/src/backend.rs]; [Leaves], [LeavesFacts]:
      [client/api/src/leaves.rs]; [Database]: [primitives/database/src], with the
      in-memory database as an instance of its class.
    - [InMem], [InMemCanon], [InMemFacts], [InMemOps], [InMemBest],
      [InMemTheorems]: the blockchain of [client/api/src/in_mem.rs];
      [InMemBackend], [InMemImport]: its backend and import operations.
    - [BlockDb], [BlockDbFacts], [BlockDbTheorems]: lookups, headers, caches and
      the head of [client/db/src/utils.rs] and [client/db/src/lib.rs], over the
      class [Database] and the two crates of caches.  [ChainDemo] has the headers
      on which the theorems about chains are instantiated.

    In each group the first file has the definitions, under the names of the
    source where Rocq allows it, and the last the theorems.

    ** What the theorems show

    - frame_system: over every use that keeps the contract of the counters,
      accounts with consumers have providers and counters keep their width.
    - pallet_balances: the total issuance is the sum of all balances over every
      history of operations within a stated guard, and transfers, reserves, named reserves and locks move exactly
      what they say.  The error paths that lose or create issuance are proved.
    - pallet-ipfs: calls refine an abstract table of ownership, management needs
      an owner, the registry stays well formed and never panics, and the index
      agrees with the assets except after two calls, which are proved.
    - pallet_assets: supply and counters agree with the balances over every
      history of calls but those proved to break them, and nothing is debited but
      by right; a delegate may take dust beyond the approval.
    - pallet_council: the stores of motions agree, a motion is decided by its
      tally, a vote counts once; and ways around the vote, among them a threshold
      that is ignored and a quorum that wraps.
    - the allocator: blocks of a guest never overlap, and its calls do not fail
      without a reason, in a memory that stays 32 MiB and 8 bytes below 4 GiB; a
      wrap of the bumper beyond.
    - overlay and externalities: they refine stacks of full maps; the next key,
      deletion by prefix and the cached root are exact.
    - IPFS requests: over all interleavings a reply has the content that the node
      gave for its request, waiting ends, and every request is answered if the
      node answers; the worker never panics and reports what succeeded, in order;
      a queued address that does not parse drops the commands queued with it.
    - big integers: Knuth's division, the multiplication by a rational and the
      rationals compute what the integers and rationals do, and fail exactly
      when the result does not fit.
    - the fork tree: it refines the set of its blocks under importing, pruning
      and finalizing, and searches find the deepest ancestor; two defects.
    - the authority sets: they stay valid and are numbered without a gap, changes
      are applied exactly when due, at height and delay added modulo 2^32 (so the
      largest delays apply at once), and the record gives the set of a block.
    - headers: common ancestors, routes and descent are exact over any backend
      that serves a tree, whatever ancestor links it has cached, and a fork tree
      that asks the client refines the set of its blocks, while the client imports
      blocks and its cache changes between the calls.
    - the leaf set: it refines a set of numbered blocks and survives the database;
      undoing an import does not restore it.
    - the chain in memory: a reorganization is exact unless it goes to a shorter
      fork, where a canonical hash is lost; over every history without such a
      move, tree, leaves and canonical hashes stay coherent and the best chain that
      contains a block is the highest; an import does what the steps collected in
      its operation say.
    - the block database: its caches do not show, and the transaction that moves
      the head makes the lookups the chain of the head.

    ** Bounds and fuel

    Loops that are not structural take fuel, and a theorem shows that the fuel
    given is enough: the gcd takes 258 steps, as it removes a bit from one of two
    numbers of 128 bits at each; the correction of a digit of the division takes
    3, as an estimate is at most two too large; waiting for IPFS responses takes
    as many as events and requests underway; draining an iterator over a fork
    tree takes a step per node, and [finalize_with_ancestors] one more, as each
    iteration passes a root or removes a node; the loop over the keys of the
    changes takes a step per key; the walks over headers take a step per number
    of the block they start from, as each goes to a parent; the search for the
    best chain takes as many as the chain is high; trimming a cache of headers
    takes a step per entry.  Integers keep the width of the code, with
    wrapping in a release build and a panic in a debug build ([Profile]);
    [usize] indices and lengths are natural numbers.

    ** Not modelled

    Weights, fees and the order of a block; SCALE encoding and storage hashing
    (storage maps are finite maps); the code that FRAME's macros generate.  The
    trie, the key-value stores, the caches, the Wasm interpreters, libp2p, rust-ipfs and the
    cryptography are crates outside the repository: where a modelled part calls
    them, they are a class or a parameter with what it relies on.  Networking,
    consensus engines, the transaction pool, RPC, the command line and the
    service are input and output around such crates.  The upstream pallets that
    the pallets of this chain do not call (staking, elections, democracy,
    contracts and others), the commit of an import into the block database with
    its states, changes tries and pruning, the locks of the chains (each method
    is one step), the fixed-point numbers, benchmarks and tests are left
    out.  *)

From stdpp Require Export base gmap list sorting numbers strings.
From Stdlib Require Export Strings.Byte ZArith Lia.

Set Default Proof Using "Type".

Create HintDb frame discriminated.

(* ===================================================================== *)
(** ** Build profile

    Cargo.toml sets no [overflow-checks], so plain [+], [-] and [*] wrap in
    a release build and panic in a debug build; [debug_assert!] is compiled
    only into the latter.  Every operation that uses them takes the profile
    as an argument, and the theorems hold for all profiles. *)
Class Profile := {
  overflow_checks : bool;
  debug_assertions : bool
}.

Definition release : Profile := {| overflow_checks := false; debug_assertions := false |}.
Definition debug : Profile := {| overflow_checks := true; debug_assertions := true |}.

(* ===================================================================== *)
(** ** Outcomes

    A dispatchable reads and writes the runtime storage and returns a
    [Result] or panics.  FRAME at this commit does not wrap dispatchables in
    a storage transaction, so an error keeps the writes made before it: [Err]
    carries a state too. *)
Inductive outcome (S E A : Type) : Type :=
| Ok (a : A) (s : S)
| Err (e : E) (s : S)
| Panic.

Arguments Ok {S E A} a s.
Arguments Err {S E A} e s.
Arguments Panic {S E A}.

Definition M (S E A : Type) : Type := S -> outcome S E A.

Definition ret {S E A} (a : A) : M S E A := fun s => Ok a s.

Definition bind {S E A B} (m : M S E A) (k : A -> M S E B) : M S E B :=
  fun s =>
    match m s with
    | Ok a s' => k a s'
    | Err e s' => Err e s'
    | Panic => Panic
    end.

Definition fail {S E A} (e : E) : M S E A := fun s => Err e s.
Definition panic {S E A} : M S E A := fun _ => Panic.
Definition gets {S E A} (f : S -> A) : M S E A := fun s => Ok (f s) s.
Definition modify {S E} (f : S -> S) : M S E unit := fun s => Ok tt (f s).

Declare Scope frame_scope.
Delimit Scope frame_scope with frame.

Notation "'let!' x := m 'in' k" := (bind m (fun x => k))
  (at level 10, x binder, m at level 100, k at level 200) : frame_scope.
Notation "m ;; k" := (bind m (fun _ => k))
  (at level 100, k at level 200, right associativity) : frame_scope.

Open Scope frame_scope.

(** [ensure!(b, e)] *)
Definition ensure {S E} (b : bool) (e : E) : M S E unit :=
  if b then ret tt else fail e.

(** [o.ok_or(e)?] *)
Definition ok_or {S E A} (o : option A) (e : E) : M S E A :=
  match o with Some a => ret a | None => fail e end.

(** [o.unwrap()] *)
Definition unwrap {S E A} (o : option A) : M S E A :=
  match o with Some a => ret a | None => panic end.

(** [assert!(b)] *)
Definition assert {S E} (b : bool) : M S E unit := if b then ret tt else panic.

(** [debug_assert!(b)] *)
Definition debug_assert {P : Profile} {S E} (b : bool) : M S E unit :=
  if debug_assertions && negb b then panic else ret tt.

(** [m.map_err(f)] *)
Definition map_err {S E F A} (f : E -> F) (m : M S E A) : M S F A :=
  fun s =>
    match m s with
    | Ok a s' => Ok a s'
    | Err e s' => Err (f e) s'
    | Panic => Panic
    end.

(** [m?] where an error runs [h] on its way out. *)
Definition on_err {S E A} (m : M S E A) (h : M S E unit) : M S E A :=
  fun s =>
    match m s with
    | Ok a s' => Ok a s'
    | Err e s' =>
        match h s' with
        | Ok _ s'' | Err _ s'' => Err e s''
        | Panic => Panic
        end
    | Panic => Panic
    end.

(** [match m { Ok(a) => a, Err(_) => h }] *)
Definition or_else {S E A} (m : M S E A) (h : M S E A) : M S E A :=
  fun s =>
    match m s with
    | Ok a s' => Ok a s'
    | Err _ s' => h s'
    | Panic => Panic
    end.

(** [m.ok()], where the caller goes on after an error. *)
Definition attempt {S E A} (m : M S E A) : M S E (option A) :=
  or_else (let! a := m in ret (Some a)) (ret None).

(** The [Result] of [m], as a value. *)
Definition result_of {S E A} (m : M S E A) : M S E (A + E) :=
  fun s =>
    match m s with
    | Ok a s' => Ok (inl a) s'
    | Err e s' => Ok (inr e) s'
    | Panic => Panic
    end.

(** A call into another pallet: [m] runs on the part of the state that
    [get] reads and [put] writes. *)
Definition zoom {S T E A} (get : S -> T) (put : T -> S -> S) (m : M T E A) : M S E A :=
  fun s =>
    match m (get s) with
    | Ok a t => Ok a (put t s)
    | Err e t => Err e (put t s)
    | Panic => Panic
    end.

(** [for x in l { body }] *)
Fixpoint for_each {S E A} (l : list A) (body : A -> M S E unit) : M S E unit :=
  match l with
  | [] => ret tt
  | x :: l' => body x ;; for_each l' body
  end.

(** Rust's drop glue: what leaving the scope of a value of type [A] does.  The
    components of a tuple are dropped in order; plain data does nothing. *)
Class Drop (S E A : Type) := drop_glue : A -> M S E unit.

#[export] Instance Drop_unit S E : Drop S E unit := ret.
#[export] Instance Drop_Z S E : Drop S E Z := fun _ => ret tt.
#[export] Instance Drop_option S E A `{!Drop S E A} : Drop S E (option A) :=
  fun o => match o with Some a => drop_glue a | None => ret tt end.
#[export] Instance Drop_prod S E A B `{!Drop S E A, !Drop S E B} : Drop S E (A * B) :=
  fun p => drop_glue p.1 ;; drop_glue p.2.

(* ===================================================================== *)
(** ** Machine integers

    An unsigned integer of [w] values is a [Z] in [0, w). *)
Open Scope Z_scope.

Definition U8 : Z := 2 ^ 8.
Definition U16 : Z := 2 ^ 16.
Definition U32 : Z := 2 ^ 32.
Definition U64 : Z := 2 ^ 64.
Definition U128 : Z := 2 ^ 128.

Definition in_range (w a : Z) : Prop := 0 <= a < w.

Definition checked_add (w a b : Z) : option Z := if a + b <? w then Some (a + b) else None.
Definition checked_sub (a b : Z) : option Z := if b <=? a then Some (a - b) else None.
Definition saturating_add (w a b : Z) : Z := Z.min (a + b) (w - 1).
Definition saturating_sub (a b : Z) : Z := Z.max 0 (a - b).
Definition saturating_mul (w a b : Z) : Z := Z.min (a * b) (w - 1).

(** The result [r] of a plain operator at width [w]. *)
Definition arith {P : Profile} {S E} (w r : Z) : M S E Z :=
  if (0 <=? r) && (r <? w) then ret r
  else if overflow_checks then panic else ret (r mod w).

Definition add {P : Profile} {S E} (w a b : Z) : M S E Z := arith w (a + b).
Definition sub {P : Profile} {S E} (w a b : Z) : M S E Z := arith w (a - b).
Definition mul {P : Profile} {S E} (w a b : Z) : M S E Z := arith w (a * b).

(** [n as uN] *)
Definition cast (w n : Z) : Z := n mod w.

(* ===================================================================== *)
(** ** Accounts, hashes, bytes

    [AccountId32] and [H256] are 32-byte arrays; they are modelled by the
    number the bytes spell big-endian, so that [Ord] on arrays, which is
    lexicographic, is [N.le]. *)
Abbreviation AccountId := N.
Abbreviation Hash := N.
Abbreviation bytes := (list Byte.byte).

#[export] Instance byte_eq_dec : EqDecision Byte.byte := Byte.byte_eq_dec.
#[export] Program Instance byte_countable : Countable Byte.byte :=
  inj_countable Byte.to_N Byte.of_N _.
Next Obligation. exact Byte.of_to_N. Qed.

Definition bytes_of_string (s : string) : bytes := String.list_byte_of_string s.

(** [x as u8] *)
Definition byte_of (x : Z) : Byte.byte := default Byte.x00 (Byte.of_N (Z.to_N (x mod 256))).

Lemma byte_of_to x : Z.of_N (Byte.to_N (byte_of x)) = x mod 256.
Proof.
  unfold byte_of. pose proof (Z.mod_pos_bound x 256 ltac:(lia)) as Hx.
  destruct (Byte.of_N (Z.to_N (x mod 256))) as [b|] eqn:Hb; simpl.
  - apply Byte.to_of_N in Hb. rewrite Hb. lia.
  - apply Byte.of_N_None_iff in Hb. lia.
Qed.

(* ===================================================================== *)
(** ** Vectors *)

(** [v.contains(&x)] *)
Definition contains {A} `{EqDecision A} (x : A) (v : list A) : bool := bool_decide (x ∈ v).

(** [v.iter().position(p)] *)
Fixpoint position {A} (p : A -> bool) (v : list A) : option nat :=
  match v with
  | [] => None
  | x :: v' => if p x then Some 0%nat else S <$> position p v'
  end.

(** [v.swap_remove(i)], the vector after it; [None] where Rust panics *)
Definition swap_remove {A} (i : nat) (v : list A) : option (list A) :=
  match v !! i, last v with
  | Some _, Some z => Some (take (length v - 1) (<[i := z]> v))
  | _, _ => None
  end.

(** [v.retain(p)] *)
Fixpoint retain {A} (p : A -> bool) (v : list A) : list A :=
  match v with
  | [] => []
  | x :: v' => if p x then x :: retain p v' else retain p v'
  end.

(** [BoundedVec::try_push], [None] for [Err(())] *)
Definition try_push {A} (bound : Z) (v : list A) (x : A) : option (list A) :=
  if Z.of_nat (length v) <? bound then Some (v ++ [x]) else None.

(** [BoundedVec::try_insert], [None] for [Err(())]; the callers pass an index
    that is at most the length. *)
Definition try_insert {A} (bound : Z) (i : nat) (x : A) (v : list A) : option (list A) :=
  if Z.of_nat (length v) <? bound then Some (take i v ++ x :: drop i v) else None.

(** [v.binary_search_by(cmp)]: [inl i] for [Ok(i)], [inr i] for [Err(i)].  The
    loop of the standard library; [length v] iterations are enough because the
    window shrinks in each. *)
Fixpoint binary_search_loop {A} (cmp : A -> comparison) (v : list A) (fuel left size right : nat) : nat + nat :=
  match fuel with
  | O => inr left
  | S fuel =>
      if (left <? right)%nat then
        let mid := (left + size / 2)%nat in
        match v !! mid with
        | None => inr left
        | Some x =>
            match cmp x with
            | Lt => binary_search_loop cmp v fuel (mid + 1) (right - (mid + 1)) right
            | Gt => binary_search_loop cmp v fuel left (mid - left) mid
            | Eq => inl mid
            end
        end
      else inr left
  end.
Definition binary_search_by {A} (cmp : A -> comparison) (v : list A) : nat + nat :=
  binary_search_loop cmp v (S (length v)) 0 (length v) (length v).

(** The same with a comparison that may panic. *)
Fixpoint search_loop {S E A} (cmp : A -> M S E comparison) (v : list A) (fuel left size right : nat) : M S E (nat + nat) :=
  match fuel with
  | O => ret (inr left)
  | S fuel =>
      if (left <? right)%nat then
        let mid := (left + size / 2)%nat in
        match v !! mid with
        | None => ret (inr left)
        | Some x =>
            let! c := cmp x in
            match c with
            | Lt => search_loop cmp v fuel (mid + 1) (right - (mid + 1)) right
            | Gt => search_loop cmp v fuel left (mid - left) mid
            | Eq => ret (inl mid)
            end
        end
      else ret (inr left)
  end.

Definition search_by {S E A} (cmp : A -> M S E comparison) (v : list A) : M S E (nat + nat) :=
  search_loop cmp v (Datatypes.S (length v)) 0 (length v) (length v).

(** [v.binary_search_by_key(id, key)] *)
Definition binary_search_by_key {A} (key : A -> N) (id : N) (v : list A) : nat + nat :=
  binary_search_by (fun x => key x ?= id)%N v.

(** The number of occurrences of [x] in [v]. *)
Definition count {A} `{EqDecision A} (x : A) (v : list A) : nat :=
  length (retain (fun y => bool_decide (y = x)) v).

(** [v.sort()] on account ids *)
Definition sort_accounts (v : list AccountId) : list AccountId := merge_sort N.le v.

(** The keys of a [BTreeMap] in the order of its iterator. *)
Definition btree_keys {V} (m : gmap AccountId V) : list AccountId :=
  sort_accounts (map_to_list m).*1.

Section Vectors.
Context {A : Type} `{EqDecision A}.
Implicit Types (x y : A) (v : list A).

Lemma contains_true x v : contains x v = true <-> x ∈ v.
Proof. unfold contains. by rewrite bool_decide_eq_true. Qed.

Lemma contains_false x v : contains x v = false <-> x ∉ v.
Proof. unfold contains. by rewrite bool_decide_eq_false. Qed.

Lemma position_Some (p : A -> bool) v i :
  position p v = Some i -> exists x, v !! i = Some x /\ p x = true.
Proof.
  revert i. induction v as [|y v IH]; intros i; simpl; [done|].
  destruct (p y) eqn:Hp; [intros [= <-]; eauto|].
  destruct (position p v) as [j|]; simpl; [|done].
  intros [= <-]. simpl. by apply IH.
Qed.

Lemma position_None (p : A -> bool) v :
  position p v = None -> forall x, x ∈ v -> p x = false.
Proof.
  induction v as [|y v IH]; simpl; intros Hp x Hx; [set_solver|].
  destruct (p y) eqn:Hy; [done|].
  destruct (position p v) eqn:Hv; [done|].
  apply elem_of_cons in Hx as [->|Hx]; [done|]. by apply IH.
Qed.

(** The vector [swap_remove] leaves is the old one without the element at
    [i], up to order. *)
Lemma swap_remove_perm i v x v' :
  v !! i = Some x -> swap_remove i v = Some v' -> v ≡ₚ x :: v'.
Proof.
  intros Hi. unfold swap_remove. rewrite Hi.
  destruct (last v) as [z|] eqn:Hl; [|done]. intros [= <-].
  apply last_Some in Hl as [w ->].
  rewrite length_app, Nat.add_sub.
  destruct (decide (i < length w)%nat) as [Hlt|Hge].
  - rewrite lookup_app_l in Hi by done.
    rewrite insert_app_l by done.
    rewrite take_app_length' by (by rewrite length_insert).
    rewrite <- (take_drop_middle w i x Hi) at 1.
    rewrite insert_take_drop by done. solve_Permutation.
  - assert (i = length w) as ->.
    { apply lookup_lt_Some in Hi. rewrite length_app in Hi. simpl in Hi. lia. }
    rewrite lookup_app_r, Nat.sub_diag in Hi by lia. simpl in Hi. simplify_eq.
    rewrite insert_app_r_alt, Nat.sub_diag by lia. simpl.
    rewrite take_app_length. solve_Permutation.
Qed.

Lemma swap_remove_is_Some i v x : v !! i = Some x -> is_Some (swap_remove i v).
Proof.
  intros Hi. unfold swap_remove. rewrite Hi.
  destruct (last v) eqn:Hl; [by eexists|].
  apply last_None in Hl as ->. by rewrite lookup_nil in Hi.
Qed.

Lemma elem_of_retain (p : A -> bool) v x : x ∈ retain p v <-> x ∈ v /\ p x = true.
Proof.
  induction v as [|y v IH]; simpl; [set_solver|].
  destruct (p y) eqn:Hp; rewrite ?elem_of_cons, ?IH; naive_solver congruence.
Qed.

Lemma retain_Permutation (p : A -> bool) v w : v ≡ₚ w -> retain p v ≡ₚ retain p w.
Proof.
  induction 1 as [|z ?? _ IH|z1 z2 ?|]; simpl.
  - done.
  - destruct (p z); [by constructor|done].
  - destruct (p z1), (p z2); try done. by constructor.
  - by etrans.
Qed.

Lemma length_retain (p : A -> bool) v : (length (retain p v) <= length v)%nat.
Proof. induction v as [|y v IH]; simpl; [done|]. destruct (p y); simpl; lia. Qed.

Lemma retain_sublist (p : A -> bool) v : retain p v `sublist_of` v.
Proof. induction v as [|y v IH]; simpl; [done|]. destruct (p y); by constructor. Qed.

Lemma count_Permutation x v w : v ≡ₚ w -> count x v = count x w.
Proof. intros Hp. unfold count. by rewrite (retain_Permutation _ _ _ Hp). Qed.

Lemma count_cons x y v :
  count x (y :: v) = ((if decide (y = x) then 1 else 0) + count x v)%nat.
Proof. unfold count. simpl. by repeat case_decide || case_bool_decide. Qed.

Lemma count_app x v w : count x (v ++ w) = (count x v + count x w)%nat.
Proof.
  induction v as [|y v IH]; [done|].
  simpl. rewrite !count_cons, IH. lia.
Qed.

Lemma count_zero x v : count x v = 0%nat <-> x ∉ v.
Proof.
  induction v as [|y v IH]; [set_solver|].
  rewrite count_cons, not_elem_of_cons, <- IH. case_decide; naive_solver lia.
Qed.

Lemma count_pos x v : (0 < count x v)%nat <-> x ∈ v.
Proof.
  pose proof (count_zero x v) as Hz. destruct (decide (x ∈ v)) as [Hx|Hx].
  - split; [done|]. intros _. destruct (count x v); [tauto|lia].
  - apply Hz in Hx as Hx'. rewrite Hx'. split; [lia|done].
Qed.

Lemma count_NoDup x v : NoDup v -> (count x v <= 1)%nat.
Proof.
  induction 1 as [|y v Hy _ IH]; [by vm_compute; lia|].
  rewrite count_cons. case_decide as Heq; [|lia].
  subst. apply count_zero in Hy. lia.
Qed.
End Vectors.

(* ===================================================================== *)
(** ** Sums over the values of a storage map *)
Section MapSum.
Context {K : Type} `{Countable K} {V : Type}.
Implicit Types (f : V -> Z) (m : gmap K V).

Definition map_sum f m : Z := map_fold (fun _ v acc => f v + acc) 0 m.

Lemma map_sum_empty f : map_sum f ∅ = 0.
Proof. apply map_fold_empty. Qed.

Lemma map_sum_insert_new f m k v :
  m !! k = None -> map_sum f (<[k := v]> m) = f v + map_sum f m.
Proof.
  intros Hk. unfold map_sum. rewrite map_fold_insert_L; [done| |done].
  intros; lia.
Qed.

Lemma map_sum_delete f m k v :
  m !! k = Some v -> map_sum f (delete k m) = map_sum f m - f v.
Proof.
  intros Hk. rewrite <- (insert_delete_id m k v Hk) at 2.
  rewrite map_sum_insert_new by apply lookup_delete_eq. lia.
Qed.

(** What the entry under [k] adds to the sum. *)
Definition sum_at f m k : Z := match m !! k with Some v => f v | None => 0 end.

Lemma map_sum_insert f m k v :
  map_sum f (<[k := v]> m) = map_sum f m - sum_at f m k + f v.
Proof.
  unfold sum_at. destruct (m !! k) as [v'|] eqn:Hk.
  - rewrite <- insert_delete_eq, map_sum_insert_new by apply lookup_delete_eq.
    rewrite (map_sum_delete _ _ _ _ Hk). lia.
  - rewrite map_sum_insert_new by done. lia.
Qed.

Lemma map_sum_delete_any f m k : map_sum f (delete k m) = map_sum f m - sum_at f m k.
Proof.
  unfold sum_at. destruct (m !! k) as [v'|] eqn:Hk.
  - by apply map_sum_delete.
  - rewrite delete_id by done. lia.
Qed.

Lemma map_sum_nonneg f m :
  (forall k v, m !! k = Some v -> 0 <= f v) -> 0 <= map_sum f m.
Proof.
  induction m as [|k v m Hk IH] using map_ind; intros Hf; [by rewrite map_sum_empty|].
  rewrite map_sum_insert_new by done.
  assert (0 <= f v) by (apply (Hf k), lookup_insert_eq).
  assert (0 <= map_sum f m); [|lia].
  apply IH. intros k' v' Hk'. apply (Hf k').
  rewrite lookup_insert_ne; [done|]. intros ->. congruence.
Qed.

Lemma sum_at_le f m k :
  (forall k v, m !! k = Some v -> 0 <= f v) -> sum_at f m k <= map_sum f m.
Proof.
  intros Hf. pose proof (map_sum_delete_any f m k) as Hd.
  assert (0 <= map_sum f (delete k m)); [|lia].
  apply map_sum_nonneg. intros k' v' [_ Hk']%lookup_delete_Some. eauto.
Qed.

(** Two different entries together. *)
Lemma sum_at_le_2 f m k1 k2 :
  k1 <> k2 -> (forall k v, m !! k = Some v -> 0 <= f v) ->
  sum_at f m k1 + sum_at f m k2 <= map_sum f m.
Proof.
  intros Hne Hf. pose proof (map_sum_delete_any f m k1) as Hd.
  assert (sum_at f (delete k1 m) k2 = sum_at f m k2) as He.
  { unfold sum_at. by rewrite lookup_delete_ne. }
  assert (sum_at f (delete k1 m) k2 <= map_sum f (delete k1 m)); [|lia].
  apply sum_at_le. intros k' v' [_ Hk']%lookup_delete_Some. eauto.
Qed.

Lemma map_sum_ext f g m :
  (forall k v, m !! k = Some v -> f v = g v) -> map_sum f m = map_sum g m.
Proof.
  induction m as [|k v m Hk IH] using map_ind; intros Hf; [by rewrite !map_sum_empty|].
  rewrite !map_sum_insert_new by done.
  rewrite (Hf k v) by apply lookup_insert_eq. f_equal.
  apply IH. intros k' v' Hk'. apply (Hf k').
  rewrite lookup_insert_ne; [done|]. intros ->. congruence.
Qed.
End MapSum.

(** Two maps that differ at [k] only. *)
Lemma map_sum_change `{Countable K} {V} (f : V -> Z) (m m' : gmap K V) k :
  (forall j, j <> k -> m' !! j = m !! j) ->
  map_sum f m' = map_sum f m - sum_at f m k + sum_at f m' k.
Proof.
  intros Hm. assert (delete k m' = delete k m) as Hd.
  { apply map_eq. intros j. rewrite !lookup_delete. case_decide; [done|]. by apply Hm. }
  pose proof (map_sum_delete_any f m k). pose proof (map_sum_delete_any f m' k).
  rewrite Hd in *. lia.
Qed.

(** A write of an optional value: [None] removes the entry. *)
Definition put_opt `{Countable K} {V} (k : K) (v : option V) (m : gmap K V) : gmap K V :=
  match v with Some v => <[k := v]> m | None => delete k m end.

Lemma lookup_put_opt `{Countable K} {V} (k j : K) (v : option V) (m : gmap K V) :
  put_opt k v m !! j = if decide (j = k) then v else m !! j.
Proof.
  unfold put_opt. destruct v; case_decide; subst;
    by rewrite ?lookup_insert_eq, ?lookup_insert_ne, ?lookup_delete_eq, ?lookup_delete_ne.
Qed.

(** Sums that see the keys. *)
Section KeySum.
Context {K : Type} `{Countable K} {V : Type}.
Implicit Types (f g : K -> V -> Z) (m : gmap K V).

Definition key_sum f m : Z := map_fold (fun k v acc => f k v + acc) 0 m.

(** What an optional entry adds. *)
Definition opt_at f k (o : option V) : Z := match o with Some v => f k v | None => 0 end.

Lemma key_sum_empty f : key_sum f ∅ = 0.
Proof. apply map_fold_empty. Qed.

Lemma key_sum_insert_new f m k v : m !! k = None -> key_sum f (<[k := v]> m) = f k v + key_sum f m.
Proof. intros Hk. unfold key_sum. rewrite map_fold_insert_L; [done| |done]. intros; lia. Qed.

Lemma key_sum_delete f m k : key_sum f (delete k m) = key_sum f m - opt_at f k (m !! k).
Proof.
  destruct (m !! k) as [v|] eqn:Hk; simpl; [|rewrite delete_id by done; lia].
  rewrite <- (insert_delete_id m k v Hk) at 2. rewrite key_sum_insert_new by apply lookup_delete_eq. lia.
Qed.

Lemma key_sum_put f m k o : key_sum f (put_opt k o m) = key_sum f m - opt_at f k (m !! k) + opt_at f k o.
Proof.
  destruct o as [v|]; simpl; [|rewrite key_sum_delete; lia].
  rewrite <- insert_delete_eq, key_sum_insert_new, key_sum_delete by apply lookup_delete_eq. lia.
Qed.

Lemma key_sum_ext f g m : (forall k v, m !! k = Some v -> f k v = g k v) -> key_sum f m = key_sum g m.
Proof.
  induction m as [|k v m Hk IH] using map_ind; intros Hf; [by rewrite !key_sum_empty|].
  rewrite !key_sum_insert_new by done. rewrite (Hf k v) by apply lookup_insert_eq. f_equal.
  apply IH. intros k' v' Hk'. apply Hf. rewrite lookup_insert_ne; [done|]. intros ->. congruence.
Qed.

Lemma key_sum_le f g m : (forall k v, m !! k = Some v -> f k v <= g k v) -> key_sum f m <= key_sum g m.
Proof.
  induction m as [|k v m Hk IH] using map_ind; intros Hf; [by rewrite !key_sum_empty|].
  rewrite !key_sum_insert_new by done. pose proof (Hf k v (lookup_insert_eq _ _ _)).
  assert (key_sum f m <= key_sum g m); [|lia].
  apply IH. intros k' v' Hk'. apply Hf. rewrite lookup_insert_ne; [done|]. intros ->. congruence.
Qed.

Lemma key_sum_zero m : key_sum (fun _ _ => 0) m = 0.
Proof.
  induction m as [|k v m Hk IH] using map_ind; [apply key_sum_empty|]. rewrite key_sum_insert_new by done. lia.
Qed.

Lemma key_sum_nonneg f m : (forall k v, m !! k = Some v -> 0 <= f k v) -> 0 <= key_sum f m.
Proof. intros Hf. rewrite <- (key_sum_zero m). by apply key_sum_le. Qed.

Lemma opt_at_le f m k : (forall k v, m !! k = Some v -> 0 <= f k v) -> opt_at f k (m !! k) <= key_sum f m.
Proof.
  intros Hf. pose proof (key_sum_delete f m k) as Hd.
  assert (0 <= key_sum f (delete k m)); [|lia].
  apply key_sum_nonneg. intros k' v' [_ Hk']%lookup_delete_Some. eauto.
Qed.
End KeySum.

Lemma map_size_pos `{Countable K} {V} (m : gmap K V) k v :
  m !! k = Some v -> base.size m <> 0%nat.
Proof. intros Hk He%map_size_empty_inv. subst. by rewrite lookup_empty in Hk. Qed.

(* --------------------------------------------------------------------- *)
(** *** Binary search *)
Section SearchBy.
Context {A : Type} (cmp : A -> comparison).
Implicit Types (v : list A).

(** The elements before, at and after the place that is searched. *)
Definition partitioned v : Prop :=
  forall i j x y, (i < j)%nat -> v !! i = Some x -> v !! j = Some y ->
    (cmp y = Lt -> cmp x = Lt) /\ (cmp x = Gt -> cmp y = Gt).

(** What an answer of the search means. *)
Definition found_by v (r : nat + nat) : Prop :=
  match r with
  | inl i => exists x, v !! i = Some x /\ cmp x = Eq
  | inr i => (i <= length v)%nat /\
      (forall j x, v !! j = Some x -> (j < i)%nat -> cmp x = Lt) /\
      (forall j x, v !! j = Some x -> (i <= j)%nat -> cmp x = Gt)
  end.

(** The fuel of the loop is the width of the window and one. *)
Lemma binary_search_loop_ok v fuel l r :
  partitioned v -> (l <= r <= length v)%nat -> (r - l < fuel)%nat ->
  (forall j x, v !! j = Some x -> (j < l)%nat -> cmp x = Lt) ->
  (forall j x, v !! j = Some x -> (r <= j)%nat -> cmp x = Gt) ->
  found_by v (binary_search_loop cmp v fuel l (r - l) r).
Proof.
  intros Hs. revert l r. induction fuel as [|fuel IH]; intros l r Hlr Hf Hl Hr; [lia|]. cbn [binary_search_loop].
  destruct (Nat.ltb_spec l r) as [Hlt|Hge].
  2:{ assert (l = r) as -> by lia. by split; [lia|]. }
  set (mid := (l + (r - l) / 2)%nat).
  assert (l <= mid < r)%nat as Hmid.
  { unfold mid. pose proof (Nat.div_lt (r - l) 2). lia. }
  destruct (v !! mid) as [x|] eqn:Hx; [|apply lookup_ge_None in Hx; lia].
  destruct (cmp x) eqn:Hc.
  - simpl. eauto.
  - apply IH; [lia|lia| |done]. intros j y Hy Hj.
    destruct (decide (j = mid)) as [->|]; [naive_solver|]. by apply (Hs j mid y x ltac:(lia) Hy Hx).
  - apply IH; [lia|lia|done|]. intros j y Hy Hj.
    destruct (decide (j = mid)) as [->|]; [naive_solver|]. by apply (Hs mid j x y ltac:(lia) Hx Hy).
Qed.

Lemma binary_search_by_ok v : partitioned v -> found_by v (binary_search_by cmp v).
Proof.
  intros Hs. unfold binary_search_by. pose proof (binary_search_loop_ok v (S (length v)) 0 (length v)) as H.
  rewrite Nat.sub_0_r in H. apply H; [done|lia|lia|intros; lia|].
  intros j x Hj Hge. apply lookup_lt_Some in Hj. lia.
Qed.

(** A comparison that never panics. *)
Lemma search_by_eq {S E} (cmp' : A -> M S E comparison) v :
  (forall x, x ∈ v -> cmp' x = ret (cmp x)) -> search_by cmp' v = ret (binary_search_by cmp v).
Proof.
  intros Hc. unfold search_by, binary_search_by.
  enough (forall fuel l size r, search_loop cmp' v fuel l size r = ret (binary_search_loop cmp v fuel l size r)) by done.
  induction fuel as [|fuel IH]; intros l size r; simpl; [done|].
  destruct (l <? r)%nat; [|done]. destruct (v !! _) as [x|] eqn:Hx; [|done].
  rewrite Hc by (by eapply list_elem_of_lookup_2). destruct (cmp x) eqn:He; unfold bind, ret; rewrite ?He; [done|..]; apply IH.
Qed.
End SearchBy.

Section Search.
Context {A : Type} (key : A -> N).
Implicit Types (v : list A) (id : N).

Definition nondecreasing v : Prop :=
  forall i j x y, (i < j)%nat -> v !! i = Some x -> v !! j = Some y -> (key x <= key y)%N.

Definition search_ok id v (r : nat + nat) : Prop :=
  match r with
  | inl i => exists x, v !! i = Some x /\ key x = id
  | inr i => (i <= length v)%nat /\
      (forall j x, v !! j = Some x -> (j < i)%nat -> (key x < id)%N) /\
      (forall j x, v !! j = Some x -> (i <= j)%nat -> (id < key x)%N)
  end.

Lemma binary_search_weak id v : nondecreasing v -> search_ok id v (binary_search_by_key key id v).
Proof.
  intros Hs. assert (partitioned (fun x => key x ?= id)%N v) as Hp.
  { intros i j x y Hij Hx Hy. pose proof (Hs i j x y Hij Hx Hy).
    rewrite !N.compare_lt_iff, !N.compare_gt_iff. lia. }
  apply binary_search_by_ok in Hp. unfold binary_search_by_key. destruct (binary_search_by _ v) as [i|i]; simpl in *.
  - destruct Hp as (x & Hx & Heq%N.compare_eq_iff). eauto.
  - destruct Hp as (Hi & Hlt & Hgt). split_and!; [done|..].
    + intros j x Hj Hji. apply N.compare_lt_iff. exact (Hlt j x Hj Hji).
    + intros j x Hj Hji. apply N.compare_gt_iff. exact (Hgt j x Hj Hji).
Qed.
End Search.

(* ===================================================================== *)
(** ** Weakest preconditions

    [wp m Q R s]: from [s], [m] does not panic; it ends in a result [a] and a
    state that satisfy [Q], or in an error and a state that satisfy [R]. *)
Definition wp {S E A} (m : M S E A) (Q : A -> S -> Prop) (R : E -> S -> Prop) (s : S) : Prop :=
  match m s with
  | Ok a s' => Q a s'
  | Err e s' => R e s'
  | Panic => False
  end.

(** [m] keeps [I], on both exits, and never panics. *)
Definition safe {S E A} (I : S -> Prop) (m : M S E A) : Prop :=
  forall s, I s -> wp m (fun _ => I) (fun _ => I) s.

Section WP.
Context {S E A B : Type}.
Implicit Types (s : S).

Lemma wp_bind (m : M S E A) (k : A -> M S E B) Q R s :
  wp m (fun a => wp (k a) Q R) R s -> wp (bind m k) Q R s.
Proof. unfold wp, bind. by destruct (m s). Qed.

Lemma wp_mono (m : M S E A) (Q Q' : A -> S -> Prop) (R R' : E -> S -> Prop) s :
  wp m Q R s -> (forall a t, Q a t -> Q' a t) -> (forall e t, R e t -> R' e t) ->
  wp m Q' R' s.
Proof. unfold wp. destruct (m s); naive_solver. Qed.

(** What is already known of [m] may be assumed of its exits. *)
Lemma wp_use (m : M S E A) (Q Q' : A -> S -> Prop) (R R' : E -> S -> Prop) s :
  wp m Q R s -> wp m (fun a t => Q a t -> Q' a t) (fun e t => R e t -> R' e t) s -> wp m Q' R' s.
Proof. unfold wp. destruct (m s); naive_solver. Qed.

Lemma wp_ret (a : A) (Q : A -> S -> Prop) (R : E -> S -> Prop) s :
  Q a s -> wp (ret a) Q R s.
Proof. done. Qed.

Lemma wp_fail (e : E) (Q : A -> S -> Prop) (R : E -> S -> Prop) s :
  R e s -> wp (fail e) Q R s.
Proof. done. Qed.

Lemma wp_gets (f : S -> A) (Q : A -> S -> Prop) (R : E -> S -> Prop) s :
  Q (f s) s -> wp (gets f) Q R s.
Proof. done. Qed.

Lemma wp_modify (f : S -> S) (Q : unit -> S -> Prop) (R : E -> S -> Prop) s :
  Q tt (f s) -> wp (modify f) Q R s.
Proof. done. Qed.

Lemma wp_ensure b (e : E) (Q : unit -> S -> Prop) R s :
  (b = true -> Q tt s) -> (b = false -> R e s) -> wp (ensure b e) Q R s.
Proof. destruct b; naive_solver. Qed.

Lemma wp_ok_or (o : option A) (e : E) (Q : A -> S -> Prop) R s :
  (forall a, o = Some a -> Q a s) -> (o = None -> R e s) -> wp (ok_or o e) Q R s.
Proof. destruct o; naive_solver. Qed.

Lemma wp_unwrap (o : option A) (Q : A -> S -> Prop) (R : E -> S -> Prop) s a :
  o = Some a -> Q a s -> wp (unwrap o) Q R s.
Proof. by intros ->. Qed.

Lemma wp_assert b (Q : unit -> S -> Prop) (R : E -> S -> Prop) s :
  b = true -> Q tt s -> wp (assert b) Q R s.
Proof. by intros ->. Qed.

Lemma wp_debug_assert {P : Profile} b (Q : unit -> S -> Prop) (R : E -> S -> Prop) s :
  b = true -> Q tt s -> wp (debug_assert b) Q R s.
Proof. intros ->. unfold debug_assert. by rewrite andb_false_r. Qed.

Lemma wp_map_err {F} (f : E -> F) (m : M S E A) Q (R : F -> S -> Prop) s :
  wp m Q (fun e => R (f e)) s -> wp (map_err f m) Q R s.
Proof. unfold wp, map_err. by destruct (m s). Qed.

Lemma wp_on_err (m : M S E A) h Q R s :
  wp m Q (fun e => wp h (fun _ => R e) (fun _ => R e)) s -> wp (on_err m h) Q R s.
Proof. unfold wp, on_err. destruct (m s) as [| ? t|]; [done| |done]. by destruct (h t). Qed.

Lemma wp_or_else (m h : M S E A) Q R s :
  wp m Q (fun _ => wp h Q R) s -> wp (or_else m h) Q R s.
Proof. unfold wp, or_else. by destruct (m s). Qed.

Lemma wp_zoom {T} (get : S -> T) put (m : M T E A) (Q : A -> S -> Prop) R s :
  wp m (fun a t => Q a (put t s)) (fun e t => R e (put t s)) (get s) ->
  wp (zoom get put m) Q R s.
Proof. unfold wp, zoom. by destruct (m (get s)). Qed.

(** A plain operator whose exact result fits its width. *)
Lemma wp_arith {P : Profile} w r (Q : Z -> S -> Prop) (R : E -> S -> Prop) s :
  0 <= r < w -> Q r s -> wp (arith w r) Q R s.
Proof.
  intros Hr HQ. unfold arith.
  replace ((0 <=? r) && (r <? w)) with true; [done|].
  symmetry. apply andb_true_intro. split; lia.
Qed.
End WP.

#[global] Arguments wp : simpl never.

(** A loop, with an invariant on the elements still to come. *)
Lemma wp_for_each {S E X} (I : list X -> S -> Prop) (body : X -> M S E unit) l R s :
  I l s ->
  (forall x l' t, I (x :: l') t -> wp (body x) (fun _ => I l') R t) ->
  wp (for_each l body) (fun _ => I []) R s.
Proof.
  revert s. induction l as [|x l IH]; intros s HI Hb; [done|].
  simpl. apply wp_bind. eapply wp_mono; [by apply Hb| |done].
  intros ? t Ht. by apply IH.
Qed.


Section SafeRules.
Context {S E : Type} (I : S -> Prop).

Lemma safe_bind {A B} (m : M S E A) (k : A -> M S E B) :
  safe I m -> (forall a, safe I (k a)) -> safe I (bind m k).
Proof.
  intros Hm Hk s Hs. apply wp_bind. eapply wp_mono; [by apply Hm| |done].
  intros a t Ht. by apply Hk.
Qed.

Lemma safe_ret {A} (a : A) : safe (E := E) I (ret a).
Proof. by intros s Hs. Qed.

Lemma safe_fail {A} (e : E) : safe (A := A) I (fail e).
Proof. by intros s Hs. Qed.

Lemma safe_gets {A} (f : S -> A) : safe (E := E) I (gets f).
Proof. by intros s Hs. Qed.

Lemma safe_ensure b (e : E) : safe I (ensure b e).
Proof. intros s Hs. by apply wp_ensure. Qed.

Lemma safe_ok_or {A} (o : option A) (e : E) : safe I (ok_or o e).
Proof. intros s Hs. by apply wp_ok_or. Qed.

Lemma safe_modify (f : S -> S) : (forall s, I s -> I (f s)) -> safe (E := E) I (modify f).
Proof. intros Hf s Hs. apply wp_modify, Hf, Hs. Qed.

Lemma safe_map_err {A F} (f : E -> F) (m : M S E A) : safe I m -> safe I (map_err f m).
Proof. intros Hm s Hs. by apply wp_map_err, Hm. Qed.
End SafeRules.

#[export] Hint Resolve safe_ret safe_fail safe_gets safe_ensure safe_ok_or safe_map_err : frame.

(** One rule of the calculus, by the head of the program. *)
Ltac wp_step :=
  match goal with
  | |- wp (bind _ _) _ _ _ => apply wp_bind
  | |- wp (ret _) _ _ _ => apply wp_ret
  | |- wp (fail _) _ _ _ => apply wp_fail
  | |- wp (gets _) _ _ _ => apply wp_gets
  | |- wp (modify _) _ _ _ => apply wp_modify
  | |- wp (ensure _ _) _ _ _ => apply wp_ensure; intros ?
  | |- wp (ok_or _ _) _ _ _ => apply wp_ok_or; intros
  | |- wp (map_err _ _) _ _ _ => apply wp_map_err
  | |- wp (on_err _ _) _ _ _ => apply wp_on_err
  | |- wp (or_else _ _) _ _ _ => apply wp_or_else
  | |- wp (zoom _ _ _) _ _ _ => apply wp_zoom
  end.
Ltac wp_steps := repeat (wp_step; cbv beta).

(* --------------------------------------------------------------------- *)
(** *** The liberal calculus

    [wlp m Q R s] allows [m] to panic, which discards the transaction. *)
Definition wlp {S E A} (m : M S E A) (Q : A -> S -> Prop) (R : E -> S -> Prop) (s : S) : Prop :=
  match m s with
  | Ok a s' => Q a s'
  | Err e s' => R e s'
  | Panic => True
  end.

Section WLP.
Context {S E A B : Type}.
Implicit Types (s : S).

Lemma wp_wlp (m : M S E A) Q R s : wp m Q R s -> wlp m Q R s.
Proof. unfold wp, wlp. by destruct (m s). Qed.

Lemma wlp_bind (m : M S E A) (k : A -> M S E B) Q R s :
  wlp m (fun a => wlp (k a) Q R) R s -> wlp (bind m k) Q R s.
Proof. unfold wlp, bind. by destruct (m s). Qed.

Lemma wlp_mono (m : M S E A) (Q Q' : A -> S -> Prop) (R R' : E -> S -> Prop) s :
  wlp m Q R s -> (forall a t, Q a t -> Q' a t) -> (forall e t, R e t -> R' e t) -> wlp m Q' R' s.
Proof. unfold wlp. destruct (m s); auto. Qed.

Lemma wlp_ensure b (e : E) (Q : unit -> S -> Prop) R s :
  (b = true -> Q tt s) -> (b = false -> R e s) -> wlp (ensure b e) Q R s.
Proof. destruct b; unfold wlp, ensure; simpl; auto. Qed.

Lemma wlp_ok_or (o : option A) (e : E) (Q : A -> S -> Prop) R s :
  (forall a, o = Some a -> Q a s) -> (o = None -> R e s) -> wlp (ok_or o e) Q R s.
Proof. destruct o; unfold wlp, ok_or; simpl; auto. Qed.

Lemma wlp_unwrap (o : option A) (Q : A -> S -> Prop) (R : E -> S -> Prop) s :
  (forall a, o = Some a -> Q a s) -> wlp (unwrap o) Q R s.
Proof. destruct o; unfold wlp, unwrap; simpl; auto. Qed.

Lemma wlp_zoom {T} (get : S -> T) put (m : M T E A) (Q : A -> S -> Prop) R s :
  wlp m (fun a t => Q a (put t s)) (fun e t => R e (put t s)) (get s) -> wlp (zoom get put m) Q R s.
Proof. unfold wlp, zoom. by destruct (m (get s)). Qed.

Lemma wlp_result_of (m : M S E A) (Q : A + E -> S -> Prop) (R : E -> S -> Prop) s :
  wlp m (fun a => Q (inl a)) (fun e => Q (inr e)) s -> wlp (result_of m) Q R s.
Proof. unfold wlp, result_of. by destruct (m s). Qed.

(** A plain operator returns some value of its type. *)
Lemma wlp_arith {P : Profile} w r (Q : Z -> S -> Prop) (R : E -> S -> Prop) s :
  0 < w -> (forall x, in_range w x -> Q x s) -> wlp (arith w r) Q R s.
Proof.
  intros Hw HQ. unfold wlp, arith. destruct ((0 <=? r) && (r <? w)) eqn:Hb; simpl.
  - apply andb_prop in Hb as [H1 H2]. apply HQ. unfold in_range. lia.
  - destruct overflow_checks; simpl; [done|]. by apply HQ, Z.mod_pos_bound.
Qed.
End WLP.

#[global] Arguments wlp : simpl never.

(** [m] keeps [I] unless it panics. *)
Definition keeps {S E A} (I : S -> Prop) (m : M S E A) : Prop :=
  forall s, I s -> wlp m (fun _ => I) (fun _ => I) s.

Ltac wlp_step :=
  match goal with
  | |- wlp (bind _ _) _ _ _ => apply wlp_bind
  | |- wlp (ret _) _ _ _ => apply wp_wlp, wp_ret
  | |- wlp (fail _) _ _ _ => apply wp_wlp, wp_fail
  | |- wlp (gets _) _ _ _ => apply wp_wlp, wp_gets
  | |- wlp (modify _) _ _ _ => apply wp_wlp, wp_modify
  | |- wlp (ensure _ _) _ _ _ => apply wlp_ensure; intros ?
  | |- wlp (ok_or _ _) _ _ _ => apply wlp_ok_or; intros
  | |- wlp (unwrap _) _ _ _ => apply wlp_unwrap; intros
  | |- wlp (add _ _ _) _ _ _ => apply wlp_arith; [done|intros]
  | |- wlp (sub _ _ _) _ _ _ => apply wlp_arith; [done|intros]
  | |- wlp (mul _ _ _) _ _ _ => apply wlp_arith; [done|intros]
  | |- wlp (zoom _ _ _) _ _ _ => apply wlp_zoom
  | |- wlp (result_of _) _ _ _ => apply wlp_result_of
  end.
Ltac wlp_steps := repeat (wlp_step; cbv beta).

(** Runs a program whose tests are decided by hypotheses of the context. *)
Ltac run_with H := unfold bind, ret, fail, gets, modify, ensure, ok_or, map_err; simpl; rewrite ?H; simpl.
