(* ===== verification/System.v ===== *)
(** * frame_system: origins, events and account references

    Models the part of [frame/system/src/lib.rs] the pallets call: the origin
    checks, the event log, the reference counters that decide when an account
    is created and reaped, and the [StoredMap] through which [pallet_balances]
    keeps its data inside the system account; and the dispatch errors of
    [primitives/runtime/src/lib.rs] with the token consequences of
    [frame/support/src/traits/tokens/misc.rs]. *)

From S2P Require Import Prelude.

(** Rust's [From] and [Default]. *)
Class From (A B : Type) := from : A -> B.
Class Default (A : Type) := default_value : A.
#[export] Instance Default_unit : Default unit := tt.

(* ===================================================================== *)
(** ** Dispatch errors *)

Inductive TokenError :=
| NoFunds
| WouldDie
| BelowMinimum
| CannotCreate
| UnknownAsset
| Frozen
| Unsupported.

Inductive ArithmeticError :=
| Underflow
| Overflow
| DivisionByZero.

(** [ME] is the pallets' error enum behind [Module { index, error }]. *)
Inductive DispatchError (ME : Type) :=
| Other
| CannotLookup
| BadOrigin
| Module_ (error : ME)
| ConsumerRemaining
| NoProviders
| Token (e : TokenError)
| Arithmetic (e : ArithmeticError).

Arguments Other {ME}.
Arguments CannotLookup {ME}.
Arguments BadOrigin {ME}.
Arguments Module_ {ME} error.
Arguments ConsumerRemaining {ME}.
Arguments NoProviders {ME}.
Arguments Token {ME} e.
Arguments Arithmetic {ME} e.

Inductive WithdrawConsequence :=
| W_NoFunds
| W_WouldDie
| W_UnknownAsset
| W_Underflow
| W_Overflow
| W_Frozen
| W_ReducedToZero (amount : Z)
| W_Success.

Definition withdraw_into_result {S ME} (c : WithdrawConsequence) : M S (DispatchError ME) Z :=
  match c with
  | W_NoFunds => fail (Token NoFunds)
  | W_WouldDie => fail (Token WouldDie)
  | W_UnknownAsset => fail (Token UnknownAsset)
  | W_Underflow => fail (Arithmetic Underflow)
  | W_Overflow => fail (Arithmetic Overflow)
  | W_Frozen => fail (Token Frozen)
  | W_ReducedToZero result => ret result
  | W_Success => ret 0
  end.

Inductive DepositConsequence :=
| D_BelowMinimum
| D_CannotCreate
| D_UnknownAsset
| D_Overflow
| D_Success.

Definition deposit_into_result {S ME} (c : DepositConsequence) : M S (DispatchError ME) unit :=
  match c with
  | D_BelowMinimum => fail (Token BelowMinimum)
  | D_CannotCreate => fail (Token CannotCreate)
  | D_UnknownAsset => fail (Token UnknownAsset)
  | D_Overflow => fail (Arithmetic Overflow)
  | D_Success => ret tt
  end.

Inductive ExistenceRequirement := KeepAlive | AllowDeath.

Inductive BalanceStatus := Status_Free | Status_Reserved.

#[export] Instance ExistenceRequirement_eq_dec : EqDecision ExistenceRequirement.
Proof. solve_decision. Defined.
#[export] Instance BalanceStatus_eq_dec : EqDecision BalanceStatus.
Proof. solve_decision. Defined.

(* ===================================================================== *)
(** ** Origins *)

Inductive RawOrigin :=
| Root
| Signed (who : AccountId)
| NoOrigin.

Definition ensure_signed {S ME} (o : RawOrigin) : M S (DispatchError ME) AccountId :=
  match o with Signed t => ret t | _ => fail BadOrigin end.

Definition ensure_root {S ME} (o : RawOrigin) : M S (DispatchError ME) unit :=
  match o with Root => ret tt | _ => fail BadOrigin end.

Definition ensure_none {S ME} (o : RawOrigin) : M S (DispatchError ME) unit :=
  match o with NoOrigin => ret tt | _ => fail BadOrigin end.

(* ===================================================================== *)
(** ** State *)

Record AccountInfo (AD : Type) := mkAccountInfo {
  nonce : Z;
  consumers : Z;
  providers : Z;
  sufficients : Z;
  data : AD
}.
Arguments mkAccountInfo {AD}.
Arguments nonce {AD}.
Arguments consumers {AD}.
Arguments providers {AD}.
Arguments sufficients {AD}.
Arguments data {AD}.

Inductive SystemEvent :=
| NewAccount (who : AccountId)
| KilledAccount (who : AccountId).

Inductive IncRefStatus := Created | Existed.
Inductive DecRefStatus := Reaped | Exists_.

(** The storage items of frame_system the pallets reach.  [Account] is a
    [ValueQuery] map: an absent entry reads as the default. *)
Record SystemState (AD Ev : Type) := mkSystem {
  Account : gmap AccountId (AccountInfo AD);
  Number : Z;
  EventCount : Z;
  Events : list Ev
}.
Arguments mkSystem {AD Ev}.
Arguments Account {AD Ev}.
Arguments Number {AD Ev}.
Arguments EventCount {AD Ev}.
Arguments Events {AD Ev}.

Definition set_Account {AD Ev} m (s : SystemState AD Ev) : SystemState AD Ev :=
  mkSystem m (Number s) (EventCount s) (Events s).

(** [T: frame_system::Config]: a runtime state [S] that contains the system's
    storage. *)
Class HasSystem (S AD Ev : Type) := {
  sys : S -> SystemState AD Ev;
  set_sys : SystemState AD Ev -> S -> S;
  sys_set : forall x s, sys (set_sys x s) = x;
  set_sys_sys : forall s, set_sys (sys s) s = s;
  set_sys_set : forall x y s, set_sys x (set_sys y s) = set_sys x s
}.

#[export] Program Instance HasSystem_refl AD Ev : HasSystem (SystemState AD Ev) AD Ev := {|
  sys s := s;
  set_sys x _ := x
|}.
Solve All Obligations with done.

Section System.
Context {P : Profile} {S AD Ev ME : Type}.
Context `{!Default AD, !EqDecision AD, !From SystemEvent Ev, !HasSystem S AD Ev}.
Implicit Types (s : S) (who : AccountId).
Local Abbreviation E := (DispatchError ME).

(* ------------------------------------------------------------------- *)
(** *** Events *)

(** No event is kept in the genesis block, nor past [u32::MAX] of them.
    The phase and the (empty) topics of the record are left out. *)
Definition log_event (e : Ev) (y : SystemState AD Ev) : SystemState AD Ev :=
  if Number y =? 0 then y
  else
    match checked_add U32 (EventCount y) 1 with
    | None => y
    | Some new_event_count =>
        mkSystem (Account y) (Number y) new_event_count (Events y ++ [e])
    end.

Definition deposit_event (e : Ev) : M S E unit :=
  modify (fun s => set_sys (log_event e (sys s)) s).

(** [initialize] of a block, full kind: the number of the block, and an
    empty event log. *)
Definition initialize (number : Z) : M S E unit :=
  modify (fun s => set_sys (mkSystem (Account (sys s)) number 0 []) s).

Definition on_created_account who : M S E unit := deposit_event (from (NewAccount who)).
Definition on_killed_account who : M S E unit := deposit_event (from (KilledAccount who)).

(* ------------------------------------------------------------------- *)
(** *** The account map *)

Definition default_info : AccountInfo AD := mkAccountInfo 0 0 0 0 default_value.

Definition account_info who s : AccountInfo AD :=
  default default_info (Account (sys s) !! who).

Definition put_info who (a : AccountInfo AD) s : S :=
  set_sys (set_Account (<[who := a]> (Account (sys s))) (sys s)) s.

Definition remove_info who s : S :=
  set_sys (set_Account (delete who (Account (sys s))) (sys s)) s.

Definition account_exists who s : bool := bool_decide (is_Some (Account (sys s) !! who)).

(* ------------------------------------------------------------------- *)
(** *** Reference counters *)

Definition set_providers n (a : AccountInfo AD) :=
  mkAccountInfo (nonce a) (consumers a) n (sufficients a) (data a).
Definition set_consumers n (a : AccountInfo AD) :=
  mkAccountInfo (nonce a) n (providers a) (sufficients a) (data a).
Definition set_sufficients n (a : AccountInfo AD) :=
  mkAccountInfo (nonce a) (consumers a) (providers a) n (data a).
Definition set_data (d : AD) (a : AccountInfo AD) :=
  mkAccountInfo (nonce a) (consumers a) (providers a) (sufficients a) d.

Definition inc_providers who : M S E IncRefStatus :=
  let! a := gets (account_info who) in
  if (providers a =? 0) && (sufficients a =? 0) then
    on_created_account who ;;
    modify (put_info who (set_providers 1 a)) ;;
    ret Created
  else
    modify (put_info who (set_providers (saturating_add U32 (providers a) 1) a)) ;;
    ret Existed.

Definition dec_providers who : M S E DecRefStatus :=
  let! maybe_account := gets (fun s => Account (sys s) !! who) in
  match maybe_account with
  | Some account =>
      let p := if providers account =? 0 then 1 else providers account in
      if (p =? 1) && (consumers account =? 0) && (sufficients account =? 0) then
        on_killed_account who ;;
        modify (remove_info who) ;;
        ret Reaped
      else if (p =? 1) && (0 <? consumers account) then
        fail ConsumerRemaining
      else
        let! p' := sub U32 p 1 in
        modify (put_info who (set_providers p' account)) ;;
        ret Exists_
  | None => ret Reaped
  end.

Definition inc_sufficients who : M S E IncRefStatus :=
  let! a := gets (account_info who) in
  let! refs := add U32 (providers a) (sufficients a) in
  if refs =? 0 then
    on_created_account who ;;
    modify (put_info who (set_sufficients 1 a)) ;;
    ret Created
  else
    modify (put_info who (set_sufficients (saturating_add U32 (sufficients a) 1) a)) ;;
    ret Existed.

Definition dec_sufficients who : M S E DecRefStatus :=
  let! maybe_account := gets (fun s => Account (sys s) !! who) in
  match maybe_account with
  | Some account =>
      if ((sufficients account =? 0) || (sufficients account =? 1))
         && (providers account =? 0) then
        on_killed_account who ;;
        modify (remove_info who) ;;
        ret Reaped
      else
        let! x := sub U32 (sufficients account) 1 in
        modify (put_info who (set_sufficients x account)) ;;
        ret Exists_
  | None => ret Reaped
  end.

Definition reference_count who : M S E Z :=
  let! a := gets (account_info who) in
  add U32 (providers a) (sufficients a).

Definition inc_consumers who : M S E unit :=
  let! a := gets (account_info who) in
  if 0 <? providers a then
    modify (put_info who (set_consumers (saturating_add U32 (consumers a) 1) a))
  else fail NoProviders.

Definition dec_consumers who : M S E unit :=
  let! a := gets (account_info who) in
  if 0 <? consumers a then
    let! c := sub U32 (consumers a) 1 in
    modify (put_info who (set_consumers c a))
  else modify (put_info who a).

Definition is_provider_required who s : bool := negb (consumers (account_info who s) =? 0).

Definition can_dec_provider who s : bool :=
  let a := account_info who s in (consumers a =? 0) || (1 <? providers a).

Definition can_inc_consumer who s : bool := 0 <? providers (account_info who s).

Definition inc_account_nonce who : M S E unit :=
  let! a := gets (account_info who) in
  let! n := add U32 (nonce a) 1 in
  modify (put_info who (mkAccountInfo n (consumers a) (providers a) (sufficients a) (data a))).

(* ------------------------------------------------------------------- *)
(** *** [StoredMap] over the account data *)

Definition is_providing (d : AD) : bool := negb (bool_decide (d = default_value)).

Definition stored_get who s : AD := data (account_info who s).

(** What follows the closure of [try_mutate_exists]: the reference counter of
    the data, and the write.  When [dec_providers] fails, the closure's result
    goes out of scope. *)
Definition store_data {R} `{!Drop S E R}
    who (was_providing : bool) (some_data : option AD) (result : R) : M S E R :=
  let is_providing := bool_decide (is_Some some_data) in
  let write :=
    let! a := gets (account_info who) in
    modify (put_info who (set_data (default default_value some_data) a)) ;;
    ret result in
  if negb was_providing && is_providing then
    inc_providers who ;; write
  else if was_providing && negb is_providing then
    let! status := on_err (dec_providers who) (drop_glue result) in
    match status with Reaped => ret result | Exists_ => write end
  else if negb was_providing && negb is_providing then ret result
  else write.

Definition try_mutate_exists {R} `{!Drop S E R}
    who (f : option AD -> M S E (R * option AD)) : M S E R :=
  let! account := gets (account_info who) in
  let was_providing := is_providing (data account) in
  let some_data := if was_providing then Some (data account) else None in
  let! '(result, some_data) := f some_data in
  store_data who was_providing some_data result.
End System.
