(* ===== verification/SystemFacts.v ===== *)
(** * frame_system: the reference counters

    The invariant of the account map, that every reference operation keeps it,
    and the specification of the [StoredMap] the balances are kept in: what a
    write does to the data, the counters and the other accounts. *)

From S2P Require Import Prelude System.

Section Refs.
Context {P : Profile} {S AD Ev ME : Type}.
Context `{!Default AD, !EqDecision AD, !From SystemEvent Ev, !HasSystem S AD Ev}.
Implicit Types (s t : S) (who b : AccountId) (a : AccountInfo AD).
Local Abbreviation E := (DispatchError ME).

(** The counters are [u32]s; an account that others depend on, or that holds
    data, has a provider. *)
Definition info_ok a : Prop :=
  in_range U32 (consumers a) /\ in_range U32 (providers a) /\ in_range U32 (sufficients a) /\
  (0 < consumers a -> 0 < providers a) /\
  (data a <> default_value -> 0 < providers a).

Definition SysInv s : Prop := forall who a, Account (sys s) !! who = Some a -> info_ok a.

(** [t] is [s] with the entry of [who] replaced, up to the event log. *)
Definition only_account who s t : Prop :=
  (forall b, b <> who -> Account (sys t) !! b = Account (sys s) !! b) /\
  Number (sys t) = Number (sys s) /\
  exists y, t = set_sys y s.

(** The same, and the data of [who] is [d]. *)
Definition data_put who (d : AD) s t : Prop :=
  only_account who s t /\ stored_get who t = d /\ SysInv t.

Lemma info_ok_default : info_ok default_info.
Proof. unfold info_ok, in_range, U32. simpl. by repeat split. Qed.

Lemma account_info_ok s who : SysInv s -> info_ok (account_info who s).
Proof.
  intros Hs. unfold account_info. destruct (Account (sys s) !! who) as [a|] eqn:Ha; simpl.
  - by eapply Hs.
  - apply info_ok_default.
Qed.

Lemma account_info_eq s t who :
  Account (sys s) !! who = Account (sys t) !! who -> account_info who s = account_info who t.
Proof. unfold account_info. by intros ->. Qed.

(* --------------------------------------------------------------------- *)
(** *** The primitive writes *)

Lemma lookup_put_info who b a s :
  Account (sys (put_info who a s)) !! b = if decide (b = who) then Some a else Account (sys s) !! b.
Proof.
  unfold put_info. rewrite sys_set. simpl. rewrite lookup_insert.
  repeat case_decide; congruence.
Qed.

Lemma lookup_remove_info who b s :
  Account (sys (remove_info who s)) !! b = if decide (b = who) then None else Account (sys s) !! b.
Proof.
  unfold remove_info. rewrite sys_set. simpl. rewrite lookup_delete.
  repeat case_decide; congruence.
Qed.

Lemma account_info_put who b a s :
  account_info b (put_info who a s) = if decide (b = who) then a else account_info b s.
Proof. unfold account_info. rewrite lookup_put_info. by case_decide. Qed.

Lemma account_info_remove who b s :
  account_info b (remove_info who s) = if decide (b = who) then default_info else account_info b s.
Proof. unfold account_info. rewrite lookup_remove_info. by case_decide. Qed.

Lemma Account_log_event (e : Ev) (y : SystemState AD Ev) : Account (log_event e y) = Account y.
Proof. unfold log_event. by repeat case_match. Qed.

Lemma Number_log_event (e : Ev) (y : SystemState AD Ev) : Number (log_event e y) = Number y.
Proof. unfold log_event. by repeat case_match. Qed.

Lemma only_account_refl who s : only_account who s s.
Proof. split; [done|]. split; [done|]. exists (sys s). by rewrite set_sys_sys. Qed.

Lemma only_account_trans who s t u :
  only_account who s t -> only_account who t u -> only_account who s u.
Proof.
  intros (H1 & H2 & y & ->) (H3 & H4 & z & ->). split; [|split].
  - intros b Hb. by rewrite H3, H1.
  - by rewrite H4, H2.
  - exists z. by rewrite set_sys_set.
Qed.

Lemma only_account_put who a s : only_account who s (put_info who a s).
Proof.
  split; [|split].
  - intros b Hb. by rewrite lookup_put_info, decide_False.
  - unfold put_info. by rewrite sys_set.
  - by eexists.
Qed.

Lemma only_account_remove who s : only_account who s (remove_info who s).
Proof.
  split; [|split].
  - intros b Hb. by rewrite lookup_remove_info, decide_False.
  - unfold remove_info. by rewrite sys_set.
  - by eexists.
Qed.

Lemma only_account_event who (e : Ev) s : only_account who s (set_sys (log_event e (sys s)) s).
Proof.
  split; [|split]; [|by rewrite sys_set, Number_log_event|by eexists].
  intros b _. by rewrite sys_set, Account_log_event.
Qed.

Lemma SysInv_put who a s : SysInv s -> info_ok a -> SysInv (put_info who a s).
Proof.
  intros Hs Ha b x. rewrite lookup_put_info. case_decide; [by intros [= <-]|apply Hs].
Qed.

Lemma SysInv_remove who s : SysInv s -> SysInv (remove_info who s).
Proof. intros Hs b x. rewrite lookup_remove_info. case_decide; [done|apply Hs]. Qed.

Lemma SysInv_event (e : Ev) s : SysInv s -> SysInv (set_sys (log_event e (sys s)) s).
Proof. intros Hs b x. rewrite sys_set, Account_log_event. apply Hs. Qed.

End Refs.

#[export] Hint Resolve SysInv_put SysInv_remove SysInv_event only_account_refl
  only_account_put only_account_remove only_account_event account_info_ok : frame.

(* ===================================================================== *)
(** ** The operations on the counters *)
Section Counters.
Context {P : Profile} {S AD Ev ME : Type}.
Context `{!Default AD, !EqDecision AD, !From SystemEvent Ev, !HasSystem S AD Ev}.
Implicit Types (s t : S) (who b : AccountId) (a : AccountInfo AD).
Local Abbreviation E := (DispatchError ME).

Lemma wp_deposit_event (e : Ev) (Q : unit -> S -> Prop) (R : E -> S -> Prop) s :
  Q tt (set_sys (log_event e (sys s)) s) -> wp (deposit_event e) Q R s.
Proof. done. Qed.

Lemma account_info_event who (e : Ev) s :
  account_info who (set_sys (log_event e (sys s)) s) = account_info who s.
Proof. apply account_info_eq. by rewrite sys_set, Account_log_event. Qed.

Lemma info_ok_set_providers n a :
  info_ok a -> in_range U32 n -> (0 < providers a -> 0 < n) -> info_ok (set_providers n a).
Proof. unfold info_ok, in_range. simpl. naive_solver lia. Qed.

Lemma wp_inc_providers who (Q : IncRefStatus -> S -> Prop) (R : E -> S -> Prop) s :
  SysInv s ->
  (forall t st n, only_account who s t -> SysInv t -> 0 < n ->
     account_info who t = set_providers n (account_info who s) -> Q st t) ->
  wp (inc_providers who) Q R s.
Proof.
  intros Hs HQ. unfold inc_providers. pose proof (account_info_ok s who Hs) as Ha.
  wp_steps. set (a := account_info who s) in *.
  assert (in_range U32 (providers a)) as Hp by apply Ha. unfold in_range, U32 in Hp.
  case_match; unfold on_created_account; wp_steps; [apply wp_deposit_event|]; wp_steps.
  - eapply (HQ _ Created 1); [| |done|].
    + eapply only_account_trans; auto with frame.
    + apply SysInv_put; [auto with frame|]. by apply info_ok_set_providers.
    + by rewrite account_info_put, decide_True.
  - eapply (HQ _ Existed (saturating_add U32 (providers a) 1)); [auto with frame| | |].
    + apply SysInv_put; [done|].
      apply info_ok_set_providers; [done| |]; unfold in_range, saturating_add, U32; lia.
    + unfold saturating_add, U32. lia.
    + by rewrite account_info_put, decide_True.
Qed.

Lemma wp_dec_providers who (Q : DecRefStatus -> S -> Prop) (R : E -> S -> Prop) s :
  SysInv s ->
  (can_dec_provider who s = true -> consumers (account_info who s) = 0 ->
     forall t, only_account who s t -> SysInv t -> account_info who t = default_info -> Q Reaped t) ->
  (can_dec_provider who s = true -> forall t n, only_account who s t ->
     n = Z.max 1 (providers (account_info who s)) - 1 ->
     (n = 0 -> consumers (account_info who s) = 0 /\ sufficients (account_info who s) <> 0) ->
     account_info who t = set_providers n (account_info who s) -> Q Exists_ t) ->
  (can_dec_provider who s = false -> R ConsumerRemaining s) ->
  wp (dec_providers who) Q R s.
Proof.
  intros Hs HR HX HF. unfold dec_providers, can_dec_provider in *. wp_steps.
  pose proof (account_info_ok s who Hs) as Ha.
  assert (account_info who s = default default_info (Account (sys s) !! who)) as Hi by done.
  destruct (Account (sys s) !! who) as [a|] eqn:Hw; simpl in Hi; rewrite Hi in *; clear Hi.
  2:{ wp_steps. apply HR; [done|done|auto with frame|done|]. unfold account_info. by rewrite Hw. }
  destruct Ha as ([Hc1 Hc2] & [Hp1 Hp2] & [Hs1 Hs2] & Hcp & _). unfold U32 in *.
  set (p := if providers a =? 0 then 1 else providers a).
  assert (p = Z.max 1 (providers a)) as Hp by (unfold p; case_match; lia).
  case_match eqn:H1; [|case_match eqn:H2]; unfold on_killed_account, sub; wp_steps.
  - apply wp_deposit_event. wp_steps. apply HR; [lia|lia| | |].
    + eapply only_account_trans; auto with frame.
    + auto with frame.
    + by rewrite account_info_remove, decide_True.
  - apply HF. lia.
  - apply wp_arith; [unfold U32; lia|]. wp_steps.
    apply (HX ltac:(lia) _ (p - 1)); [auto with frame|lia|lia|].
    by rewrite account_info_put, decide_True.
Qed.

Lemma is_providing_spec (d : AD) : is_providing d = true <-> d <> default_value.
Proof. unfold is_providing. by rewrite negb_true_iff, bool_decide_eq_false. Qed.

Lemma info_ok_set_data d n a :
  info_ok a -> in_range U32 n -> (0 < consumers a -> 0 < n) -> (d <> default_value -> 0 < n) ->
  info_ok (set_data d (set_providers n a)).
Proof. unfold info_ok. simpl. naive_solver. Qed.

Lemma data_put_write who d n s t :
  SysInv s -> only_account who s t -> in_range U32 n ->
  (0 < consumers (account_info who s) -> 0 < n) -> (d <> default_value -> 0 < n) ->
  account_info who t = set_providers n (account_info who s) ->
  data_put who d s (put_info who (set_data d (account_info who t)) t).
Proof.
  intros Hs Ht Hn Hc Hd Hi. split; [|split].
  - eapply only_account_trans; [exact Ht|auto with frame].
  - unfold stored_get. by rewrite account_info_put, decide_True.
  - intros b x. rewrite lookup_put_info. case_decide as Hb.
    + intros [= <-]. rewrite Hi. apply info_ok_set_data; auto with frame.
    + destruct Ht as (Ht & _). rewrite Ht by done. apply Hs.
Qed.

(** The write of [StoredMap::try_mutate_exists], from what the closure made of
    the data: [Some d] is stored, [None] takes the account's provider away,
    which fails, after the closure's result has been dropped, exactly when
    others still depend on the account. *)
Lemma wp_store_data {R} `{!Drop S E R} who was (new : option AD) (r : R)
    (Q : R -> S -> Prop) (X : E -> S -> Prop) s :
  SysInv s -> was = is_providing (stored_get who s) ->
  match new with
  | Some d => d <> default_value /\ forall t, data_put who d s t -> Q r t
  | None =>
      if was then
        if can_dec_provider who s then forall t, data_put who default_value s t -> Q r t
        else wp (drop_glue r) (fun _ => X ConsumerRemaining) (fun _ => X ConsumerRemaining) s
      else Q r s
  end ->
  wp (store_data who was new r) Q X s.
Proof.
  intros Hs Hwas Hnew. unfold store_data.
  pose proof (account_info_ok s who Hs) as Ha.
  destruct new as [d|]; destruct was; symmetry in Hwas;
    try (apply is_providing_spec in Hwas); simpl in *.
  - destruct Hnew as [_ HQ]. wp_steps. apply HQ.
    eapply (data_put_write who d (providers (account_info who s)) s s); auto with frame;
      [apply Ha|apply Ha|by intros _; apply Ha|by destruct (account_info who s)].
  - destruct Hnew as [Hd' HQ]. wp_steps. apply wp_inc_providers; [done|].
    intros t st n Ht Hit Hn Hi. wp_steps. apply HQ. eapply data_put_write; [done..| | |done|done].
    + pose proof (account_info_ok t who Hit) as (_ & Hp & _). by rewrite Hi in Hp.
    + done.
  - destruct (can_dec_provider who s) eqn:Hc; wp_steps; apply wp_dec_providers;
      try done; rewrite ?Hc; try done.
    + intros _ _ t Ht Hit Hi. wp_steps. apply Hnew. split; [done|]. split; [|done].
      unfold stored_get. by rewrite Hi.
    + intros _ t n Ht Hn Hcn Hi. wp_steps. apply Hnew.
      destruct Ha as ([Hc1 Hc2] & [Hp1 Hp2] & _ & Hcp & _). unfold can_dec_provider in Hc.
      eapply data_put_write; [done..| | |done|done].
      * unfold in_range. lia.
      * intros. lia.
  - by apply wp_ret.
Qed.
End Counters.

(* ===================================================================== *)
(** ** Every sequence of reference operations *)

Inductive RefOp :=
| IncProviders (who : AccountId)
| DecProviders (who : AccountId)
| IncConsumers (who : AccountId)
| DecConsumers (who : AccountId)
| IncSufficients (who : AccountId)
| DecSufficients (who : AccountId)
| IncNonce (who : AccountId).

Section RefOps.
Context {P : Profile} {S AD Ev ME : Type}.
Context `{!Default AD, !EqDecision AD, !From SystemEvent Ev, !HasSystem S AD Ev}.
Implicit Types (s t : S) (who b : AccountId) (a : AccountInfo AD).
Local Abbreviation E := (DispatchError ME).

Definition exec_ref (op : RefOp) : M S E unit :=
  match op with
  | IncProviders who => inc_providers who ;; ret tt
  | DecProviders who => dec_providers who ;; ret tt
  | IncConsumers who => inc_consumers who
  | DecConsumers who => dec_consumers who
  | IncSufficients who => inc_sufficients who ;; ret tt
  | DecSufficients who => dec_sufficients who ;; ret tt
  | IncNonce who => inc_account_nonce who
  end.

(** What the callers owe: a sufficient is only released after it was taken,
    the last provider of an account's data is not taken away from under it
    while sufficients keep the account, and the plain additions fit. *)
Definition ref_guard (op : RefOp) s : bool :=
  match op with
  | DecProviders who =>
      let a := account_info who s in
      bool_decide (data a = default_value) || (1 <? providers a) || (sufficients a =? 0)
  | IncSufficients who =>
      let a := account_info who s in providers a + sufficients a <? U32
  | DecSufficients who =>
      let a := account_info who s in (0 <? sufficients a) || (providers a =? 0)
  | IncNonce who => let n := nonce (account_info who s) in (0 <=? n) && (n + 1 <? U32)
  | _ => true
  end.

Definition survives s t : Prop :=
  forall b, 0 < consumers (account_info b s) -> account_exists b t = true.

Lemma consumers_exist s b : 0 < consumers (account_info b s) -> account_exists b s = true.
Proof.
  unfold account_exists, account_info. destruct (Account (sys s) !! b); simpl; [done|lia].
Qed.

Lemma survives_only who s t :
  only_account who s t ->
  (0 < consumers (account_info who s) -> account_exists who t = true) -> survives s t.
Proof.
  intros (Ho & _) Hw b Hb. destruct (decide (b = who)) as [->|Hne]; [by apply Hw|].
  unfold account_exists. rewrite Ho by done. by apply consumers_exist.
Qed.

Lemma account_exists_put who a s : account_exists who (put_info who a s) = true.
Proof. unfold account_exists. by rewrite lookup_put_info, decide_True. Qed.

Lemma account_exists_info who n s t :
  account_info who t = set_providers n (account_info who s) -> 0 < consumers (account_info who s) ->
  account_exists who t = true.
Proof. intros Hi Hc. apply consumers_exist. by rewrite Hi. Qed.

(** The write of a changed entry. *)
Lemma put_keeps who a s (t : S) :
  SysInv s -> info_ok a -> t = put_info who a s -> SysInv t /\ survives s t.
Proof.
  intros Hs Ha ->. split; [auto with frame|].
  eapply survives_only; [auto with frame|]. by rewrite account_exists_put.
Qed.

Lemma event_then_put_keeps who a (e : Ev) s :
  SysInv s -> info_ok a ->
  SysInv (put_info who a (set_sys (log_event e (sys s)) s)) /\
  survives s (put_info who a (set_sys (log_event e (sys s)) s)).
Proof.
  intros Hs Ha. split; [auto with frame|]. eapply (survives_only who).
  - eapply only_account_trans; [apply (only_account_event who e)|auto with frame].
  - by rewrite account_exists_put.
Qed.

Lemma dec_providers_keeps who s :
  SysInv s -> ref_guard (DecProviders who) s = true ->
  wp (dec_providers who) (fun _ t => SysInv t /\ survives s t)
     (fun (e : E) t => t = s /\ e = ConsumerRemaining) s.
Proof.
  intros Hs Hg. simpl in Hg. pose proof (account_info_ok s who Hs) as Ha.
  apply wp_dec_providers; [done|..|done].
  - intros _ Hc t Ht Hit Hi. split; [done|]. apply (survives_only who); [done|]. lia.
  - intros _ t n Ht Hn Hz Hi. split.
    + intros b x Hb. destruct (decide (b = who)) as [->|Hne];
        [|destruct Ht as (Ht & _); rewrite Ht in Hb by done; by eapply Hs].
      assert (x = account_info who t) as -> by (unfold account_info; by rewrite Hb).
      rewrite Hi. destruct Ha as (Hc & [Hp1 Hp2] & Hsu & Hcp & Hd).
      split; [done|]. split; [split; simpl; lia|]. split; [done|]. simpl.
      split; [lia|]. intros Hne. case_bool_decide; [done|]. specialize (Hd Hne). lia.
    + apply (survives_only who); [done|]. by eapply account_exists_info.
Qed.

Lemma dec_sufficients_keeps who s (X : E -> S -> Prop) :
  SysInv s -> ref_guard (DecSufficients who) s = true ->
  wp (dec_sufficients who) (fun _ t => SysInv t /\ survives s t) X s.
Proof.
  intros Hs Hg. simpl in Hg. pose proof (account_info_ok s who Hs) as Ha.
  unfold dec_sufficients, on_killed_account, sub. wp_steps.
  assert (account_info who s = default default_info (Account (sys s) !! who)) as Hi by done.
  destruct (Account (sys s) !! who) as [a|]; simpl in Hi; rewrite Hi in Ha, Hg.
  2:{ wp_steps. split; [done|]. intros b. apply consumers_exist. }
  case_match; wp_steps.
  - apply wp_deposit_event. wp_steps. split; [auto with frame|]. eapply (survives_only who).
    + eapply only_account_trans; [apply (only_account_event who)|auto with frame].
    + rewrite Hi. unfold info_ok in Ha. lia.
  - unfold info_ok, in_range in Ha. apply wp_arith; [lia|]. wp_steps.
    eapply put_keeps; [done| |done]. unfold info_ok, in_range. simpl. naive_solver lia.
Qed.

(** Account references are safe.  Whatever operation on the reference
    counters is applied, in the order its caller owes, it does not panic, it
    fails only with the error the counters call for and then changes nothing,
    and it keeps: the counters fit their width, an account that others depend
    on or that holds data has a provider, and no account with consumers goes
    out of existence. *)
Theorem references_are_safe op s :
  SysInv s -> ref_guard op s = true ->
  wp (exec_ref op) (fun _ t => SysInv t /\ survives s t)
     (fun e t => t = s /\ match op with
                          | DecProviders _ => e = ConsumerRemaining
                          | IncConsumers _ => e = NoProviders
                          | _ => False
                          end) s.
Proof.
  intros Hs Hg. destruct op as [who|who|who|who|who|who|who]; simpl exec_ref;
    pose proof (account_info_ok s who Hs) as Ha.
  - apply wp_bind, wp_inc_providers; [done|]. intros t st n Ht Hit Hn Hi. apply wp_ret.
    split; [done|]. apply (survives_only who); [done|]. by eapply account_exists_info.
  - apply wp_bind. eapply wp_mono; [by apply dec_providers_keeps|by intros|done].
  - unfold inc_consumers. wp_steps. case_match; wp_steps; [|done].
    eapply put_keeps; [done| |done]. unfold info_ok, in_range, saturating_add, U32 in *. simpl in *. lia.
  - unfold dec_consumers, sub. wp_steps. case_match; wp_steps; [apply wp_arith; wp_steps|];
      try (eapply put_keeps; [done| |done]); unfold info_ok, in_range, U32 in *; simpl in *; naive_solver lia.
  - unfold inc_sufficients, on_created_account, add. wp_steps. apply wp_arith; wp_steps.
    { unfold info_ok, in_range in Ha. simpl in Hg. lia. }
    case_match; wp_steps; [apply wp_deposit_event; wp_steps; apply event_then_put_keeps|
      eapply put_keeps; [done| |done]];
      unfold info_ok, in_range, saturating_add, U32 in *; simpl in *; naive_solver lia.
  - by apply wp_bind, dec_sufficients_keeps.
  - unfold inc_account_nonce, add. wp_steps. simpl in Hg. apply wp_arith; [lia|]. wp_steps.
    eapply put_keeps; [done| |done]. apply Ha.
Qed.
End RefOps.

(* ===================================================================== *)
(** ** A concrete account map *)

#[local] Instance From_self : From SystemEvent SystemEvent := fun e => e.

(** Account 1 with one provider and one consumer. *)
Definition ex_sys : SystemState unit SystemEvent :=
  mkSystem {[1%N := mkAccountInfo 0 1 1 0 tt]} 1 0 [].

Lemma SysInv_ex_sys : SysInv ex_sys.
Proof.
  intros who a. simpl. rewrite lookup_singleton_Some. intros [<- <-].
  unfold info_ok, in_range, U32. simpl. lia.
Qed.

Lemma references_are_safe_witness :
  wp (exec_ref (P := debug) (ME := Empty_set) (DecProviders 1%N)) (fun _ t => survives ex_sys t)
     (fun e t => t = ex_sys /\ e = ConsumerRemaining) ex_sys.
Proof.
  eapply wp_mono; [apply (references_are_safe (P := debug) (DecProviders 1%N) ex_sys)| |].
  - apply SysInv_ex_sys.
  - vm_compute. reflexivity.
  - intros [] t [_ Ht]. exact Ht.
  - intros e t Ht. exact Ht.
Defined.

(** The underflow [dec_sufficients] logs is not prevented: releasing a
    sufficient that was never taken, on an account with a provider, sets the
    counter to [u32::MAX] in a release build. *)
Theorem dec_sufficients_wraps {S AD Ev ME} `{!Default AD, !EqDecision AD, !From SystemEvent Ev,
    !HasSystem S AD Ev} who (a : AccountInfo AD) (s : S) :
  Account (sys s) !! who = Some a -> sufficients a = 0 -> 0 < providers a ->
  dec_sufficients (P := release) (ME := ME) who s =
    Ok Exists_ (put_info who (set_sufficients (U32 - 1) a) s).
Proof.
  intros Hw Hz Hp. unfold dec_sufficients, bind, gets. rewrite Hw, Hz.
  replace (providers a =? 0) with false by lia. reflexivity.
Qed.
