(* ===== verification/Ipfs.v ===== *)
(** * pallet-ipfs: the on-chain registry of IPFS assets

    Models [bin/node/pallets/pallet-ipfs/src/lib.rs] and the on-chain helper
    of [functions.rs]: the asset map, the per-account index of owned assets,
    the counter and the queue of commands for the offchain worker, with every
    dispatchable and the [on_initialize] hook.  The worker itself is in
    [IpfsWorker.v]. *)

From S2P Require Import Prelude System.

(* ===================================================================== *)
(** ** Data *)

Inductive DataCommand :=
| AddBytes (m_addr cid : bytes) (size : Z) (admin : AccountId) (is_recursive : bool)
| AddBytesRaw (m_addr data : bytes) (admin : AccountId) (is_recursive : bool)
| CatBytes (m_addr cid : bytes) (admin : AccountId)
| InsertPin (m_addr cid : bytes) (admin : AccountId) (is_recursive : bool)
| RemovePin (m_addr cid : bytes) (admin : AccountId) (is_recursive : bool)
| RemoveBlock (m_addr cid : bytes) (admin : AccountId).

Inductive OwnershipLayer := Owner | Editor | Reader.

#[export] Instance OwnershipLayer_eq_dec : EqDecision OwnershipLayer.
Proof. solve_decision. Defined.
#[export] Instance OwnershipLayer_default : Default OwnershipLayer := Owner.

Record Ipfs := mkIpfs {
  cid : bytes;
  size : Z;
  gateway_url : bytes;
  owners : gmap AccountId OwnershipLayer;
  created_at : Z;
  deleting_at : Z;
  pinned : bool
}.

Definition set_owners o (i : Ipfs) : Ipfs :=
  mkIpfs (cid i) (size i) (gateway_url i) o (created_at i) (deleting_at i) (pinned i).
Definition set_pinned b (i : Ipfs) : Ipfs :=
  mkIpfs (cid i) (size i) (gateway_url i) (owners i) (created_at i) (deleting_at i) b.

(** The errors of the pallet ([IpfsError] of the dispatch error). *)
Inductive IpfsError :=
| IpfsCntOverflow
| ExceedMaxIpfsOwned
| BuyerIsIpfsOwner
| TransferToSelf
| IpfsNotExist
| AccNotExist
| NotIpfsOwner
| NotIpfsEditor
| NotIpfsReader
| SameAccount
| SameOwnershipLayer
| IpfsAlreadyOwned
| IpfsAlreadyPinned
| IpfsNotPinned
| CantCreateRequest
| RequestTimeout
| RequestFailed.

(** The pallet's events, and the system's own. *)
Inductive IpfsEvent :=
| QueuedDataToAdd (who : AccountId)
| QueuedDataToCat (who : AccountId)
| PublishedIdentity (who : AccountId)
| IpfsCreated (who : AccountId) (h : Hash)
| PriceSet (who : AccountId) (h : Hash) (price : option Z)
| Transferred (from to : AccountId) (h : Hash)
| Bought (buyer seller : AccountId) (h : Hash) (price : Z)
| AddOwner (who : AccountId) (cid : bytes) (acct : AccountId)
| RemoveOwner (acct : AccountId) (cid : bytes)
| ChangeOwnershipLayer (who : AccountId) (cid : bytes) (acct : AccountId)
| WriteIpfsAsset (who : AccountId) (h : Hash)
| ReadIpfsAsset (who : AccountId) (h : Hash)
| DeleteIpfsAsset (who : AccountId) (cid : bytes)
| AddPin (who : AccountId) (cid : bytes)
| UnpinIpfsAsset (who : AccountId) (cid : bytes)
| IpfsSystem (e : SystemEvent).

#[export] Instance From_IpfsSystem : From SystemEvent IpfsEvent := IpfsSystem.

Abbreviation IpfsDispatchError := (DispatchError IpfsError).

(* ===================================================================== *)
(** ** Storage *)

Record IpfsState := mkIpfsState {
  ipfs_sys : SystemState unit IpfsEvent;
  DataQueue : list DataCommand;
  IpfsCnt : Z;
  IpfsAsset : gmap bytes Ipfs;
  IpfsAssetOwned : gmap AccountId (list bytes)
}.

#[export] Program Instance IpfsState_HasSystem : HasSystem IpfsState unit IpfsEvent := {|
  sys := ipfs_sys;
  set_sys y s := mkIpfsState y (DataQueue s) (IpfsCnt s) (IpfsAsset s) (IpfsAssetOwned s)
|}.
Next Obligation. done. Qed.
Next Obligation. by intros []. Qed.
Next Obligation. done. Qed.

Definition set_DataQueue q s :=
  mkIpfsState (ipfs_sys s) q (IpfsCnt s) (IpfsAsset s) (IpfsAssetOwned s).
Definition set_IpfsCnt n s :=
  mkIpfsState (ipfs_sys s) (DataQueue s) n (IpfsAsset s) (IpfsAssetOwned s).
Definition set_IpfsAsset m s :=
  mkIpfsState (ipfs_sys s) (DataQueue s) (IpfsCnt s) m (IpfsAssetOwned s).
Definition set_IpfsAssetOwned m s :=
  mkIpfsState (ipfs_sys s) (DataQueue s) (IpfsCnt s) (IpfsAsset s) m.

(** [IpfsAssetOwned] is a [ValueQuery]: an absent account owns nothing. *)
Definition owned (s : IpfsState) (a : AccountId) : list bytes :=
  default [] (IpfsAssetOwned s !! a).

Definition GATEWAY : bytes := bytes_of_string "http://15.188.14.75:8080/ipfs/".

Section Pallet.

(** [T::MaxIpfsOwned::get()] *)
Context (MaxIpfsOwned : Z).

Local Abbreviation MI := (M IpfsState IpfsDispatchError).

Definition push_command (c : DataCommand) : MI unit :=
  modify (fun s => set_DataQueue (DataQueue s ++ [c]) s).

Definition take_queue : MI unit := modify (set_DataQueue []).

Definition ipfs_asset (c : bytes) (s : IpfsState) : option Ipfs := IpfsAsset s !! c.

Definition insert_asset (c : bytes) (i : Ipfs) : MI unit :=
  modify (fun s => set_IpfsAsset (<[c := i]> (IpfsAsset s)) s).

(** [<IpfsAssetOwned<T>>::try_mutate(a, |v| v.try_push(c))] *)
Definition owned_try_push (a : AccountId) (c : bytes) : MI unit :=
  let! v := gets (fun s => owned s a) in
  match try_push MaxIpfsOwned v c with
  | Some v' => modify (fun s => set_IpfsAssetOwned (<[a := v']> (IpfsAssetOwned s)) s)
  | None => fail (Module_ ExceedMaxIpfsOwned)
  end.

(** [<IpfsAssetOwned<T>>::try_mutate(a, |v| if let Some(i) = v.position(c) {..})]:
    the closure returns [Ok] on both branches, so the vector is written
    back either way. *)
Definition owned_swap_remove (a : AccountId) (c : bytes) : MI unit :=
  let! v := gets (fun s => owned s a) in
  let! v' :=
    match position (fun i => bool_decide (i = c)) v with
    | Some index => unwrap (swap_remove index v)
    | None => ret v
    end in
  modify (fun s => set_IpfsAssetOwned (<[a := v']> (IpfsAssetOwned s)) s).

Definition determine_account_ownership_layer (c : bytes) (acct : AccountId) : MI OwnershipLayer :=
  let! asset := gets (ipfs_asset c) in
  match asset with
  | Some ipfs =>
      match owners ipfs !! acct with
      | Some layer => ret layer
      | None => fail (Module_ AccNotExist)
      end
  | None => fail (Module_ IpfsNotExist)
  end.

(** [ensure!(determine_account_ownership_layer(c, a)? == Owner, NotIpfsOwner)] *)
Definition ensure_owner (c : bytes) (a : AccountId) : MI unit :=
  let! layer := determine_account_ownership_layer c a in
  ensure (bool_decide (layer = Owner)) (Module_ NotIpfsOwner).

(* ------------------------------------------------------------------- *)
(** *** Dispatchables *)

Definition create_ipfs_asset (origin : RawOrigin) (addr c : bytes) (sz : Z) : MI unit :=
  let! sender := ensure_signed origin in
  let! v := gets (fun s => owned s sender) in
  ensure (negb (contains c v)) (Module_ IpfsAlreadyOwned) ;;
  push_command (AddBytes addr c sz sender true) ;;
  deposit_event (QueuedDataToAdd sender).

Definition create_ipfs_asset_raw (origin : RawOrigin) (addr data : bytes) : MI unit :=
  let! sender := ensure_signed origin in
  let! v := gets (fun s => owned s sender) in
  ensure (negb (contains data v)) (Module_ IpfsAlreadyOwned) ;;
  push_command (AddBytesRaw addr data sender true) ;;
  deposit_event (QueuedDataToAdd sender).

Definition pin_ipfs_asset (origin : RawOrigin) (addr c : bytes) : MI unit :=
  let! sender := ensure_signed origin in
  ensure_owner c sender ;;
  let! asset := gets (ipfs_asset c) in
  let! asset := ok_or asset (Module_ IpfsNotExist) in
  ensure (negb (pinned asset)) (Module_ IpfsAlreadyPinned) ;;
  push_command (InsertPin addr c sender true) ;;
  deposit_event (AddPin sender c).

Definition unpin_ipfs_asset (origin : RawOrigin) (addr c : bytes) : MI unit :=
  let! sender := ensure_signed origin in
  ensure_owner c sender ;;
  let! asset := gets (ipfs_asset c) in
  let! asset := ok_or asset (Module_ IpfsNotExist) in
  ensure (pinned asset) (Module_ IpfsNotPinned) ;;
  push_command (RemovePin addr c sender true) ;;
  deposit_event (UnpinIpfsAsset sender c).

Definition delete_ipfs_asset (origin : RawOrigin) (addr c : bytes) : MI unit :=
  let! sender := ensure_signed origin in
  ensure_owner c sender ;;
  let! asset := gets (ipfs_asset c) in
  let! asset := ok_or asset (Module_ IpfsNotExist) in
  (if pinned asset then push_command (RemovePin addr c sender true) else ret tt) ;;
  push_command (RemoveBlock addr c sender) ;;
  deposit_event (DeleteIpfsAsset sender c).

Definition read_file (origin : RawOrigin) (addr c : bytes) : MI unit :=
  let! sender := ensure_signed origin in
  ensure_owner c sender ;;
  push_command (CatBytes addr c sender) ;;
  deposit_event (QueuedDataToCat sender).

Definition submit_ipfs_identity
    (origin : RawOrigin) (_public_key : bytes) (_multiaddress : list bytes) : MI unit :=
  let! signer := ensure_signed origin in
  deposit_event (PublishedIdentity signer).

Definition submit_ipfs_add_results
    (origin : RawOrigin) (admin : AccountId) (c : bytes) (sz : Z) : MI unit :=
  let! _ := ensure_signed origin in
  take_queue ;;
  let! current_block := gets (fun s => Number (sys s)) in
  let ipfs := mkIpfs c sz (GATEWAY ++ c) ∅ current_block current_block true in
  let ipfs := set_owners (<[admin := default_value]> (owners ipfs)) ipfs in
  let! cnt := gets IpfsCnt in
  let! new_cnt := ok_or (checked_add U64 cnt 1) (Module_ IpfsCntOverflow) in
  owned_try_push admin c ;;
  insert_asset c ipfs ;;
  modify (set_IpfsCnt new_cnt).

Definition submit_ipfs_pin_results (origin : RawOrigin) (c : bytes) : MI unit :=
  let! _ := ensure_signed origin in
  let! asset := gets (ipfs_asset c) in
  let! asset := ok_or asset (Module_ IpfsNotExist) in
  insert_asset c (set_pinned true asset) ;;
  take_queue.

Definition submit_ipfs_unpin_results (origin : RawOrigin) (c : bytes) : MI unit :=
  let! _ := ensure_signed origin in
  let! asset := gets (ipfs_asset c) in
  let! asset := ok_or asset (Module_ IpfsNotExist) in
  insert_asset c (set_pinned false asset) ;;
  take_queue.

Definition submit_ipfs_delete_results (origin : RawOrigin) (c : bytes) : MI unit :=
  let! _ := ensure_signed origin in
  take_queue ;;
  let! asset := gets (ipfs_asset c) in
  let! asset := ok_or asset (Module_ IpfsNotExist) in
  for_each (btree_keys (owners asset)) (fun user => owned_swap_remove user c) ;;
  let! cnt := gets IpfsCnt in
  let! new_cnt := unwrap (checked_sub cnt 1) in
  modify (fun s => set_IpfsAsset (delete c (IpfsAsset s)) s) ;;
  modify (set_IpfsCnt new_cnt).

Definition add_owner
    (origin : RawOrigin) (c : bytes) (add_acct : AccountId) (layer : OwnershipLayer) : MI unit :=
  let! signer := ensure_signed origin in
  ensure_owner c signer ;;
  let! v := gets (fun s => owned s add_acct) in
  ensure (negb (contains c v)) (Module_ IpfsAlreadyOwned) ;;
  let! asset := gets (ipfs_asset c) in
  let! ipfs := ok_or asset (Module_ IpfsNotExist) in
  insert_asset c (set_owners (<[add_acct := layer]> (owners ipfs)) ipfs) ;;
  owned_try_push add_acct c ;;
  deposit_event (AddOwner signer c add_acct).

Definition remove_ownership (origin : RawOrigin) (c : bytes) (remove_acct : AccountId) : MI unit :=
  let! signer := ensure_signed origin in
  ensure (negb (bool_decide (signer = remove_acct))) (Module_ SameAccount) ;;
  ensure_owner c signer ;;
  let! asset := gets (ipfs_asset c) in
  let! ipfs := ok_or asset (Module_ IpfsNotExist) in
  ensure (bool_decide (is_Some (owners ipfs !! remove_acct))) (Module_ AccNotExist) ;;
  insert_asset c (set_owners (delete remove_acct (owners ipfs)) ipfs) ;;
  owned_swap_remove remove_acct c ;;
  deposit_event (RemoveOwner remove_acct c).

Definition change_ownership
    (origin : RawOrigin) (c : bytes) (acct_to_change : AccountId) (layer : OwnershipLayer)
    : MI unit :=
  let! signer := ensure_signed origin in
  ensure_owner c signer ;;
  let! asset := gets (ipfs_asset c) in
  let! ipfs := ok_or asset (Module_ IpfsNotExist) in
  let! ownership := determine_account_ownership_layer c acct_to_change in
  ensure (negb (bool_decide (ownership = layer))) (Module_ SameOwnershipLayer) ;;
  insert_asset c (set_owners (<[acct_to_change := layer]> (owners ipfs)) ipfs) ;;
  owned_try_push acct_to_change c ;;
  deposit_event (ChangeOwnershipLayer signer c acct_to_change).

(** The pallet's [Call] enum and its dispatch. *)
Inductive Call :=
| create_ipfs_asset_call (addr c : bytes) (sz : Z)
| create_ipfs_asset_raw_call (addr data : bytes)
| pin_ipfs_asset_call (addr c : bytes)
| unpin_ipfs_asset_call (addr c : bytes)
| delete_ipfs_asset_call (addr c : bytes)
| read_file_call (addr c : bytes)
| submit_ipfs_identity_call (public_key : bytes) (multiaddress : list bytes)
| submit_ipfs_add_results_call (admin : AccountId) (c : bytes) (sz : Z)
| submit_ipfs_pin_results_call (c : bytes)
| submit_ipfs_unpin_results_call (c : bytes)
| submit_ipfs_delete_results_call (c : bytes)
| add_owner_call (c : bytes) (a : AccountId) (l : OwnershipLayer)
| remove_ownership_call (c : bytes) (a : AccountId)
| change_ownership_call (c : bytes) (a : AccountId) (l : OwnershipLayer).

Definition dispatch (o : RawOrigin) (call : Call) : MI unit :=
  match call with
  | create_ipfs_asset_call addr c sz => create_ipfs_asset o addr c sz
  | create_ipfs_asset_raw_call addr d => create_ipfs_asset_raw o addr d
  | pin_ipfs_asset_call addr c => pin_ipfs_asset o addr c
  | unpin_ipfs_asset_call addr c => unpin_ipfs_asset o addr c
  | delete_ipfs_asset_call addr c => delete_ipfs_asset o addr c
  | read_file_call addr c => read_file o addr c
  | submit_ipfs_identity_call pk ma => submit_ipfs_identity o pk ma
  | submit_ipfs_add_results_call a c sz => submit_ipfs_add_results o a c sz
  | submit_ipfs_pin_results_call c => submit_ipfs_pin_results o c
  | submit_ipfs_unpin_results_call c => submit_ipfs_unpin_results o c
  | submit_ipfs_delete_results_call c => submit_ipfs_delete_results o c
  | add_owner_call c a l => add_owner o c a l
  | remove_ownership_call c a => remove_ownership o c a
  | change_ownership_call c a l => change_ownership o c a l
  end.

(** [retrieve_bytes], over the node's persistent local storage. *)
Definition retrieve_bytes
    (local_storage_get : bytes -> option bytes) (_public_key _signature message : bytes) : bytes :=
  match local_storage_get message with Some data => data | None => [] end.

(** The [on_initialize] hook. *)
Definition on_initialize (block_no : Z) (s : IpfsState) : IpfsState :=
  if block_no mod 2 =? 1 then set_DataQueue [] s else s.
End Pallet.

(* ===================================================================== *)
(** ** Blocks

    A block sets the number and clears the event log, runs the hook and then
    applies its extrinsics in order; a failed extrinsic keeps its writes
    and the block goes on, a panic makes the block invalid. *)
Section Blocks.
Context (MaxIpfsOwned : Z).

Definition begin_block (n : Z) : M IpfsState IpfsDispatchError unit :=
  initialize n ;; modify (on_initialize n).

Definition apply_extrinsic (xt : RawOrigin * Call) (s : IpfsState) : option IpfsState :=
  match dispatch MaxIpfsOwned xt.1 xt.2 s with
  | Ok _ s' | Err _ s' => Some s'
  | Panic => None
  end.

Definition exec_block (n : Z) (xts : list (RawOrigin * Call)) (s : IpfsState) : option IpfsState :=
  match begin_block n s with
  | Ok _ s' => foldl (fun acc xt => acc ≫= apply_extrinsic xt) (Some s') xts
  | _ => None
  end.

Definition genesis : IpfsState := mkIpfsState (mkSystem ∅ 0 0 []) [] 0 ∅ ∅.

(** One step of the chain: an extrinsic, or the start of the next block. *)
Inductive step : IpfsState -> IpfsState -> Prop :=
| step_extrinsic o call s s' : apply_extrinsic (o, call) s = Some s' -> step s s'
| step_block n s s' : begin_block n s = Ok tt s' -> step s s'.
End Blocks.
