(* ===== verification/IpfsFacts.v ===== *)
(** * pallet-ipfs: correctness of the asset registry

    The well-formedness invariant and the absence of panics, the exact effect
    of the calls that create, share and delete an asset, access control, the
    life time of a queued command, and the agreement of the per-account index
    with the owners recorded in the assets. *)

From S2P Require Import Prelude System Ipfs.

(* ===================================================================== *)
(** ** Closed forms of the helpers *)

(** The vector [owned_swap_remove] writes back. *)
Definition remove_one (c : bytes) (v : list bytes) : list bytes :=
  match position (fun i => bool_decide (i = c)) v with
  | Some index => default v (swap_remove index v)
  | None => v
  end.

Definition put_owned (a : AccountId) (v : list bytes) (s : IpfsState) : IpfsState :=
  set_IpfsAssetOwned (<[a := v]> (IpfsAssetOwned s)) s.

Lemma remove_one_spec c v :
  (c ∈ v /\ v ≡ₚ (c :: remove_one c v)) \/ (c ∉ v /\ remove_one c v = v).
Proof.
  unfold remove_one. destruct (position _ v) as [i|] eqn:Hp.
  - left. apply position_Some in Hp as (x & Hx & Heq%bool_decide_eq_true). subst x.
    destruct (swap_remove_is_Some i v c Hx) as [v' Hv']. rewrite Hv'. simpl.
    split; [by eapply list_elem_of_lookup_2|]. by eapply swap_remove_perm.
  - right. split; [|done]. intros Hc.
    pose proof (position_None _ _ Hp c Hc) as Hf. simpl in Hf.
    by rewrite bool_decide_eq_false in Hf.
Qed.

Lemma count_remove_one c v : count c (remove_one c v) = (count c v - 1)%nat.
Proof.
  destruct (remove_one_spec c v) as [[_ Hp]|[Hn ->]].
  - rewrite (count_Permutation c _ _ Hp), count_cons, decide_True by done. lia.
  - apply count_zero in Hn. lia.
Qed.

Lemma count_remove_one_ne c d v : d <> c -> count d (remove_one c v) = count d v.
Proof.
  intros Hne. destruct (remove_one_spec c v) as [[_ Hp]|[_ ->]]; [|done].
  rewrite (count_Permutation d _ _ Hp), count_cons, decide_False by congruence. lia.
Qed.

Lemma length_remove_one c v : (length (remove_one c v) <= length v)%nat.
Proof.
  destruct (remove_one_spec c v) as [[_ Hp]|[_ ->]]; [|done].
  apply Permutation_length in Hp. simpl in Hp. lia.
Qed.

Lemma NoDup_remove_one c v : NoDup v -> NoDup (remove_one c v).
Proof.
  intros Hv. destruct (remove_one_spec c v) as [[_ Hp]|[_ ->]]; [|done].
  apply (NoDup_Permutation_proper _ _ Hp) in Hv. by apply NoDup_cons in Hv as [_ Hv].
Qed.

Lemma elem_of_remove_one c d v :
  NoDup v -> d ∈ remove_one c v <-> d ∈ v /\ d <> c.
Proof.
  intros Hv. destruct (remove_one_spec c v) as [[_ Hp]|[Hn ->]].
  - apply (NoDup_Permutation_proper _ _ Hp), NoDup_cons in Hv as [Hc _].
    rewrite (elem_of_Permutation_proper d _ _ Hp), elem_of_cons. naive_solver.
  - naive_solver.
Qed.

Section Helpers.
Context (MaxIpfsOwned : Z).
Implicit Types (s : IpfsState) (a : AccountId) (c : bytes).

Lemma owned_put a b v s : owned (put_owned a v s) b = if decide (a = b) then v else owned s b.
Proof. unfold owned, put_owned. simpl. rewrite lookup_insert. by case_decide. Qed.

Lemma owned_swap_remove_eq a c s :
  owned_swap_remove a c s = Ok tt (put_owned a (remove_one c (owned s a)) s).
Proof.
  unfold owned_swap_remove, bind, gets, remove_one.
  destruct (position _ _) as [i|] eqn:Hp; [|done].
  apply position_Some in Hp as (x & Hx & _).
  by destruct (swap_remove_is_Some i _ x Hx) as [v' ->].
Qed.

(** The deletion loop visits every owner once. *)
Lemma delete_loop_eq (users : list AccountId) c s :
  NoDup users ->
  exists t,
    for_each users (fun user => owned_swap_remove user c) s = Ok tt t /\
    t = set_IpfsAssetOwned (IpfsAssetOwned t) s /\
    forall b, owned t b = if decide (b ∈ users) then remove_one c (owned s b) else owned s b.
Proof.
  revert s. induction users as [|u us IH]; intros s Hnd.
  - exists s. split; [done|]. split; [by destruct s|]. intros b.
    rewrite decide_False; [done|set_solver].
  - apply NoDup_cons in Hnd as [Hu Hus]. simpl. unfold bind. rewrite owned_swap_remove_eq.
    destruct (IH (put_owned u (remove_one c (owned s u)) s) Hus) as (t & Ht & Heq & Ho).
    exists t. split; [done|]. split; [by rewrite Heq|]. intros b.
    rewrite Ho, owned_put. repeat case_decide; subst; set_solver.
Qed.

Lemma NoDup_btree_keys {V} (m : gmap AccountId V) : NoDup (btree_keys m).
Proof.
  unfold btree_keys, sort_accounts. rewrite (merge_sort_Permutation N.le).
  apply NoDup_fst_map_to_list.
Qed.

Lemma elem_of_btree_keys {V} (m : gmap AccountId V) a :
  a ∈ btree_keys m <-> is_Some (m !! a).
Proof.
  unfold btree_keys, sort_accounts. rewrite (merge_sort_Permutation N.le).
  rewrite list_elem_of_fmap. split.
  - intros ([k v] & -> & Hin). apply elem_of_map_to_list in Hin. by exists v.
  - intros [v Hv]. exists (a, v). split; [done|]. by apply elem_of_map_to_list.
Qed.

Lemma deposit_event_eq (e : IpfsEvent) s :
  deposit_event (ME := IpfsError) e s = Ok tt (set_sys (log_event e (sys s)) s).
Proof. done. Qed.
End Helpers.

(* ===================================================================== *)
(** ** Well-formedness *)

(** Assets are stored under their own cid with the gateway's address of it,
    no account is indexed with more than [MaxIpfsOwned] cids, and the counter
    is at least the number of assets. *)
Record Inv (MaxIpfsOwned : Z) (s : IpfsState) : Prop := {
  inv_asset : forall c i, IpfsAsset s !! c = Some i -> cid i = c /\ gateway_url i = GATEWAY ++ c;
  inv_owned : forall a, Z.of_nat (length (owned s a)) <= Z.max 0 MaxIpfsOwned;
  inv_cnt : Z.of_nat (base.size (IpfsAsset s)) <= IpfsCnt s < U64
}.

Section Invariant.
Context (MaxIpfsOwned : Z).
Local Abbreviation Inv := (Inv MaxIpfsOwned).
Implicit Types (s : IpfsState) (a : AccountId) (c : bytes).

(** [Inv] reads neither the system's storage nor the queue. *)
Lemma Inv_frame s t :
  IpfsAsset s = IpfsAsset t -> IpfsAssetOwned s = IpfsAssetOwned t -> IpfsCnt s = IpfsCnt t ->
  Inv s -> Inv t.
Proof.
  destruct s, t. simpl. intros -> -> -> [H1 H2 H3]. by split.
Qed.

Lemma Inv_put_owned s a v :
  Inv s -> Z.of_nat (length v) <= Z.max 0 MaxIpfsOwned -> Inv (put_owned a v s).
Proof.
  intros [H1 H2 H3] Hv. split; [done| |done].
  intros b. rewrite owned_put. by case_decide.
Qed.

(** Replacing an asset by one with the same cid and gateway. *)
Lemma Inv_update_asset s c i j :
  Inv s -> IpfsAsset s !! c = Some i -> cid j = cid i -> gateway_url j = gateway_url i ->
  Inv (set_IpfsAsset (<[c := j]> (IpfsAsset s)) s).
Proof.
  intros [H1 H2 H3] Hc Hcid Hgw. split; [|done|]; simpl.
  - intros d k. rewrite lookup_insert. case_decide; [|apply H1].
    intros [= <-]. subst d. rewrite Hcid, Hgw. by apply H1.
  - rewrite map_size_insert_Some by eauto. done.
Qed.

Lemma safe_deposit_event e : safe Inv (deposit_event (ME := IpfsError) e).
Proof. apply safe_modify. intros s. by apply Inv_frame. Qed.

Lemma safe_push_command d : safe Inv (push_command d).
Proof. apply safe_modify. intros s. by apply Inv_frame. Qed.

Lemma safe_take_queue : safe Inv take_queue.
Proof. apply safe_modify. intros s. by apply Inv_frame. Qed.

Lemma safe_ensure_signed o : safe Inv (ensure_signed (ME := IpfsError) o).
Proof. destruct o; simpl; auto with frame. Qed.

Lemma safe_owned_swap_remove a c : safe Inv (owned_swap_remove a c).
Proof.
  intros s Hs. unfold wp. rewrite owned_swap_remove_eq.
  apply Inv_put_owned; [done|]. pose proof (inv_owned _ _ Hs a).
  pose proof (length_remove_one c (owned s a)). lia.
Qed.

Lemma safe_owned_try_push a c : safe Inv (owned_try_push MaxIpfsOwned a c).
Proof.
  intros s Hs. unfold owned_try_push. wp_steps. unfold try_push.
  destruct (Z.ltb_spec (Z.of_nat (length (owned s a))) MaxIpfsOwned); wp_steps; [|done].
  apply (Inv_put_owned s); [done|]. rewrite length_app. simpl. lia.
Qed.

Lemma safe_determine c a : safe Inv (determine_account_ownership_layer c a).
Proof.
  apply safe_bind; [auto with frame|]. intros [i|]; [|auto with frame].
  destruct (owners i !! a); auto with frame.
Qed.

Lemma safe_ensure_owner c a : safe Inv (ensure_owner c a).
Proof. apply safe_bind; [apply safe_determine|]. auto with frame. Qed.
End Invariant.

#[export] Hint Resolve safe_deposit_event safe_push_command safe_take_queue
  safe_ensure_signed safe_owned_swap_remove safe_owned_try_push safe_determine
  safe_ensure_owner : frame.

(** Splits a program into its steps and closes those the database covers. *)
Ltac safe_steps :=
  repeat (first [ solve [auto with frame] | apply safe_bind; [|intros ?] ]).

(** Who holds which layer on which cid: what the registry promises. *)
Definition layer_of (s : IpfsState) (c : bytes) (a : AccountId) : option OwnershipLayer :=
  IpfsAsset s !! c ≫= fun i => owners i !! a.

(** Why [who] may not manage [c]. *)
Definition owner_error (s : IpfsState) (c : bytes) (who : AccountId) : IpfsError :=
  match IpfsAsset s !! c with
  | None => IpfsNotExist
  | Some i => match owners i !! who with None => AccNotExist | Some _ => NotIpfsOwner end
  end.

(** The state-preserving checks, with what each exit knows. *)
Section Checks.
Implicit Types (s : IpfsState) (a : AccountId) (c : bytes).

Lemma wp_ensure_signed {S} (o : RawOrigin) (Q : AccountId -> S -> Prop) R (s : S) :
  (forall who, o = Signed who -> Q who s) -> R BadOrigin s ->
  wp (ensure_signed (ME := IpfsError) o) Q R s.
Proof. destruct o; simpl; intros HQ HR; wp_steps; auto. Qed.

Lemma wp_determine c a Q R s :
  (forall i l, IpfsAsset s !! c = Some i -> owners i !! a = Some l -> Q l s) ->
  (forall i, IpfsAsset s !! c = Some i -> owners i !! a = None -> R (Module_ AccNotExist) s) ->
  (IpfsAsset s !! c = None -> R (Module_ IpfsNotExist) s) ->
  wp (determine_account_ownership_layer c a) Q R s.
Proof.
  intros HQ HR1 HR2. unfold determine_account_ownership_layer, ipfs_asset. wp_steps.
  destruct (IpfsAsset s !! c) as [i|] eqn:Hc; [|wp_steps; auto].
  destruct (owners i !! a) eqn:Ha; wp_steps; eauto.
Qed.

Lemma wp_ensure_owner c a (Q : unit -> IpfsState -> Prop) R s :
  (forall i, IpfsAsset s !! c = Some i -> owners i !! a = Some Owner -> Q tt s) ->
  (layer_of s c a <> Some Owner -> R (Module_ (owner_error s c a)) s) ->
  wp (ensure_owner c a) Q R s.
Proof.
  intros HQ HR. unfold ensure_owner, owner_error, layer_of in *. wp_steps.
  apply wp_determine; [intros i l Hi Hl|intros i Hi Hl|intros Hi];
    rewrite Hi in HR; simpl in HR; rewrite ?Hl in HR; [|auto..].
  wp_steps; case_bool_decide; naive_solver.
Qed.
End Checks.

Ltac ipfs_step :=
  lazymatch goal with
  | |- wp (ensure_signed _) _ _ _ => apply wp_ensure_signed; [intros ? ?|]
  | |- wp (ensure_owner _ _) _ _ _ => apply wp_ensure_owner; [intros ? ? ?|intros ?]
  | |- wp (determine_account_ownership_layer _ _) _ _ _ => apply wp_determine; intros
  | |- wp (bind (insert_asset _ _) _) _ _ _ => fail
  | |- _ => wp_step
  end; cbv beta.
Ltac ipfs_steps := repeat ipfs_step.

Section IndexSteps.
Context (MaxIpfsOwned : Z).
Implicit Types (s : IpfsState) (c : bytes) (a b : AccountId).

Lemma wp_owned_try_push a c (Q : unit -> IpfsState -> Prop) R s :
  (Z.of_nat (length (owned s a)) < MaxIpfsOwned -> Q tt (put_owned a (owned s a ++ [c]) s)) ->
  (MaxIpfsOwned <= Z.of_nat (length (owned s a)) -> R (Module_ ExceedMaxIpfsOwned) s) ->
  wp (owned_try_push MaxIpfsOwned a c) Q R s.
Proof.
  intros HQ HR. unfold owned_try_push, try_push. wp_steps.
  destruct (Z.ltb_spec (Z.of_nat (length (owned s a))) MaxIpfsOwned); wp_steps; auto.
Qed.

Lemma wp_owned_swap_remove a c (Q : unit -> IpfsState -> Prop) R s :
  Q tt (put_owned a (remove_one c (owned s a)) s) -> wp (owned_swap_remove a c) Q R s.
Proof. intros HQ. unfold wp. by rewrite owned_swap_remove_eq. Qed.

(** The deletion, from a state where the counter is not zero. *)
Lemma wp_submit_ipfs_delete_results c who (Q : unit -> IpfsState -> Prop) R s :
  Inv MaxIpfsOwned s ->
  (forall i t, IpfsAsset s !! c = Some i ->
     t = mkIpfsState (ipfs_sys s) [] (IpfsCnt s - 1) (delete c (IpfsAsset s)) (IpfsAssetOwned t) ->
     (forall b, owned t b = if decide (is_Some (owners i !! b))
                            then remove_one c (owned s b) else owned s b) ->
     Q tt t) ->
  (IpfsAsset s !! c = None -> R (Module_ IpfsNotExist) (set_DataQueue [] s)) ->
  wp (submit_ipfs_delete_results (Signed who) c) Q R s.
Proof.
  intros Hs HQ HR. unfold submit_ipfs_delete_results, take_queue, ipfs_asset. simpl.
  wp_steps; [|auto].
  match goal with H : _ !! c = Some ?i |- _ => rename i into asset; rename H into Hc end.
  set (t := set_DataQueue [] s).
  destruct (delete_loop_eq (btree_keys (owners asset)) c t (NoDup_btree_keys _))
    as (u & Hu & Heq & Ho).
  unfold wp at 1. rewrite Hu. wp_steps.
  assert (IpfsCnt u = IpfsCnt s) as Hcnt by (by rewrite Heq).
  pose proof (map_size_pos _ _ _ Hc) as Hsz. simpl in Hsz.
  pose proof (inv_cnt _ _ Hs) as Hb.
  apply (wp_unwrap _ _ _ _ (IpfsCnt s - 1)).
  { rewrite Hcnt. unfold checked_sub. case_match; [done|lia]. }
  wp_steps. apply (HQ asset); [done| |].
  - rewrite Heq. done.
  - intros b. unfold owned at 1. simpl. change (owned u b = _) || fold (owned u b).
    rewrite Ho. change (owned t b) with (owned s b).
    repeat case_decide; rewrite elem_of_btree_keys in *; done.
Qed.
End IndexSteps.

Section InvariantCalls.
Context (MaxIpfsOwned : Z).
Local Abbreviation Inv := (Inv MaxIpfsOwned).
Implicit Types (s : IpfsState).

(** Writing back an asset changed only in its owners or its pin. *)
Lemma wp_insert_update c i j s (k : unit -> M IpfsState IpfsDispatchError unit) :
  Inv s -> IpfsAsset s !! c = Some i -> cid j = cid i -> gateway_url j = gateway_url i ->
  safe Inv (k tt) -> wp (bind (insert_asset c j) k) (fun _ => Inv) (fun _ => Inv) s.
Proof.
  intros Hs Hc Hcid Hgw Hk. apply wp_bind, wp_modify, Hk.
  by eapply Inv_update_asset.
Qed.

Lemma submit_ipfs_add_results_safe o admin c sz :
  safe Inv (submit_ipfs_add_results MaxIpfsOwned o admin c sz).
Proof.
  intros s Hs. unfold submit_ipfs_add_results, take_queue, owned_try_push, insert_asset.
  ipfs_steps; try (by eapply Inv_frame, Hs).
  change (owned (set_DataQueue [] s) admin) with (owned s admin). unfold try_push.
  destruct (Z.ltb_spec (Z.of_nat (length (owned s admin))) MaxIpfsOwned);
    ipfs_steps; [|by eapply Inv_frame, Hs].
  destruct Hs as [Ha Hb Hc]. split; simpl.
  - intros d k. rewrite lookup_insert. case_decide; [|apply Ha]. intros [= <-]. by subst.
  - intros b. change (Z.of_nat (length (owned (put_owned admin (owned s admin ++ [c]) s) b))
                      <= Z.max 0 MaxIpfsOwned).
    rewrite owned_put. case_decide; [|done]. rewrite length_app. simpl. lia.
  - unfold checked_add in *. simpl in *. case_match; simplify_eq.
    rewrite map_size_insert. case_match; unfold id; lia.
Qed.

Lemma submit_ipfs_delete_results_safe o c : safe Inv (submit_ipfs_delete_results o c).
Proof.
  intros s Hs. destruct o as [|who|]; [done| |done].
  apply (wp_submit_ipfs_delete_results MaxIpfsOwned); [done| |by intros; eapply Inv_frame, Hs].
  intros i t Hc Ht Ho. destruct Hs as [Ha Hown Hb]. split.
  - intros d k Hd. rewrite Ht in Hd. simpl in Hd. apply lookup_delete_Some in Hd as [_ Hd]. by apply Ha.
  - intros b. rewrite Ho. pose proof (Hown b).
    pose proof (length_remove_one c (owned s b)). case_decide; lia.
  - rewrite Ht. simpl. pose proof (map_size_pos _ _ _ Hc). rewrite map_size_delete, Hc. lia.
Qed.

Theorem dispatch_safe o call : safe Inv (dispatch MaxIpfsOwned o call).
Proof.
  destruct call; simpl.
  - unfold create_ipfs_asset. safe_steps.
  - unfold create_ipfs_asset_raw. safe_steps.
  - unfold pin_ipfs_asset. safe_steps.
  - unfold unpin_ipfs_asset. safe_steps.
  - unfold delete_ipfs_asset. safe_steps. case_match; safe_steps.
  - unfold read_file. safe_steps.
  - unfold submit_ipfs_identity. safe_steps.
  - apply submit_ipfs_add_results_safe.
  - intros s Hs. unfold submit_ipfs_pin_results. ipfs_steps; try done.
    by eapply wp_insert_update; eauto with frame.
  - intros s Hs. unfold submit_ipfs_unpin_results. ipfs_steps; try done.
    eapply wp_insert_update; eauto with frame.
  - apply submit_ipfs_delete_results_safe.
  - intros s Hs. unfold add_owner. ipfs_steps; try done.
    unfold ipfs_asset in *; simplify_eq. eapply wp_insert_update; [done|eassumption|done..|]. safe_steps.
  - intros s Hs. unfold remove_ownership. ipfs_steps; try done.
    unfold ipfs_asset in *; simplify_eq. eapply wp_insert_update; [done|eassumption|done..|]. safe_steps.
  - intros s Hs. unfold change_ownership. ipfs_steps; try done.
    unfold ipfs_asset in *; simplify_eq. eapply wp_insert_update; [done|eassumption|done..|]. safe_steps.
Qed.
End InvariantCalls.

(* ===================================================================== *)
(** ** Reachable states *)
Section Reachable.
Context (MaxIpfsOwned : Z).
Local Abbreviation Inv := (Inv MaxIpfsOwned).

Lemma Inv_genesis : Inv genesis.
Proof.
  split; simpl.
  - intros c i. by rewrite lookup_empty.
  - intros a. unfold owned. simpl. rewrite lookup_empty. simpl. lia.
  - rewrite map_size_empty. vm_compute. by split.
Qed.

Lemma step_Inv s s' : Inv s -> step MaxIpfsOwned s s' -> Inv s'.
Proof.
  intros Hs Hst. destruct Hst as [o call t t' Ht|n t t' Ht].
  - pose proof (dispatch_safe MaxIpfsOwned o call t Hs) as Hd.
    unfold apply_extrinsic, wp in *. simpl in Ht.
    destruct (dispatch MaxIpfsOwned o call t); naive_solver.
  - injection Ht as <-. unfold on_initialize. case_match; by eapply Inv_frame, Hs.
Qed.

(** C28: From the empty registry, whatever extrinsics are applied in whatever
    blocks, with every error keeping its partial writes: assets stay filed
    under their own cid and gateway address, no account is indexed with more
    than [MaxIpfsOwned] cids, the counter is never below the number of
    assets, and no call panics; in particular the
    [checked_sub(1).unwrap()] of [submit_ipfs_delete_results] never fails. *)
Theorem reachable_well_formed s :
  rtc (step MaxIpfsOwned) genesis s ->
  Inv s /\ forall o call, dispatch MaxIpfsOwned o call s <> Panic.
Proof.
  intros Hr. assert (Inv s) as Hs.
  { revert Hr. apply (rtc_ind_r (fun t => Inv t)); [apply Inv_genesis|].
    intros y z _ Hyz Hy. by eapply step_Inv. }
  split; [done|]. intros o call Hp.
  pose proof (dispatch_safe MaxIpfsOwned o call s Hs) as Hd.
  unfold wp in Hd. by rewrite Hp in Hd.
Qed.
End Reachable.

(* ===================================================================== *)
(** ** Ownership: the abstract table and access control *)

Definition table := bytes -> AccountId -> option OwnershipLayer.

Definition update_cid (c : bytes) (row : AccountId -> option OwnershipLayer) (t : table) : table :=
  fun d => if decide (d = c) then row else t d.

Definition update_layer (c : bytes) (a : AccountId) (l : option OwnershipLayer) (t : table) : table :=
  update_cid c (fun b => if decide (b = a) then l else t c b) t.

(** The abstract effect of a successful call. *)
Definition table_step (call : Call) (t : table) : table :=
  match call with
  | submit_ipfs_add_results_call admin c _ =>
      update_cid c (fun b => if decide (b = admin) then Some Owner else None) t
  | submit_ipfs_delete_results_call c => update_cid c (fun _ => None) t
  | add_owner_call c a l | change_ownership_call c a l => update_layer c a (Some l) t
  | remove_ownership_call c a => update_layer c a None t
  | _ => t
  end.

(** The calls that write the owners before the index write that can fail. *)
Definition writes_owners_first (call : Call) : bool :=
  match call with add_owner_call _ _ _ | change_ownership_call _ _ _ => true | _ => false end.

(** The cid a call manages on behalf of its owner. *)
Definition managed_cid (call : Call) : option bytes :=
  match call with
  | pin_ipfs_asset_call _ c | unpin_ipfs_asset_call _ c | delete_ipfs_asset_call _ c
  | read_file_call _ c | add_owner_call c _ _ | remove_ownership_call c _
  | change_ownership_call c _ _ => Some c
  | _ => None
  end.

Definition removes_self (who : AccountId) (call : Call) : bool :=
  match call with remove_ownership_call _ a => bool_decide (who = a) | _ => false end.

Section AccessControl.
Context (MaxIpfsOwned : Z).
Implicit Types (s : IpfsState) (c : bytes).

Lemma ensure_owner_err s c who :
  layer_of s c who <> Some Owner ->
  ensure_owner c who s = Err (Module_ (owner_error s c who)) s.
Proof.
  unfold layer_of, owner_error, ensure_owner, determine_account_ownership_layer, bind, gets, ipfs_asset.
  destruct (IpfsAsset s !! c) as [i|]; simpl; [|done].
  destruct (owners i !! who) as [l|]; simpl; [|done].
  intros Hl. rewrite bool_decide_eq_false_2; [done|congruence].
Qed.

Lemma ensure_owner_ok s c who :
  layer_of s c who = Some Owner -> ensure_owner c who s = Ok tt s.
Proof.
  unfold layer_of, ensure_owner, determine_account_ownership_layer, bind, gets, ipfs_asset.
  destruct (IpfsAsset s !! c) as [i|]; simpl; [|done].
  by intros ->.
Qed.

(** Access control.  A call without a signature does nothing but return
    [BadOrigin], and a signer that is not an [Owner] of the asset a
    management call (pin, unpin, delete, read, share, revoke, change) names
    gets exactly the error that says why, with the whole state, events
    included, unchanged. *)
Theorem management_needs_owner s o call c :
  managed_cid call = Some c ->
  match o with
  | Signed who =>
      layer_of s c who <> Some Owner ->
      dispatch MaxIpfsOwned o call s =
        Err (Module_ (if removes_self who call then SameAccount else owner_error s c who)) s
  | _ => dispatch MaxIpfsOwned o call s = Err BadOrigin s
  end.
Proof.
  intros Hm. destruct o as [|who|]; [by destruct call| |by destruct call].
  intros Hl. pose proof (ensure_owner_err s c who Hl) as He.
  destruct call; simpl in Hm; simplify_eq; simpl; cbv [pin_ipfs_asset unpin_ipfs_asset
    delete_ipfs_asset read_file add_owner remove_ownership change_ownership bind ret];
    simpl; rewrite ?He; try done.
  unfold ensure. case_bool_decide; simpl; [done|]. by rewrite He.
Qed.
End AccessControl.

Section Ownership.
Context (MaxIpfsOwned : Z).
Implicit Types (s : IpfsState) (c d : bytes) (a b : AccountId).

Lemma layer_of_insert c j s d b :
  layer_of (set_IpfsAsset (<[c := j]> (IpfsAsset s)) s) d b =
  update_cid c (fun b => owners j !! b) (layer_of s) d b.
Proof.
  unfold layer_of, update_cid. simpl. rewrite lookup_insert.
  repeat case_decide; naive_solver.
Qed.

(** The table after writing back [c] with the layer of [a] replaced. *)
Lemma layer_of_update c i a l s d b :
  IpfsAsset s !! c = Some i ->
  layer_of (set_IpfsAsset (<[c := set_owners (<[a := l]> (owners i)) i]> (IpfsAsset s)) s) d b =
  update_layer c a (Some l) (layer_of s) d b.
Proof.
  intros Hc. rewrite layer_of_insert. unfold update_layer, update_cid. case_decide; [|done].
  simpl. rewrite lookup_insert. unfold layer_of. rewrite Hc. simpl.
  repeat case_decide; congruence.
Qed.

Lemma layer_of_remove c i a s d b :
  IpfsAsset s !! c = Some i ->
  layer_of (set_IpfsAsset (<[c := set_owners (delete a (owners i)) i]> (IpfsAsset s)) s) d b =
  update_layer c a None (layer_of s) d b.
Proof.
  intros Hc. rewrite layer_of_insert. unfold update_layer, update_cid. case_decide; [|done].
  simpl. rewrite lookup_delete. unfold layer_of. rewrite Hc. simpl.
  repeat case_decide; congruence.
Qed.

Lemma layer_of_pinned c i p s d b :
  IpfsAsset s !! c = Some i ->
  layer_of (set_IpfsAsset (<[c := set_pinned p i]> (IpfsAsset s)) s) d b = layer_of s d b.
Proof.
  intros Hc. rewrite layer_of_insert. unfold update_cid, layer_of. simpl.
  case_decide; [subst; by rewrite Hc|done].
Qed.
End Ownership.

(** Unfolds the writes of a call and runs it. *)
Ltac ipfs_run :=
  cbv [push_command take_queue insert_asset deposit_event];
  repeat first
    [ ipfs_step
    | apply wp_owned_try_push; intros
    | apply wp_owned_swap_remove ].

Section Refinement.
Context (MaxIpfsOwned : Z).
Implicit Types (s : IpfsState) (c d : bytes) (a b : AccountId).

(** C15: The registry implements the ownership table.  On success every call
    changes who holds which layer exactly as its abstract effect says; on an
    error the table is unchanged, except that [add_owner] and
    [change_ownership] that run into the account's limit
    ([ExceedMaxIpfsOwned]) have already written the owners. *)
Theorem ownership_refinement s o call :
  Inv MaxIpfsOwned s ->
  wp (dispatch MaxIpfsOwned o call)
    (fun _ s' => forall d b, layer_of s' d b = table_step call (layer_of s) d b)
    (fun e s' => forall d b,
       layer_of s' d b =
       (if writes_owners_first call then
          match e with Module_ ExceedMaxIpfsOwned => table_step call (layer_of s) | _ => layer_of s end
        else layer_of s) d b)
    s.
Proof.
  intros Hs. destruct o as [|who|]; [by destruct call| |by destruct call].
  destruct call; simpl;
    cbv [create_ipfs_asset create_ipfs_asset_raw pin_ipfs_asset unpin_ipfs_asset delete_ipfs_asset
         read_file submit_ipfs_identity submit_ipfs_add_results submit_ipfs_pin_results
         submit_ipfs_unpin_results add_owner remove_ownership change_ownership];
    ipfs_run; unfold ipfs_asset in *; simplify_eq; try done.
  - case_match; ipfs_run; done.
  - intros d b. unfold layer_of, update_cid. simpl. rewrite lookup_insert.
    repeat case_decide; simplify_eq; try done; simpl; rewrite lookup_insert; by case_decide.
  - intros d b. by apply layer_of_pinned.
  - intros d b. by apply layer_of_pinned.
  - apply (wp_submit_ipfs_delete_results MaxIpfsOwned); [done| |done].
    intros i t _ Ht _ d b. rewrite Ht. unfold layer_of, update_cid. simpl.
    rewrite lookup_delete. by repeat case_decide; simplify_eq.
  - intros d b. by eapply layer_of_update.
  - by eapply layer_of_update.
  - unfold owner_error. by repeat case_match.
  - intros d b. by eapply layer_of_remove.
  - intros d b. by eapply layer_of_update.
  - by eapply layer_of_update.
  - unfold owner_error. by repeat case_match.
Qed.
End Refinement.

(* ===================================================================== *)
(** ** A concrete registry *)

(** One pinned asset owned by account 1, registered in block 1. *)
Definition ex_cid : bytes := bytes_of_string "Qm1".
Definition ex_ipfs : Ipfs := mkIpfs ex_cid 5 (GATEWAY ++ ex_cid) {[1%N := Owner]} 1 1 true.
Definition ex_one : IpfsState :=
  mkIpfsState (mkSystem ∅ 1 0 []) [] 1 {[ex_cid := ex_ipfs]} {[1%N := [ex_cid]]}.

Lemma owned_ex_one a : owned ex_one a = if decide (a = 1%N) then [ex_cid] else [].
Proof.
  unfold owned. simpl. case_decide; [subst; by rewrite lookup_singleton_eq|].
  by rewrite lookup_singleton_ne.
Qed.

Lemma Inv_ex_one : Inv 3 ex_one.
Proof.
  split.
  - intros c i. simpl. rewrite lookup_singleton_Some. by intros [<- <-].
  - intros a. rewrite owned_ex_one. case_decide; simpl; lia.
  - simpl. rewrite map_size_singleton. vm_compute. by split.
Qed.

Lemma reachable_well_formed_witness :
  Inv 3 ex_one /\ forall o call, dispatch 3 o call ex_one <> Panic.
Proof.
  apply (reachable_well_formed 3).
  eapply rtc_l; [eapply (step_block 3 1); reflexivity|].
  apply rtc_once, (step_extrinsic 3 (Signed 7%N)
    (submit_ipfs_add_results_call 1%N ex_cid 5)). vm_compute. reflexivity.
Defined.

Lemma management_needs_owner_witness :
  dispatch 3 (Signed 2%N) (delete_ipfs_asset_call [] ex_cid) ex_one =
    Err (Module_ AccNotExist) ex_one.
Proof.
  apply (management_needs_owner 3 ex_one (Signed 2%N)
    (delete_ipfs_asset_call [] ex_cid) ex_cid); [reflexivity|].
  vm_compute. discriminate.
Defined.

Lemma ownership_refinement_witness :
  wp (dispatch 3 (Signed 1%N) (add_owner_call ex_cid 2%N Reader))
    (fun _ s' => layer_of s' ex_cid 2%N = Some Reader) (fun _ s' => True) ex_one.
Proof.
  eapply wp_mono; [apply (ownership_refinement 3 ex_one); apply Inv_ex_one| |done].
  intros [] t Ht. rewrite Ht. vm_compute. reflexivity.
Defined.
