(* ===== verification/IpfsIndex.v ===== *)
(** * pallet-ipfs: the per-account index, the results calls and the queue

    The agreement of [IpfsAssetOwned] with the owners recorded in the assets,
    the two ways the code loses it, what the unprivileged results calls can do
    to an asset, and the life time of a queued command. *)

From S2P Require Import Prelude System Ipfs IpfsFacts.

(* ===================================================================== *)
(** ** Agreement of the index with the assets *)

(** Every account is indexed with exactly the cids it holds a layer on, once
    each, and the counter is the number of assets. *)
Record Consistent (MaxIpfsOwned : Z) (s : IpfsState) : Prop := {
  con_inv : Inv MaxIpfsOwned s;
  con_nodup : forall a, NoDup (owned s a);
  con_index : forall a c, c ∈ owned s a <-> is_Some (layer_of s c a);
  con_cnt : IpfsCnt s = Z.of_nat (base.size (IpfsAsset s))
}.

(** The calls that keep the agreement: everything but [change_ownership] and
    a second registration of a cid. *)
Definition regular (s : IpfsState) (call : Call) : bool :=
  match call with
  | change_ownership_call _ _ _ => false
  | submit_ipfs_add_results_call _ c _ => bool_decide (IpfsAsset s !! c = None)
  | _ => true
  end.

Section Index.
Context (MaxIpfsOwned : Z).
Local Abbreviation Consistent := (Consistent MaxIpfsOwned).
Implicit Types (s t : IpfsState) (c d : bytes) (a b : AccountId).

Lemma Consistent_frame s t :
  IpfsAsset s = IpfsAsset t -> IpfsAssetOwned s = IpfsAssetOwned t -> IpfsCnt s = IpfsCnt t ->
  Consistent s -> Consistent t.
Proof.
  intros H1 H2 H3 [Hi Hn Hx Hc].
  assert (forall a, owned t a = owned s a) as Ho by (intros; unfold owned; by rewrite H2).
  split.
  - by eapply Inv_frame.
  - intros a. rewrite Ho. apply Hn.
  - intros a c. rewrite Ho. unfold layer_of. rewrite <- H1. apply Hx.
  - by rewrite <- H1, <- H3.
Qed.

Lemma owned_sub_layer s c a i :
  Consistent s -> IpfsAsset s !! c = Some i -> c ∈ owned s a <-> is_Some (owners i !! a).
Proof. intros Hs Hc. rewrite (con_index _ _ Hs). unfold layer_of. by rewrite Hc. Qed.

Lemma NoDup_snoc s a c :
  Consistent s -> layer_of s c a = None -> NoDup (owned s a ++ [c]).
Proof.
  intros Hs Hl. apply NoDup_app. split; [apply (con_nodup _ _ Hs)|]. split.
  - intros d Hd ->%list_elem_of_singleton. apply (con_index _ _ Hs) in Hd.
    rewrite Hl in Hd. by apply is_Some_None in Hd.
  - apply NoDup_singleton.
Qed.

(** Giving [a] a layer on [c] and indexing it. *)
Lemma Consistent_add s t c a l :
  Consistent s -> Inv MaxIpfsOwned t ->
  layer_of s c a = None ->
  (forall b, owned t b = if decide (a = b) then owned s a ++ [c] else owned s b) ->
  (forall d b, layer_of t d b = update_layer c a (Some l) (layer_of s) d b) ->
  IpfsCnt t = Z.of_nat (base.size (IpfsAsset t)) ->
  Consistent t.
Proof.
  intros Hs Hi Hn Ho Hl Hc. split; [done| | |done].
  - intros b. rewrite Ho. case_decide; [|apply (con_nodup _ _ Hs)]. by apply NoDup_snoc.
  - intros b d. rewrite Ho, Hl. unfold update_layer, update_cid.
    destruct (decide (a = b)) as [<-|Hab]; destruct (decide (d = c)) as [->|Hdc];
      rewrite ?elem_of_app, ?list_elem_of_singleton, (con_index _ _ Hs).
    + rewrite decide_True by done. split; [eauto|by right].
    + naive_solver.
    + rewrite decide_False by congruence. done.
    + done.
Qed.

(** Taking the layer of the accounts in [gone] on [c] away. *)
Lemma Consistent_remove s t c (gone : AccountId -> Prop) `{!forall b, Decision (gone b)} :
  Consistent s -> Inv MaxIpfsOwned t ->
  (forall b, owned t b = if decide (gone b) then remove_one c (owned s b) else owned s b) ->
  (forall d b, layer_of t d b =
     update_cid c (fun b => if decide (gone b) then None else layer_of s c b) (layer_of s) d b) ->
  IpfsCnt t = Z.of_nat (base.size (IpfsAsset t)) ->
  Consistent t.
Proof.
  intros Hs Hi Ho Hl Hc. split; [done| | |done].
  - intros b. rewrite Ho. pose proof (con_nodup _ _ Hs b).
    case_decide; [by apply NoDup_remove_one|done].
  - intros b d. rewrite Ho, Hl. unfold update_cid. pose proof (con_nodup _ _ Hs b).
    destruct (decide (d = c)) as [->|Hdc]; destruct (decide (gone b)) as [Hg|Hg];
      rewrite ?elem_of_remove_one, (con_index _ _ Hs) by done; try done.
    + split; [naive_solver|by intros []].
    + naive_solver.
Qed.

Lemma Consistent_update_pinned s c i p :
  Consistent s -> IpfsAsset s !! c = Some i -> Inv MaxIpfsOwned s ->
  Consistent (set_IpfsAsset (<[c := set_pinned p i]> (IpfsAsset s)) s).
Proof.
  intros Hs Hc Hi. split.
  - by eapply Inv_update_asset.
  - apply (con_nodup _ _ Hs).
  - intros a d. rewrite layer_of_pinned by done. apply (con_index _ _ Hs).
  - simpl. rewrite map_size_insert_Some by eauto. apply (con_cnt _ _ Hs).
Qed.

Lemma layer_of_unregistered s c a : IpfsAsset s !! c = None -> layer_of s c a = None.
Proof. unfold layer_of. by intros ->. Qed.

Lemma owned_none s c a : Consistent s -> c ∉ owned s a -> layer_of s c a = None.
Proof. intros Hs Hc. rewrite (con_index _ _ Hs) in Hc. by apply eq_None_not_Some. Qed.

(** The registration of a new cid. *)
Lemma Consistent_add_new s t c a :
  Consistent s -> Inv MaxIpfsOwned t -> IpfsAsset s !! c = None ->
  (exists i, IpfsAsset t = <[c := i]> (IpfsAsset s) /\ owners i = {[a := Owner]}) ->
  (forall b, owned t b = if decide (a = b) then owned s a ++ [c] else owned s b) ->
  checked_add U64 (IpfsCnt s) 1 = Some (IpfsCnt t) ->
  Consistent t.
Proof.
  intros Hs Hi Hc (i & Ht & Hw) Ho Hn.
  eapply (Consistent_add s t c a Owner); [done..|by apply layer_of_unregistered|done| |].
  - intros d b. unfold layer_of at 1. rewrite Ht, lookup_insert.
    unfold update_layer, update_cid, layer_of. repeat case_decide; simplify_eq/=; try done;
      rewrite Hw; [by rewrite lookup_singleton_eq|].
    rewrite Hc. simpl. by apply lookup_singleton_ne.
  - unfold checked_add in Hn. case_match; simplify_eq.
    pose proof (con_cnt _ _ Hs). rewrite Ht, map_size_insert_None by done. lia.
Qed.

(** The deletion of an asset with all its owners. *)
Lemma Consistent_delete s t c i :
  Consistent s -> Inv MaxIpfsOwned t -> IpfsAsset s !! c = Some i ->
  t = mkIpfsState (ipfs_sys s) [] (IpfsCnt s - 1) (delete c (IpfsAsset s)) (IpfsAssetOwned t) ->
  (forall b, owned t b = if decide (is_Some (owners i !! b))
                         then remove_one c (owned s b) else owned s b) ->
  Consistent t.
Proof.
  intros Hs Hi Hc Ht Ho.
  eapply (Consistent_remove s t c (fun b => is_Some (owners i !! b))); [done..| |].
  - intros d b. rewrite Ht. unfold layer_of, update_cid. simpl. rewrite lookup_delete, Hc. simpl.
    repeat case_decide; simplify_eq; try done. symmetry. by apply eq_None_not_Some.
  - rewrite Ht. simpl. pose proof (map_size_pos _ _ _ Hc).
    rewrite map_size_delete, Hc, (con_cnt _ _ Hs). lia.
Qed.

(** The index is right.  From a state where every account is indexed
    with exactly the cids it holds a layer on, once each, and the counter is
    the number of assets, every call but [change_ownership] and a second
    registration of a cid ends in such a state, on its success and on every
    error except an [add_owner] that hits the account's limit. *)
Theorem index_stays_consistent s o call :
  Consistent s -> regular s call = true ->
  wp (dispatch MaxIpfsOwned o call)
    (fun _ => Consistent)
    (fun e s' => writes_owners_first call = true /\ e = Module_ ExceedMaxIpfsOwned \/ Consistent s')
    s.
Proof.
  intros Hs Hr. pose proof (con_inv _ _ Hs) as Hi.
  destruct o as [|who|]; [destruct call; by right| |destruct call; by right].
  eapply wp_use; [by apply dispatch_safe|].
  destruct call; simpl in *; try done;
    cbv [create_ipfs_asset create_ipfs_asset_raw pin_ipfs_asset unpin_ipfs_asset delete_ipfs_asset
         read_file submit_ipfs_identity submit_ipfs_add_results submit_ipfs_pin_results
         submit_ipfs_unpin_results add_owner remove_ownership];
    ipfs_run; unfold ipfs_asset in *; simplify_eq;
    try (intros; first [by eapply Consistent_frame, Hs|right; by eapply Consistent_frame, Hs|by left]).
  - case_match; ipfs_run; intros; by eapply Consistent_frame, Hs.
  - intros Ht. apply bool_decide_eq_true in Hr.
    eapply (Consistent_add_new s _ c admin); [done..| | |done].
    + eexists. split; [done|]. by rewrite <- insert_empty.
    + intros b. apply (owned_put _ b _ s).
  - intros _. by eapply Consistent_frame, Consistent_update_pinned.
  - intros _. by eapply Consistent_frame, Consistent_update_pinned.
  - apply (wp_submit_ipfs_delete_results MaxIpfsOwned); [done| |].
    + intros i t Hc Ht Ho Hit. by apply (Consistent_delete s t c i).
    + intros _ _. right. by eapply Consistent_frame, Hs.
  - intros Ht. eapply (Consistent_add s _ c a l); [done..| | | |].
    + by eapply owned_none, contains_false, negb_true_iff.
    + intros b. apply (owned_put _ b _ s).
    + intros d b. by eapply layer_of_update.
    + simpl. rewrite map_size_insert_Some by eauto. apply (con_cnt _ _ Hs).
  - intros Ht. eapply (Consistent_remove s _ c (fun b => b = a)); [done..| | |].
    + intros b. etrans; [apply (owned_put a b _ s)|].
      by repeat case_decide; simplify_eq.
    + intros d b. by eapply layer_of_remove.
    + simpl. rewrite map_size_insert_Some by eauto. apply (con_cnt _ _ Hs).
Qed.
End Index.

(* ===================================================================== *)
(** ** Where the agreement is lost, and what a stranger may do *)
Section Deviations.
Context (MaxIpfsOwned : Z).
Implicit Types (s t : IpfsState) (c d : bytes) (a b : AccountId).

Lemma layer_of_Some s c a l :
  layer_of s c a = Some l -> exists i, IpfsAsset s !! c = Some i /\ owners i !! a = Some l.
Proof. unfold layer_of. destruct (IpfsAsset s !! c) as [i|]; naive_solver. Qed.

(** [change_ownership] by an owner, on an account with room in its index. *)
Lemma wp_change_ownership s who a c l l' i (Q : unit -> IpfsState -> Prop) R :
  IpfsAsset s !! c = Some i -> owners i !! who = Some Owner -> owners i !! a = Some l -> l <> l' ->
  Z.of_nat (length (owned s a)) < MaxIpfsOwned ->
  (forall y, Q tt (mkIpfsState y (DataQueue s) (IpfsCnt s)
     (<[c := set_owners (<[a := l']> (owners i)) i]> (IpfsAsset s))
     (<[a := owned s a ++ [c]]> (IpfsAssetOwned s)))) ->
  wp (change_ownership MaxIpfsOwned (Signed who) c a l') Q R s.
Proof.
  intros Hc Hw Ha Hl Hlen HQ. unfold change_ownership. simpl.
  ipfs_run; unfold ipfs_asset, owner_error in *; simplify_eq; try done.
  - apply HQ.
  - unfold owned in *. simpl in *. lia.
  - case_bool_decide; done.
  - unfold layer_of in *. by rewrite Hc in *.
Qed.

Lemma create_refused s a c addr sz :
  c ∈ owned s a ->
  create_ipfs_asset (Signed a) addr c sz s = Err (Module_ IpfsAlreadyOwned) s.
Proof.
  intros Hc%contains_true. unfold create_ipfs_asset, bind, gets, ensure. simpl. by rewrite Hc.
Qed.

(** [change_ownership] indexes the cid a second time, and the deletion of
    the asset removes one entry only.  From any consistent state, changing
    the layer of [a] on [c] and then deleting [c] succeeds, and leaves [a]
    indexed with an asset that no longer exists: [a] can never create that
    asset again. *)
Theorem change_ownership_leaves_stale_entry s who a c l l' other :
  Consistent MaxIpfsOwned s ->
  layer_of s c who = Some Owner -> layer_of s c a = Some l -> l <> l' ->
  Z.of_nat (length (owned s a)) < MaxIpfsOwned ->
  wp (change_ownership MaxIpfsOwned (Signed who) c a l' ;;
      submit_ipfs_delete_results (Signed other) c)
    (fun _ s' => IpfsAsset s' !! c = None /\ c ∈ owned s' a /\
       forall addr sz, create_ipfs_asset (Signed a) addr c sz s' = Err (Module_ IpfsAlreadyOwned) s')
    (fun _ _ => False) s.
Proof.
  intros Hs Hw Ha Hl Hlen.
  apply layer_of_Some in Hw as (i & Hc & Hw). apply layer_of_Some in Ha as (i' & Hc' & Ha).
  simplify_eq. apply wp_bind.
  pose proof (dispatch_safe MaxIpfsOwned (Signed who) (change_ownership_call c a l') s
                (con_inv _ _ Hs)) as Hinv.
  eapply wp_use; [eapply wp_mono; [exact Hinv|done|exact (fun e t _ => I)]|].
  eapply wp_change_ownership; [done..|]. intros y Hy.
  apply (wp_submit_ipfs_delete_results MaxIpfsOwned); [done| |by simpl; rewrite lookup_insert_eq].
  intros j t Hj Ht Ho. simpl in Hj. rewrite lookup_insert_eq in Hj. simplify_eq.
  assert (c ∈ owned t a) as Hin.
  { rewrite Ho. simpl. rewrite lookup_insert_eq, decide_True by done.
    unfold owned at 1. simpl. rewrite lookup_insert_eq. simpl.
    apply count_pos. rewrite count_remove_one, count_app, count_cons, decide_True by done.
    assert (c ∈ owned s a) as Hca%count_pos; [|lia].
    by apply (owned_sub_layer MaxIpfsOwned s c a i). }
  split; [rewrite Ht; simpl; apply lookup_delete_eq|]. split; [done|].
  intros addr sz. by apply create_refused.
Qed.

(** The calls by which the worker reports results check a signature and
    nothing else.  Any account with room in its index can register a cid
    that already has owners as its own: it ends as the only owner, every
    other layer on the cid is gone, and the counter counts the asset twice.
    Any account can also delete any asset. *)
Theorem results_calls_are_unprivileged s who c i sz :
  Inv MaxIpfsOwned s -> IpfsAsset s !! c = Some i ->
  Z.of_nat (length (owned s who)) < MaxIpfsOwned -> IpfsCnt s + 1 < U64 ->
  wp (submit_ipfs_add_results MaxIpfsOwned (Signed who) who c sz)
    (fun _ s' => (forall b, layer_of s' c b = if decide (b = who) then Some Owner else None) /\
       base.size (IpfsAsset s') = base.size (IpfsAsset s) /\ IpfsCnt s' = IpfsCnt s + 1)
    (fun _ _ => False) s /\
  wp (submit_ipfs_delete_results (Signed who) c)
    (fun _ s' => IpfsAsset s' !! c = None /\ IpfsCnt s' = IpfsCnt s - 1)
    (fun _ _ => False) s.
Proof.
  intros Hs Hc Hlen Hcnt. split.
  - unfold submit_ipfs_add_results. simpl. ipfs_run; unfold checked_add in *; simpl in *.
    + case_match; simplify_eq. split; [|split; [by rewrite map_size_insert_Some by eauto|done]].
      intros b. unfold layer_of. simpl. rewrite lookup_insert_eq. simpl.
      rewrite lookup_insert. by repeat case_decide; simplify_eq.
    + unfold owned in *. simpl in *. lia.
    + case_match; [done|lia].
  - apply (wp_submit_ipfs_delete_results MaxIpfsOwned); [done| |by rewrite Hc].
    intros j t _ Ht _. rewrite Ht. simpl. split; [apply lookup_delete_eq|done].
Qed.
End Deviations.

(* ===================================================================== *)
(** ** The life time of a queued command *)

(** The commands a call puts into the queue, at most. *)
Definition commands_of (xt : RawOrigin * Call) : list DataCommand :=
  match xt with
  | (Signed who, create_ipfs_asset_call addr c sz) => [AddBytes addr c sz who true]
  | (Signed who, create_ipfs_asset_raw_call addr d) => [AddBytesRaw addr d who true]
  | (Signed who, pin_ipfs_asset_call addr c) => [InsertPin addr c who true]
  | (Signed who, unpin_ipfs_asset_call addr c) => [RemovePin addr c who true]
  | (Signed who, delete_ipfs_asset_call addr c) => [RemovePin addr c who true; RemoveBlock addr c who]
  | (Signed who, read_file_call addr c) => [CatBytes addr c who]
  | _ => []
  end.

Section Queue.
Context (MaxIpfsOwned : Z).
Implicit Types (s t : IpfsState) (xt : RawOrigin * Call).

(** An extrinsic adds its own commands only. *)
Lemma dispatch_queue o call s :
  Inv MaxIpfsOwned s ->
  wp (dispatch MaxIpfsOwned o call)
    (fun _ t => DataQueue t ⊆ DataQueue s ++ commands_of (o, call))
    (fun _ t => DataQueue t ⊆ DataQueue s ++ commands_of (o, call)) s.
Proof.
  intros Hs. destruct o as [|who|]; [destruct call; set_solver| |destruct call; set_solver].
  destruct call; simpl;
    cbv [create_ipfs_asset create_ipfs_asset_raw pin_ipfs_asset unpin_ipfs_asset delete_ipfs_asset
         read_file submit_ipfs_identity submit_ipfs_add_results submit_ipfs_pin_results
         submit_ipfs_unpin_results add_owner remove_ownership change_ownership];
    ipfs_run; simplify_eq; simpl; try set_solver.
  - case_match; ipfs_run; simpl; set_solver.
  - apply (wp_submit_ipfs_delete_results MaxIpfsOwned); [done| |set_solver].
    intros i t _ -> _. set_solver.
Qed.

Lemma apply_extrinsic_spec xt s :
  Inv MaxIpfsOwned s ->
  exists t, apply_extrinsic MaxIpfsOwned xt s = Some t /\ Inv MaxIpfsOwned t /\
    DataQueue t ⊆ DataQueue s ++ commands_of xt.
Proof.
  destruct xt as [o call]. intros Hs.
  pose proof (dispatch_safe MaxIpfsOwned o call s Hs) as Hd.
  pose proof (dispatch_queue o call s Hs) as Hq.
  unfold apply_extrinsic, wp in *. simpl. destruct (dispatch _ _ _ _); naive_solver.
Qed.

Lemma apply_extrinsics_spec xts s :
  Inv MaxIpfsOwned s ->
  exists t, foldl (fun acc xt => acc ≫= apply_extrinsic MaxIpfsOwned xt) (Some s) xts = Some t /\
    Inv MaxIpfsOwned t /\ DataQueue t ⊆ DataQueue s ++ (xts ≫= commands_of).
Proof.
  revert s. induction xts as [|xt xts IH]; intros s Hs; simpl.
  - exists s. set_solver.
  - destruct (apply_extrinsic_spec xt s Hs) as (t & -> & Ht & Hq). simpl.
    destruct (IH t Ht) as (u & -> & Hu & Hqu). exists u. set_solver.
Qed.

Lemma exec_block_spec n xts s :
  Inv MaxIpfsOwned s ->
  exists t, exec_block MaxIpfsOwned n xts s = Some t /\ Inv MaxIpfsOwned t /\
    DataQueue t ⊆ (if n mod 2 =? 1 then [] else DataQueue s) ++ (xts ≫= commands_of).
Proof.
  intros Hs. unfold exec_block, begin_block, initialize, bind, modify, on_initialize.
  set (t := if n mod 2 =? 1 then _ else _).
  destruct (apply_extrinsics_spec xts t) as (u & -> & Hu & Hq).
  - unfold t. case_match; by eapply Inv_frame, Hs.
  - exists u. split; [done|]. split; [done|]. revert Hq. unfold t. by case_match.
Qed.

(** A command waits for at most two blocks.  From any well-formed
    state, two consecutive blocks always execute, whatever their
    extrinsics, and the queue that the worker of the second one sees holds
    only commands that an extrinsic of these two blocks put there. *)
Theorem command_lives_two_blocks n xts xts' s :
  Inv MaxIpfsOwned s ->
  exists s1 s2,
    exec_block MaxIpfsOwned n xts s = Some s1 /\
    exec_block MaxIpfsOwned (n + 1) xts' s1 = Some s2 /\
    DataQueue s2 ⊆ (xts ++ xts') ≫= commands_of.
Proof.
  intros Hs. destruct (exec_block_spec n xts s Hs) as (s1 & -> & Hs1 & Hq1).
  destruct (exec_block_spec (n + 1) xts' s1 Hs1) as (s2 & H2 & _ & Hq2).
  exists s1, s2. split; [done|]. split; [done|]. rewrite bind_app.
  assert ((n + 1) mod 2 = 1 \/ n mod 2 = 1) as [He|He] by (Z.div_mod_to_equations; lia);
    rewrite He in *; simpl in *; [set_solver|].
  case_match; set_solver.
Qed.
End Queue.

(* ===================================================================== *)
(** ** The concrete registry *)
Lemma Consistent_ex_one : Consistent 3 ex_one.
Proof.
  split; [apply Inv_ex_one| | |].
  - intros a. rewrite owned_ex_one. case_decide; [apply NoDup_singleton|constructor].
  - intros a c. rewrite owned_ex_one. unfold layer_of. simpl.
    destruct (decide (c = ex_cid)) as [->|Hc].
    + rewrite lookup_singleton_eq. simpl. case_decide as Ha; [subst|].
      * rewrite lookup_singleton_eq. set_solver.
      * rewrite lookup_singleton_ne by done. split; [set_solver|by intros []].
    + rewrite lookup_singleton_ne by done. simpl.
      split; [case_decide; set_solver|by intros []].
  - simpl. by rewrite map_size_singleton.
Qed.

Lemma index_stays_consistent_witness :
  wp (dispatch 3 (Signed 1%N) (add_owner_call ex_cid 2%N Reader))
    (fun _ => Consistent 3) (fun _ _ => True) ex_one.
Proof.
  eapply wp_mono; [apply (index_stays_consistent 3 ex_one)| |done].
  - apply Consistent_ex_one.
  - reflexivity.
  - done.
Defined.

Lemma change_ownership_leaves_stale_entry_witness :
  wp (change_ownership 3 (Signed 1%N) ex_cid 1%N Editor ;;
      submit_ipfs_delete_results (Signed 9%N) ex_cid)
    (fun _ s' => ex_cid ∈ owned s' 1%N) (fun _ _ => False) ex_one.
Proof.
  eapply wp_mono; [apply (change_ownership_leaves_stale_entry 3 ex_one 1%N 1%N
    ex_cid Owner Editor 9%N)| |done].
  - apply Consistent_ex_one.
  - vm_compute. reflexivity.
  - vm_compute. reflexivity.
  - discriminate.
  - vm_compute. reflexivity.
  - intros [] t (_ & Ht & _). exact Ht.
Defined.

Lemma results_calls_are_unprivileged_witness :
  wp (submit_ipfs_add_results 3 (Signed 9%N) 9%N ex_cid 5)
    (fun _ s' => layer_of s' ex_cid 1%N = None) (fun _ _ => False) ex_one.
Proof.
  eapply wp_mono; [apply (results_calls_are_unprivileged 3 ex_one 9%N ex_cid ex_ipfs 5)| |done].
  - apply Inv_ex_one.
  - vm_compute. reflexivity.
  - vm_compute. reflexivity.
  - vm_compute. reflexivity.
  - intros [] t [Ht _]. rewrite Ht. reflexivity.
Defined.

Lemma command_lives_two_blocks_witness :
  exists s1 s2,
    exec_block 3 2 [(Signed 1%N, read_file_call [] ex_cid)] ex_one = Some s1 /\
    exec_block 3 3 [] s1 = Some s2 /\ DataQueue s2 ⊆ [CatBytes [] ex_cid 1%N].
Proof.
  apply (command_lives_two_blocks 3 2 [(Signed 1%N, read_file_call [] ex_cid)] [] ex_one).
  apply Inv_ex_one.
Defined.
