(* ===== verification/Balances.v ===== *)
(** * pallet_balances: the native currency

    Models [frame/balances/src/lib.rs] as the runtime configures it
    ([bin/node/runtime/src/lib.rs]): balances are [u128]s kept in the system's
    account map, dust is dropped.  The existential deposit and the bounds are
    parameters.  Every operation of the [Currency], [ReservableCurrency],
    [NamedReservableCurrency], [LockableCurrency] and [fungible] traits, the
    dispatchables and the genesis build are definitions; imbalances are values
    with drop glue that squares up the total issuance. *)

From S2P Require Import Prelude System.

(* ===================================================================== *)
(** ** Data *)

(** The width of [T::Balance]. *)
Abbreviation UB := U128.

Record AccountData := mkAccountData {
  free : Z;
  reserved : Z;
  misc_frozen : Z;
  fee_frozen : Z
}.

#[export] Instance AccountData_default : Default AccountData := mkAccountData 0 0 0 0.
#[export] Instance AccountData_eq_dec : EqDecision AccountData.
Proof. solve_decision. Defined.

Definition set_free x (a : AccountData) := mkAccountData x (reserved a) (misc_frozen a) (fee_frozen a).
Definition set_reserved x (a : AccountData) := mkAccountData (free a) x (misc_frozen a) (fee_frozen a).
Definition set_frozen m f (a : AccountData) := mkAccountData (free a) (reserved a) m f.

Inductive Reasons := Fee | Misc | All.
#[export] Instance Reasons_eq_dec : EqDecision Reasons.
Proof. solve_decision. Defined.

(** The bit flags of [WithdrawReasons]. *)
Definition TRANSACTION_PAYMENT : Z := 1.
Definition TRANSFER : Z := 2.
Definition RESERVE : Z := 4.
Definition FEE : Z := 8.
Definition TIP : Z := 16.

(** [From<WithdrawReasons> for Reasons] *)
Definition reasons_from (r : Z) : Reasons :=
  if r =? TRANSACTION_PAYMENT then Fee
  else if Z.land r TRANSACTION_PAYMENT =? TRANSACTION_PAYMENT then All
  else Misc.

(** [BitOr for Reasons] *)
Definition bitor (x y : Reasons) : Reasons := if decide (x = y) then x else All.

(** [LockIdentifier] and the runtime's [ReserveIdentifier] are [[u8; 8]]. *)
#[export] Instance Drop_AccountData S E : Drop S E AccountData := fun _ => ret tt.

Record BalanceLock := mkLock { lock_id : N; lock_amount : Z; lock_reasons : Reasons }.
Record ReserveData := mkReserve { res_id : N; res_amount : Z }.

Definition frozen (a : AccountData) (reasons : Reasons) : Z :=
  match reasons with
  | All => Z.max (misc_frozen a) (fee_frozen a)
  | Misc => misc_frozen a
  | Fee => fee_frozen a
  end.
Definition usable (a : AccountData) (reasons : Reasons) : Z :=
  saturating_sub (free a) (frozen a reasons).
Definition total (a : AccountData) : Z := saturating_add UB (free a) (reserved a).

Inductive BalancesError :=
| VestingBalance
| LiquidityRestrictions
| InsufficientBalance
| ExistentialDepositErr
| KeepAliveErr
| ExistingVestingSchedule
| DeadAccount
| TooManyReserves.

Inductive BalancesEvent :=
| Endowed (who : AccountId) (free_balance : Z)
| DustLost (who : AccountId) (balance : Z)
| Transfer (from to : AccountId) (value : Z)
| BalanceSet (who : AccountId) (free reserved : Z)
| Deposit (who : AccountId) (deposit : Z)
| Reserved (who : AccountId) (value : Z)
| Unreserved (who : AccountId) (value : Z)
| ReserveRepatriated (from to : AccountId) (balance : Z) (destination_status : BalanceStatus)
| BalancesSystem (e : SystemEvent).

#[export] Instance From_BalancesSystem : From SystemEvent BalancesEvent := BalancesSystem.

(* ===================================================================== *)
(** ** Storage *)

Record BalancesState := mkBalances {
  bal_sys : SystemState AccountData BalancesEvent;
  TotalIssuance : Z;
  Locks : gmap AccountId (list BalanceLock);
  Reserves : gmap AccountId (list ReserveData)
}.

#[export] Program Instance BalancesState_HasSystem :
    HasSystem BalancesState AccountData BalancesEvent := {|
  sys := bal_sys;
  set_sys y s := mkBalances y (TotalIssuance s) (Locks s) (Reserves s)
|}.
Next Obligation. done. Qed.
Next Obligation. by intros []. Qed.
Next Obligation. done. Qed.

Definition set_TotalIssuance x (s : BalancesState) := mkBalances (bal_sys s) x (Locks s) (Reserves s).
Definition set_Locks m (s : BalancesState) := mkBalances (bal_sys s) (TotalIssuance s) m (Reserves s).
Definition set_Reserves m (s : BalancesState) := mkBalances (bal_sys s) (TotalIssuance s) (Locks s) m.

Abbreviation BalancesDispatchError := (DispatchError BalancesError).
Abbreviation MB := (M BalancesState BalancesDispatchError).

(* ===================================================================== *)
(** ** Imbalances *)

Record PositiveImbalance := Positive { pos : Z }.
Record NegativeImbalance := Negative { neg : Z }.

Inductive SameOrOther (A B : Type) :=
| SameOrOther_None
| Same (a : A)
| OtherOne (b : B).
Arguments SameOrOther_None {A B}.
Arguments Same {A B} a.
Arguments OtherOne {A B} b.

Inductive SignedImbalance :=
| SignedPositive (i : PositiveImbalance)
| SignedNegative (i : NegativeImbalance).

(** [Drop for PositiveImbalance] and [Drop for NegativeImbalance] *)
#[export] Instance Drop_Positive : Drop BalancesState BalancesDispatchError PositiveImbalance :=
  fun i => modify (fun s => set_TotalIssuance (saturating_add UB (TotalIssuance s) (pos i)) s).
#[export] Instance Drop_Negative : Drop BalancesState BalancesDispatchError NegativeImbalance :=
  fun i => modify (fun s => set_TotalIssuance (saturating_sub (TotalIssuance s) (neg i)) s).
#[export] Instance Drop_Signed : Drop BalancesState BalancesDispatchError SignedImbalance :=
  fun i => match i with SignedPositive p => drop_glue p | SignedNegative n => drop_glue n end.

Definition positive_zero : PositiveImbalance := Positive 0.
Definition negative_zero : NegativeImbalance := Negative 0.

(** [drop_zero]: [None] for [Ok(())], the imbalance itself for [Err]. *)
Definition positive_drop_zero (i : PositiveImbalance) : option PositiveImbalance :=
  if pos i =? 0 then None else Some i.
Definition negative_drop_zero (i : NegativeImbalance) : option NegativeImbalance :=
  if neg i =? 0 then None else Some i.

Section Imbalances.
Context {P : Profile}.

Definition positive_split (i : PositiveImbalance) (amount : Z)
    : MB (PositiveImbalance * PositiveImbalance) :=
  let first := Z.min (pos i) amount in
  let! second := sub UB (pos i) first in
  ret (Positive first, Positive second).
Definition negative_split (i : NegativeImbalance) (amount : Z)
    : MB (NegativeImbalance * NegativeImbalance) :=
  let first := Z.min (neg i) amount in
  let! second := sub UB (neg i) first in
  ret (Negative first, Negative second).

Definition positive_merge (i other : PositiveImbalance) : PositiveImbalance :=
  Positive (saturating_add UB (pos i) (pos other)).
Definition negative_merge (i other : NegativeImbalance) : NegativeImbalance :=
  Negative (saturating_add UB (neg i) (neg other)).

Definition positive_offset (i : PositiveImbalance) (other : NegativeImbalance)
    : MB (SameOrOther PositiveImbalance NegativeImbalance) :=
  let '(a, b) := (pos i, neg other) in
  if b <? a then let! d := sub UB a b in ret (Same (Positive d))
  else if a <? b then let! d := sub UB b a in ret (OtherOne (Negative d))
  else ret SameOrOther_None.
Definition negative_offset (i : NegativeImbalance) (other : PositiveImbalance)
    : MB (SameOrOther NegativeImbalance PositiveImbalance) :=
  let '(a, b) := (neg i, pos other) in
  if b <? a then let! d := sub UB a b in ret (Same (Negative d))
  else if a <? b then let! d := sub UB b a in ret (OtherOne (Positive d))
  else ret SameOrOther_None.
End Imbalances.

(** [DustCleaner]: the dust of a removed account, reported and dropped when
    it goes out of scope ([T::DustRemoval] is [()]). *)
Record DustCleaner := mkDust { dust : option (AccountId * NegativeImbalance) }.

#[export] Instance Drop_DustCleaner : Drop BalancesState BalancesDispatchError DustCleaner :=
  fun c =>
    match dust c with
    | Some (who, d) => deposit_event (DustLost who (neg d)) ;; drop_glue d
    | None => ret tt
    end.

(* ===================================================================== *)
(** ** Accounts *)
Section Pallet.
Context {P : Profile}.
(** [T::ExistentialDeposit::get()], [T::MaxReserves::get()] *)
Context (ExistentialDeposit MaxReserves : Z).
Implicit Types (who : AccountId) (amount value : Z).

Definition account who (s : BalancesState) : AccountData := stored_get who s.
Definition free_balance who s : Z := free (account who s).
Definition usable_balance who s : Z := usable (account who s) Misc.
Definition usable_balance_for_fees who s : Z := usable (account who s) Fee.
Definition reserved_balance who s : Z := reserved (account who s).

Definition post_mutation (_who : AccountId) (new : AccountData)
    : option AccountData * option NegativeImbalance :=
  let t := total new in
  if t <? ExistentialDeposit then
    if t =? 0 then (None, None) else (None, Some (Negative t))
  else (Some new, None).

Definition deposit_consequence (_who : AccountId) amount (a : AccountData) (s : BalancesState)
    : DepositConsequence :=
  if amount =? 0 then D_Success
  else
    match checked_add UB (TotalIssuance s) amount with
    | None => D_Overflow
    | Some _ =>
        match checked_add UB (total a) amount with
        | None => D_Overflow
        | Some new_total_balance =>
            if new_total_balance <? ExistentialDeposit then D_BelowMinimum else D_Success
        end
    end.

Definition withdraw_consequence who amount (a : AccountData) (s : BalancesState)
    : WithdrawConsequence :=
  if amount =? 0 then W_Success
  else
    match checked_sub (TotalIssuance s) amount with
    | None => W_Underflow
    | Some _ =>
        match checked_sub (total a) amount with
        | None => W_NoFunds
        | Some new_total_balance =>
            let rest (success : WithdrawConsequence) :=
              match checked_sub (free a) amount with
              | None => W_NoFunds
              | Some new_free_balance =>
                  if new_free_balance <? frozen a All then W_Frozen else success
              end in
            if new_total_balance <? ExistentialDeposit then
              if can_dec_provider who s then rest (W_ReducedToZero new_total_balance)
              else W_WouldDie
            else rest W_Success
        end
    end.

(** The closure gets the account and whether it is new, and returns its
    result with the account as it left it. *)
Definition try_mutate_account_with_dust {R} `{!Drop BalancesState BalancesDispatchError R}
    who (f : AccountData -> bool -> MB (R * AccountData)) : MB (R * DustCleaner) :=
  let! '(maybe_endowed, maybe_dust, result) :=
    try_mutate_exists who (fun maybe_account =>
      let is_new := bool_decide (maybe_account = None) in
      let! '(result, a) := f (default default_value maybe_account) is_new in
      let maybe_endowed := if is_new then Some (free a) else None in
      let '(maybe_account, maybe_dust) := post_mutation who a in
      ret ((maybe_endowed, maybe_dust, result), maybe_account)) in
  (match maybe_endowed with
   | Some endowed => deposit_event (Endowed who endowed)
   | None => ret tt
   end) ;;
  ret (result, mkDust ((fun d => (who, d)) <$> maybe_dust)).

Definition try_mutate_account {R} `{!Drop BalancesState BalancesDispatchError R}
    who (f : AccountData -> bool -> MB (R * AccountData)) : MB R :=
  let! '(result, dust_cleaner) := try_mutate_account_with_dust who f in
  drop_glue dust_cleaner ;; ret result.

Definition mutate_account {R} `{!Drop BalancesState BalancesDispatchError R}
    who (f : AccountData -> MB (R * AccountData)) : MB R :=
  try_mutate_account who (fun a _ => f a).

(** One round of the loop of [update_locks], and the loop. *)
Definition apply_lock (l : BalanceLock) (b : AccountData) : AccountData :=
  let misc := if bool_decide (lock_reasons l = All) || bool_decide (lock_reasons l = Misc)
              then Z.max (misc_frozen b) (lock_amount l) else misc_frozen b in
  let fee := if bool_decide (lock_reasons l = All) || bool_decide (lock_reasons l = Fee)
             then Z.max (fee_frozen b) (lock_amount l) else fee_frozen b in
  set_frozen misc fee b.

Definition apply_locks (locks : list BalanceLock) (b : AccountData) : AccountData :=
  foldl (fun b l => apply_lock l b) (set_frozen 0 0 b) locks.

(** The bound of the [WeakBoundedVec] is not enforced. *)
Definition update_locks who (locks : list BalanceLock) : MB unit :=
  let! res := attempt (mutate_account who (fun b => ret (tt, apply_locks locks b))) in
  debug_assert (bool_decide (is_Some res)) ;;
  let! existed := gets (fun s => bool_decide (is_Some (Locks s !! who))) in
  if bool_decide (locks = []) then
    modify (fun s => set_Locks (delete who (Locks s)) s) ;;
    if existed then dec_consumers who else ret tt
  else
    modify (fun s => set_Locks (<[who := locks]> (Locks s)) s) ;;
    if negb existed then or_else (inc_consumers who) (ret tt) else ret tt.

(* --------------------------------------------------------------------- *)
(** *** [Currency] *)

Definition total_balance who s : Z := total (account who s).

Definition can_slash who value s : bool :=
  if value =? 0 then true else value <=? free_balance who s.

Definition burn amount : MB PositiveImbalance :=
  if amount =? 0 then ret positive_zero
  else
    let! issued := gets TotalIssuance in
    match checked_sub issued amount with
    | Some i => modify (set_TotalIssuance i) ;; ret (Positive amount)
    | None => modify (set_TotalIssuance 0) ;; ret (Positive issued)
    end.

Definition issue amount : MB NegativeImbalance :=
  if amount =? 0 then ret negative_zero
  else
    let! issued := gets TotalIssuance in
    match checked_add UB issued amount with
    | Some i => modify (set_TotalIssuance i) ;; ret (Negative amount)
    | None =>
        let! amount := sub UB (UB - 1) issued in
        modify (set_TotalIssuance (UB - 1)) ;; ret (Negative amount)
    end.

Definition ensure_can_withdraw who amount (reasons : Z) (new_balance : Z) : MB unit :=
  if amount =? 0 then ret tt
  else
    let! min_balance := gets (fun s => frozen (account who s) (reasons_from reasons)) in
    ensure (min_balance <=? new_balance) (Module_ LiquidityRestrictions).

(** [Currency::transfer].  The closure on the transactor also writes the
    captured [to_account], which it returns with its result. *)
Definition transfer_funds (transactor dest : AccountId) value
    (existence_requirement : ExistenceRequirement) : MB unit :=
  if (value =? 0) || bool_decide (transactor = dest) then ret tt
  else
    let! cleaners :=
      try_mutate_account_with_dust dest (fun to_account _ =>
        let! '((to_free, maybe_dust_cleaner)) :=
          try_mutate_account_with_dust transactor (fun from_account _ =>
            let! f := ok_or (checked_sub (free from_account) value) (Module_ InsufficientBalance) in
            let from_account := set_free f from_account in
            let! t := ok_or (checked_add UB (free to_account) value) (Arithmetic Overflow) in
            let to_account := set_free t to_account in
            ensure (ExistentialDeposit <=? total to_account) (Module_ ExistentialDepositErr) ;;
            map_err (fun _ => Module_ LiquidityRestrictions)
              (ensure_can_withdraw transactor value TRANSFER (free from_account)) ;;
            let! can_die := gets (can_dec_provider transactor) in
            let allow_death := bool_decide (existence_requirement = AllowDeath) && can_die in
            ensure (allow_death || (ExistentialDeposit <=? total from_account))
              (Module_ KeepAliveErr) ;;
            ret (t, from_account)) in
        ret (maybe_dust_cleaner, set_free to_free to_account)) in
    drop_glue cleaners ;;
    deposit_event (Transfer transactor dest value).

(** One attempt of the loop of [slash]. *)
Definition slash_attempt who value (attempt : nat) : MB (NegativeImbalance * Z) :=
  try_mutate_account who (fun a _is_new =>
    let! best_value :=
      match attempt with
      | O => ret value
      | _ => let! sum := add UB (free a) (reserved a) in
             ret (Z.min value (saturating_sub sum ExistentialDeposit))
      end in
    let free_slash := Z.min (free a) best_value in
    let! f := sub UB (free a) free_slash in
    let a := set_free f a in
    let! remaining_slash := sub UB best_value free_slash in
    if negb (remaining_slash =? 0) then
      let reserved_slash := Z.min (reserved a) remaining_slash in
      let! r := sub UB (reserved a) reserved_slash in
      let a := set_reserved r a in
      let! slashed := add UB free_slash reserved_slash in
      let! rest := sub UB value free_slash in
      let! rest := sub UB rest reserved_slash in
      ret ((Negative slashed, rest), a)
    else
      let! rest := sub UB value free_slash in
      ret ((Negative free_slash, rest), a)).

Definition slash who value : MB (NegativeImbalance * Z) :=
  if value =? 0 then ret (negative_zero, 0)
  else
    let! t := gets (total_balance who) in
    if t =? 0 then ret (negative_zero, value)
    else
      or_else (slash_attempt who value 0)
        (or_else (slash_attempt who value 1) (ret (negative_zero, value))).

Definition deposit_into_existing who value : MB PositiveImbalance :=
  if value =? 0 then ret positive_zero
  else
    try_mutate_account who (fun a is_new =>
      ensure (negb is_new) (Module_ DeadAccount) ;;
      let! f := ok_or (checked_add UB (free a) value) (Arithmetic Overflow) in
      ret (Positive value, set_free f a)).

Definition deposit_creating who value : MB PositiveImbalance :=
  if value =? 0 then ret positive_zero
  else
    or_else
      (try_mutate_account who (fun a is_new =>
        ensure ((ExistentialDeposit <=? value) || negb is_new) (Module_ ExistentialDepositErr) ;;
        match checked_add UB (free a) value with
        | Some x => ret (Positive value, set_free x a)
        | None => ret (positive_zero, a)
        end))
      (ret positive_zero).

Definition withdraw who value (reasons : Z) (liveness : ExistenceRequirement)
    : MB NegativeImbalance :=
  if value =? 0 then ret negative_zero
  else
    try_mutate_account who (fun a _ =>
      let! new_free := ok_or (checked_sub (free a) value) (Module_ InsufficientBalance) in
      let! x := add UB new_free (reserved a) in
      let would_be_dead := x <? ExistentialDeposit in
      let! would_kill :=
        if would_be_dead then let! y := add UB (free a) (reserved a) in ret (ExistentialDeposit <=? y)
        else ret false in
      ensure (bool_decide (liveness = AllowDeath) || negb would_kill) (Module_ KeepAliveErr) ;;
      ensure_can_withdraw who value reasons new_free ;;
      ret (Negative value, set_free new_free a)).

Definition make_free_balance_be who value : MB SignedImbalance :=
  or_else
    (try_mutate_account who (fun a is_new =>
      let t := saturating_add UB value (reserved a) in
      ensure ((ExistentialDeposit <=? t) || negb is_new) (Module_ ExistentialDepositErr) ;;
      let! imbalance :=
        if free a <=? value then let! d := sub UB value (free a) in ret (SignedPositive (Positive d))
        else let! d := sub UB (free a) value in ret (SignedNegative (Negative d)) in
      ret (imbalance, set_free value a)))
    (ret (SignedPositive positive_zero)).

(* --------------------------------------------------------------------- *)
(** *** [ReservableCurrency] *)

Definition can_reserve who value (s : BalancesState) : bool :=
  if value =? 0 then true
  else
    match checked_sub (free (account who s)) value with
    | Some new_balance =>
        match ensure_can_withdraw who value RESERVE new_balance s with Ok _ _ => true | _ => false end
    | None => false
    end.

Definition reserve who value : MB unit :=
  if value =? 0 then ret tt
  else
    try_mutate_account who (fun a _ =>
      let! f := ok_or (checked_sub (free a) value) (Module_ InsufficientBalance) in
      let! r := ok_or (checked_add UB (reserved a) value) (Arithmetic Overflow) in
      ensure_can_withdraw who value RESERVE f ;;
      ret (tt, set_reserved r (set_free f a))) ;;
    deposit_event (Reserved who value).

Definition unreserve who value : MB Z :=
  if value =? 0 then ret 0
  else
    let! t := gets (total_balance who) in
    if t =? 0 then ret value
    else
      let! r := attempt (mutate_account who (fun a =>
        let actual := Z.min (reserved a) value in
        let! r := sub UB (reserved a) actual in
        ret (actual, set_free (saturating_add UB (free a) actual) (set_reserved r a)))) in
      match r with
      | Some actual => deposit_event (Unreserved who actual) ;; sub UB value actual
      | None => ret value
      end.

(** One attempt of the loop of [slash_reserved]. *)
Definition slash_reserved_attempt who value (att : nat) : MB (NegativeImbalance * Z) :=
  mutate_account who (fun a =>
    let! best_value :=
      match att with
      | O => ret value
      | _ => let! sum := add UB (free a) (reserved a) in
             ret (Z.min value (saturating_sub sum ExistentialDeposit))
      end in
    let actual := Z.min (reserved a) best_value in
    let! r := sub UB (reserved a) actual in
    let! rest := sub UB value actual in
    ret ((Negative actual, rest), set_reserved r a)).

Definition slash_reserved who value : MB (NegativeImbalance * Z) :=
  if value =? 0 then ret (negative_zero, 0)
  else
    let! t := gets (total_balance who) in
    if t =? 0 then ret (negative_zero, value)
    else
      or_else (slash_reserved_attempt who value 0)
        (or_else (slash_reserved_attempt who value 1) (ret (negative_zero, value))).

(** The dust of the two accounts is bound to names and dropped at the end of
    the function, the beneficiary's first. *)
Definition do_transfer_reserved (slashed beneficiary : AccountId) value
    (best_effort : bool) (status : BalanceStatus) : MB Z :=
  if value =? 0 then ret 0
  else if bool_decide (slashed = beneficiary) then
    match status with
    | Status_Free => unreserve slashed value
    | Status_Reserved =>
        let! r := gets (reserved_balance slashed) in ret (saturating_sub value r)
    end
  else
    let! '((actual, one_dust), other_dust) :=
      try_mutate_account_with_dust beneficiary (fun to_account is_new =>
        ensure (negb is_new) (Module_ DeadAccount) ;;
        let! '((actual, to_account), one_dust) :=
          try_mutate_account_with_dust slashed (fun from_account _ =>
            let actual := Z.min (reserved from_account) value in
            ensure (best_effort || (actual =? value)) (Module_ InsufficientBalance) ;;
            let! to_account :=
              match status with
              | Status_Free =>
                  let! f := ok_or (checked_add UB (free to_account) actual) (Arithmetic Overflow) in
                  ret (set_free f to_account)
              | Status_Reserved =>
                  let! r := ok_or (checked_add UB (reserved to_account) actual) (Arithmetic Overflow) in
                  ret (set_reserved r to_account)
              end in
            let! r := sub UB (reserved from_account) actual in
            ret ((actual, to_account), set_reserved r from_account)) in
        ret ((actual, one_dust), to_account)) in
    deposit_event (ReserveRepatriated slashed beneficiary actual status) ;;
    drop_glue other_dust ;;
    drop_glue one_dust ;;
    ret actual.

Definition repatriate_reserved (slashed beneficiary : AccountId) value (status : BalanceStatus)
    : MB Z :=
  let! actual := do_transfer_reserved slashed beneficiary value true status in
  ret (saturating_sub value actual).

(* --------------------------------------------------------------------- *)
(** *** [fungible] *)

Definition balance who s : Z := total (account who s).

Definition reducible_balance who (keep_alive : bool) : MB Z :=
  let! a := gets (account who) in
  let liquid := saturating_sub (free a) (Z.max (fee_frozen a) (misc_frozen a)) in
  let! can_die := gets (can_dec_provider who) in
  if can_die && negb keep_alive then ret liquid
  else
    let! rest := sub UB (total a) liquid in
    let must_remain_to_exist := saturating_sub ExistentialDeposit rest in
    ret (saturating_sub liquid must_remain_to_exist).

Definition can_deposit who amount (s : BalancesState) : DepositConsequence :=
  deposit_consequence who amount (account who s) s.
Definition can_withdraw who amount (s : BalancesState) : WithdrawConsequence :=
  withdraw_consequence who amount (account who s) s.

Definition mint_into who amount : MB unit :=
  if amount =? 0 then ret tt
  else
    try_mutate_account who (fun a _is_new =>
      let! c := gets (deposit_consequence who amount a) in
      deposit_into_result c ;;
      let! f := add UB (free a) amount in
      ret (tt, set_free f a)) ;;
    let! t := gets TotalIssuance in
    let! t := add UB t amount in
    modify (set_TotalIssuance t).

Definition burn_from who amount : MB Z :=
  if amount =? 0 then ret 0
  else
    let! actual := try_mutate_account who (fun a _is_new =>
      let! c := gets (withdraw_consequence who amount a) in
      let! extra := withdraw_into_result c in
      let! actual := add UB amount extra in
      let! f := sub UB (free a) actual in
      ret (actual, set_free f a)) in
    let! t := gets TotalIssuance in
    let! t := sub UB t actual in
    modify (set_TotalIssuance t) ;;
    ret actual.

(** [fungible::Transfer::transfer] *)
Definition fungible_transfer (source dest : AccountId) amount (keep_alive : bool) : MB Z :=
  let er := if keep_alive then KeepAlive else AllowDeath in
  transfer_funds source dest amount er ;; ret amount.

(** [fungible::Unbalanced::set_balance] *)
Definition unbalanced_set_balance who amount : MB unit :=
  mutate_account who (fun a => ret (tt, set_free amount a)).

Definition set_total_issuance amount : MB unit := modify (set_TotalIssuance amount).

Definition balance_on_hold who s : Z := reserved (account who s).

Definition can_hold who amount (s : BalancesState) : bool :=
  let a := account who s in
  let min_balance := Z.max ExistentialDeposit (frozen a All) in
  match checked_add UB (reserved a) amount with
  | None => false
  | Some _ =>
      match checked_add UB min_balance amount with
      | None => false
      | Some required_free => required_free <=? free a
      end
  end.

Definition hold who amount : MB unit :=
  if amount =? 0 then ret tt
  else
    let! ok := gets (can_reserve who amount) in
    ensure ok (Module_ InsufficientBalance) ;;
    mutate_account who (fun a =>
      let! f := sub UB (free a) amount in
      let! r := add UB (reserved a) amount in
      ret (tt, set_reserved r (set_free f a))).

Definition release_hold who amount (best_effort : bool) : MB Z :=
  if amount =? 0 then ret amount
  else
    try_mutate_account who (fun a _ =>
      let new_free := saturating_add UB (free a) (Z.min amount (reserved a)) in
      let! actual := sub UB new_free (free a) in
      ensure (best_effort || (actual =? amount)) (Module_ InsufficientBalance) ;;
      ret (actual, set_reserved (saturating_sub (reserved a) actual) (set_free new_free a))).

Definition transfer_held (source dest : AccountId) amount (best_effort on_hold : bool) : MB Z :=
  let status := if on_hold then Status_Reserved else Status_Free in
  do_transfer_reserved source dest amount best_effort status.

(* --------------------------------------------------------------------- *)
(** *** [NamedReservableCurrency] *)

(** [Reserves] is a [ValueQuery]. *)
Definition reserves who (s : BalancesState) : list ReserveData := default [] (Reserves s !! who).
Definition put_reserves who (v : list ReserveData) : MB unit :=
  modify (fun s => set_Reserves (<[who := v]> (Reserves s)) s).

Definition find_reserve (id : N) (v : list ReserveData) : nat + nat :=
  binary_search_by_key res_id id v.

Definition set_amount (amount : Z) (r : ReserveData) : ReserveData := mkReserve (res_id r) amount.

Definition amount_at (v : list ReserveData) (index : nat) : Z :=
  match v !! index with Some r => res_amount r | None => 0 end.

Definition reserved_balance_named (id : N) who (s : BalancesState) : Z :=
  let v := reserves who s in
  match find_reserve id v with inl index => amount_at v index | inr _ => 0 end.

Definition reserve_named (id : N) who value : MB unit :=
  if value =? 0 then ret tt
  else
    let! v := gets (reserves who) in
    let! v' :=
      match find_reserve id v with
      | inl index => ret (alter (fun r => set_amount (saturating_add UB (res_amount r) value) r) index v)
      | inr index => ok_or (try_insert MaxReserves index (mkReserve id value) v) (Module_ TooManyReserves)
      end in
    reserve who value ;;
    put_reserves who v'.

Definition unreserve_named (id : N) who value : MB Z :=
  if value =? 0 then ret 0
  else
    let! maybe_reserves := gets (fun s => Reserves s !! who) in
    match maybe_reserves with
    | Some v =>
        match find_reserve id v with
        | inl index =>
            let to_change := Z.min (amount_at v index) value in
            let! remain := unreserve who to_change in
            let actual := saturating_sub to_change remain in
            let! remaining := sub UB (amount_at v index) actual in
            (if remaining =? 0 then
               if bool_decide (length v = 1%nat)
               then modify (fun s => set_Reserves (delete who (Reserves s)) s)
               else put_reserves who (delete index v)
             else put_reserves who (alter (set_amount remaining) index v)) ;;
            sub UB value actual
        | inr _ => put_reserves who v ;; ret value
        end
    | None => ret value
    end.

Definition slash_reserved_named (id : N) who value : MB (NegativeImbalance * Z) :=
  if value =? 0 then ret (negative_zero, 0)
  else
    let! v := gets (reserves who) in
    match find_reserve id v with
    | inl index =>
        let to_change := Z.min (amount_at v index) value in
        let! '(imb, remain) := slash_reserved who to_change in
        let actual := saturating_sub to_change remain in
        let! remaining := sub UB (amount_at v index) actual in
        let! rest := sub UB value actual in
        put_reserves who (alter (set_amount remaining) index v) ;;
        ret (imb, rest)
    | inr _ => put_reserves who v ;; ret (negative_zero, value)
    end.

(** The move to the beneficiary's reserve of the same name. *)
Definition repatriate_to_named (id : N) (slashed beneficiary : AccountId) (to_change : Z)
    (status : BalanceStatus) : MB Z :=
  let! v := gets (reserves beneficiary) in
  match find_reserve id v with
  | inl index =>
      let! remain := repatriate_reserved slashed beneficiary to_change status in
      let actual := saturating_sub to_change remain in
      put_reserves beneficiary
        (alter (fun r => set_amount (saturating_add UB (res_amount r) actual) r) index v) ;;
      ret actual
  | inr index =>
      let! remain := repatriate_reserved slashed beneficiary to_change status in
      let actual := saturating_sub to_change remain in
      let! v' := ok_or (try_insert MaxReserves index (mkReserve id actual) v) (Module_ TooManyReserves) in
      put_reserves beneficiary v' ;;
      ret actual
  end.

Definition repatriate_reserved_named (id : N) (slashed beneficiary : AccountId) value
    (status : BalanceStatus) : MB Z :=
  if value =? 0 then ret 0
  else if bool_decide (slashed = beneficiary) then
    match status with
    | Status_Free => unreserve_named id slashed value
    | Status_Reserved =>
        let! r := gets (reserved_balance_named id slashed) in ret (saturating_sub value r)
    end
  else
    let! v := gets (reserves slashed) in
    match find_reserve id v with
    | inl index =>
        let to_change := Z.min (amount_at v index) value in
        let! actual :=
          if bool_decide (status = Status_Reserved) then
            repatriate_to_named id slashed beneficiary to_change status
          else
            let! remain := repatriate_reserved slashed beneficiary to_change status in
            ret (saturating_sub to_change remain) in
        let! remaining := sub UB (amount_at v index) actual in
        let! rest := sub UB value actual in
        put_reserves slashed (alter (set_amount remaining) index v) ;;
        ret rest
    | inr _ => put_reserves slashed v ;; ret value
    end.

Definition ensure_reserved_named (id : N) who value : MB unit :=
  let! current := gets (reserved_balance_named id who) in
  if value <? current then
    let! d := sub UB current value in unreserve_named id who d ;; ret tt
  else if current <? value then
    let! d := sub UB value current in reserve_named id who d
  else ret tt.

Definition unreserve_all_named (id : N) who : MB Z :=
  let! value := gets (reserved_balance_named id who) in
  unreserve_named id who value ;; ret value.

Definition slash_all_reserved_named (id : N) who : MB NegativeImbalance :=
  let! value := gets (reserved_balance_named id who) in
  let! r := slash_reserved_named id who value in
  ret r.1.

Definition repatriate_all_reserved_named (id : N) (slashed beneficiary : AccountId)
    (status : BalanceStatus) : MB unit :=
  let! value := gets (reserved_balance_named id slashed) in
  repatriate_reserved_named id slashed beneficiary value status ;; ret tt.

(* --------------------------------------------------------------------- *)
(** *** [LockableCurrency] *)

Definition locks who (s : BalancesState) : list BalanceLock := default [] (Locks s !! who).

(** The [filter_map] of [set_lock] and [extend_lock]: the first lock with the
    id takes the new one, further ones go; what is left of [new_lock] comes
    back with the locks. *)
Fixpoint merge_locks (id : N) (f : BalanceLock -> BalanceLock -> BalanceLock)
    (new_lock : option BalanceLock) (ls : list BalanceLock)
    : list BalanceLock * option BalanceLock :=
  match ls with
  | [] => ([], new_lock)
  | l :: ls =>
      if bool_decide (lock_id l = id) then
        let '(ls', rest) := merge_locks id f None ls in
        match new_lock with
        | Some nl => (f l nl :: ls', rest)
        | None => (ls', rest)
        end
      else
        let '(ls', rest) := merge_locks id f new_lock ls in (l :: ls', rest)
  end.

Definition with_lock (id : N) (f : BalanceLock -> BalanceLock -> BalanceLock)
    (new_lock : BalanceLock) (ls : list BalanceLock) : list BalanceLock :=
  match merge_locks id f (Some new_lock) ls with
  | (ls', Some lock) => ls' ++ [lock]
  | (ls', None) => ls'
  end.

Definition set_lock (id : N) who amount (reasons : Z) : MB unit :=
  if (amount =? 0) || (reasons =? 0) then ret tt
  else
    let! ls := gets (locks who) in
    update_locks who
      (with_lock id (fun _ nl => nl) (mkLock id amount (reasons_from reasons)) ls).

Definition extend_lock (id : N) who amount (reasons : Z) : MB unit :=
  if (amount =? 0) || (reasons =? 0) then ret tt
  else
    let! ls := gets (locks who) in
    update_locks who
      (with_lock id
        (fun l nl => mkLock (lock_id l) (Z.max (lock_amount l) (lock_amount nl))
                       (bitor (lock_reasons l) (lock_reasons nl)))
        (mkLock id amount (reasons_from reasons)) ls).

Definition remove_lock (id : N) who : MB unit :=
  let! ls := gets (locks who) in
  update_locks who (retain (fun l => negb (bool_decide (lock_id l = id))) ls).

(* --------------------------------------------------------------------- *)
(** *** Dispatchables *)

(** [T::Lookup], the address format of the runtime. *)
Context {Source : Type} (lookup_source : Source -> option AccountId).

Definition lookup_addr (x : Source) : MB AccountId := ok_or (lookup_source x) CannotLookup.

Definition transfer (origin : RawOrigin) (dest : Source) value : MB unit :=
  let! transactor := ensure_signed origin in
  let! dest := lookup_addr dest in
  transfer_funds transactor dest value AllowDeath.

(** The imbalance between the new and the old amount, dropped at once. *)
Definition square_up (new old : Z) : MB unit :=
  if old <? new then let! d := sub UB new old in drop_glue (Positive d)
  else if new <? old then let! d := sub UB old new in drop_glue (Negative d)
  else ret tt.

(** The imbalances are dropped inside the closure, before the account is
    written. *)
Definition set_balance (origin : RawOrigin) (who : Source) (new_free new_reserved : Z) : MB unit :=
  ensure_root origin ;;
  let! who := lookup_addr who in
  let! sum := add UB new_free new_reserved in
  let wipeout := sum <? ExistentialDeposit in
  let new_free := if wipeout then 0 else new_free in
  let new_reserved := if wipeout then 0 else new_reserved in
  let! '(f, r) := mutate_account who (fun a =>
    square_up new_free (free a) ;;
    square_up new_reserved (reserved a) ;;
    ret ((new_free, new_reserved), set_reserved new_reserved (set_free new_free a))) in
  deposit_event (BalanceSet who f r).

Definition force_transfer (origin : RawOrigin) (source dest : Source) value : MB unit :=
  ensure_root origin ;;
  let! source := lookup_addr source in
  let! dest := lookup_addr dest in
  transfer_funds source dest value AllowDeath.

Definition transfer_keep_alive (origin : RawOrigin) (dest : Source) value : MB unit :=
  let! transactor := ensure_signed origin in
  let! dest := lookup_addr dest in
  transfer_funds transactor dest value KeepAlive.

Definition transfer_all (origin : RawOrigin) (dest : Source) (keep_alive : bool) : MB unit :=
  let! transactor := ensure_signed origin in
  let! reducible := reducible_balance transactor keep_alive in
  let! dest := lookup_addr dest in
  let keep_alive := if keep_alive then KeepAlive else AllowDeath in
  transfer_funds transactor dest reducible keep_alive.

Definition force_unreserve (origin : RawOrigin) (who : Source) amount : MB unit :=
  ensure_root origin ;;
  let! who := lookup_addr who in
  let! _leftover := unreserve who amount in
  ret tt.

(* --------------------------------------------------------------------- *)
(** *** Genesis *)

(** [StoredMap::insert], through [mutate] and [mutate_exists]. *)
Definition store_insert who (d : AccountData) : MB unit :=
  try_mutate_exists who (fun _ => ret (tt, Some d)).

Fixpoint sum_genesis (acc : Z) (balances : list (AccountId * Z)) : MB Z :=
  match balances with
  | [] => ret acc
  | (_, n) :: balances => let! acc := add UB acc n in sum_genesis acc balances
  end.

Definition genesis_build (balances : list (AccountId * Z)) : MB unit :=
  let! t := sum_genesis 0 balances in
  modify (set_TotalIssuance t) ;;
  for_each balances (fun '(_, b) => assert (ExistentialDeposit <=? b)) ;;
  let endowed_accounts : gset AccountId := list_to_set balances.*1 in
  assert (bool_decide (base.size endowed_accounts = length balances)) ;;
  for_each balances (fun '(who, f) =>
    let! r := attempt (store_insert who (set_free f default_value)) in
    assert (bool_decide (is_Some r))).
End Pallet.
