(* ===== verification/BalancesFacts.v ===== *)
(** * pallet_balances: conservation of the issuance

    The invariant of the currency (the total issuance is the sum of all free
    and reserved balances, no account holds less than the existential deposit,
    accounts with a balance have a provider) and that the operations keep it;
    the exact effect of the operations on the balances; and the operations
    whose error path breaks it. *)

From S2P Require Import Prelude System SystemFacts Balances.

Set Default Proof Using "Type".

(* ===================================================================== *)
(** ** The invariant *)

(** What an account holds. *)
Definition tot (a : AccountData) : Z := free a + reserved a.

Definition holdings (i : AccountInfo AccountData) : Z := tot (data i).

Definition data_ok (a : AccountData) : Prop :=
  0 <= free a /\ 0 <= reserved a /\ tot a < UB /\ 0 <= misc_frozen a /\ 0 <= fee_frozen a.

Record BalInv (ED : Z) (s : BalancesState) : Prop := {
  bi_sys : SysInv s;
  bi_data : forall who, data_ok (account who s);
  bi_ed : forall who, account who s <> default_value -> ED <= tot (account who s);
  bi_sum : TotalIssuance s = map_sum holdings (Account (bal_sys s));
  bi_range : TotalIssuance s < UB
}.

Section Invariant.
Context {P : Profile} (ED : Z).
Context (ED_pos : 0 < ED).
Local Abbreviation BalInv := (BalInv ED).
Implicit Types (s t u : BalancesState) (who b : AccountId) (a : AccountData).

Lemma total_eq a : data_ok a -> total a = tot a.
Proof. unfold data_ok, total, saturating_add, tot. lia. Qed.

Lemma tot_default : tot default_value = 0.
Proof. done. Qed.

Lemma total_default : total default_value = 0.
Proof. done. Qed.

Lemma data_ok_default : data_ok default_value.
Proof. unfold data_ok, tot, UB. simpl. repeat split; try lia. Qed.

(* --------------------------------------------------------------------- *)
(** *** Sums *)

Lemma sum_at_account s who : sum_at holdings (Account (bal_sys s)) who = tot (account who s).
Proof.
  unfold sum_at, account, stored_get, account_info. simpl.
  by destruct (Account (bal_sys s) !! who).
Qed.

Lemma holdings_nonneg s : BalInv s -> forall k v, Account (bal_sys s) !! k = Some v -> 0 <= holdings v.
Proof.
  intros Hs k v Hk. pose proof (bi_data _ _ Hs k) as (H1 & H2 & _).
  unfold account, stored_get, account_info in *. simpl in *. rewrite Hk in *. simpl in *.
  unfold holdings, tot. lia.
Qed.

(** No account, and no two accounts together, hold more than the issuance. *)
Lemma tot_le s who : BalInv s -> 0 <= tot (account who s) <= TotalIssuance s.
Proof.
  intros Hs. rewrite (bi_sum _ _ Hs), <- sum_at_account. split.
  - rewrite sum_at_account. pose proof (bi_data _ _ Hs who) as (H1 & H2 & _). unfold tot. lia.
  - apply sum_at_le. by apply holdings_nonneg.
Qed.

Lemma tot_le_2 s who b :
  BalInv s -> who <> b -> tot (account who s) + tot (account b s) <= TotalIssuance s.
Proof.
  intros Hs Hne. rewrite (bi_sum _ _ Hs), <- !sum_at_account. apply sum_at_le_2; [done|].
  by apply holdings_nonneg.
Qed.

Lemma TotalIssuance_nonneg s : BalInv s -> 0 <= TotalIssuance s.
Proof. intros Hs. pose proof (tot_le s 0%N Hs). lia. Qed.

(* --------------------------------------------------------------------- *)
(** *** Writing one account *)

Lemma data_put_sum who d s t :
  data_put who d s t ->
  map_sum holdings (Account (bal_sys t)) =
  map_sum holdings (Account (bal_sys s)) - tot (account who s) + tot d.
Proof.
  intros ((Ho & _) & Hd & _). rewrite (map_sum_change _ (Account (bal_sys s)) _ who).
  - rewrite !sum_at_account. unfold account at 2. by rewrite Hd.
  - done.
Qed.

Lemma data_put_account who d s t b :
  data_put who d s t -> account b t = if decide (b = who) then d else account b s.
Proof.
  intros ((Ho & _) & Hd & _). case_decide as Hb; [subst; done|].
  unfold account, stored_get. by rewrite (account_info_eq t s b (Ho b Hb)).
Qed.

Lemma data_put_frame who d s t :
  data_put who d s t ->
  TotalIssuance t = TotalIssuance s /\ Locks t = Locks s /\ Reserves t = Reserves s.
Proof. by intros ((_ & _ & y & ->) & _). Qed.

Lemma data_put_event who d s t (e : BalancesEvent) :
  data_put who d s t -> data_put who d s (set_sys (log_event e (sys t)) t).
Proof.
  intros (Ho & Hd & Hi). split; [|split].
  - eapply only_account_trans; [exact Ho|apply only_account_event].
  - unfold stored_get in *. by rewrite account_info_event.
  - by apply SysInv_event.
Qed.

Lemma data_put_here who s (e : BalancesEvent) :
  SysInv s -> data_put who (account who s) s (set_sys (log_event e (sys s)) s).
Proof.
  intros Hs. apply data_put_event. split; [apply only_account_refl|]. done.
Qed.

(** The state after a write, with the issuance moved by the same amount. *)
Lemma BalInv_put who d s t u :
  BalInv s -> data_put who d s t -> data_ok d -> (d = default_value \/ ED <= tot d) ->
  bal_sys u = bal_sys t ->
  TotalIssuance u = TotalIssuance s - tot (account who s) + tot d -> TotalIssuance u < UB ->
  BalInv u.
Proof.
  intros Hs Ht Hd Hed Hu HT Hr.
  assert (forall b, account b u = account b t) as Ha.
  { intros b. unfold account, stored_get, account_info. simpl. by rewrite Hu. }
  split.
  - destruct Ht as (_ & _ & Ht). intros b x. simpl. rewrite Hu. apply Ht.
  - intros b. rewrite Ha, (data_put_account _ _ _ _ _ Ht).
    case_decide; [done|apply (bi_data _ _ Hs)].
  - intros b. rewrite Ha, (data_put_account _ _ _ _ _ Ht).
    case_decide; [by destruct Hed|apply (bi_ed _ _ Hs)].
  - rewrite HT, Hu, (data_put_sum _ _ _ _ Ht), (bi_sum _ _ Hs). lia.
  - done.
Qed.

(** [BalInv] does not see the event log. *)
Lemma BalInv_event s (e : BalancesEvent) : BalInv s -> BalInv (set_sys (log_event e (sys s)) s).
Proof.
  intros Hs.
  assert (forall b, account b (set_sys (log_event e (sys s)) s) = account b s) as Ha.
  { intros b. unfold account, stored_get. by rewrite account_info_event. }
  destruct Hs as [H1 H2 H3 H4 H5]. split.
  - by apply SysInv_event.
  - intros b. rewrite Ha. auto.
  - intros b. rewrite Ha. auto.
  - simpl. by rewrite Account_log_event.
  - done.
Qed.

(* --------------------------------------------------------------------- *)
(** *** [try_mutate_account] *)

(** What [post_mutation] stores, and what it leaves as dust. *)
Definition settle a : AccountData := if total a <? ED then default_value else a.
Definition dust_of a : Z := if total a <? ED then total a else 0.
Definition residue a : option NegativeImbalance :=
  if (total a <? ED) && negb (total a =? 0) then Some (Negative (total a)) else None.

Lemma post_mutation_eq who a :
  post_mutation ED who a = (if total a <? ED then None else Some a, residue a).
Proof. unfold post_mutation, residue. by repeat case_match. Qed.

(** The write fails: the account would go, but others depend on it. *)
Definition blocked who a s : bool :=
  (total a <? ED) && negb (bool_decide (account who s = default_value))
  && negb (can_dec_provider who s).

Lemma providing_default a : default default_value (if is_providing a then Some a else None) = a.
Proof. unfold is_providing. by case_bool_decide. Qed.

Lemma providing_is_new a :
  bool_decide ((if is_providing a then Some a else None) = None) = bool_decide (a = default_value).
Proof. apply bool_decide_ext. unfold is_providing. case_bool_decide; simpl; naive_solver. Qed.

(** The closure runs on the account; then the result is stored, unless that
    is blocked, in which case the closure's result and the dust are dropped. *)
Lemma wp_try_mutate_account_with_dust {R} `{!Drop BalancesState BalancesDispatchError R}
    who (f : AccountData -> bool -> MB (R * AccountData)) Q (X : BalancesDispatchError -> _) s :
  wp (f (account who s) (bool_decide (account who s = default_value)))
    (fun '(r, a) t =>
       account who t = account who s /\ SysInv t /\
       if blocked who a t
       then wp (drop_glue (residue a) ;; drop_glue r) (fun _ => X ConsumerRemaining)
               (fun _ => X ConsumerRemaining) t
       else forall u, data_put who (settle a) t u ->
              Q (r, mkDust ((fun d => (who, d)) <$> residue a)) u) X s ->
  wp (try_mutate_account_with_dust ED who f) Q X s.
Proof using ED_pos.
  intros Hf. unfold try_mutate_account_with_dust, try_mutate_exists. wp_steps.
  change (data (account_info who s)) with (account who s).
  rewrite providing_default, providing_is_new.
  eapply wp_mono; [exact Hf| |done]. clear Hf. intros [r a] t (Ha & Ht & Hq).
  rewrite post_mutation_eq. wp_steps. apply wp_store_data; [done|by rewrite <- Ha|].
  assert (forall u, data_put who (settle a) t u -> blocked who a t = false ->
    wp ((if bool_decide (account who s = default_value)
         then deposit_event (Endowed who (free a)) else ret tt) ;;
        ret (r, mkDust ((fun d => (who, d)) <$> residue a))) Q X u) as Hev.
  { intros u Hu Hb. rewrite Hb in Hq. case_bool_decide; wp_steps;
      [apply wp_deposit_event; wp_steps|]; apply Hq; [by apply data_put_event|done]. }
  revert Hq Hev. unfold blocked, settle, is_providing. rewrite <- Ha. clear s Ha.
  destruct (Z.ltb_spec (total a) ED) as [Hlt|Hge]; simpl.
  - destruct (bool_decide _) eqn:Hnew; simpl.
    + apply bool_decide_eq_true in Hnew. intros _ Hev. rewrite <- Hnew in Hev.
      apply Hev; [|done]. split; [apply only_account_refl|done].
    + destruct (can_dec_provider who t); simpl; intros Hq Hev; [|done].
      intros u Hu. by apply Hev.
  - intros _ Hev. split; [|intros u Hu; destruct (bool_decide _); by apply Hev].
    intros ->. rewrite total_default in Hge. lia.
Qed.

(** The issuance without the dust. *)
Definition less (d : Z) u : BalancesState :=
  set_TotalIssuance (saturating_sub (TotalIssuance u) d) u.

Lemma less_zero d u : 0 <= TotalIssuance u -> d = 0 -> less d u = u.
Proof.
  intros Hu ->. unfold less, saturating_sub. rewrite Z.sub_0_r, Z.max_r by lia. by destruct u.
Qed.

Lemma residue_None a : 0 <= total a -> residue a = None -> dust_of a = 0.
Proof. unfold residue, dust_of. repeat case_match; naive_solver lia. Qed.

Lemma residue_Some a d : residue a = Some d -> neg d = dust_of a.
Proof. unfold residue, dust_of. by repeat case_match; intros; simplify_eq. Qed.

Lemma wp_drop_residue a (Q : unit -> BalancesState -> Prop) (X : BalancesDispatchError -> _ -> Prop) s :
  0 <= TotalIssuance s -> 0 <= total a -> Q tt (less (dust_of a) s) ->
  wp (drop_glue (residue a)) Q X s.
Proof.
  intros Hs Ha HQ. destruct (residue a) as [d|] eqn:Hr; simpl; wp_steps.
  - unfold drop_glue. simpl. unfold drop_glue, Drop_Negative. wp_steps.
    by rewrite (residue_Some _ _ Hr).
  - by rewrite less_zero in HQ by auto using residue_None.
Qed.

Lemma wp_drop_dust who a (Q : unit -> BalancesState -> Prop) (X : BalancesDispatchError -> _ -> Prop) s :
  0 <= TotalIssuance s -> 0 <= total a ->
  Q tt (less (dust_of a) s) ->
  (forall e : BalancesEvent, Q tt (less (dust_of a) (set_sys (log_event e (sys s)) s))) ->
  wp (drop_glue (mkDust ((fun d => (who, d)) <$> residue a))) Q X s.
Proof.
  intros Hs Ha HQ HE. unfold drop_glue, Drop_DustCleaner. simpl.
  destruct (residue a) as [d|] eqn:Hr; simpl; wp_steps.
  - apply wp_deposit_event. unfold drop_glue, Drop_Negative. wp_steps.
    rewrite (residue_Some _ _ Hr). apply HE.
  - by rewrite less_zero in HQ by auto using residue_None.
Qed.

Lemma wp_try_mutate_account {R} `{!Drop BalancesState BalancesDispatchError R}
    who (f : AccountData -> bool -> MB (R * AccountData)) Q (X : BalancesDispatchError -> _) s :
  wp (f (account who s) (bool_decide (account who s = default_value)))
    (fun '(r, a) t =>
       account who t = account who s /\ SysInv t /\ 0 <= TotalIssuance t /\ 0 <= total a /\
       if blocked who a t
       then wp (drop_glue r) (fun _ => X ConsumerRemaining) (fun _ => X ConsumerRemaining)
              (less (dust_of a) t)
       else forall u, data_put who (settle a) t u -> Q r (less (dust_of a) u)) X s ->
  wp (try_mutate_account ED who f) Q X s.
Proof using ED_pos.
  intros Hf. unfold try_mutate_account. wp_steps. apply wp_try_mutate_account_with_dust.
  eapply wp_mono; [exact Hf| |done]. clear Hf. intros [r a] t (Ha & Ht & HT & Hta & Hq).
  split; [done|]. split; [done|]. destruct (blocked who a t).
  - wp_steps. by apply wp_drop_residue.
  - intros u Hu. pose proof (data_put_frame _ _ _ _ Hu) as (HTu & _). wp_steps.
    apply wp_drop_dust; [lia|done|..]; intros; wp_steps; apply Hq; [done|].
    by apply data_put_event.
Qed.

(** The invariant after an operation that changed the account to [a] and the
    outstanding imbalance by what [a] gained. *)
Lemma BalInv_settle who a s u v :
  BalInv s -> data_put who (settle a) s u -> data_ok a -> bal_sys v = bal_sys u ->
  TotalIssuance v = TotalIssuance s - dust_of a + (tot a - tot (account who s)) ->
  TotalIssuance v < UB -> BalInv v.
Proof.
  intros Hs Hu Ha Hv HT Hr. pose proof (total_eq a Ha) as He.
  assert (tot (settle a) = tot a - dust_of a) as Hst.
  { unfold settle, dust_of. rewrite He. case_match; [rewrite tot_default|]; lia. }
  eapply (BalInv_put who (settle a) s u v); try done.
  - unfold settle. case_match; [apply data_ok_default|done].
  - unfold settle. case_match; [by left|right]. lia.
  - lia.
Qed.

Lemma dust_of_bound a : data_ok a -> 0 <= dust_of a <= tot a.
Proof.
  clear ED_pos. intros Ha. pose proof (total_eq a Ha). unfold dust_of. unfold data_ok, tot in *. case_match; lia.
Qed.
End Invariant.

(** The effect of an operation that leaves [who] with [a]: what is stored is
    [a], or nothing if that is below the existential deposit; the dust leaves
    the issuance; everything else is untouched; and once the imbalance the
    change of [a] stands for is squared up, the invariant holds. *)
Record Eff (ED : Z) (who : AccountId) (a : AccountData) (s t : BalancesState) : Prop := {
  eff_account : forall b, account b t = if decide (b = who) then settle ED a else account b s;
  eff_issuance : TotalIssuance t = TotalIssuance s - dust_of ED a;
  eff_locks : Locks t = Locks s;
  eff_reserves : Reserves t = Reserves s;
  eff_sys : SysInv t;
  eff_inv : forall x, x = TotalIssuance t + (tot a - tot (account who s)) -> x < UB ->
    BalInv ED (set_TotalIssuance x t)
}.

Lemma set_TotalIssuance_id s : set_TotalIssuance (TotalIssuance s) s = s.
Proof. by destruct s. Qed.

Section Effects.
Context {P : Profile} (ED : Z).
Context (ED_pos : 0 < ED).
Local Abbreviation BalInv := (BalInv ED).
Local Abbreviation Eff := (Eff ED).
Implicit Types (s t u : BalancesState) (who b : AccountId) (a : AccountData) (value : Z).

Lemma Eff_put who a s u :
  BalInv s -> data_ok a -> dust_of ED a <= TotalIssuance s -> data_put who (settle ED a) s u ->
  Eff who a s (less (dust_of ED a) u).
Proof.
  intros Hs Ha Hd Hu. pose proof (data_put_frame _ _ _ _ Hu) as (HT & HL & HR).
  pose proof (dust_of_bound ED a Ha).
  assert (TotalIssuance (less (dust_of ED a) u) = TotalIssuance s - dust_of ED a) as HTl.
  { simpl. unfold saturating_sub. lia. }
  split; [|done..| |].
  - intros b. apply (data_put_account _ _ _ _ b Hu).
  - by destruct Hu as (_ & _ & Hu).
  - intros x Hx Hr. eapply (BalInv_settle ED who a s u); try done.
    simpl. rewrite Hx, HTl. lia.
Qed.

(** An operation that moves nothing in or out of the account. *)
Lemma Eff_balanced who a s t :
  BalInv s -> Eff who a s t -> data_ok a -> tot a = tot (account who s) -> BalInv t.
Proof.
  intros Hs Ht Ha He. rewrite <- (set_TotalIssuance_id t). pose proof (bi_range _ _ Hs).
  pose proof (dust_of_bound ED a Ha). pose proof (eff_issuance _ _ _ _ _ Ht).
  apply (eff_inv _ _ _ _ _ Ht); lia.
Qed.

(** A change that keeps the holdings is never blocked. *)
Lemma blocked_balanced who a s :
  BalInv s -> data_ok a -> tot a = tot (account who s) -> blocked ED who a s = false.
Proof.
  intros Hs Ha He. unfold blocked. rewrite (total_eq a Ha).
  destruct (Z.ltb_spec (tot a) ED) as [Hlt|]; [|done]. simpl.
  case_bool_decide as Hd; [done|]. pose proof (bi_ed _ _ Hs who Hd). lia.
Qed.

(** Likewise, what keeps the holdings of an account leaves no dust. *)
Lemma dust_balanced who a s :
  BalInv s -> data_ok a -> tot a = tot (account who s) -> dust_of ED a = 0.
Proof.
  intros Hs Ha He. unfold dust_of. rewrite (total_eq a Ha), He.
  destruct (Z.ltb_spec (tot (account who s)) ED) as [Hlt|]; [|done].
  destruct (decide (account who s = default_value)) as [->|Hd]; [done|].
  pose proof (bi_ed _ _ Hs who Hd). lia.
Qed.

Lemma wp_ensure_can_withdraw who amount reasons new (Q : unit -> BalancesState -> Prop)
    (X : BalancesDispatchError -> BalancesState -> Prop) s :
  (amount = 0 \/ frozen (account who s) (reasons_from reasons) <= new -> Q tt s) ->
  (amount <> 0 -> new < frozen (account who s) (reasons_from reasons) ->
     X (Module_ LiquidityRestrictions) s) ->
  wp (ensure_can_withdraw who amount reasons new) Q X s.
Proof.
  intros HQ HX. unfold ensure_can_withdraw.
  destruct (Z.eqb_spec amount 0); wp_steps; auto with lia.
Qed.

(** The common shape of the closures: they read the state and write the
    account. *)
Lemma wp_try_mutate_read {R} `{!Drop BalancesState BalancesDispatchError R}
    who (f : AccountData -> bool -> MB (R * AccountData)) Q (X : BalancesDispatchError -> _) s :
  BalInv s ->
  wp (f (account who s) (bool_decide (account who s = default_value)))
    (fun '(r, a) t =>
       t = s /\ data_ok a /\ dust_of ED a <= TotalIssuance s /\
       if blocked ED who a s
       then wp (drop_glue r) (fun _ => X ConsumerRemaining) (fun _ => X ConsumerRemaining)
              (less (dust_of ED a) s)
       else forall u, Eff who a s u -> Q r u) X s ->
  wp (try_mutate_account ED who f) Q X s.
Proof using ED_pos.
  intros Hs Hf. apply wp_try_mutate_account; [done|].
  eapply wp_mono; [exact Hf| |done]. intros [r a] t (-> & Ha & Hd & Hq).
  split; [done|]. split; [apply (bi_sys _ _ Hs)|]. split; [by eapply TotalIssuance_nonneg|].
  split; [rewrite (total_eq a Ha); unfold data_ok, tot in Ha; unfold tot; lia|].
  destruct (blocked ED who a s); [done|]. intros u Hu. apply Hq. by apply Eff_put.
Qed.
End Effects.
