(* ===== verification/BalancesOps.v ===== *)
(** * pallet_balances: the operations on one account

    The exact effect of reserving, unreserving, depositing, withdrawing,
    slashing, minting and burning on the account, the issuance and the
    returned imbalance, with every error; and where an error keeps a change
    of the issuance. *)

From S2P Require Import Prelude System SystemFacts Balances BalancesFacts.

Set Default Proof Using "Type".

Section EffLemmas.
Context {P : Profile} (ED : Z).
Context (ED_pos : 0 < ED).
Local Abbreviation BalInv := (BalInv ED).
Local Abbreviation Eff := (Eff ED).
Implicit Types (s t u : BalancesState) (who b : AccountId) (a : AccountData) (value : Z).

Lemma settle_account s who : BalInv s -> settle ED (account who s) = account who s.
Proof.
  intros Hs. unfold settle. rewrite (total_eq _ (bi_data _ _ Hs who)).
  destruct (Z.ltb_spec (tot (account who s)) ED) as [Hlt|]; [|done].
  destruct (decide (account who s = default_value)) as [->|Hd]; [done|].
  pose proof (bi_ed _ _ Hs who Hd). lia.
Qed.

Lemma Eff_refl who a s : BalInv s -> a = account who s -> Eff who a s s.
Proof using ED_pos.
  intros Hs ->. pose proof (bi_data _ _ Hs who) as Hd.
  assert (dust_of ED (account who s) = 0) as H0 by by eapply dust_balanced.
  split; [|lia|done|done|apply (bi_sys _ _ Hs)|].
  - intros b. rewrite settle_account by done. by case_decide; subst.
  - intros x -> _. by rewrite Z.sub_diag, Z.add_0_r, set_TotalIssuance_id.
Qed.

Lemma Eff_event who a s t (e : BalancesEvent) :
  Eff who a s t -> Eff who a s (set_sys (log_event e (sys t)) t).
Proof.
  intros [H1 H2 H3 H4 H5 H6]. split; [|done..| |].
  - intros b. rewrite <- H1. unfold account, stored_get. by rewrite account_info_event.
  - by apply SysInv_event.
  - intros x Hx Hr. by apply (BalInv_event ED (set_TotalIssuance x t)), H6.
Qed.

(** A closure that moves funds within the account: it cannot be blocked. *)
Lemma wp_try_mutate_balanced {R} `{!Drop BalancesState BalancesDispatchError R}
    who (f : AccountData -> bool -> MB (R * AccountData)) Q (X : BalancesDispatchError -> _) s :
  BalInv s ->
  wp (f (account who s) (bool_decide (account who s = default_value)))
    (fun '(r, a) t =>
       t = s /\ data_ok a /\ tot a = tot (account who s) /\
       forall u, Eff who a s u -> BalInv u -> Q r u) X s ->
  wp (try_mutate_account ED who f) Q X s.
Proof using ED_pos.
  intros Hs Hf. apply wp_try_mutate_read; [done..|].
  eapply wp_mono; [exact Hf| |done]. intros [r a] t (-> & Ha & He & HQ).
  split; [done|]. split; [done|]. pose proof (tot_le _ s who Hs).
  rewrite (dust_balanced ED who a s) by done. split; [lia|].
  rewrite (blocked_balanced ED who a s) by done.
  intros u Hu. apply HQ; [done|]. by eapply Eff_balanced.
Qed.
End EffLemmas.

(** Facts on the account's data for [lia]. *)
Ltac know_account Hs who :=
  let H := fresh "Hdata" in
  pose proof (bi_data _ _ Hs who) as H;
  pose proof (tot_le _ _ who Hs); pose proof (bi_range _ _ Hs);
  unfold data_ok in H; unfold tot in *.

Ltac bal_step :=
  lazymatch goal with
  | |- wp (mutate_account _ _ _) _ _ _ => unfold mutate_account
  | |- wp (ensure_can_withdraw _ _ _ _) _ _ _ => apply wp_ensure_can_withdraw; intros
  | |- wp (attempt _) _ _ _ => unfold attempt
  | |- wp (add _ _ _) _ _ _ => apply wp_arith
  | |- wp (sub _ _ _) _ _ _ => apply wp_arith
  | |- wp (deposit_event _) _ _ _ => apply wp_deposit_event
  | |- _ => wp_step
  end; cbv beta.
Ltac bal_steps := repeat bal_step.

Section Reserving.
Context {P : Profile} (ED : Z).
Context (ED_pos : 0 < ED).
Local Abbreviation BalInv := (BalInv ED).
Local Abbreviation Eff := (Eff ED).
Implicit Types (s t u : BalancesState) (who b : AccountId) (a : AccountData) (value : Z).

(** [value] moved from free to reserved. *)
Definition reserve_in value a : AccountData :=
  set_reserved (reserved a + value) (set_free (free a - value) a).

Lemma wp_reserve who value s (Q : unit -> BalancesState -> Prop) X :
  BalInv s -> 0 <= value < UB ->
  (forall t, value = 0 \/ Z.max 0 (misc_frozen (account who s)) <= free (account who s) - value ->
     Eff who (reserve_in value (account who s)) s t -> Q tt t) ->
  (forall e, value <> 0 -> free (account who s) - value < Z.max 0 (misc_frozen (account who s)) ->
     X e s) ->
  wp (reserve ED who value) Q X s.
Proof using ED_pos.
  intros Hs Hv HQ HX. unfold reserve. know_account Hs who.
  destruct (Z.eqb_spec value 0) as [->|Hne].
  { bal_steps. apply HQ; [by left|]. apply Eff_refl; [done..|].
    unfold reserve_in. rewrite Z.add_0_r, Z.sub_0_r. by destruct (account who s). }
  bal_steps. apply wp_try_mutate_balanced; [done..|].
  bal_steps; unfold checked_sub, checked_add in *; repeat case_match; simplify_eq;
    try (apply HX; simpl in *; lia).
  split; [done|]. fold (reserve_in value (account who s)).
  split; [|split; [|intros u Hu _; bal_steps; apply HQ; [|by apply Eff_event]]].
  all: unfold data_ok, reserve_in, tot; simpl in *; lia.
Qed.

Lemma reserve_in_zero a : reserve_in 0 a = a.
Proof. unfold reserve_in. rewrite Z.add_0_r, Z.sub_0_r. by destruct a. Qed.

Lemma tot_reserve_in value a : tot (reserve_in value a) = tot a.
Proof. unfold tot, reserve_in. simpl. lia. Qed.

Lemma wp_unreserve who value s (Q : Z -> BalancesState -> Prop) X :
  BalInv s -> 0 <= value < UB ->
  (forall t, Eff who (reserve_in (- Z.min (reserved (account who s)) value) (account who s)) s t ->
     BalInv t -> Q (value - Z.min (reserved (account who s)) value) t) ->
  wp (unreserve ED who value) Q X s.
Proof using ED_pos.
  intros Hs Hv HQ. unfold unreserve. know_account Hs who. set (a := account who s) in *.
  assert (forall t, Z.min (reserved a) value = 0 -> t = s -> Q value t) as Hnop.
  { intros t Hmin ->. rewrite Hmin in HQ. rewrite <- (Z.sub_0_r value). apply HQ; [|done].
    apply Eff_refl; [done..|]. apply reserve_in_zero. }
  destruct (Z.eqb_spec value 0) as [Hz|Hne].
  { bal_steps. subst value. apply Hnop; [lia|done]. }
  bal_steps. unfold total_balance. fold a. rewrite (total_eq a) by (unfold data_ok, tot; lia).
  destruct (Z.eqb_spec (tot a) 0) as [Ht|Ht]; unfold tot in Ht.
  { bal_steps. apply Hnop; [lia|done]. }
  bal_steps. apply wp_try_mutate_balanced; [done..|]. fold a. bal_steps; [lia|].
  assert (set_free (saturating_add UB (free a) (Z.min (reserved a) value))
    (set_reserved (reserved a - Z.min (reserved a) value) a) =
    reserve_in (- Z.min (reserved a) value) a) as ->.
  { unfold saturating_add, reserve_in. rewrite Z.min_l by lia. unfold set_free, set_reserved.
    simpl. f_equal; lia. }
  split; [done|]. split; [unfold data_ok, reserve_in, tot; simpl; lia|].
  split; [apply tot_reserve_in|]. intros u Hu Hiu. bal_steps; [lia|].
  apply HQ; [by apply Eff_event|by apply BalInv_event].
Qed.

Lemma can_reserve_spec who value s :
  BalInv s -> 0 <= value < UB ->
  can_reserve who value s = true <->
  value = 0 \/ Z.max 0 (misc_frozen (account who s)) <= free (account who s) - value.
Proof.
  intros Hs Hv. unfold can_reserve, ensure_can_withdraw, bind, gets, ensure, ret, fail, checked_sub.
  know_account Hs who. repeat case_match; simplify_eq/=; unfold frozen in *; simpl in *; lia.
Qed.

Lemma wp_hold who value s (Q : unit -> BalancesState -> Prop) X :
  BalInv s -> 0 <= value < UB ->
  (can_reserve who value s = true -> forall t, Eff who (reserve_in value (account who s)) s t ->
     BalInv t -> Q tt t) ->
  (can_reserve who value s = false -> X (Module_ InsufficientBalance) s) ->
  wp (hold ED who value) Q X s.
Proof using ED_pos.
  intros Hs Hv HQ HX. unfold hold. know_account Hs who.
  pose proof (can_reserve_spec who value s Hs Hv) as Hc.
  destruct (Z.eqb_spec value 0) as [->|Hne].
  { bal_steps. apply HQ; [done| |done]. apply Eff_refl; [done..|]. apply reserve_in_zero. }
  bal_steps; [|by apply HX]. apply wp_try_mutate_balanced; [done..|].
  assert (value <= free (account who s)) by (apply Hc in H1; lia).
  bal_steps; [lia..|]. fold (reserve_in value (account who s)). split; [done|].
  split; [unfold data_ok, reserve_in, tot; simpl; lia|]. split; [apply tot_reserve_in|].
  intros u Hu Hiu. by apply HQ.
Qed.

Lemma wp_release who value best_effort s (Q : Z -> BalancesState -> Prop) X :
  BalInv s -> 0 <= value < UB ->
  (best_effort = true \/ value <= reserved (account who s) ->
   forall t, Eff who (reserve_in (- Z.min value (reserved (account who s))) (account who s)) s t ->
     BalInv t -> Q (Z.min value (reserved (account who s))) t) ->
  (best_effort = false -> reserved (account who s) < value -> X (Module_ InsufficientBalance) s) ->
  wp (release_hold ED who value best_effort) Q X s.
Proof using ED_pos.
  intros Hs Hv HQ HX. unfold release_hold. know_account Hs who. set (a := account who s) in *.
  destruct (Z.eqb_spec value 0) as [->|Hne].
  { rewrite Z.min_l in HQ by lia. bal_steps. apply HQ; [right; lia| |done].
    apply Eff_refl; [done..|]. apply reserve_in_zero. }
  apply wp_try_mutate_balanced; [done..|]. fold a. unfold saturating_add.
  rewrite (Z.min_l (free a + _)) by lia. bal_steps; [lia| |].
  - replace (free a + Z.min value (reserved a) - free a) with (Z.min value (reserved a)) in * by lia.
    assert (set_reserved (saturating_sub (reserved a) (Z.min value (reserved a)))
      (set_free (free a + Z.min value (reserved a)) a) =
      reserve_in (- Z.min value (reserved a)) a) as ->.
    { unfold saturating_sub, reserve_in, set_reserved, set_free. simpl. f_equal; lia. }
    split; [done|]. split; [unfold data_ok, reserve_in, tot; simpl; lia|].
    split; [apply tot_reserve_in|]. intros u Hu Hiu. apply HQ; [|done|done]. destruct best_effort; [by left|right; simpl in *; lia].
  - apply HX; [destruct best_effort; [done|done]|]. destruct best_effort; [done|]. simpl in *. lia.
Qed.
End Reserving.

(* ===================================================================== *)
(** ** In and out of the account *)
Section Flows.
Context {P : Profile} (ED : Z).
Context (ED_pos : 0 < ED).
Local Abbreviation BalInv := (BalInv ED).
Local Abbreviation Eff := (Eff ED).
Implicit Types (s t u : BalancesState) (who b : AccountId) (a : AccountData) (value : Z).

(** Taking an account below the existential deposit is blocked exactly when
    others depend on it. *)
Lemma blocked_spec who a s :
  data_ok a -> account who s <> default_value ->
  blocked ED who a s = (tot a <? ED) && negb (can_dec_provider who s).
Proof.
  intros Ha Hne. unfold blocked. rewrite (total_eq a Ha).
  rewrite bool_decide_eq_false_2 by done. simpl. by rewrite andb_true_r.
Qed.

Lemma positive_not_default s who : 0 < tot (account who s) -> account who s <> default_value.
Proof. intros Ht He. rewrite He in Ht. by vm_compute in Ht. Qed.

Lemma dust_of_eq a : data_ok a -> dust_of ED a = if tot a <? ED then tot a else 0.
Proof. intros Ha. unfold dust_of. by rewrite (total_eq a Ha). Qed.

Lemma less_neg d x s :
  0 <= d -> 0 <= x -> d + x <= TotalIssuance s ->
  set_TotalIssuance (saturating_sub (TotalIssuance (less d s)) x) (less d s) =
  set_TotalIssuance (TotalIssuance s - (d + x)) s.
Proof.
  intros. unfold less, saturating_sub, set_TotalIssuance. simpl. f_equal. lia.
Qed.

(** What [withdraw] checks before it writes. *)
Definition withdraw_allowed value (reasons : Z) (liveness : ExistenceRequirement) a : Prop :=
  value <= free a /\ frozen a (reasons_from reasons) <= free a - value /\
  (liveness = AllowDeath \/ ED <= tot a - value).

(** [withdraw]: the amount leaves the free balance; when the account would
    die and cannot, the error comes after the imbalance and the dust have been
    dropped, so the issuance has lost all the account holds. *)
Lemma wp_withdraw who value reasons liveness s (Q : NegativeImbalance -> BalancesState -> Prop) X :
  BalInv s -> 0 <= value < UB ->
  let a := account who s in
  (forall t, value = 0 \/ (withdraw_allowed value reasons liveness a /\
                           blocked ED who (set_free (free a - value) a) s = false) ->
     Eff who (set_free (free a - value) a) s t -> Q (Negative value) t) ->
  (forall e, ~ withdraw_allowed value reasons liveness a -> X e s) ->
  (withdraw_allowed value reasons liveness a -> tot a - value < ED -> can_dec_provider who s = false ->
     X ConsumerRemaining (set_TotalIssuance (TotalIssuance s - tot a) s)) ->
  wp (withdraw ED who value reasons liveness) Q X s.
Proof using ED_pos.
  intros Hs Hv a HQ HX HB. subst a. unfold withdraw. know_account Hs who.
  destruct (Z.eqb_spec value 0) as [->|Hne].
  { bal_steps. apply HQ; [by left|]. apply Eff_refl; [done..|].
    rewrite Z.sub_0_r. by destruct (account who s). }
  apply wp_try_mutate_read; [done..|]. unfold checked_sub.
  destruct (Z.leb_spec value (free (account who s))) as [Hle|]; cbn [ok_or]; bal_steps;
    [lia| |apply HX; unfold withdraw_allowed; lia].
  assert (data_ok (set_free (free (account who s) - value) (account who s))) as Hok by (unfold data_ok, tot; simpl; lia).
  assert ((account who s) <> default_value) as Hnd by (apply positive_not_default; unfold tot; lia).
  pose proof (blocked_spec who _ s Hok Hnd) as Hb. unfold tot in Hb. simpl in Hb.
  pose proof (dust_of_eq _ Hok) as Hd. unfold tot in Hd. simpl in Hd.
  pose proof (bi_ed _ _ Hs who Hnd) as Hed. unfold tot in Hed. 
  set (dies := free (account who s) - value + reserved (account who s) <? ED) in *.
  assert (wp (if dies then let! y := add UB (free (account who s)) (reserved (account who s)) in ret (ED <=? y) else ret false)
    (fun would_kill t => would_kill = dies /\ t = s) (fun (_ : BalancesDispatchError) _ => False) s) as Hk.
  { unfold dies. destruct (Z.ltb_spec (free (account who s) - value + reserved (account who s)) ED); bal_steps; [lia| |done]. split; [lia|done]. }
  eapply wp_mono; [exact Hk| |done]. intros wk t [-> ->].
  bal_steps; [|apply HX; unfold withdraw_allowed; lia|
    apply HX; unfold withdraw_allowed, tot; case_bool_decide; unfold dies in *; simpl in *; naive_solver lia].
  assert (withdraw_allowed value reasons liveness (account who s)) as Hal.
  { split; [done|]. split; [lia|]. case_bool_decide; [by left|right]. unfold dies, tot in *. simpl in *. lia. }
  split; [done|]. split; [done|]. split; [rewrite Hd; destruct dies; lia|].
  destruct (blocked ED who _ s) eqn:Hbl.
  - symmetry in Hb. apply andb_true_iff in Hb as [Hdies Hc%negb_true_iff].
    unfold drop_glue, Drop_Negative. bal_steps. simpl neg.
    rewrite less_neg; rewrite ?Hd, ?Hdies; [|lia..].
    replace (free (account who s) - value + reserved (account who s) + value) with (free (account who s) + reserved (account who s)) by lia.
    apply HB; [done| |done]. unfold dies, tot in *. lia.
  - intros u Hu. apply HQ; [by right|done].
Qed.

(** [x] taken from the free balance first, then from the reserved one. *)
Definition slash_from (x : Z) a : AccountData :=
  let f := Z.min (free a) x in set_reserved (reserved a - (x - f)) (set_free (free a - f) a).

Lemma slash_from_ok x a :
  data_ok a -> 0 <= x <= tot a -> data_ok (slash_from x a) /\ tot (slash_from x a) = tot a - x.
Proof. unfold data_ok, tot, slash_from. simpl. lia. Qed.

(** What an attempt to slash [value] takes. *)
Definition slashable (att : nat) value a : Z :=
  match att with O => Z.min value (tot a) | _ => Z.min value (saturating_sub (tot a) ED) end.

Lemma slashable_bound att value a :
  data_ok a -> 0 <= value -> 0 <= slashable att value a <= tot a /\ slashable att value a <= value.
Proof using ED_pos. unfold data_ok, slashable, saturating_sub, tot. destruct att; lia. Qed.

(** The amount the closure starts from. *)
Definition best_value (att : nat) value a : Z :=
  match att with O => value | _ => Z.min value (saturating_sub (tot a) ED) end.

Lemma best_value_spec att value a :
  data_ok a -> 0 <= value ->
  0 <= best_value att value a <= value /\ slashable att value a = Z.min (best_value att value a) (tot a).
Proof using ED_pos. unfold data_ok, slashable, best_value, saturating_sub, tot. destruct att; lia. Qed.

Lemma wp_best_value att value a (Q : Z -> BalancesState -> Prop) (X : BalancesDispatchError -> _ -> Prop) s :
  data_ok a -> Q (best_value att value a) s ->
  wp (match att with
      | O => ret value
      | _ => let! sum := add UB (free a) (reserved a) in
             ret (Z.min value (saturating_sub sum ED))
      end) Q X s.
Proof.
  intros Ha HQ. unfold data_ok, tot in Ha. destruct att; bal_steps; [done|lia|done].
Qed.

Lemma slash_from_free x a : 0 <= x <= free a -> slash_from x a = set_free (free a - x) a.
Proof.
  intros Hx. unfold slash_from, set_reserved, set_free. simpl. rewrite Z.min_r by lia. f_equal. lia.
Qed.

Lemma wp_slash_attempt who value att s (Q : NegativeImbalance * Z -> BalancesState -> Prop) X :
  SysInv s -> 0 <= TotalIssuance s -> data_ok (account who s) -> 0 <= value < UB ->
  let x := slashable att value (account who s) in let a' := slash_from x (account who s) in
  (if blocked ED who a' s
   then X ConsumerRemaining (set_TotalIssuance
          (saturating_sub (saturating_sub (TotalIssuance s) (dust_of ED a')) x) s)
   else forall u, data_put who (settle ED a') s u ->
          Q (Negative x, value - x) (less (dust_of ED a') u)) ->
  wp (slash_attempt ED who value att) Q X s.
Proof using ED_pos.
  intros Hs HT Hd Hv x a' HQ. unfold slash_attempt. apply wp_try_mutate_account; [done|].
  pose proof (slashable_bound att value _ Hd ltac:(lia)) as Hx. fold x in Hx.
  pose proof (best_value_spec att value _ Hd ltac:(lia)) as [Hb Hxb]. fold x in Hxb.
  destruct (slash_from_ok x (account who s) Hd ltac:(lia)) as [Hok _]. fold a' in Hok.
  bal_steps. apply wp_best_value; [done|]. set (best := best_value att value (account who s)) in *.
  set (a := account who s) in *. assert (account who s = a) as Hacc by done. clearbody a x best.
  assert (account who s = a /\ SysInv s /\ 0 <= TotalIssuance s /\ 0 <= total a' /\
    if blocked ED who a' s
    then wp (drop_glue (Negative x, value - x)) (fun _ => X ConsumerRemaining)
           (fun _ => X ConsumerRemaining) (less (dust_of ED a') s)
    else forall u, data_put who (settle ED a') s u ->
           Q (Negative x, value - x) (less (dust_of ED a') u)) as Hend.
  { split; [done|]. split; [done|]. split; [done|].
    split; [rewrite (total_eq a' Hok); unfold data_ok, tot in *; lia|].
    by destruct (blocked ED who a' s). }
  unfold data_ok, tot in Hd. unfold tot in *. bal_steps; [lia..|].
  destruct (Z.eqb_spec (best - Z.min (free a) best) 0) as [Hz|Hz]; simpl; bal_steps; try lia.
  - assert (x = best /\ x <= free a) as [Hxe Hxf] by lia.
    replace (Z.min (free a) best) with x in * by lia.
    unfold a' in Hend. rewrite slash_from_free in Hend by lia. exact Hend.
  - assert (free a < best) by lia. replace (Z.min (free a) best) with (free a) in * by lia.
    replace (free a + Z.min (reserved a) (best - free a)) with x by lia.
    replace (value - free a - Z.min (reserved a) (best - free a)) with (value - x) by lia.
    replace (set_reserved (reserved a - Z.min (reserved a) (best - free a)) (set_free (free a - free a) a))
      with a'; [exact Hend|].
    unfold a', slash_from. rewrite Z.min_l by lia. f_equal. lia.
Qed.

(** What an attempt to slash the reserve takes. *)
Definition slashable_reserved (att : nat) value a : Z := Z.min (reserved a) (best_value att value a).

Lemma wp_slash_reserved_attempt who value att s (Q : NegativeImbalance * Z -> BalancesState -> Prop) X :
  SysInv s -> 0 <= TotalIssuance s -> data_ok (account who s) -> 0 <= value < UB ->
  let x := slashable_reserved att value (account who s) in
  let a' := set_reserved (reserved (account who s) - x) (account who s) in
  (if blocked ED who a' s
   then X ConsumerRemaining (set_TotalIssuance
          (saturating_sub (saturating_sub (TotalIssuance s) (dust_of ED a')) x) s)
   else forall u, data_put who (settle ED a') s u ->
          Q (Negative x, value - x) (less (dust_of ED a') u)) ->
  wp (slash_reserved_attempt ED who value att) Q X s.
Proof using ED_pos.
  intros Hs HT Hd Hv x a' HQ. unfold slash_reserved_attempt, mutate_account.
  apply wp_try_mutate_account; [done|].
  pose proof (best_value_spec att value _ Hd ltac:(lia)) as [Hb _].
  bal_steps. apply wp_best_value; [done|]. fold (slashable_reserved att value (account who s)). fold x.
  assert (0 <= x <= reserved (account who s) /\ x <= value) as Hx
    by (unfold x, slashable_reserved, data_ok in *; lia).
  fold a'. clearbody x. unfold data_ok, tot in Hd. bal_steps; [lia..|]. fold a'.
  split; [done|]. split; [done|]. split; [done|].
  split; [unfold total, saturating_add, a'; simpl; lia|]. by destruct (blocked ED who a' s).
Qed.

Lemma unblocked_kept who a s : data_ok a -> ED <= tot a -> blocked ED who a s = false.
Proof.
  intros Ha He. unfold blocked. rewrite (total_eq a Ha).
  by destruct (Z.ltb_spec (tot a) ED); [lia|].
Qed.

Lemma settle_kept a : data_ok a -> ED <= tot a -> settle ED a = a /\ dust_of ED a = 0.
Proof.
  intros Ha He. unfold settle, dust_of. rewrite (total_eq a Ha).
  by destruct (Z.ltb_spec (tot a) ED); [lia|].
Qed.

(** The state after a blocked first attempt: the issuance has lost all the
    account holds. *)
Definition leaked who s : BalancesState := set_TotalIssuance (TotalIssuance s - tot (account who s)) s.

Lemma leak_eq who x a' s :
  BalInv s -> data_ok a' -> 0 <= x -> tot a' = tot (account who s) - x -> blocked ED who a' s = true ->
  set_TotalIssuance (saturating_sub (saturating_sub (TotalIssuance s) (dust_of ED a')) x) s = leaked who s.
Proof.
  intros Hs Ha Hx He Hb. pose proof (tot_le _ s who Hs).
  assert (dust_of ED a' = tot a') as ->.
  { unfold blocked in Hb. rewrite (dust_of_eq a' Ha), <- (total_eq a' Ha).
    by destruct (total a' <? ED). }
  unfold leaked, saturating_sub. f_equal. unfold data_ok, tot in *. lia.
Qed.

(** [slash]: the amount, as far as the account holds it, leaves the account.
    When that would kill an account others depend on, the first attempt has
    already dropped the imbalance; the second one leaves the existential
    deposit. *)
Lemma wp_slash who value s (Q : NegativeImbalance * Z -> BalancesState -> Prop) X :
  BalInv s -> 0 <= value < UB ->
  let a := account who s in
  let x := Z.min value (tot a) in
  let y := Z.min value (tot a - ED) in
  (blocked ED who (slash_from x a) s = false ->
     forall t, Eff who (slash_from x a) s t -> Q (Negative x, value - x) t) ->
  (blocked ED who (slash_from x a) s = true ->
     forall t, data_put who (slash_from y a) (leaked who s) t -> Q (Negative y, value - y) t) ->
  wp (slash ED who value) Q X s.
Proof using ED_pos.
  intros Hs Hv a x y HQ HB. unfold slash. pose proof (bi_data _ _ Hs who) as Hd.
  pose proof (tot_le _ s who Hs) as Ht. pose proof (bi_range _ _ Hs) as Hr.
  assert (x = 0 -> Q (Negative 0, value) s) as Hnop.
  { intros Hx0. rewrite Hx0 in HQ. rewrite <- (Z.sub_0_r value).
    assert (slash_from 0 a = a) as Hs0.
    { rewrite slash_from_free; [rewrite Z.sub_0_r; by destruct a|]. unfold data_ok in Hd. fold a in Hd. lia. }
    rewrite Hs0 in HQ. apply HQ; [by eapply blocked_balanced|]. by apply Eff_refl. }
  destruct (Z.eqb_spec value 0) as [Hz|Hne].
  { bal_steps. unfold negative_zero. rewrite Hz in Hnop. apply Hnop. unfold x, a. lia. }
  bal_steps. unfold total_balance. rewrite (total_eq _ Hd).
  destruct (Z.eqb_spec (tot (account who s)) 0) as [Hz|Htz].
  { bal_steps. apply Hnop. unfold x, a. lia. }
  destruct (slash_from_ok x a Hd ltac:(unfold x, a; lia)) as [Hok Htot].
  bal_steps. apply wp_slash_attempt; [apply (bi_sys _ _ Hs)|lia|done|done|]. simpl. fold a x.
  destruct (blocked ED who (slash_from x a) s) eqn:Hb.
  - rewrite (leak_eq who x _ s) by (done || unfold x, a; lia).
    assert (ED <= tot a) as Hed by (apply (bi_ed _ _ Hs), positive_not_default; unfold a in *; lia).
    bal_steps. apply wp_slash_attempt; [apply (bi_sys _ _ Hs)|simpl; lia|done|done|].
    assert (slashable 1 value (account who (leaked who s)) = y) as Hy.
    { change (account who (leaked who s)) with a. unfold y, slashable, saturating_sub. lia. }
    cbv zeta. rewrite Hy. change (account who (leaked who s)) with a.
    destruct (slash_from_ok y a Hd ltac:(unfold y, a in *; lia)) as [Hoky Htoty].
    assert (ED <= tot (slash_from y a)) as Hkeep by (rewrite Htoty; unfold y; lia).
    rewrite unblocked_kept by done. destruct (settle_kept _ Hoky Hkeep) as [-> ->].
    intros u Hu. pose proof (data_put_frame _ _ _ _ Hu) as (HTu & _). simpl in HTu.
    rewrite less_zero; [by apply HB|rewrite HTu; fold a; unfold a in *; lia|done].
  - intros u Hu. apply HQ; [done|]. apply Eff_put; try done.
    pose proof (dust_of_bound ED _ Hok). unfold x, a in *. lia.
Qed.

Lemma set_reserved_same a x : x = reserved a -> set_reserved x a = a.
Proof. intros ->. by destruct a. Qed.

Lemma set_free_same a x : x = free a -> set_free x a = a.
Proof. intros ->. by destruct a. Qed.

Lemma wp_slash_reserved who value s (Q : NegativeImbalance * Z -> BalancesState -> Prop) X :
  BalInv s -> 0 <= value < UB ->
  let a := account who s in
  let x := Z.min (reserved a) value in
  let y := Z.min (reserved a) (Z.min value (tot a - ED)) in
  (blocked ED who (set_reserved (reserved a - x) a) s = false ->
     forall t, Eff who (set_reserved (reserved a - x) a) s t -> Q (Negative x, value - x) t) ->
  (blocked ED who (set_reserved (reserved a - x) a) s = true ->
     forall t, data_put who (set_reserved (reserved a - y) a) (leaked who s) t ->
       Q (Negative y, value - y) t) ->
  wp (slash_reserved ED who value) Q X s.
Proof using ED_pos.
  intros Hs Hv a x y HQ HB. unfold slash_reserved. pose proof (bi_data _ _ Hs who) as Hd.
  pose proof (tot_le _ s who Hs) as Ht. pose proof (bi_range _ _ Hs) as Hr.
  assert (data_ok a) as Hda by done. unfold data_ok, tot in Hda. unfold tot in Ht.
  assert (forall z, 0 <= z <= reserved a -> data_ok (set_reserved (reserved a - z) a) /\
    tot (set_reserved (reserved a - z) a) = tot a - z) as Hsr by (unfold data_ok, tot; simpl; lia).
  assert (x = 0 -> Q (Negative 0, value) s) as Hnop.
  { intros Hx0. rewrite Hx0, (set_reserved_same a) in HQ by lia. rewrite <- (Z.sub_0_r value).
    apply HQ; [by eapply blocked_balanced|]. by apply Eff_refl. }
  destruct (Z.eqb_spec value 0) as [Hz|Hne].
  { bal_steps. unfold negative_zero. rewrite Hz in Hnop. apply Hnop. unfold x. lia. }
  bal_steps. unfold total_balance. rewrite (total_eq _ Hd). unfold tot.
  destruct (Z.eqb_spec (free (account who s) + reserved (account who s)) 0) as [Hz|Htz].
  { bal_steps. apply Hnop. unfold x, a in *. lia. }
  destruct (Hsr x ltac:(unfold x; lia)) as [Hok Htot].
  bal_steps. apply wp_slash_reserved_attempt; [apply (bi_sys _ _ Hs)|lia|done|done|].
  simpl. unfold slashable_reserved. simpl. fold a x.
  destruct (blocked ED who (set_reserved (reserved a - x) a) s) eqn:Hb.
  - rewrite (leak_eq who x _ s) by (done || unfold x, a in *; lia).
    assert (ED <= tot a) as Hed
      by (apply (bi_ed _ _ Hs), positive_not_default; unfold tot, a in *; lia).
    bal_steps. apply wp_slash_reserved_attempt;
      [apply (bi_sys _ _ Hs)|simpl; unfold tot, a in *; lia|done|done|].
    assert (slashable_reserved 1 value (account who (leaked who s)) = y) as Hy.
    { change (account who (leaked who s)) with a.
      unfold y, slashable_reserved, best_value, saturating_sub. lia. }
    cbv zeta. rewrite Hy. change (account who (leaked who s)) with a.
    destruct (Hsr y ltac:(unfold y; lia)) as [Hoky Htoty].
    assert (ED <= tot (set_reserved (reserved a - y) a)) as Hkeep by (rewrite Htoty; unfold y; lia).
    rewrite unblocked_kept by done. destruct (settle_kept _ Hoky Hkeep) as [-> ->].
    intros u Hu. pose proof (data_put_frame _ _ _ _ Hu) as (HTu & _). simpl in HTu.
    rewrite less_zero; [by apply HB|rewrite HTu; unfold tot; lia|done].
  - intros u Hu. apply HQ; [done|]. apply Eff_put; try done.
    pose proof (dust_of_bound ED _ Hok). unfold x, tot, a in *. simpl in *. lia.
Qed.

(* --------------------------------------------------------------------- *)
(** *** Inflows *)

Lemma wp_deposit_into_existing who value s (Q : PositiveImbalance -> BalancesState -> Prop) X :
  BalInv s -> 0 <= value -> TotalIssuance s + value < UB ->
  let a := account who s in
  (value = 0 \/ a <> default_value ->
     forall t, Eff who (set_free (free a + value) a) s t -> Q (Positive value) t) ->
  (value <> 0 -> a = default_value -> X (Module_ DeadAccount) s) ->
  wp (deposit_into_existing ED who value) Q X s.
Proof using ED_pos.
  intros Hs Hv HT a HQ HX. subst a. unfold deposit_into_existing. know_account Hs who.
  destruct (Z.eqb_spec value 0) as [->|Hne].
  { bal_steps. apply HQ; [by left|]. apply Eff_refl; [done..|]. apply set_free_same. lia. }
  apply wp_try_mutate_read; [done..|]. bal_steps;
    [|unfold checked_add in *; case_match; [done|lia]|case_bool_decide; [by apply HX|done]].
  unfold checked_add in *. case_match; simplify_eq. case_bool_decide as Hnd; [done|].
  set (a' := set_free _ _).
  assert (data_ok a' /\ ED <= tot a') as [Hok Hed].
  { pose proof (bi_ed _ _ Hs who Hnd). unfold data_ok, tot, a' in *. simpl. lia. }
  split; [done|]. split; [done|]. rewrite unblocked_kept by done.
  destruct (settle_kept a' Hok Hed) as [_ ->]. split; [lia|]. intros u Hu. apply HQ; [by right|done].
Qed.

(** [deposit_creating] is a no-op when the deposit is too small to open the
    account. *)
Lemma wp_deposit_creating who value s (Q : PositiveImbalance -> BalancesState -> Prop) X :
  BalInv s -> 0 <= value -> TotalIssuance s + value < UB ->
  let a := account who s in
  (value = 0 \/ ED <= value \/ a <> default_value ->
     forall t, Eff who (set_free (free a + value) a) s t -> Q (Positive value) t) ->
  (value < ED -> a = default_value -> Q (Positive 0) s) ->
  wp (deposit_creating ED who value) Q X s.
Proof using ED_pos.
  intros Hs Hv HT a HQ HX. subst a. unfold deposit_creating. know_account Hs who.
  destruct (Z.eqb_spec value 0) as [->|Hne].
  { bal_steps. apply HQ; [by left|]. apply Eff_refl; [done..|]. apply set_free_same. lia. }
  bal_steps. apply wp_try_mutate_read; [done..|]. unfold checked_add.
  destruct (Z.ltb_spec (free (account who s) + value) UB); [|lia].
  bal_steps; [|case_bool_decide; simpl in *; [apply HX; [lia|done]|lia]].
  set (a' := set_free _ _).
  assert (data_ok a' /\ ED <= tot a') as [Hok Hed].
  { unfold data_ok, tot, a' in *. simpl. split; [lia|].
    case_bool_decide as Hnd; [lia|]. pose proof (bi_ed _ _ Hs who Hnd). unfold tot in *. lia. }
  split; [done|]. split; [done|]. rewrite unblocked_kept by done.
  destruct (settle_kept a' Hok Hed) as [_ ->]. split; [lia|]. intros u Hu. apply HQ; [|done].
  case_bool_decide; [right; left; lia|by right; right].
Qed.

(** The imbalance of setting the free balance to [value]. *)
Definition free_imbalance value a : SignedImbalance :=
  if free a <=? value then SignedPositive (Positive (value - free a))
  else SignedNegative (Negative (free a - value)).

Lemma wp_make_free_balance_be who value s (Q : SignedImbalance -> BalancesState -> Prop) X :
  BalInv s -> 0 <= value < UB -> TotalIssuance s - free (account who s) + value < UB ->
  let a := account who s in
  (blocked ED who (set_free value a) s = false -> (a = default_value -> ED <= value) ->
     forall t, Eff who (set_free value a) s t -> Q (free_imbalance value a) t) ->
  (value < ED -> a = default_value -> Q (SignedPositive (Positive 0)) s) ->
  (blocked ED who (set_free value a) s = true -> Q (SignedPositive (Positive 0)) (leaked who s)) ->
  wp (make_free_balance_be ED who value) Q X s.
Proof using ED_pos.
  intros Hs Hv HT a HQ HN HB. subst a. unfold make_free_balance_be. know_account Hs who.
  assert (data_ok (set_free value (account who s))) as Hok by (unfold data_ok, tot; simpl; lia).
  bal_steps. apply wp_try_mutate_read; [done..|]. bal_steps.
  2:{ case_bool_decide as Hnd; simpl in *; [|lia]. apply HN; [|done].
      unfold saturating_add in *. lia. }
  assert (dust_of ED (set_free value (account who s)) <= TotalIssuance s) as Hdust.
  { rewrite dust_of_eq by done. unfold tot. simpl.
    destruct (Z.ltb_spec (value + reserved (account who s)) ED); [|lia].
    case_bool_decide as Hnd; simpl in *; [unfold saturating_add in *; lia|].
    pose proof (bi_ed _ _ Hs who Hnd). unfold tot in *. lia. }
  assert (account who s = default_value -> ED <= value) as Hnew.
  { intros Hd. case_bool_decide; [|done]. rewrite Hd in *. unfold saturating_add in *. simpl in *. lia. }
  unfold free_imbalance in HQ. destruct (Z.leb_spec (free (account who s)) value) as [Hle|Hgt];
    bal_steps; try lia; (split; [done|]; split; [done|]; split; [done|]);
    destruct (blocked ED who (set_free value (account who s)) s) eqn:Hb; try by apply HQ.
  - exfalso. unfold blocked in Hb. rewrite (total_eq _ Hok) in Hb.
    destruct (Z.ltb_spec (tot (set_free value (account who s))) ED) as [Hlt|]; [|done].
    case_bool_decide as Hnd; [done|]. pose proof (bi_ed _ _ Hs who Hnd). unfold tot in *. simpl in *. lia.
  - unfold drop_glue, Drop_Signed, drop_glue, Drop_Negative. bal_steps.
    rewrite <- (leak_eq who (free (account who s) - value) (set_free value (account who s)) s) in HB;
      [by apply HB|done|done|lia|unfold tot; simpl; lia|done].
Qed.

Lemma wp_mint_into who amount s (Q : unit -> BalancesState -> Prop) X :
  BalInv s -> 0 <= amount < UB ->
  let a := account who s in
  (amount = 0 \/ (TotalIssuance s + amount < UB /\ ED <= tot a + amount) ->
     forall t, Eff who (set_free (free a + amount) a) s t ->
       Q tt (set_TotalIssuance (TotalIssuance s + amount) t)) ->
  (forall e, X e s) ->
  wp (mint_into ED who amount) Q X s.
Proof using ED_pos.
  intros Hs Hv a HQ HX. subst a. unfold mint_into. know_account Hs who.
  destruct (Z.eqb_spec amount 0) as [->|Hne].
  { bal_steps. pose proof (HQ ltac:(by left) s) as HQ0.
    rewrite !Z.add_0_r, set_TotalIssuance_id in HQ0. apply HQ0, Eff_refl; [done..|]. by apply set_free_same. }
  bal_steps. apply wp_try_mutate_read; [done..|]. bal_steps.
  unfold deposit_consequence, checked_add. rewrite (total_eq _ (bi_data _ _ Hs who)). unfold tot.
  repeat (case_match; simplify_eq/=; try lia); simpl; bal_steps; try apply HX; [lia|].
  set (a' := set_free _ _).
  assert (data_ok a' /\ ED <= tot a') as [Hok Hed] by (unfold data_ok, tot, a'; simpl; lia).
  split; [done|]. split; [done|]. rewrite unblocked_kept by done.
  destruct (settle_kept a' Hok Hed) as [_ Hd0]. rewrite Hd0. split; [lia|]. intros u Hu.
  pose proof (eff_issuance _ _ _ _ _ Hu) as Hi. rewrite Hd0 in Hi. bal_steps; [lia|].
  replace (TotalIssuance u) with (TotalIssuance s) by lia. apply HQ; [right; lia|done].
Qed.

(** What [burn_from] burns: all there is when the rest is below the
    existential deposit. *)
Definition burnt amount a : Z := if tot a - amount <? ED then tot a else amount.

Lemma wp_withdraw_consequence who amount s (Q : Z -> BalancesState -> Prop)
    (X : BalancesDispatchError -> BalancesState -> Prop) :
  BalInv s -> 0 < amount ->
  (amount <= free (account who s) ->
   (tot (account who s) - amount < ED -> can_dec_provider who s = true) ->
   frozen (account who s) All <= free (account who s) - amount ->
   Q (burnt amount (account who s) - amount) s) ->
  (forall e, X e s) ->
  wp (withdraw_into_result (withdraw_consequence ED who amount (account who s) s)) Q X s.
Proof.
  intros Hs Hv HQ HX. unfold withdraw_consequence, checked_sub, burnt in *.
  rewrite (total_eq _ (bi_data _ _ Hs who)). replace (amount =? 0) with false by lia.
  set (a := account who s) in *.
  destruct (Z.leb_spec amount (TotalIssuance s)); [|simpl; bal_steps; apply HX].
  destruct (Z.leb_spec amount (tot a)); [|simpl; bal_steps; apply HX].
  destruct (Z.ltb_spec (tot a - amount) ED); [destruct (can_dec_provider who s) eqn:Hc|];
    try destruct (Z.leb_spec amount (free a)); try destruct (Z.ltb_spec (free a - amount) (frozen a All));
    rewrite ?Z.sub_diag in HQ; simpl; bal_steps; try apply HX; apply HQ; done || lia.
Qed.

Lemma wp_burn_from who amount s (Q : Z -> BalancesState -> Prop) X :
  BalInv s -> 0 <= amount < UB ->
  let a := account who s in
  reserved a = 0 \/ ED <= tot a - amount ->
  (0 < amount -> amount <= free a ->
     forall t, Eff who (set_free (free a - burnt amount a) a) s t ->
       Q (burnt amount a) (set_TotalIssuance (TotalIssuance s - burnt amount a) t)) ->
  (amount = 0 -> Q 0 s) ->
  (forall e, X e s) ->
  wp (burn_from ED who amount) Q X s.
Proof using ED_pos.
  intros Hs Hv a Hres HQ HQ0 HX. subst a. unfold burn_from. know_account Hs who.
  destruct (Z.eqb_spec amount 0) as [->|Hne]; [bal_steps; by apply HQ0|].
  bal_steps. apply wp_try_mutate_read; [done..|]. bal_steps.
  apply wp_withdraw_consequence; [done|lia| |done]. intros Hle Hdie Hfr.
  set (x := burnt amount (account who s)) in *.
  assert (amount <= x <= free (account who s)) as Hx.
  { unfold x, burnt, tot. destruct (Z.ltb_spec (free (account who s) + reserved (account who s) - amount) ED); lia. }
  assert (data_ok (set_free (free (account who s) - x) (account who s))) as Hok
    by (unfold data_ok, tot; simpl; lia).
  assert (dust_of ED (set_free (free (account who s) - x) (account who s)) = 0) as Hd.
  { rewrite (dust_of_eq _ Hok). unfold x, burnt, tot in *. simpl. repeat case_match; lia. }
  bal_steps; [lia..|]. replace (amount + (x - amount)) with x by lia.
  split; [done|]. split; [done|]. rewrite Hd. split; [lia|].
  replace (blocked _ _ _ _) with false.
  - intros u Hu. pose proof (eff_issuance _ _ _ _ _ Hu) as Hi. rewrite Hd in Hi. bal_steps; [lia|].
    replace (TotalIssuance u) with (TotalIssuance s) by lia. apply HQ; [lia|done|done].
  - unfold blocked. rewrite (total_eq _ Hok). unfold tot. simpl.
    destruct (Z.ltb_spec (free (account who s) - x + reserved (account who s)) ED) as [Hlt|]; [|done].
    rewrite Hdie, andb_false_r; [done|]. unfold x, burnt, tot in *. case_match; lia.
Qed.
End Flows.
