(* ===== verification/BalancesTransfer.v ===== *)
(** * pallet_balances: moving funds between two accounts

    The nested mutation of [Currency::transfer] and of [do_transfer_reserved]:
    what both accounts, the issuance and the rest of the state are afterwards,
    and which error leaves what. *)

From S2P Require Import Prelude System SystemFacts Balances BalancesFacts BalancesOps.

Set Default Proof Using "Type".

(** The effect of leaving [from] with [af] and [to] with [at_]. *)
Record Eff2 (ED : Z) (from to : AccountId) (af at_ : AccountData) (s t : BalancesState) : Prop := {
  eff2_account : forall b, account b t =
    if decide (b = to) then settle ED at_ else if decide (b = from) then settle ED af else account b s;
  eff2_issuance : TotalIssuance t = TotalIssuance s - dust_of ED af - dust_of ED at_;
  eff2_locks : Locks t = Locks s;
  eff2_reserves : Reserves t = Reserves s;
  eff2_inv : BalInv ED t
}.

Section TwoAccounts.
Context {P : Profile} (ED : Z).
Context (ED_pos : 0 < ED).
Local Abbreviation BalInv := (BalInv ED).
Implicit Types (s t u : BalancesState) (who b : AccountId) (a : AccountData) (value : Z).

Lemma data_put_set_issuance who d s t x :
  data_put who d s t -> data_put who d (set_TotalIssuance x s) (set_TotalIssuance x t).
Proof.
  intros ((Ho & Hn & y & ->) & Hd & Hi). split; [|done].
  split; [done|]. split; [done|]. by exists y.
Qed.

(** Two writes, one after the other, with the dust of both dropped. *)
Lemma Eff2_put from to af at_ s u v t :
  BalInv s -> from <> to -> data_ok af -> data_ok at_ ->
  tot af + tot at_ = tot (account from s) + tot (account to s) -> tot af <= tot (account from s) ->
  data_put from (settle ED af) s u -> data_put to (settle ED at_) u v ->
  bal_sys t = bal_sys v -> Locks t = Locks v -> Reserves t = Reserves v ->
  TotalIssuance t = TotalIssuance s - dust_of ED af - dust_of ED at_ ->
  Eff2 ED from to af at_ s t.
Proof.
  intros Hs Hne Hf Ht He Hle Hu Hv Hsys HL HR HT.
  pose proof (data_put_frame _ _ _ _ Hu) as (HTu & HLu & HRu).
  pose proof (data_put_frame _ _ _ _ Hv) as (HTv & HLv & HRv).
  pose proof (dust_of_bound ED af Hf) as Hdf. pose proof (dust_of_bound ED at_ Ht) as Hdt.
  pose proof (tot_le_2 _ s from to Hs Hne) as H2. pose proof (bi_range _ _ Hs) as Hr.
  assert (forall b, account b t = account b v) as Hat.
  { intros b. unfold account, stored_get, account_info. simpl. by rewrite Hsys. }
  assert (account to u = account to s) as Hto
    by (rewrite (data_put_account _ _ _ _ _ Hu); by rewrite decide_False).
  split; [|done|congruence..|].
  - intros b. rewrite Hat, (data_put_account _ _ _ _ _ Hv), (data_put_account _ _ _ _ _ Hu). done.
  - set (x := TotalIssuance s - dust_of ED af + (tot af - tot (account from s))).
    assert (BalInv (set_TotalIssuance x u)) as Hu'.
    { eapply (BalInv_settle ED from af s u); try done. simpl. unfold x. lia. }
    eapply (BalInv_settle ED to at_ (set_TotalIssuance x u) (set_TotalIssuance x v));
      [done|by apply data_put_set_issuance|done|done| |lia].
    change (account to (set_TotalIssuance x u)) with (account to u). simpl.
    rewrite HT, Hto. unfold x. lia.
Qed.

(** When a transfer between two different accounts goes through. *)
Definition transfer_allowed (from to : AccountId) value (er : ExistenceRequirement) s : Prop :=
  value <= free (account from s) /\ ED <= tot (account to s) + value /\
  misc_frozen (account from s) <= free (account from s) - value /\
  (ED <= tot (account from s) - value \/ (er = AllowDeath /\ can_dec_provider from s = true)).

Lemma total_ge (x : Z) a : 0 <= x < UB -> 0 <= tot a -> (x <= total a <-> x <= tot a).
Proof. unfold total, saturating_add, tot. lia. Qed.

(** Dropping the dust of an account, in a state that is only known up to
    the event log. *)
Lemma wp_drop_dust_put who a to d x u v (Q : unit -> BalancesState -> Prop)
    (X : BalancesDispatchError -> BalancesState -> Prop) :
  data_put to d u v -> 0 <= saturating_sub (TotalIssuance v) x -> 0 <= total a ->
  (forall v', data_put to d u v' -> Q tt (less (dust_of ED a) (less x v'))) ->
  wp (drop_glue (mkDust ((fun d => (who, d)) <$> residue ED a))) Q X (less x v).
Proof.
  intros Hv Hx Ha HQ. apply wp_drop_dust; [done|done|by apply HQ|].
  intros e. assert (set_sys (log_event e (sys (less x v))) (less x v) =
    less x (set_sys (log_event e (sys v)) v)) as -> by done.
  by apply HQ, data_put_event.
Qed.

Lemma wp_drop_dusts w1 a1 w2 a2 to d u v (Q : unit -> BalancesState -> Prop)
    (X : BalancesDispatchError -> BalancesState -> Prop) :
  data_put to d u v -> 0 <= TotalIssuance v -> 0 <= total a1 -> 0 <= total a2 ->
  (forall v', data_put to d u v' -> Q tt (less (dust_of ED a2) (less (dust_of ED a1) v'))) ->
  wp (drop_glue (mkDust ((fun d => (w1, d)) <$> residue ED a1)))
     (fun _ => wp (drop_glue (mkDust ((fun d => (w2, d)) <$> residue ED a2))) Q X) X v.
Proof.
  intros Hv HT H1 H2 HQ. rewrite <- (less_zero 0 v HT eq_refl).
  assert (forall y, 0 <= saturating_sub y 0) as Hp by (unfold saturating_sub; lia).
  eapply (wp_drop_dust_put w1 a1 to d 0 u v); [done|apply Hp|done|]. intros v' Hv'.
  pose proof (data_put_frame _ _ _ _ Hv) as (HT1 & _). pose proof (data_put_frame _ _ _ _ Hv') as (HT2 & _).
  rewrite (less_zero 0 v') by (done || congruence).
  eapply (wp_drop_dust_put w2 a2 to d (dust_of ED a1) u v'); try done.
  unfold saturating_sub. lia.
Qed.

Lemma less_less d1 d2 v :
  0 <= d1 -> 0 <= d2 -> d1 + d2 <= TotalIssuance v ->
  TotalIssuance (less d2 (less d1 v)) = TotalIssuance v - d1 - d2.
Proof. intros. unfold less, saturating_sub. simpl. lia. Qed.

Lemma wp_transfer_funds from to value er s (Q : unit -> BalancesState -> Prop) X :
  BalInv s -> ED < UB -> 0 < value < UB -> from <> to ->
  (transfer_allowed from to value er s ->
   forall t, Eff2 ED from to (set_free (free (account from s) - value) (account from s))
               (set_free (free (account to s) + value) (account to s)) s t -> Q tt t) ->
  (forall e, ~ transfer_allowed from to value er s -> X e s) ->
  wp (transfer_funds ED from to value er) Q X s.
Proof using ED_pos.
  intros Hs HED Hv Hne HQ HX. unfold transfer_funds.
  pose proof (tot_le_2 _ s from to Hs Hne). know_account Hs from. know_account Hs to.
  replace (value =? 0) with false by lia. rewrite bool_decide_eq_false_2 by done. simpl.
  bal_steps. apply wp_try_mutate_account_with_dust; [done|].
  bal_steps. apply wp_try_mutate_account_with_dust; [done|].
  unfold checked_sub. destruct (Z.leb_spec value (free (account from s))) as [Hle|Hgt]; cbn [ok_or].
  2:{ bal_steps. apply HX. unfold transfer_allowed. lia. }
  unfold checked_add. destruct (Z.ltb_spec (free (account to s) + value) UB); [|lia]. cbn [ok_or].
  set (af := set_free (free (account from s) - value) (account from s)) in *.
  set (at_ := set_free (free (account to s) + value) (account to s)) in *.
  assert (data_ok af /\ data_ok at_) as [Hokf Hokt] by (unfold data_ok, tot, af, at_; simpl; lia).
  assert (tot af = tot (account from s) - value /\ tot at_ = tot (account to s) + value) as [Htf Htt]
    by (unfold tot, af, at_; simpl; lia).
  pose proof (total_eq af Hokf) as Htotf. pose proof (total_eq at_ Hokt) as Htott.
  pose proof (dust_of_bound ED af Hokf) as Hdf. pose proof (dust_of_bound ED at_ Hokt) as Hdt.
  bal_steps; fold af at_;
    repeat match goal with H : _ = true |- _ => progress (fold af at_ in H)
           | H : _ = false |- _ => progress (fold af at_ in H) end;
    rewrite ?Htotf, ?Htott in *.
  - assert (ED <= tot at_) as Hkeep by lia. split; [done|]. split; [apply (bi_sys _ _ Hs)|].
    assert (ED <= tot af \/ er = AllowDeath /\ can_dec_provider from s = true) as Hor.
    { destruct (can_dec_provider from s); case_bool_decide; simpl in *; auto with lia. }
    replace (blocked ED from af s) with false.
    2:{ unfold blocked. rewrite Htotf. destruct (Z.ltb_spec (tot af) ED); [|done].
        destruct Hor as [|[_ ->]]; [lia|]. by rewrite andb_false_r. }
    intros u Hu. bal_steps. rewrite (data_put_account _ _ _ _ _ Hu), decide_False by done.
    fold at_. split; [done|]. split; [by destruct Hu as (_ & _ & Hu)|].
    rewrite unblocked_kept by done. intros v Hv'.
    pose proof (data_put_frame _ _ _ _ Hu) as (HTu & HLu & HRu).
    pose proof (data_put_frame _ _ _ _ Hv') as (HTv & HLv & HRv).
    bal_steps. apply wp_bind. eapply (wp_drop_dusts from af to at_ to _ u v); [done|lia..|].
    intros v' Hv''. pose proof (data_put_frame _ _ _ _ Hv'') as (HTv' & HLv' & HRv').
    bal_steps. apply HQ.
    + unfold transfer_allowed. rewrite <- Htf, <- Htt. split; [done|]. split; [lia|]. split; [|by apply Hor].
      unfold frozen in *. simpl in *. lia.
    + eapply (Eff2_put from to af at_ s u (set_sys (log_event (Transfer from to value) (sys v')) v'));
        try done; [unfold tot in *; lia..|by apply data_put_event|].
      destruct (settle_kept ED at_ Hokt Hkeep) as [_ Hd0].
      etrans; [apply (less_less (dust_of ED af) (dust_of ED at_) v')|]; unfold tot in *; lia.
  - apply HX. unfold transfer_allowed. rewrite <- Htf. intros (_ & _ & _ & H').
    destruct H' as [|[-> Hc]]; [lia|]. rewrite Hc in *. done.
  - apply HX. unfold transfer_allowed. unfold frozen in *. simpl in *. lia.
  - apply HX. unfold transfer_allowed. rewrite <- Htt. lia.
Qed.

(** What the beneficiary of a reserve gets. *)
Definition credit (status : BalanceStatus) (x : Z) a : AccountData :=
  match status with
  | Status_Free => set_free (free a + x) a
  | Status_Reserved => set_reserved (reserved a + x) a
  end.

Lemma credit_ok status x a :
  data_ok a -> 0 <= x -> tot a + x < UB ->
  data_ok (credit status x a) /\ tot (credit status x a) = tot a + x.
Proof. unfold data_ok, tot, credit. destruct status; simpl; lia. Qed.

Lemma wp_credit status x a (Q : AccountData -> BalancesState -> Prop)
    (X : BalancesDispatchError -> BalancesState -> Prop) s :
  data_ok a -> 0 <= x -> tot a + x < UB -> Q (credit status x a) s ->
  wp (match status with
      | Status_Free => let! f := ok_or (checked_add UB (free a) x) (Arithmetic Overflow) in
                       ret (set_free f a)
      | Status_Reserved => let! r := ok_or (checked_add UB (reserved a) x) (Arithmetic Overflow) in
                           ret (set_reserved r a)
      end) Q X s.
Proof.
  unfold data_ok, tot. intros Ha Hx Ht HQ. unfold checked_add.
  destruct status; case_match; cbn [ok_or]; bal_steps; done || lia.
Qed.

(** The reserve of [from] moved to another, existing account. *)
Lemma wp_do_transfer_reserved from to value best_effort status s
    (Q : Z -> BalancesState -> Prop) X :
  BalInv s -> 0 < value < UB -> from <> to ->
  let x := Z.min (reserved (account from s)) value in
  let af := set_reserved (reserved (account from s) - x) (account from s) in
  (account to s <> default_value -> (best_effort = true \/ value <= reserved (account from s)) ->
   blocked ED from af s = false ->
   forall t, Eff2 ED from to af (credit status x (account to s)) s t -> Q x t) ->
  (forall e, account to s = default_value \/
             (best_effort = false /\ reserved (account from s) < value) -> X e s) ->
  (blocked ED from af s = true -> X ConsumerRemaining (less (dust_of ED af) s)) ->
  wp (do_transfer_reserved ED from to value best_effort status) Q X s.
Proof using ED_pos.
  intros Hs Hv Hne x af HQ HX HB. unfold do_transfer_reserved.
  pose proof (bi_data _ _ Hs from) as Hdf. pose proof (bi_data _ _ Hs to) as Hdt.
  pose proof (tot_le_2 _ s from to Hs Hne) as H2. pose proof (bi_range _ _ Hs) as Hr.
  assert (0 <= x <= reserved (account from s)) as Hx by (unfold data_ok in Hdf; unfold x; lia).
  assert (data_ok af /\ tot af = tot (account from s) - x) as [Hokf Htf]
    by (unfold data_ok, tot, af in *; simpl; lia).
  destruct (credit_ok status x (account to s)) as [Hokt Htt];
    [done|lia|unfold data_ok, tot in *; lia|]. set (at_ := credit status x (account to s)) in *.
  pose proof (dust_of_bound ED af Hokf) as Hbf. pose proof (tot_le _ s to Hs) as Htto.
  replace (value =? 0) with false by lia. rewrite bool_decide_eq_false_2 by done.
  bal_steps. apply wp_try_mutate_account_with_dust; [done|]. bal_steps.
  2:{ apply HX. left. by case_bool_decide. }
  apply wp_try_mutate_account_with_dust; [done|]. bal_steps.
  2:{ apply HX. right. destruct best_effort; [done|]. simpl in *. split; [done|]. lia. }
  fold x. apply wp_credit; [done|lia|unfold data_ok, tot in *; lia|]. fold at_.
  bal_steps; [unfold data_ok, tot in *; lia|]. fold af.
  split; [done|]. split; [apply (bi_sys _ _ Hs)|].
  destruct (blocked ED from af s) eqn:Hb.
  { bal_steps. apply wp_drop_residue; [by eapply TotalIssuance_nonneg| |].
    - rewrite (total_eq af Hokf). unfold data_ok, tot in *. lia.
    - bal_steps. by apply HB. }
  assert (account to s <> default_value) as Hnd by (case_bool_decide; done).
  assert (ED <= tot at_) as Hkeep by (pose proof (bi_ed _ _ Hs to Hnd); lia).
  destruct (settle_kept ED at_ Hokt Hkeep) as [_ Hd0].
  intros u Hu. bal_steps. rewrite (data_put_account _ _ _ _ _ Hu), decide_False by done.
  split; [done|]. split; [by destruct Hu as (_ & _ & Hu)|]. rewrite unblocked_kept by done.
  intros v Hv'. pose proof (data_put_frame _ _ _ _ Hu) as (HTu & HLu & HRu).
  pose proof (data_put_event _ _ _ _ (ReserveRepatriated from to x status) Hv') as Hve.
  pose proof (data_put_frame _ _ _ _ Hve) as (HTv & HLv & HRv). fold x at_.
  bal_steps. eapply wp_mono;
    [apply (wp_drop_dusts to at_ from af to _ u _ (fun _ => Q x) X Hve)| |done].
  - unfold tot in *. lia.
  - rewrite (total_eq at_ Hokt). unfold data_ok, tot in *. lia.
  - rewrite (total_eq af Hokf). unfold data_ok, tot in *. lia.
  - intros v' Hv''. pose proof (data_put_frame _ _ _ _ Hv'') as (HTv' & HLv' & HRv').
    apply HQ; [done| |done|].
    + destruct best_effort; [by left|right]. simpl in *. lia.
    + eapply (Eff2_put from to af at_ s u v'); try done; [lia..|].
      etrans; [apply (less_less (dust_of ED at_) (dust_of ED af) v')|]; unfold tot in *; lia.
  - intros [] t Ht. bal_steps. eapply wp_mono; [exact Ht| |done]. intros. by bal_steps.
Qed.
End TwoAccounts.
