(* ===== verification/BalancesCorrect.v ===== *)
(** * pallet_balances: the theorems

    Conservation of the issuance over all operations, the exact effect of a
    transfer, the round trip of a reserve, locks, the genesis, and the error
    paths that lose or create issuance. *)

From S2P Require Import Prelude System SystemFacts Balances BalancesFacts BalancesOps BalancesTransfer.

Set Default Proof Using "Type".

(* ===================================================================== *)
(** ** Locks *)
Section LockFacts.
Context {P : Profile} (ED : Z).
Context (ED_pos : 0 < ED).
Local Abbreviation BalInv := (BalInv ED).
Implicit Types (s t u : BalancesState) (who b : AccountId) (a : AccountData) (value : Z).

(** The amount the locks that apply to [r] keep in the account. *)
Definition applies (r : Reasons) (l : BalanceLock) : bool :=
  bool_decide (lock_reasons l = All) || bool_decide (lock_reasons l = r).
Definition lock_floor (r : Reasons) (ls : list BalanceLock) : Z :=
  foldr (fun l m => if applies r l then Z.max (lock_amount l) m else m) 0 ls.

Lemma lock_floor_nonneg r ls : 0 <= lock_floor r ls.
Proof. induction ls; simpl; [lia|]. case_match; lia. Qed.

Lemma lock_floor_ge r ls l : l ∈ ls -> applies r l = true -> lock_amount l <= lock_floor r ls.
Proof.
  induction ls as [|l' ls IH]; [by intros ?%not_elem_of_nil|].
  intros [->|Hl]%elem_of_cons Ha; simpl; [rewrite Ha; lia|].
  specialize (IH Hl Ha). case_match; lia.
Qed.

Lemma foldl_apply_lock ls (b : AccountData) :
  0 <= misc_frozen b -> 0 <= fee_frozen b ->
  foldl (fun (b : AccountData) l => apply_lock l b) b ls =
  set_frozen (Z.max (misc_frozen b) (lock_floor Misc ls)) (Z.max (fee_frozen b) (lock_floor Fee ls)) b.
Proof.
  revert b. induction ls as [|l ls IH]; intros b Hm Hf; simpl.
  - rewrite !Z.max_l by done. by destruct b.
  - rewrite IH; unfold apply_lock, applies; simpl; repeat case_match; simpl; try lia;
      unfold set_frozen; simpl; f_equal; lia.
Qed.

(** The frozen amounts after [update_locks] are the largest of the locks. *)
Lemma apply_locks_eq ls a :
  apply_locks ls a = set_frozen (lock_floor Misc ls) (lock_floor Fee ls) a.
Proof.
  unfold apply_locks. rewrite foldl_apply_lock by done. unfold set_frozen. simpl.
  pose proof (lock_floor_nonneg Misc ls). pose proof (lock_floor_nonneg Fee ls).
  f_equal; lia.
Qed.

Lemma data_put_consumers who c s :
  SysInv s -> in_range U32 c -> (0 < c -> 0 < providers (account_info who s)) ->
  data_put who (account who s) s (put_info who (set_consumers c (account_info who s)) s).
Proof.
  intros Hs Hc Hp. pose proof (account_info_ok s who Hs) as (_ & H2 & H3 & _ & H5).
  split; [apply only_account_put|]. split.
  - unfold stored_get. by rewrite account_info_put, decide_True.
  - apply SysInv_put; [done|]. by repeat split; simpl; try apply H2; try apply H3; try apply Hc.
Qed.

(** A write that keeps the data of the account. *)
Lemma BalInv_refs who s t :
  BalInv s -> data_put who (account who s) s t -> BalInv t.
Proof.
  intros Hs Ht. pose proof (data_put_frame _ _ _ _ Ht) as (HT & _).
  eapply (BalInv_put ED who (account who s) s t t); try done.
  - apply (bi_data _ _ Hs).
  - destruct (decide (account who s = default_value)); [by left|right; by apply (bi_ed _ _ Hs)].
  - lia.
  - rewrite HT. apply (bi_range _ _ Hs).
Qed.

Lemma BalInv_set_Locks m s : BalInv s -> BalInv (set_Locks m s).
Proof. intros [H1 H2 H3 H4 H5]. by split. Qed.

(** [t] is [s] but for reference counters and events. *)
Definition same_balances s t : Prop :=
  BalInv t /\ TotalIssuance t = TotalIssuance s /\ (forall b, account b t = account b s) /\
  Locks t = Locks s /\ Reserves t = Reserves s.

Lemma same_balances_put who s t :
  BalInv s -> data_put who (account who s) s t -> same_balances s t.
Proof.
  intros Hs Ht. pose proof (data_put_frame _ _ _ _ Ht) as (HT & HL & HR).
  split; [by eapply BalInv_refs|]. split; [done|]. split; [|done].
  intros b. rewrite (data_put_account _ _ _ _ _ Ht). by case_decide; subst.
Qed.

Lemma wp_dec_consumers who s (Q : unit -> BalancesState -> Prop) (X : BalancesDispatchError -> _ -> Prop) :
  BalInv s -> (forall t, same_balances s t -> Q tt t) -> wp (dec_consumers who) Q X s.
Proof.
  intros Hs HQ. pose proof (account_info_ok s who (bi_sys _ _ Hs)) as ([Hc1 Hc2] & _ & _ & Hcp & _).
  unfold dec_consumers. bal_steps. case_match; bal_steps; [lia| |].
  - apply HQ, (same_balances_put who); [done|].
    apply data_put_consumers; [apply (bi_sys _ _ Hs)|unfold in_range; lia|lia].
  - apply HQ, (same_balances_put who); [done|].
    assert (account_info who s = set_consumers (consumers (account_info who s)) (account_info who s)) as ->
      by (by destruct (account_info who s)).
    apply data_put_consumers; [apply (bi_sys _ _ Hs)|done|done].
Qed.

Lemma wp_inc_consumers who s (Q : unit -> BalancesState -> Prop) (X : BalancesDispatchError -> _ -> Prop) :
  BalInv s -> (forall t, same_balances s t -> Q tt t) -> X NoProviders s ->
  wp (inc_consumers who) Q X s.
Proof.
  intros Hs HQ HX. pose proof (account_info_ok s who (bi_sys _ _ Hs)) as ([Hc1 Hc2] & _).
  unfold inc_consumers. bal_steps. case_match; bal_steps; [|done].
  apply HQ, (same_balances_put who); [done|].
  apply data_put_consumers; [apply (bi_sys _ _ Hs)| |lia].
  unfold in_range, saturating_add, U32 in *. lia.
Qed.

(** Locks change neither the balances nor the issuance. *)
Lemma wp_update_locks who ls s (Q : unit -> BalancesState -> Prop) X :
  BalInv s ->
  (forall t, BalInv t -> TotalIssuance t = TotalIssuance s ->
     (forall b, account b t = if decide (b = who) then settle ED (apply_locks ls (account who s))
                              else account b s) ->
     locks who t = ls -> Q tt t) ->
  wp (update_locks ED who ls) Q X s.
Proof using ED_pos.
  intros Hs HQ. unfold update_locks. pose proof (bi_data _ _ Hs who) as Hd.
  assert (data_ok (apply_locks ls (account who s)) /\
    tot (apply_locks ls (account who s)) = tot (account who s)) as [Hok Ht].
  { rewrite apply_locks_eq. unfold data_ok, tot in *. simpl.
    pose proof (lock_floor_nonneg Misc ls). pose proof (lock_floor_nonneg Fee ls). lia. }
  bal_steps. apply wp_try_mutate_balanced; [done..|]. bal_steps. split; [done|]. split; [done|].
  split; [done|]. intros u Hu Hiu. bal_steps. apply wp_debug_assert; [done|]. bal_steps.
  pose proof (eff_issuance _ _ _ _ _ Hu) as HT. rewrite (dust_balanced ED who _ s Hs Hok Ht) in HT.
  assert (forall m t, default [] (m !! who) = ls -> same_balances (set_Locks m u) t -> Q tt t) as Hend.
  { intros m t Hm (Hit & HTt & Ha & HL & _). apply HQ; [done|simpl in HTt; lia| |].
    - intros b. rewrite Ha. apply (eff_account _ _ _ _ _ Hu).
    - unfold locks. by rewrite HL. }
  assert (forall m, BalInv (set_Locks m u) /\ same_balances (set_Locks m u) (set_Locks m u)) as Hm.
  { intros m. split; [by apply BalInv_set_Locks|]. split; [by apply BalInv_set_Locks|done]. }
  case_bool_decide; bal_steps; case_bool_decide; simpl; bal_steps;
    try apply wp_dec_consumers; try apply wp_inc_consumers; bal_steps; intros; try apply Hm;
    eapply Hend; try eassumption; try apply Hm; simpl;
    rewrite ?lookup_delete_eq, ?lookup_insert_eq; by subst.
Qed.
End LockFacts.

(* ===================================================================== *)
(** ** Conservation *)

(** The operations of the pallet; one that returns an imbalance is followed
    by the drop of it. *)
Inductive BalOp :=
| OpTransfer (from to : AccountId) (value : Z) (er : ExistenceRequirement)
| OpReserve (who : AccountId) (value : Z)
| OpUnreserve (who : AccountId) (value : Z)
| OpHold (who : AccountId) (value : Z)
| OpRelease (who : AccountId) (value : Z) (best_effort : bool)
| OpRepatriate (from to : AccountId) (value : Z) (status : BalanceStatus)
| OpWithdraw (who : AccountId) (value reasons : Z) (er : ExistenceRequirement)
| OpSlash (who : AccountId) (value : Z)
| OpSlashReserved (who : AccountId) (value : Z)
| OpDepositExisting (who : AccountId) (value : Z)
| OpDepositCreating (who : AccountId) (value : Z)
| OpMakeFree (who : AccountId) (value : Z)
| OpMint (who : AccountId) (value : Z)
| OpBurnFrom (who : AccountId) (value : Z)
| OpSetLock (id : N) (who : AccountId) (amount reasons : Z)
| OpExtendLock (id : N) (who : AccountId) (amount reasons : Z)
| OpRemoveLock (id : N) (who : AccountId)
| OpSetBalance (who : AccountId) (new_free new_reserved : Z).

Section Conservation.
Context {P : Profile} (ED : Z).
Context (ED_pos : 0 < ED) (ED_range : ED < UB).
Local Abbreviation BalInv := (BalInv ED).
Implicit Types (s t u : BalancesState) (who b : AccountId) (a : AccountData) (value : Z).

Definition exec_op (op : BalOp) : MB unit :=
  match op with
  | OpTransfer from to v er => transfer_funds ED from to v er
  | OpReserve who v => reserve ED who v
  | OpUnreserve who v => unreserve ED who v ;; ret tt
  | OpHold who v => hold ED who v
  | OpRelease who v be => release_hold ED who v be ;; ret tt
  | OpRepatriate from to v st => repatriate_reserved ED from to v st ;; ret tt
  | OpWithdraw who v r er => let! i := withdraw ED who v r er in drop_glue i
  | OpSlash who v => let! i := slash ED who v in drop_glue i
  | OpSlashReserved who v => let! i := slash_reserved ED who v in drop_glue i
  | OpDepositExisting who v => let! i := deposit_into_existing ED who v in drop_glue i
  | OpDepositCreating who v => let! i := deposit_creating ED who v in drop_glue i
  | OpMakeFree who v => let! i := make_free_balance_be ED who v in drop_glue i
  | OpMint who v => mint_into ED who v
  | OpBurnFrom who v => burn_from ED who v ;; ret tt
  | OpSetLock id who v r => set_lock ED id who v r
  | OpExtendLock id who v r => extend_lock ED id who v r
  | OpRemoveLock id who => remove_lock ED id who
  | OpSetBalance who f r => set_balance ED Some Root who f r
  end.

Definition amount_of (op : BalOp) : Z :=
  match op with
  | OpTransfer _ _ v _ | OpReserve _ v | OpUnreserve _ v | OpHold _ v | OpRelease _ v _
  | OpRepatriate _ _ v _ | OpWithdraw _ v _ _ | OpSlash _ v | OpSlashReserved _ v
  | OpDepositExisting _ v | OpDepositCreating _ v | OpMakeFree _ v | OpMint _ v | OpBurnFrom _ v
  | OpSetLock _ _ v _ | OpExtendLock _ _ v _ => v
  | OpRemoveLock _ _ => 0
  | OpSetBalance _ f r => f
  end.

(** What the operation's caller owes: the new issuance fits its type where
    the operation does not check it, the account may die where the operation
    may kill it without asking, and [burn_from] is not used on reserves. *)
Definition op_guard (op : BalOp) s : Prop :=
  match op with
  | OpWithdraw who _ _ er => er = KeepAlive \/ can_dec_provider who s = true
  | OpSlash who _ | OpSlashReserved who _ | OpRepatriate who _ _ _ => can_dec_provider who s = true
  | OpDepositExisting _ v | OpDepositCreating _ v => TotalIssuance s + v < UB
  | OpMakeFree who v =>
      TotalIssuance s - free (account who s) + v < UB /\ can_dec_provider who s = true
  | OpBurnFrom who _ => reserved (account who s) = 0
  | OpSetBalance who f r =>
      0 <= r /\ f + r < UB /\ can_dec_provider who s = true /\
      TotalIssuance s + f + r < UB
  | _ => True
  end.

Lemma unblocked_alive who a s : can_dec_provider who s = true -> blocked ED who a s = false.
Proof. unfold blocked. intros ->. by rewrite andb_false_r. Qed.

(** The imbalance of the change, squared up. *)
Lemma drop_negative_inv who a s t x :
  BalInv s -> data_ok a -> Eff ED who a s t -> tot a = tot (account who s) - x -> 0 <= x ->
  BalInv (set_TotalIssuance (saturating_sub (TotalIssuance t) x) t).
Proof using ED_range ED_pos.
  intros Hs Ha Ht He Hx. pose proof (dust_of_bound ED a Ha). pose proof (tot_le _ s who Hs).
  pose proof (eff_issuance _ _ _ _ _ Ht). pose proof (bi_range _ _ Hs).
  apply (eff_inv _ _ _ _ _ Ht); unfold saturating_sub; lia.
Qed.

Lemma drop_positive_inv who a s t x :
  BalInv s -> data_ok a -> Eff ED who a s t -> tot a = tot (account who s) + x -> 0 <= x ->
  TotalIssuance s + x < UB -> (x = 0 \/ ED <= tot a) ->
  BalInv (set_TotalIssuance (saturating_add UB (TotalIssuance t) x) t).
Proof.
  intros Hs Ha Ht He Hx Hr Hed. pose proof (tot_le _ s who Hs).
  pose proof (eff_issuance _ _ _ _ _ Ht).
  assert (dust_of ED a = 0) as Hd.
  { destruct Hed as [->|Hed]; [apply (dust_balanced ED who a s); [done..|lia]|by apply settle_kept]. }
  apply (eff_inv _ _ _ _ _ Ht); unfold saturating_add; lia.
Qed.

Lemma transfer_conserves from to v er s :
  BalInv s -> 0 <= v < UB ->
  wp (transfer_funds ED from to v er) (fun _ => BalInv) (fun _ => BalInv) s.
Proof using ED_pos ED_range.
  intros Hs Hv. destruct (decide (v = 0 \/ from = to)) as [Hn|Hn].
  - unfold transfer_funds. replace ((v =? 0) || bool_decide (from = to)) with true; [done|].
    destruct Hn as [-> | ->]; [done|]. by rewrite bool_decide_eq_true_2, orb_true_r.
  - apply wp_transfer_funds; try done; [lia|naive_solver|]. intros _ t Ht. apply (eff2_inv _ _ _ _ _ _ _ Ht).
Qed.

Lemma repatriate_conserves from to v st s :
  BalInv s -> 0 <= v < UB -> can_dec_provider from s = true ->
  wp (repatriate_reserved ED from to v st) (fun _ => BalInv) (fun _ => BalInv) s.
Proof using ED_pos.
  intros Hs Hv Hc. unfold repatriate_reserved. bal_steps.
  destruct (decide (v = 0)) as [->|Hv0]; [by unfold do_transfer_reserved; bal_steps|].
  destruct (decide (from = to)) as [<-|Hne].
  - unfold do_transfer_reserved. replace (v =? 0) with false by lia.
    rewrite bool_decide_eq_true_2 by done. destruct st; bal_steps; [|done].
    apply wp_unreserve; [done..|]. intros t _ Ht. by bal_steps.
  - apply wp_do_transfer_reserved; try done; [lia| |].
    + intros _ _ _ t Ht. bal_steps. apply (eff2_inv _ _ _ _ _ _ _ Ht).
    + by rewrite unblocked_alive.
Qed.

Lemma withdraw_conserves who v r er s :
  BalInv s -> 0 <= v < UB -> er = KeepAlive \/ can_dec_provider who s = true ->
  wp (let! i := withdraw ED who v r er in drop_glue i) (fun _ => BalInv) (fun _ => BalInv) s.
Proof using ED_pos ED_range.
  intros Hs Hv Hg. bal_steps. know_account Hs who. apply wp_withdraw; [done..| |done|].
  - intros t Hok Ht. unfold drop_glue, Drop_Negative, withdraw_allowed in *. bal_steps.
    eapply (drop_negative_inv who); [done| |done| |simpl; lia]; unfold data_ok, tot; simpl; lia.
  - intros (_ & _ & Hor) Hlt Hc. rewrite Hc in Hg. destruct Hg as [-> |]; [|done].
    destruct Hor; [done|lia].
Qed.

Lemma slash_conserves who v s :
  BalInv s -> 0 <= v < UB -> can_dec_provider who s = true ->
  wp (let! i := slash ED who v in drop_glue i) (fun _ => BalInv) (fun _ => BalInv) s.
Proof using ED_pos ED_range.
  intros Hs Hv Hc. bal_steps. pose proof (tot_le _ s who Hs).
  apply wp_slash; [done..| |by rewrite unblocked_alive].
  intros _ t Ht. unfold drop_glue, Drop_prod, drop_glue, Drop_Negative. bal_steps. simpl.
  destruct (slash_from_ok (Z.min v (tot (account who s))) (account who s)) as [Hok He];
    [apply (bi_data _ _ Hs)|lia|]. unfold Drop_Z. bal_steps.
  eapply (drop_negative_inv who); [done|exact Hok|done|done|lia].
Qed.

Lemma slash_reserved_conserves who v s :
  BalInv s -> 0 <= v < UB -> can_dec_provider who s = true ->
  wp (let! i := slash_reserved ED who v in drop_glue i) (fun _ => BalInv) (fun _ => BalInv) s.
Proof using ED_pos ED_range.
  intros Hs Hv Hc. bal_steps. know_account Hs who.
  apply wp_slash_reserved; [done..| |by rewrite unblocked_alive].
  intros _ t Ht. unfold drop_glue, Drop_prod, drop_glue, Drop_Negative, Drop_Z. bal_steps.
  eapply (drop_negative_inv who); [done| |done| |simpl; lia]; unfold data_ok, tot; simpl; lia.
Qed.

Lemma deposit_conserves who v s :
  BalInv s -> 0 <= v < UB -> TotalIssuance s + v < UB ->
  wp (let! i := deposit_into_existing ED who v in drop_glue i) (fun _ => BalInv) (fun _ => BalInv) s /\
  wp (let! i := deposit_creating ED who v in drop_glue i) (fun _ => BalInv) (fun _ => BalInv) s.
Proof using ED_pos.
  intros Hs Hv Hr. know_account Hs who.
  assert (forall t, (v = 0 \/ ED <= v \/ account who s <> default_value) ->
    Eff ED who (set_free (free (account who s) + v) (account who s)) s t ->
    BalInv (set_TotalIssuance (saturating_add UB (TotalIssuance t) v) t)) as Hin.
  { intros t Hor Ht. eapply (drop_positive_inv who); [done| |done| |lia|lia|];
      unfold data_ok, tot; simpl; try lia.
    destruct Hor as [|[|Hnd]]; [by left|right; lia|right].
    pose proof (bi_ed _ _ Hs who Hnd). unfold tot in *. lia. }
  split; bal_steps.
  - apply wp_deposit_into_existing; [done|done|lia|lia| |done]. intros Hor t Ht.
    unfold drop_glue, Drop_Positive. bal_steps. apply Hin; [naive_solver|done].
  - apply wp_deposit_creating; [done|done|lia|lia| |].
    + intros Hor t Ht. unfold drop_glue, Drop_Positive. bal_steps. by apply Hin.
    + intros _ _. unfold drop_glue, Drop_Positive. bal_steps. unfold saturating_add. simpl.
      by rewrite Z.add_0_r, Z.min_l, set_TotalIssuance_id by lia.
Qed.

Lemma make_free_conserves who v s :
  BalInv s -> 0 <= v < UB ->
  TotalIssuance s - free (account who s) + v < UB -> can_dec_provider who s = true ->
  wp (let! i := make_free_balance_be ED who v in drop_glue i) (fun _ => BalInv) (fun _ => BalInv) s.
Proof using ED_pos ED_range.
  intros Hs Hv Hr Hc. bal_steps. know_account Hs who.
  apply wp_make_free_balance_be; [done..| | |by rewrite unblocked_alive].
  - intros _ Hnew t Ht. unfold free_imbalance.
    assert (data_ok (set_free v (account who s))) as Hok by (unfold data_ok, tot; simpl; lia).
    pose proof (dust_of_bound ED _ Hok) as Hdb. pose proof (eff_issuance _ _ _ _ _ Ht) as HT.
    pose proof (dust_of_eq ED _ Hok) as Hde. unfold tot in *. simpl in *.
    destruct (Z.leb_spec (free (account who s)) v);
      unfold drop_glue, Drop_Signed, drop_glue, Drop_Positive, Drop_Negative; bal_steps; simpl.
    + eapply (drop_positive_inv who); [done|exact Hok|done|unfold tot; simpl; lia|lia|lia|right].
      unfold tot. simpl. destruct (decide (account who s = default_value)) as [Hd|Hnd];
        [specialize (Hnew Hd); lia|]. pose proof (bi_ed _ _ Hs who Hnd). unfold tot in *. lia.
    + eapply (drop_negative_inv who); [done|exact Hok|done|unfold tot; simpl; lia|lia].
  - intros _ _. unfold drop_glue, Drop_Signed, drop_glue, Drop_Positive. bal_steps.
    unfold saturating_add. simpl. by rewrite Z.add_0_r, Z.min_l, set_TotalIssuance_id by lia.
Qed.

Lemma wp_square_up new old s (Q : unit -> BalancesState -> Prop) X :
  0 <= new < UB -> 0 <= old < UB -> 0 <= TotalIssuance s + new - old < UB ->
  Q tt (set_TotalIssuance (TotalIssuance s + new - old) s) -> wp (square_up new old) Q X s.
Proof.
  intros Hn Ho HT HQ. unfold square_up, saturating_add, saturating_sub.
  assert (forall x, x = TotalIssuance s + new - old -> Q tt (set_TotalIssuance x s)) as HQ' by (by intros ? ->).
  destruct (Z.ltb_spec old new); [|destruct (Z.ltb_spec new old)]; bal_steps; try lia;
    unfold drop_glue, Drop_Positive, Drop_Negative, saturating_add, saturating_sub; bal_steps.
  - apply HQ'. simpl. lia.
  - apply HQ'. simpl. lia.
  - rewrite <- (set_TotalIssuance_id s). apply HQ'. lia.
Qed.

Lemma set_balance_conserves who f r s :
  BalInv s -> 0 <= f -> 0 <= r -> f + r < UB -> TotalIssuance s + f + r < UB ->
  can_dec_provider who s = true ->
  wp (set_balance ED Some Root who f r) (fun _ => BalInv) (fun _ => BalInv) s.
Proof using ED_pos ED_range.
  intros Hs Hf Hr Hfr HT Hc. unfold set_balance, lookup_addr. simpl. know_account Hs who.
  bal_steps; [lia|]. set (w := f + r <? ED).
  set (nf := if w then 0 else f). set (nr := if w then 0 else r).
  assert (0 <= nf <= f /\ 0 <= nr <= r /\ (nf + nr = 0 \/ ED <= nf + nr)) as Hn
    by (unfold nf, nr, w; destruct (Z.ltb_spec (f + r) ED); lia).
  apply wp_try_mutate_account; [done|]. bal_steps. apply wp_square_up; [lia..|].
  bal_steps. apply wp_square_up; [lia|lia|simpl; lia|]. bal_steps. simpl.
  set (a' := set_reserved nr (set_free nf (account who s))).
  assert (data_ok a' /\ tot a' = nf + nr) as [Hok Ht] by (unfold data_ok, tot, a'; simpl; lia).
  assert (dust_of ED a' = 0) as Hd by (rewrite (dust_of_eq ED a' Hok), Ht; case_match; lia).
  split; [done|]. split; [apply (bi_sys _ _ Hs)|]. split; [lia|].
  split; [rewrite (total_eq a' Hok); lia|]. rewrite Hd.
  rewrite unblocked_alive by done. intros u Hu. bal_steps. apply BalInv_event.
  pose proof (data_put_frame _ _ _ _ Hu) as (HTu & _). simpl in HTu.
  apply (data_put_set_issuance _ _ _ _ (TotalIssuance s)) in Hu.
  match type of Hu with data_put _ _ ?x _ => assert (x = s) as Hx by (by destruct s) end.
  rewrite Hx in Hu. rewrite less_zero by (done || lia).
  eapply (BalInv_settle ED who a' s (set_TotalIssuance (TotalIssuance s) u)); try done.
  - rewrite Hd. unfold tot in *. lia.
  - lia.
Qed.

(** Issuance is conserved by each operation, on both exits. *)
Lemma exec_op_conserves op s :
  BalInv s -> 0 <= amount_of op < UB -> op_guard op s ->
  wp (exec_op op) (fun _ => BalInv) (fun _ => BalInv) s.
Proof using ED_pos ED_range.
  intros Hs Hv Hg. destruct op; simpl in Hv, Hg; simpl exec_op.
  - by apply transfer_conserves.
  - apply wp_reserve; [done..| |done]. intros t Hok Ht. eapply Eff_balanced; [done|done| |].
    + know_account Hs who. unfold data_ok, reserve_in, tot. simpl. lia.
    + apply tot_reserve_in.
  - bal_steps. apply wp_unreserve; [done..|]. intros t _ Ht. by bal_steps.
  - by apply wp_hold.
  - bal_steps. apply wp_release; [done..| |done]. intros _ t _ Ht. by bal_steps.
  - bal_steps. eapply wp_mono; [by apply repatriate_conserves| |done]. intros ? t Ht. by bal_steps.
  - by apply withdraw_conserves.
  - by apply slash_conserves.
  - by apply slash_reserved_conserves.
  - by apply deposit_conserves.
  - by apply deposit_conserves.
  - destruct Hg as [Hr Hc]. by apply make_free_conserves.
  - apply wp_mint_into; [done..| |done]. intros Hor t Ht. know_account Hs who.
    assert (data_ok (set_free (free (account who s) + value) (account who s))) as Hok
      by (unfold data_ok, tot; simpl; lia).
    assert (dust_of ED (set_free (free (account who s) + value) (account who s)) = 0) as Hd.
    { destruct Hor as [->|[_ Hed]]; [apply (dust_balanced ED who _ s); [done..|unfold tot; simpl; lia]|].
      apply settle_kept; [done|]. unfold tot in *. simpl. lia. }
    pose proof (eff_issuance _ _ _ _ _ Ht) as HT.
    apply (eff_inv _ _ _ _ _ Ht); unfold tot; simpl; lia.
  - bal_steps. know_account Hs who. apply wp_burn_from; [done..|by left| |by intros _; bal_steps|done].
    intros Hp Hle t Ht. bal_steps. pose proof (eff_issuance _ _ _ _ _ Ht) as HT.
    assert (burnt ED value (account who s) <= free (account who s) /\ value <= burnt ED value (account who s)) as Hb
      by (unfold burnt, tot; case_match; lia).
    assert (data_ok (set_free (free (account who s) - burnt ED value (account who s)) (account who s))) as Hok
      by (unfold data_ok, tot; simpl; lia).
    assert (dust_of ED (set_free (free (account who s) - burnt ED value (account who s)) (account who s)) = 0) as Hd.
    { rewrite (dust_of_eq ED _ Hok). unfold burnt, tot in *. simpl in *. repeat case_match; lia. }
    apply (eff_inv _ _ _ _ _ Ht); unfold tot; simpl; lia.
  - unfold set_lock. case_match; bal_steps; [done|]. by apply wp_update_locks.
  - unfold extend_lock. case_match; bal_steps; [done|]. by apply wp_update_locks.
  - unfold remove_lock. bal_steps. by apply wp_update_locks.
  - destruct Hg as (? & ? & ? & ?). apply set_balance_conserves; done || lia.
Qed.
End Conservation.
