(* ===== verification/BalancesTheorems.v ===== *)
(** * pallet_balances: what the currency promises

    The genesis establishes the invariant and every sequence of operations
    keeps it; transfers, reserves, slashes and locks do exactly what they say;
    and the four places where the code does not. *)

From S2P Require Import Prelude System SystemFacts Balances BalancesFacts BalancesOps BalancesTransfer BalancesCorrect.

Set Default Proof Using "Type".

(* ===================================================================== *)
(** ** Genesis *)
Section Genesis.
Context {P : Profile} (ED : Z).
Context (ED_pos : 0 < ED).
Local Abbreviation BalInv := (BalInv ED).
Implicit Types (s t u : BalancesState) (who b : AccountId).

Definition empty_balances : BalancesState := mkBalances (mkSystem ∅ 0 0 []) 0 ∅ ∅.

Definition endowment (bals : list (AccountId * Z)) : Z := foldr (fun x acc => x.2 + acc) 0 bals.

(** What the genesis configuration has to satisfy. *)
Definition genesis_ok (bals : list (AccountId * Z)) : Prop :=
  NoDup bals.*1 /\ Forall (fun x => ED <= x.2) bals /\ endowment bals < UB.

Lemma endowment_nonneg bals : Forall (fun x => ED <= x.2) bals -> 0 <= endowment bals.
Proof using ED_pos. induction 1; simpl; lia. Qed.

Lemma wp_sum_genesis acc bals (Q : Z -> BalancesState -> Prop) X s :
  Forall (fun x => ED <= x.2) bals -> 0 <= acc -> acc + endowment bals < UB ->
  Q (acc + endowment bals) s -> wp (sum_genesis acc bals) Q X s.
Proof using ED_pos.
  intros Hf. revert acc. induction Hf as [|[w n] bals Hn Hf IH]; intros acc Ha Hr HQ; simpl in *.
  - bal_steps. by rewrite Z.add_0_r in HQ.
  - pose proof (endowment_nonneg bals Hf). bal_steps; [lia|]. apply IH; [lia|lia|].
    by rewrite <- Z.add_assoc.
Qed.

(** The state while the accounts of [rest] are still to be inserted. *)
Record GenInv (rest : list (AccountId * Z)) s : Prop := {
  gi_sys : SysInv s;
  gi_data : forall who, data_ok (account who s);
  gi_ed : forall who, account who s <> default_value -> ED <= tot (account who s);
  gi_sum : TotalIssuance s = map_sum holdings (Account (bal_sys s)) + endowment rest;
  gi_range : TotalIssuance s < UB;
  gi_ok : NoDup rest.*1 /\ Forall (fun x => ED <= x.2) rest;
  gi_fresh : forall who, who ∈ rest.*1 -> account who s = default_value
}.

Lemma GenInv_insert who n rest s t :
  GenInv ((who, n) :: rest) s -> 0 <= map_sum holdings (Account (bal_sys s)) ->
  data_put who (set_free n default_value) s t -> GenInv rest t.
Proof using ED_pos.
  intros [H1 H2 H3 H4 H5 [H6 H7] H8] Hpos Ht.
  pose proof (data_put_frame _ _ _ _ Ht) as (HT & _). simpl in *.
  apply NoDup_cons in H6 as [Hw H6]. apply Forall_cons in H7 as [Hn H7]. simpl in Hn.
  pose proof (endowment_nonneg rest H7) as He.
  assert (data_ok (set_free n default_value)) as Hok by (unfold data_ok, tot; simpl; lia).
  split; [by destruct Ht as (_ & _ & Ht)|..].
  - intros b. rewrite (data_put_account _ _ _ _ _ Ht). by case_decide.
  - intros b. rewrite (data_put_account _ _ _ _ _ Ht). case_decide; [|apply H3].
    intros _. unfold tot. simpl. lia.
  - rewrite HT, (data_put_sum _ _ _ _ Ht), H8 by (by left). unfold tot. simpl. lia.
  - lia.
  - done.
  - intros b Hb. rewrite (data_put_account _ _ _ _ _ Ht), decide_False by (by intros ->).
    apply H8. by right.
Qed.

Lemma GenInv_sum_nonneg rest s : GenInv rest s -> 0 <= map_sum holdings (Account (bal_sys s)).
Proof.
  intros Hs. apply map_sum_nonneg. intros k v Hk. pose proof (gi_data _ _ Hs k) as (H1 & H2 & _).
  unfold account, stored_get, account_info in *. simpl in *. rewrite Hk in *. simpl in *.
  unfold holdings, tot. lia.
Qed.

Lemma wp_store_insert who d s (Q : unit -> BalancesState -> Prop) X :
  SysInv s -> d <> default_value -> (forall t, data_put who d s t -> Q tt t) ->
  wp (store_insert who d) Q X s.
Proof.
  intros Hs Hd HQ. unfold store_insert, try_mutate_exists. bal_steps.
  apply wp_store_data; [done|done|]. by split.
Qed.

Lemma size_endowed (bals : list (AccountId * Z)) :
  NoDup bals.*1 -> base.size (list_to_set bals.*1 : gset AccountId) = length bals.
Proof. intros Hd. rewrite size_list_to_set by done. by rewrite length_fmap. Qed.

Lemma GenInv_start bals :
  genesis_ok bals -> GenInv bals (set_TotalIssuance (endowment bals) empty_balances).
Proof.
  intros (Hnd & Hf & Hr). by split.
Qed.

Lemma wp_genesis_build bals (Q : unit -> BalancesState -> Prop) X :
  genesis_ok bals ->
  (forall t, BalInv t -> TotalIssuance t = endowment bals -> Q tt t) ->
  wp (genesis_build ED bals) Q X empty_balances.
Proof using ED_pos.
  intros (Hnd & Hf & Hr) HQ. unfold genesis_build. bal_steps.
  apply wp_sum_genesis; [done|lia|lia|]. bal_steps.
  set (s1 := set_TotalIssuance _ _).
  eapply wp_mono; [apply (wp_for_each (fun rest t => t = s1 /\ Forall (fun x => ED <= x.2) rest) _ _ X)| |done].
  { done. }
  { intros [w n] rest t [-> Hn]. apply Forall_cons in Hn as [Hn Hrest]. simpl in Hn.
    apply wp_assert; [lia|done]. }
  intros _ t [-> _]. bal_steps. apply wp_assert; [by rewrite size_endowed, bool_decide_eq_true_2|].
  eapply wp_mono; [apply (wp_for_each (fun rest t => GenInv rest t /\ TotalIssuance t = endowment bals) _ _ X)
                  | |done].
  { split; [|done]. by apply GenInv_start. }
  { intros [w n] rest t [Ht HT]. bal_steps.
    pose proof (proj1 (Forall_cons _ _ _) (proj2 (gi_ok _ _ Ht))) as [Hn _]. simpl in Hn.
    apply wp_store_insert; [apply (gi_sys _ _ Ht)|by intros [= ->]; lia|].
    intros u Hu. bal_steps. apply wp_assert; [done|].
    pose proof (data_put_frame _ _ _ _ Hu) as (HTu & _). split; [|congruence].
    eapply GenInv_insert; [done|by eapply GenInv_sum_nonneg|done]. }
  intros [] t [[H1 H2 H3 H4 H5 _ _] HT]. apply HQ; [|done]. split; try done. simpl in H4. lia.
Qed.
End Genesis.

(* ===================================================================== *)
(** ** Conservation over every history *)
Section Histories.
Context {P : Profile} (ED : Z).
Context (ED_pos : 0 < ED) (ED_range : ED < UB).
Local Abbreviation BalInv := (BalInv ED).
Implicit Types (s t u : BalancesState) (who b : AccountId) (value : Z).

(** One operation whose caller keeps its side of the contract; an error keeps
    what was written before it. *)
Inductive bal_step : BalancesState -> BalancesState -> Prop :=
| bal_step_ok op s s' :
    0 <= amount_of op < UB -> op_guard op s -> exec_op ED op s = Ok tt s' -> bal_step s s'
| bal_step_err op e s s' :
    0 <= amount_of op < UB -> op_guard op s -> exec_op ED op s = Err e s' -> bal_step s s'.

Lemma bal_step_inv s s' : BalInv s -> bal_step s s' -> BalInv s'.
Proof using ED_pos ED_range.
  intros Hs Hst. destruct Hst as [op s s' Hv Hg He|op e s s' Hv Hg He];
    pose proof (exec_op_conserves ED ED_pos ED_range op s Hs Hv Hg) as Hw;
    unfold wp in Hw; by rewrite He in Hw.
Qed.

(** C1: The issuance is conserved, by operations whose callers keep to what is
    expected of them: a withdrawal that may kill the account, a slash, a
    repatriation of reserves, [make_free_balance_be] and [set_balance] are for
    accounts that no other pallet needs alive; a deposit and a balance that is set
    keep the issuance within its type; [burn_from] is for accounts without
    reserves.  (Without this the issuance is lost or wraps, as
    [withdraw_error_burns_issuance], [slash_of_critical_account_burns_issuance] and
    [burn_from_wraps] show.)  From the state a valid genesis configuration builds,
    which it always does, any sequence of such transfers, reserves, withdrawals,
    slashes, deposits, mints, burns, locks and root settings, with every failed
    one keeping its writes, leads to a state where
    the total issuance is exactly the sum of all free and reserved balances
    and fits its type, no account holds a positive amount below the existential
    deposit, every account with a balance has a provider reference; and no
    further operation of this kind panics. *)
Theorem issuance_is_conserved bals :
  genesis_ok ED bals ->
  exists s0, genesis_build ED bals empty_balances = Ok tt s0 /\
    forall s, rtc bal_step s0 s ->
      BalInv s /\
      forall op, 0 <= amount_of op < UB -> op_guard op s -> exec_op ED op s <> Panic.
Proof using ED_pos ED_range.
  intros Hg.
  pose proof (wp_genesis_build ED ED_pos bals (fun _ => BalInv) (fun _ _ => False) Hg
    (fun _ H _ => H)) as Hw. unfold wp in Hw.
  destruct (genesis_build ED bals empty_balances) as [[] s0| |]; [|done..].
  exists s0. split; [done|]. intros s Hr.
  assert (BalInv s) as Hs.
  { revert Hr. apply (rtc_ind_r (fun t => BalInv t)); [done|].
    intros y z _ Hyz Hy. by eapply bal_step_inv. }
  split; [done|]. intros op Hv Hop Hp.
  pose proof (exec_op_conserves ED ED_pos ED_range op s Hs Hv Hop) as Hx.
  unfold wp in Hx. by rewrite Hp in Hx.
Qed.

(** C4: A transfer between two accounts goes through exactly when the sender
    has the amount free of its locks, the receiver ends at or above the
    existential deposit, and the sender does so too or may die.  Then the
    receiver has the amount more, the sender the amount less, or nothing if
    that is below the existential deposit, in which case the rest leaves the
    issuance; every other account, the locks and the reserves are untouched.
    Otherwise nothing at all has changed. *)
Theorem transfer_moves_exactly s from to value er :
  BalInv s -> 0 < value < UB -> from <> to ->
  let af := set_free (free (account from s) - value) (account from s) in
  wp (transfer_funds ED from to value er)
    (fun _ t => transfer_allowed ED from to value er s /\ BalInv t /\
       Locks t = Locks s /\ Reserves t = Reserves s /\
       TotalIssuance t = TotalIssuance s - dust_of ED af /\
       forall b, account b t =
         if decide (b = to) then set_free (free (account to s) + value) (account to s)
         else if decide (b = from) then settle ED af else account b s)
    (fun _ t => ~ transfer_allowed ED from to value er s /\ t = s) s.
Proof using ED_pos ED_range.
  intros Hs Hv Hne af. apply wp_transfer_funds; try done.
  intros Hal t Ht. fold af in Ht. split; [done|]. split; [apply (eff2_inv _ _ _ _ _ _ _ Ht)|].
  split; [apply (eff2_locks _ _ _ _ _ _ _ Ht)|]. split; [apply (eff2_reserves _ _ _ _ _ _ _ Ht)|].
  destruct Hal as (Hle & Hed & _).
  destruct (settle_kept ED (set_free (free (account to s) + value) (account to s))) as [He Hd].
  - know_account Hs to. pose proof (tot_le_2 _ s from to Hs Hne). know_account Hs from.
    unfold data_ok, tot in *. simpl. lia.
  - unfold tot in *. simpl. lia.
  - split; [rewrite (eff2_issuance _ _ _ _ _ _ _ Ht), Hd; lia|].
    intros b. rewrite (eff2_account _ _ _ _ _ _ _ Ht), He. done.
Qed.

(** [transfer_keep_alive] keeps the sender alive: whenever it succeeds,
    whatever the address format, a sender that held anything still holds at
    least the existential deposit. *)
Theorem keep_alive_keeps_alive {Source} (lookup : Source -> option AccountId) s who dest value :
  BalInv s -> 0 <= value < UB ->
  wp (transfer_keep_alive ED lookup (Signed who) dest value)
    (fun _ t => account who s <> default_value -> ED <= tot (account who t))
    (fun _ t => t = s) s.
Proof using ED_pos ED_range.
  intros Hs Hv. unfold transfer_keep_alive, lookup_addr. simpl. bal_steps; [|done].
  match goal with |- wp (transfer_funds _ _ ?d _ _) _ _ _ => rename d into to end.
  destruct (decide (value = 0 \/ who = to)) as [Hn|Hn].
  - unfold transfer_funds. replace ((value =? 0) || bool_decide (who = to)) with true.
    + bal_steps. apply (bi_ed _ _ Hs).
    + destruct Hn as [-> | ->]; [done|]. by rewrite bool_decide_eq_true_2, orb_true_r.
  - apply wp_transfer_funds; try done; [lia|naive_solver|].
    intros (Hle & _ & _ & [Hal|[Hal _]]) t Ht Hnd; [|done].
    rewrite (eff2_account _ _ _ _ _ _ _ Ht), decide_False, decide_True by naive_solver.
    know_account Hs who. set (af := set_free _ _).
    assert (data_ok af /\ ED <= tot af) as [Hok Hed] by (unfold data_ok, tot, af; simpl; lia).
    by rewrite (proj1 (settle_kept ED af Hok Hed)).
Qed.
End Histories.

(* ===================================================================== *)
(** ** Reserves, slashes and locks *)
Section Promises.
Context {P : Profile} (ED : Z).
Context (ED_pos : 0 < ED) (ED_range : ED < UB).
Local Abbreviation BalInv := (BalInv ED).
Implicit Types (s t u : BalancesState) (who b : AccountId) (value : Z).

Lemma reserve_in_inverse value a : reserve_in (- value) (reserve_in value a) = a.
Proof.
  unfold reserve_in, set_reserved, set_free. simpl. destruct a. simpl. f_equal; lia.
Qed.

(** Reserving and unreserving are inverse.  When [can_reserve] says so,
    [reserve] succeeds and [unreserve] of the same amount then gives all of it
    back, leaving every account and the issuance as they were. *)
Theorem reserve_unreserve_roundtrip s who value :
  BalInv s -> 0 <= value < UB -> can_reserve who value s = true ->
  wp (reserve ED who value ;; unreserve ED who value)
    (fun left t => left = 0 /\ BalInv t /\ TotalIssuance t = TotalIssuance s /\
       forall b, account b t = account b s)
    (fun _ _ => False) s.
Proof using ED_pos.
  intros Hs Hv Hc. pose proof (bi_data _ _ Hs who) as Hd.
  apply (can_reserve_spec ED who value s Hs Hv) in Hc. bal_steps. apply wp_reserve; [done..| |].
  2:{ intros e Hne Hlt. lia. }
  intros t _ Ht. set (a1 := reserve_in value (account who s)) in *.
  assert (data_ok a1 /\ tot a1 = tot (account who s)) as [Hok He].
  { split; [|apply tot_reserve_in]. unfold data_ok, a1, reserve_in, tot in *. simpl. lia. }
  assert (BalInv t) as Hit by (by eapply Eff_balanced).
  assert (account who t = a1) as Ha1.
  { rewrite (eff_account _ _ _ _ _ Ht), decide_True by done. unfold settle.
    destruct (Z.ltb_spec (total a1) ED) as [Hlt|]; [|done]. rewrite (total_eq a1 Hok), He in Hlt.
    destruct (decide (account who s = default_value)) as [Hdef|Hnd];
      [|pose proof (bi_ed _ _ Hs who Hnd); lia].
    unfold a1. rewrite Hdef in *. assert (value = 0) as -> by (simpl in *; lia). done. }
  apply wp_unreserve; [done..|]. rewrite Ha1. intros u Hu Hiu.
  assert (Z.min (reserved a1) value = value) as Hm by (unfold data_ok, a1 in *; simpl in *; lia).
  rewrite Hm in *. unfold a1 in Hu. rewrite reserve_in_inverse in Hu.
  pose proof (dust_balanced ED who _ s Hs Hd eq_refl) as Hd0.
  pose proof (dust_balanced ED who _ s Hs Hok He) as Hd1.
  pose proof (eff_issuance _ _ _ _ _ Hu). pose proof (eff_issuance _ _ _ _ _ Ht).
  split; [lia|]. split; [done|]. split; [lia|]. intros b.
  rewrite (eff_account _ _ _ _ _ Hu). case_decide; [subst; by apply settle_account|].
  rewrite (eff_account _ _ _ _ _ Ht). by rewrite decide_False.
Qed.

(** [slash] takes what it returns.  From an account that may die, or that
    stays above the existential deposit, the imbalance and the rest add up to
    the amount asked for, the imbalance is all the account holds or the
    amount, whichever is less, free balance goes before reserved balance, and
    dropping the imbalance restores the balance of the issuance. *)
Theorem slash_takes_what_it_returns s who value :
  BalInv s -> 0 <= value < UB ->
  can_dec_provider who s = true \/ ED <= tot (account who s) - value ->
  wp (slash ED who value)
    (fun '(imb, rest) t =>
       neg imb + rest = value /\ neg imb = Z.min value (tot (account who s)) /\
       (forall b, account b t = if decide (b = who)
          then settle ED (slash_from (neg imb) (account who s)) else account b s) /\
       BalInv (set_TotalIssuance (TotalIssuance t - neg imb) t))
    (fun _ _ => False) s.
Proof using ED_pos.
  intros Hs Hv Hor. pose proof (tot_le _ s who Hs) as Ht. pose proof (bi_range _ _ Hs) as Hr.
  destruct (slash_from_ok (Z.min value (tot (account who s))) (account who s)) as [Hok He];
    [apply (bi_data _ _ Hs)|lia|].
  assert (blocked ED who (slash_from (Z.min value (tot (account who s))) (account who s)) s = false) as Hb.
  { destruct Hor as [Hc|Hc]; [by apply unblocked_alive|]. apply unblocked_kept; [done|]. lia. }
  apply wp_slash; [done..| |by rewrite Hb]. intros _ t Hef. simpl. split; [lia|]. split; [done|].
  split; [apply (eff_account _ _ _ _ _ Hef)|].
  pose proof (dust_of_bound ED _ Hok). pose proof (eff_issuance _ _ _ _ _ Hef).
  apply (eff_inv _ _ _ _ _ Hef); lia.
Qed.

(** A failed withdrawal burns issuance.  Taking an account that others
    depend on below the existential deposit with [AllowDeath] is refused, and
    the account keeps its balance; but the refusal comes after the closure's
    imbalance and the dust have been created, and dropping them on the error
    path takes all the account holds out of the total issuance. *)
Theorem withdraw_error_burns_issuance s who value reasons :
  BalInv s -> 0 < value < UB ->
  let a := account who s in
  value <= free a -> frozen a (reasons_from reasons) <= free a - value ->
  tot a - value < ED -> can_dec_provider who s = false ->
  withdraw ED who value reasons AllowDeath s =
    Err ConsumerRemaining (set_TotalIssuance (TotalIssuance s - tot a) s).
Proof using ED_pos ED_range.
  intros Hs Hv a Hle Hfr Hlt Hc.
  cut (wp (withdraw ED who value reasons AllowDeath) (fun _ _ => False)
    (fun e t => e = ConsumerRemaining /\ t = set_TotalIssuance (TotalIssuance s - tot a) s) s).
  { unfold wp. destruct (withdraw ED who value reasons AllowDeath s); naive_solver. }
  assert (withdraw_allowed ED value reasons AllowDeath a) as Hal by (split; [done|split; [done|by left]]).
  apply wp_withdraw; [done|done|lia| |by intros e []|done].
  intros t [-> |[_ Hb]] _; [lia|]. revert Hb. rewrite blocked_spec.
  - fold a. unfold tot. simpl. rewrite Hc. destruct (Z.ltb_spec (free a - value + reserved a) ED); [done|].
    unfold tot in *. lia.
  - know_account Hs who. fold a in Hdata. unfold data_ok, tot in *. simpl. fold a. lia.
  - apply positive_not_default. know_account Hs who. fold a in Hdata. unfold tot. fold a. lia.
Qed.

(** Slashing an account that others depend on burns issuance.  The first
    attempt of [slash] is refused after its imbalance was created; the second
    one leaves the existential deposit and returns the right imbalance, but the
    total issuance has already lost all the account held. *)
Theorem slash_of_critical_account_burns_issuance s who value :
  BalInv s -> 0 <= value < UB -> account who s <> default_value ->
  tot (account who s) - value < ED -> can_dec_provider who s = false ->
  wp (slash ED who value)
    (fun '(imb, rest) t =>
       neg imb = Z.min value (tot (account who s) - ED) /\ rest = value - neg imb /\
       tot (account who t) = tot (account who s) - neg imb /\
       TotalIssuance t = TotalIssuance s - tot (account who s))
    (fun _ _ => False) s.
Proof using ED_pos.
  intros Hs Hv Hnd Hlt Hc. pose proof (bi_ed _ _ Hs who Hnd) as Hed.
  pose proof (bi_data _ _ Hs who) as Hd. pose proof (tot_le _ s who Hs) as Htl.
  destruct (slash_from_ok (Z.min value (tot (account who s))) (account who s) Hd) as [Hok He]; [lia|].
  apply wp_slash; [done..| |].
  - rewrite blocked_spec, He, Hc by done. simpl.
    destruct (Z.ltb_spec (tot (account who s) - Z.min value (tot (account who s))) ED); [done|lia].
  - intros _ t Ht. simpl. split; [done|]. split; [done|].
    destruct (slash_from_ok (Z.min value (tot (account who s) - ED)) (account who s) Hd) as [_ Hy]; [lia|].
    rewrite (data_put_account _ _ _ _ _ Ht), decide_True, Hy by done. split; [done|].
    by pose proof (data_put_frame _ _ _ _ Ht) as (-> & _).
Qed.

(** A lock that was set is among the locks. *)
Lemma with_lock_elem id nl ls : nl ∈ with_lock id (fun _ l => l) nl ls.
Proof using ED_range ED_pos ED.
  unfold with_lock.
  assert (forall ls, let '(ls', rest) := merge_locks id (fun _ l => l) (Some nl) ls in
    (rest = Some nl) \/ (rest = None /\ nl ∈ ls')) as Hm.
  { intros l. induction l as [|l ls' IH]; simpl; [by left|].
    case_bool_decide.
    - assert (forall k, (merge_locks id (fun _ l => l) None k).2 = None) as Hn.
      { induction k as [|k ks IHk]; simpl; [done|].
        destruct (merge_locks id (fun _ l => l) None ks). simpl in *. by case_bool_decide. }
      specialize (Hn ls'). destruct (merge_locks id (fun _ l => l) None ls'). simpl in *.
      right. split; [done|]. set_solver.
    - destruct (merge_locks id (fun _ l => l) (Some nl) ls'). destruct IH as [|[? ?]]; [by left|right].
      split; [done|]. set_solver. }
  specialize (Hm ls). destruct (merge_locks id (fun _ l => l) (Some nl) ls) as [ls' rest].
  destruct Hm as [-> |[-> Hin]]; [|done]. set_solver.
Qed.

(** A lock is respected.  Once [set_lock] has put a lock on an account
    that exists, for any reason beyond fees, every transfer that would leave
    less than the locked amount free is refused and changes nothing,
    whatever locks were there before. *)
Theorem lock_is_respected s id who amount reasons :
  BalInv s -> 0 < amount < UB -> reasons <> 0 -> reasons_from reasons <> Fee ->
  account who s <> default_value ->
  wp (set_lock ED id who amount reasons)
    (fun _ t => forall to value er, 0 < value < UB -> who <> to ->
       free (account who t) - value < amount ->
       exists e, transfer_funds ED who to value er t = Err e t)
    (fun _ _ => False) s.
Proof using ED_pos ED_range.
  intros Hs Ha Hr Hre Hnd. unfold set_lock. replace ((amount =? 0) || (reasons =? 0)) with false by lia.
  bal_steps. set (ls := with_lock _ _ _ _). apply wp_update_locks; [done..|].
  intros t Ht _ Hacc _ to value er Hv Hne Hlt. pose proof (bi_data _ _ Hs who) as Hd.
  assert (amount <= lock_floor Misc ls) as Hfl.
  { apply (lock_floor_ge Misc ls (mkLock id amount (reasons_from reasons))); [apply with_lock_elem|].
    unfold applies. simpl. by destruct (reasons_from reasons). }
  assert (misc_frozen (account who t) = lock_floor Misc ls) as Hm.
  { rewrite Hacc, decide_True by done. rewrite apply_locks_eq.
    destruct (settle_kept ED (set_frozen (lock_floor Misc ls) (lock_floor Fee ls) (account who s)))
      as [-> _]; [..|done].
    all: pose proof (bi_ed _ _ Hs who Hnd); pose proof (lock_floor_nonneg Misc ls);
      pose proof (lock_floor_nonneg Fee ls); unfold data_ok, tot in *; simpl; lia. }
  cut (wp (transfer_funds ED who to value er) (fun _ _ => False) (fun _ u => u = t) t).
  { unfold wp. destruct (transfer_funds ED who to value er t) as [|e u|]; [done| |done].
    intros ->. by exists e. }
  apply wp_transfer_funds; try done. intros (_ & _ & Hfr & _). lia.
Qed.

(** Whatever [reducible_balance] reports can be sent.  It never panics,
    it never exceeds the free balance, and every positive amount up to it
    passes all of the sender's conditions of a transfer with the matching
    existence requirement. *)
Theorem reducible_balance_is_transferable s who (keep_alive : bool) :
  BalInv s ->
  wp (reducible_balance ED who keep_alive)
    (fun r t => t = s /\ 0 <= r <= free (account who s) /\
       forall to value, 0 < value <= r -> ED <= tot (account to s) + value ->
         transfer_allowed ED who to value (if keep_alive then KeepAlive else AllowDeath) s)
    (fun _ _ => False) s.
Proof using ED_pos.
  intros Hs. unfold reducible_balance. know_account Hs who. bal_steps.
  set (liquid := saturating_sub _ _).
  assert (liquid <= Z.max 0 (free (account who s) - misc_frozen (account who s)) /\
          0 <= liquid <= free (account who s)) as Hl by (unfold liquid, saturating_sub; lia).
  destruct (can_dec_provider who s && negb keep_alive) eqn:Hk; bal_steps.
  - apply andb_true_iff in Hk as [Hc Hk]. destruct keep_alive; [done|].
    split; [done|]. split; [lia|]. intros to value Hv Ht.
    split; [lia|]. split; [done|]. split; [lia|]. by right.
  - rewrite (total_eq _ (bi_data _ _ Hs who)). unfold tot. lia.
  - rewrite (total_eq _ (bi_data _ _ Hs who)). unfold tot. split; [done|].
    unfold saturating_sub. split; [lia|]. intros to value Hv Ht.
    split; [lia|]. split; [done|]. split; [lia|]. left. unfold tot. lia.
Qed.
End Promises.

(* ===================================================================== *)
(** ** Where the code does not do what it says *)
Section Deviations.
Context (ED : Z).
Context (ED_pos : 0 < ED) (ED_range : ED < UB).
Local Abbreviation BalInv := (BalInv ED).
Implicit Types (s t u : BalancesState) (who b : AccountId) (value : Z).

(** [burn_from] can create funds.  When burning would leave an account
    with a reserve below the existential deposit, [withdraw_consequence] counts
    the reserve into the extra to burn, and the subtraction from the free
    balance underflows: in a release build the call succeeds and the account
    is left with almost the whole range of the type as free balance. *)
Theorem burn_from_wraps s who amount :
  let a := account who s in
  BalInv s -> 0 < amount <= free a -> frozen a All <= free a - amount ->
  0 < reserved a -> tot a - amount < ED -> can_dec_provider who s = true ->
  wp (burn_from (P := release) ED who amount)
    (fun burned t => burned = tot a /\ account who t = set_free (UB - reserved a) a /\
       TotalIssuance t = TotalIssuance s - tot a)
    (fun _ _ => False) s.
Proof using ED_pos ED_range.
  intros a Hs Hv Hfr Hres Hlt Hc. subst a. unfold burn_from. know_account Hs who.
  replace (amount =? 0) with false by lia. bal_steps. apply wp_try_mutate_account; [done|].
  unfold withdraw_consequence, checked_sub. bal_steps. rewrite (total_eq _ (bi_data _ _ Hs who)).
  unfold tot. replace (amount =? 0) with false by lia. rewrite !(proj2 (Z.leb_le amount _)) by lia.
  rewrite (proj2 (Z.ltb_lt (_ - amount) ED)), Hc by lia.
  rewrite (proj2 (Z.ltb_ge (_ - amount) _)) by done. simpl. apply wp_ret, wp_bind, wp_arith; [lia|]. apply wp_bind.
  replace (amount + (free (account who s) + reserved (account who s) - amount))
    with (free (account who s) + reserved (account who s)) by lia.
  set (x := free (account who s) - (free (account who s) + reserved (account who s))) in *.
  assert (arith (P := release) (S := BalancesState) (E := BalancesDispatchError) UB x s =
    Ok (UB - reserved (account who s)) s) as Hw.
  { unfold arith, x. replace (0 <=? _) with false by lia. simpl. unfold ret. f_equal.
    symmetry. apply (Z.mod_unique _ _ (-1)); lia. }
  unfold wp at 1. unfold sub. fold x. rewrite Hw. bal_steps.
  set (a' := set_free _ _).
  assert (total a' = UB - 1) as Ht by (unfold total, saturating_add, a'; simpl; lia).
  split; [done|]. split; [apply (bi_sys _ _ Hs)|]. split; [lia|]. split; [lia|].
  assert (settle ED a' = a' /\ dust_of ED a' = 0 /\ blocked ED who a' s = false) as (Hse & Hd & ->).
  { unfold settle, dust_of, blocked. rewrite Ht. replace (UB - 1 <? ED) with false by lia. done. }
  rewrite Hse, Hd. intros u Hu. pose proof (data_put_frame _ _ _ _ Hu) as (HT & _).
  rewrite less_zero by (done || lia). bal_steps. apply wp_arith; [lia|]. bal_steps. split; [done|].
  split; [|simpl; lia]. etrans; [apply (data_put_account _ _ _ _ who Hu)|]. by rewrite decide_True.
Qed.

(** [repatriate_reserved] from an account to its own free balance moves
    the whole amount and reports that nothing was moved: it returns the full
    [value] as the part it could not move. *)
Theorem repatriate_to_self_misreports {P : Profile} s who value :
  BalInv s -> 0 < value < UB -> value <= reserved (account who s) ->
  wp (repatriate_reserved ED who who value Status_Free)
    (fun not_moved t => not_moved = value /\
       account who t = reserve_in (- value) (account who s))
    (fun _ _ => False) s.
Proof using ED_pos.
  intros Hs Hv Hle. unfold repatriate_reserved, do_transfer_reserved. know_account Hs who.
  replace (value =? 0) with false by lia. rewrite bool_decide_eq_true_2 by done. bal_steps.
  apply wp_unreserve; [done|done|lia|]. rewrite Z.min_r by lia. intros t Ht _. bal_steps.
  unfold saturating_sub. split; [lia|]. rewrite (eff_account _ _ _ _ _ Ht), decide_True by done.
  assert (account who s <> default_value) as Hnd by (apply positive_not_default; unfold tot; lia).
  pose proof (bi_ed _ _ Hs who Hnd) as Hed.
  apply settle_kept; [unfold data_ok, reserve_in, tot; simpl; lia|by rewrite tot_reserve_in].
Qed.

(** A refused [set_balance] keeps its change of the issuance.  Root
    emptying an account that others depend on gets an error and the account
    keeps its balance, but the closure has already dropped the imbalances, so
    the issuance has lost all the account holds. *)
Theorem set_balance_error_burns_issuance {P : Profile} s who :
  BalInv s -> account who s <> default_value -> can_dec_provider who s = false ->
  set_balance ED Some Root who 0 0 s =
    Err ConsumerRemaining (set_TotalIssuance (TotalIssuance s - tot (account who s)) s).
Proof using ED_pos ED_range.
  intros Hs Hnd Hc. know_account Hs who.
  cut (wp (set_balance ED Some Root who 0 0) (fun _ _ => False)
    (fun e t => e = ConsumerRemaining /\
       t = set_TotalIssuance (TotalIssuance s - tot (account who s)) s) s).
  { unfold wp, tot. destruct (set_balance ED Some Root who 0 0 s); naive_solver. }
  unfold set_balance, lookup_addr. simpl. bal_steps; [done|].
  replace (if 0 + 0 <? ED then 0 else 0) with 0 by (by case_match).
  apply wp_try_mutate_account; [done|]. bal_steps. apply wp_square_up; [lia..|]. bal_steps.
  apply wp_square_up; [lia|lia|simpl; lia|]. bal_steps.
  set (t := set_TotalIssuance _ _).
  assert (t = set_TotalIssuance (TotalIssuance s - tot (account who s)) s) as Ht.
  { unfold t, tot. simpl. destruct s. unfold set_TotalIssuance. simpl. f_equal. lia. }
  split; [done|]. split; [apply (bi_sys _ _ Hs)|]. split; [rewrite Ht; unfold tot; simpl; lia|].
  split; [done|]. set (a' := set_reserved 0 (set_free 0 (account who s))).
  assert (dust_of ED a' = 0) as -> by (by unfold dust_of; case_match).
  replace (blocked ED who a' t) with true.
  - unfold drop_glue, Drop_prod, drop_glue, Drop_Z. bal_steps.
    rewrite less_zero; [done|rewrite Ht; unfold tot; simpl; lia|done].
  - symmetry. unfold blocked. replace (total a' <? ED) with true by (symmetry; apply Z.ltb_lt; exact ED_pos).
    change (account who t) with (account who s). rewrite bool_decide_eq_false_2 by done.
    change (can_dec_provider who t) with (can_dec_provider who s). by rewrite Hc.
Qed.
End Deviations.

(* ===================================================================== *)
(** ** Imbalances *)

(** What an offset leaves, as a signed amount. *)
Definition offset_value (o : SameOrOther PositiveImbalance NegativeImbalance) : Z :=
  match o with SameOrOther_None => 0 | Same p => pos p | OtherOne n => - neg n end.
Definition offset_value_neg (o : SameOrOther NegativeImbalance PositiveImbalance) : Z :=
  match o with SameOrOther_None => 0 | Same n => - neg n | OtherOne p => pos p end.

(** Imbalances neither appear nor vanish.  Splitting one never panics and
    gives two that merge to it again, the first no larger than asked for; and
    offsetting a positive against a negative one leaves exactly their
    difference, on either side. *)
Theorem imbalances_add_up {P : Profile} x y amount s :
  in_range UB x -> in_range UB y -> 0 <= amount ->
  (exists p q, positive_split (Positive x) amount s = Ok (p, q) s /\
     pos p = Z.min x amount /\ positive_merge p q = Positive x) /\
  (exists p q, negative_split (Negative x) amount s = Ok (p, q) s /\
     neg p = Z.min x amount /\ negative_merge p q = Negative x) /\
  (exists o, positive_offset (Positive x) (Negative y) s = Ok o s /\ offset_value o = x - y) /\
  (exists o, negative_offset (Negative x) (Positive y) s = Ok o s /\ offset_value_neg o = y - x).
Proof.
  unfold in_range. intros Hx Hy Ha.
  assert (forall a b, 0 <= b <= a -> a < UB ->
    sub (S := BalancesState) (E := BalancesDispatchError) UB a b s = Ok (a - b) s) as Hsub.
  { intros a b Hb Hr. unfold sub, arith.
    replace ((0 <=? a - b) && (a - b <? UB)) with true; [done|]. symmetry.
    apply andb_true_iff. split; lia. }
  unfold positive_split, negative_split, positive_offset, negative_offset, bind, positive_merge,
    negative_merge, saturating_add. simpl.
  split; [|split; [|split]].
  - rewrite Hsub by lia. eexists _, _. split; [done|]. simpl. split; [done|]. f_equal. lia.
  - rewrite Hsub by lia. eexists _, _. split; [done|]. simpl. split; [done|]. f_equal. lia.
  - destruct (Z.ltb_spec y x); [rewrite Hsub by lia|destruct (Z.ltb_spec x y); [rewrite Hsub by lia|]];
      (eexists; split; [done|]); simpl; lia.
  - destruct (Z.ltb_spec y x); [rewrite Hsub by lia|destruct (Z.ltb_spec x y); [rewrite Hsub by lia|]];
      (eexists; split; [done|]); simpl; lia.
Qed.

(* ===================================================================== *)
(** ** Examples

    Two accounts over an existential deposit of 10: the first with [f] free,
    [r] reserved and [c] consumer references, the second with 50. *)
Definition ex_bal (c f r : Z) : BalancesState :=
  mkBalances
    (mkSystem {[1%N := mkAccountInfo 0 c 1 0 (mkAccountData f r 0 0);
                2%N := mkAccountInfo 0 0 1 0 (mkAccountData 50 0 0 0)]} 1 0 [])
    (f + r + 50) ∅ ∅.

Lemma ex_bal_account c f r who :
  account who (ex_bal c f r) =
    if decide (who = 1%N) then mkAccountData f r 0 0
    else if decide (who = 2%N) then mkAccountData 50 0 0 0 else default_value.
Proof.
  unfold account, stored_get, account_info. simpl.
  destruct (decide (who = 1%N)) as [->|]; [by rewrite lookup_insert_eq|]. rewrite lookup_insert_ne by done.
  destruct (decide (who = 2%N)) as [->|]; [by rewrite lookup_singleton_eq|].
  by rewrite lookup_singleton_ne.
Qed.

Lemma ex_bal_inv c f r :
  0 <= c < U32 -> 0 <= f -> 0 <= r -> 10 <= f + r -> f + r + 50 < UB -> BalInv 10 (ex_bal c f r).
Proof.
  intros Hc Hf Hr Ht Hb.
  split.
  - intros who x. simpl. intros [[<- <-]|[_ [<- <-]%lookup_singleton_Some]]%lookup_insert_Some;
      unfold info_ok, in_range; simpl; repeat split; try lia; done.
  - intros who. rewrite ex_bal_account. repeat case_decide; unfold data_ok, tot; simpl; lia.
  - intros who. rewrite ex_bal_account. repeat case_decide; unfold tot; simpl; [lia|lia|done].
  - simpl. rewrite map_sum_insert_new by (by rewrite lookup_singleton_ne).
    rewrite <- insert_empty, map_sum_insert_new, map_sum_empty by apply lookup_empty.
    unfold holdings, tot. simpl. lia.
  - simpl. lia.
Qed.

(** The conditions of the theorems at the examples, by evaluation. *)
Ltac at_example :=
  match goal with
  | |- BalInv 10 (ex_bal _ _ _) => apply ex_bal_inv; vm_compute; intuition congruence
  | |- _ => vm_compute; intuition congruence
  end.

Lemma issuance_is_conserved_witness :
  exists s0, genesis_build (P := release) 10 [(1%N, 100); (2%N, 50)] empty_balances = Ok tt s0 /\
    forall s, rtc (bal_step (P := release) 10) s0 s -> TotalIssuance s < UB.
Proof.
  destruct (issuance_is_conserved (P := release) 10 ltac:(lia) ltac:(done) [(1%N, 100); (2%N, 50)])
    as (s0 & Hg & Hs).
  - split; [by vm_compute; repeat constructor; set_solver|]. by split; [repeat constructor; simpl; lia|].
  - exists s0. split; [done|]. intros s Hr. apply (bi_range _ _ (proj1 (Hs s Hr))).
Defined.

Lemma transfer_moves_exactly_witness :
  wp (transfer_funds (P := release) 10 1%N 2%N 95 AllowDeath)
    (fun _ t => TotalIssuance t = 145 /\ account 1%N t = default_value /\ free (account 2%N t) = 145)
    (fun _ _ => False) (ex_bal 0 100 0).
Proof.
  pose proof (transfer_moves_exactly (P := release) 10 ltac:(lia) ltac:(done) (ex_bal 0 100 0) 1%N 2%N 95
    AllowDeath ltac:(at_example) ltac:(done) ltac:(done)) as Hw.
  cbv zeta in Hw. eapply wp_mono; [exact Hw| |].
  - intros ? t (_ & _ & _ & _ & HT & Ha). rewrite HT, !Ha. by vm_compute.
  - intros e t [Hn _]. destruct Hn. by vm_compute; intuition congruence.
Defined.

Lemma keep_alive_keeps_alive_witness :
  wp (transfer_keep_alive (P := release) 10 Some (Signed 1%N) 2%N 90)
    (fun _ t => 10 <= tot (account 1%N t)) (fun _ t => t = ex_bal 0 100 0) (ex_bal 0 100 0).
Proof.
  eapply wp_mono; [apply (keep_alive_keeps_alive (P := release) 10 ltac:(lia) ltac:(done) Some
    (ex_bal 0 100 0) 1%N 2%N 90 ltac:(at_example)); done| |done].
  intros [] t Ht. apply Ht. by vm_compute.
Defined.

Lemma reserve_unreserve_roundtrip_witness :
  can_reserve 1%N 60 (ex_bal 0 100 5) = true /\
  wp (reserve (P := release) 10 1%N 60 ;; unreserve (P := release) 10 1%N 60)
    (fun left t => left = 0 /\ TotalIssuance t = 155) (fun _ _ => False) (ex_bal 0 100 5).
Proof.
  split; [done|].
  eapply wp_mono; [apply (reserve_unreserve_roundtrip (P := release) 10 ltac:(lia)
    (ex_bal 0 100 5) 1%N 60 ltac:(at_example)); done| |done].
  intros left t (Hl & _ & HT & _). by rewrite HT.
Defined.

Lemma slash_takes_what_it_returns_witness :
  wp (slash (P := release) 10 1%N 120)
    (fun '(imb, rest) t => neg imb = 105 /\ rest = 15) (fun _ _ => False) (ex_bal 0 100 5).
Proof.
  eapply wp_mono; [apply (slash_takes_what_it_returns (P := release) 10 ltac:(lia)
    (ex_bal 0 100 5) 1%N 120 ltac:(at_example)); [done|by left]| |done].
  intros [imb rest] t (Hsum & Hn & _). change (neg imb = 105) in Hn. split; [done|]. lia.
Defined.

Lemma withdraw_error_burns_issuance_witness :
  withdraw (P := release) 10 1%N 96 TRANSFER AllowDeath (ex_bal 1 100 5) =
    Err ConsumerRemaining (set_TotalIssuance 50 (ex_bal 1 100 5)).
Proof.
  exact (withdraw_error_burns_issuance (P := release) 10 ltac:(lia) ltac:(done) (ex_bal 1 100 5) 1%N 96 TRANSFER
    ltac:(at_example) ltac:(done) ltac:(done) ltac:(done) ltac:(done) ltac:(done)).
Defined.

Lemma slash_of_critical_account_burns_issuance_witness :
  wp (slash (P := release) 10 1%N 120)
    (fun '(imb, rest) t => neg imb = 95 /\ tot (account 1%N t) = 10 /\ TotalIssuance t = 50)
    (fun _ _ => False) (ex_bal 1 100 5).
Proof.
  eapply wp_mono; [apply (slash_of_critical_account_burns_issuance (P := release) 10 ltac:(lia)
    (ex_bal 1 100 5) 1%N 120 ltac:(at_example)); done| |done].
  intros [imb rest] t (Hn & _ & Ht & HT). rewrite Ht, HT, Hn. by vm_compute.
Defined.

Lemma lock_is_respected_witness :
  wp (set_lock (P := release) 10 7%N 1%N 30 TRANSFER)
    (fun _ t => free (account 1%N t) - 80 < 30 ->
       exists e, transfer_funds (P := release) 10 1%N 2%N 80 AllowDeath t = Err e t)
    (fun _ _ => False) (ex_bal 0 100 5).
Proof.
  eapply wp_mono; [apply (lock_is_respected (P := release) 10 ltac:(lia) ltac:(done)
    (ex_bal 0 100 5) 7%N 1%N 30 TRANSFER ltac:(at_example)); done| |done].
  intros [] t Ht. by apply Ht.
Defined.

Lemma reducible_balance_is_transferable_witness :
  wp (reducible_balance (P := release) 10 1%N true)
    (fun r t => t = ex_bal 0 100 5 /\ 0 <= r <= 100) (fun _ _ => False) (ex_bal 0 100 5).
Proof.
  eapply wp_mono; [apply (reducible_balance_is_transferable (P := release) 10 ltac:(lia)
    (ex_bal 0 100 5) 1%N true ltac:(at_example))| |done].
  intros r t (-> & Hr & _). done.
Defined.

Lemma burn_from_wraps_witness :
  wp (burn_from (P := release) 10 1%N 96)
    (fun burned t => burned = 105 /\ free (account 1%N t) = UB - 5) (fun _ _ => False) (ex_bal 0 100 5).
Proof.
  eapply wp_mono; [apply (burn_from_wraps 10 ltac:(lia) ltac:(done) (ex_bal 0 100 5) 1%N 96 ltac:(at_example)); done
    | |done].
  intros r t (Hr & Ha & _). rewrite Ha. by split.
Defined.

Lemma repatriate_to_self_misreports_witness :
  wp (repatriate_reserved (P := release) 10 1%N 1%N 5 Status_Free)
    (fun not_moved t => not_moved = 5 /\ account 1%N t = mkAccountData 105 0 0 0)
    (fun _ _ => False) (ex_bal 0 100 5).
Proof.
  exact (repatriate_to_self_misreports 10 ltac:(lia) (P := release) (ex_bal 0 100 5) 1%N 5 ltac:(at_example)
    ltac:(done) ltac:(done)).
Defined.

Lemma set_balance_error_burns_issuance_witness :
  set_balance (P := release) 10 Some Root 1%N 0 0 (ex_bal 1 100 5) =
    Err ConsumerRemaining (set_TotalIssuance 50 (ex_bal 1 100 5)).
Proof.
  exact (set_balance_error_burns_issuance 10 ltac:(lia) ltac:(done) (P := release) (ex_bal 1 100 5) 1%N
    ltac:(at_example) ltac:(done) ltac:(done)).
Defined.

Lemma imbalances_add_up_witness :
  exists p q, positive_split (P := release) (Positive 100) 30 (ex_bal 0 100 5) = Ok (p, q) (ex_bal 0 100 5) /\
    pos p = 30 /\ positive_merge p q = Positive 100.
Proof.
  exact (proj1 (imbalances_add_up (P := release) 100 70 30 (ex_bal 0 100 5) ltac:(done) ltac:(done) ltac:(done))).
Defined.
