(* ===== verification/BalancesNamed.v ===== *)
(** * pallet_balances: named reserves

    The binary search over the reserves of an account, and the named reserves
    as a map from names to amounts: sorted, within the reserved balance, and
    changed exactly as asked. *)

From S2P Require Import Prelude System SystemFacts Balances BalancesFacts BalancesOps BalancesTransfer BalancesCorrect BalancesTheorems.

Set Default Proof Using "Type".

(* ===================================================================== *)
(** ** Binary search *)
Section Search.
Context {A : Type} (key : A -> N).
Implicit Types (v : list A) (id : N).

(** The keys increase strictly. *)
Definition sorted_by v : Prop :=
  forall i j x y, (i < j)%nat -> v !! i = Some x -> v !! j = Some y -> (key x < key y)%N.

Lemma binary_search_ok id v : sorted_by v -> search_ok key id v (binary_search_by_key key id v).
Proof.
  intros Hs. apply binary_search_weak. intros i j x y Hij Hx Hy. pose proof (Hs i j x y Hij Hx Hy). lia.
Qed.
End Search.

(* ===================================================================== *)
(** ** A sorted vector of reserves as a map from names to amounts *)
Abbreviation res_sorted := (sorted_by res_id).

Section Vector.
Implicit Types (v : list ReserveData) (id : N) (r : ReserveData) (i : nat).

(** The amount under a name. *)
Definition named v id : Z :=
  match find_reserve id v with inl index => amount_at v index | inr _ => 0 end.

(** All named amounts together. *)
Definition named_sum v : Z := foldr (fun r acc => res_amount r + acc) 0 v.

Lemma sorted_index v i j x y :
  res_sorted v -> v !! i = Some x -> v !! j = Some y -> res_id x = res_id y -> i = j.
Proof.
  intros Hs Hx Hy He. destruct (Nat.lt_trichotomy i j) as [Hlt|[->|Hlt]]; [|done|].
  - pose proof (Hs _ _ _ _ Hlt Hx Hy). lia.
  - pose proof (Hs _ _ _ _ Hlt Hy Hx). lia.
Qed.

Lemma find_reserve_found v i r : res_sorted v -> v !! i = Some r -> find_reserve (res_id r) v = inl i.
Proof.
  intros Hs Hi. pose proof (binary_search_ok res_id (res_id r) v Hs) as Hb. unfold find_reserve.
  destruct (binary_search_by_key res_id (res_id r) v) as [j|j]; simpl in Hb.
  - destruct Hb as (x & Hx & He). f_equal. by eapply sorted_index.
  - destruct Hb as (_ & Hlo & Hhi). destruct (decide (i < j)%nat) as [Hlt|Hge].
    + specialize (Hlo _ _ Hi Hlt). lia.
    + specialize (Hhi _ _ Hi ltac:(lia)). lia.
Qed.

Lemma named_at v i r : res_sorted v -> v !! i = Some r -> named v (res_id r) = res_amount r.
Proof. intros Hs Hi. unfold named. rewrite (find_reserve_found v i r Hs Hi). unfold amount_at. by rewrite Hi. Qed.

Lemma named_absent v id : res_sorted v -> (forall i r, v !! i = Some r -> res_id r <> id) -> named v id = 0.
Proof.
  intros Hs Hn. unfold named. pose proof (binary_search_ok res_id id v Hs) as Hb. unfold find_reserve.
  destruct (binary_search_by_key res_id id v) as [j|j]; [|done].
  destruct Hb as (x & Hx & He). by destruct (Hn _ _ Hx).
Qed.

(** Two sorted vectors with the same entries under [id]. *)
Lemma named_ext v w id :
  res_sorted v -> res_sorted w ->
  (forall r, res_id r = id -> (exists i, v !! i = Some r) <-> (exists j, w !! j = Some r)) ->
  named v id = named w id.
Proof.
  intros Hv Hw He. destruct (find_reserve id w) as [j|j] eqn:Hf;
    pose proof (binary_search_ok res_id id w Hw) as Hb; unfold find_reserve in Hf; rewrite Hf in Hb.
  - destruct Hb as (r & Hj & <-). destruct (proj2 (He r eq_refl)) as [i Hi]; [by exists j|].
    by rewrite (named_at v i r), (named_at w j r).
  - assert (named w id = 0) as -> by (unfold named, find_reserve; by rewrite Hf).
    apply named_absent; [done|]. intros i r Hi Hid.
    destruct (proj1 (He r Hid)) as [k Hk]; [by exists i|]. destruct Hb as (_ & Hlo & Hhi).
    destruct (decide (k < j)%nat) as [Hlt|Hge]; [specialize (Hlo _ _ Hk Hlt)|specialize (Hhi _ _ Hk ltac:(lia))]; lia.
Qed.

(* --------------------------------------------------------------------- *)
(** *** Changing an entry *)

Lemma sorted_set v i r r' :
  res_sorted v -> v !! i = Some r -> res_id r' = res_id r -> res_sorted (<[i := r']> v).
Proof.
  intros Hs Hi He a b x y Hab Hx Hy.
  assert (forall k z, <[i := r']> v !! k = Some z -> exists z', v !! k = Some z' /\ res_id z' = res_id z) as Hk.
  { intros k z Hz. apply list_lookup_insert_Some in Hz as [(-> & -> & _)|[_ Hz]]; eauto. }
  destruct (Hk _ _ Hx) as (x' & Hx' & <-). destruct (Hk _ _ Hy) as (y' & Hy' & <-). by eapply Hs.
Qed.

Lemma named_set v i r r' id :
  res_sorted v -> v !! i = Some r -> res_id r' = res_id r ->
  named (<[i := r']> v) id = if decide (id = res_id r) then res_amount r' else named v id.
Proof.
  intros Hs Hi He. pose proof (sorted_set v i r r' Hs Hi He) as Hs'. case_decide as Hid.
  - subst id. rewrite <- He. apply (named_at _ i); [done|]. apply list_lookup_insert_eq. by eapply lookup_lt_Some.
  - apply named_ext; [done..|]. intros x Hx. split; intros [k Hk].
    + apply list_lookup_insert_Some in Hk as [(-> & -> & _)|[_ Hk]]; [congruence|eauto].
    + exists k. rewrite list_lookup_insert_ne; [done|]. intros ->. congruence.
Qed.

Lemma named_sum_set v i r r' :
  v !! i = Some r -> named_sum (<[i := r']> v) = named_sum v - res_amount r + res_amount r'.
Proof.
  revert i. induction v as [|x v IH]; intros [|i]; simpl; [done..| |].
  - intros [= ->]. lia.
  - intros Hi. rewrite IH by done. lia.
Qed.

(* --------------------------------------------------------------------- *)
(** *** Adding and removing an entry *)

Lemma named_sum_app v w : named_sum (v ++ w) = named_sum v + named_sum w.
Proof. induction v as [|x v IH]; simpl; [done|]. unfold named_sum in *. lia. Qed.

Lemma named_sum_insert v i r : named_sum (take i v ++ r :: drop i v) = named_sum v + res_amount r.
Proof.
  rewrite <- (take_drop i v) at 3. rewrite !named_sum_app. simpl. unfold named_sum. lia.
Qed.

Lemma named_sum_delete v i r : v !! i = Some r -> named_sum (delete i v) = named_sum v - res_amount r.
Proof.
  intros Hi. rewrite delete_take_drop. rewrite <- (take_drop_middle v i r Hi) at 3.
  rewrite !named_sum_app. simpl. unfold named_sum. lia.
Qed.

Lemma lookup_inserted v i r k :
  (i <= length v)%nat ->
  (take i v ++ r :: drop i v) !! k =
  if decide (k < i)%nat then v !! k else if decide (k = i) then Some r else v !! pred k.
Proof.
  intros Hi. assert (length (take i v) = i) as Hl by (rewrite length_take; lia).
  repeat case_decide.
  - rewrite lookup_app_l by lia. by rewrite lookup_take_lt.
  - subst. by rewrite list_lookup_middle.
  - rewrite lookup_app_r by lia. rewrite lookup_cons_ne_0 by lia. rewrite lookup_drop. f_equal. lia.
Qed.

Lemma sorted_insert v i r :
  res_sorted v -> search_ok res_id (res_id r) v (inr i) -> res_sorted (take i v ++ r :: drop i v).
Proof.
  intros Hs (Hi & Hlo & Hhi) a b x y Hab. rewrite !lookup_inserted by done.
  intros Hx Hy. repeat case_decide; simplify_eq; try lia.
  - by eapply (Hs a b).
  - by apply (Hlo a).
  - eapply (Hs a (pred b)); [lia|done..].
  - apply (Hhi (pred b)); [done|lia].
  - eapply (Hs (pred a) (pred b)); [lia|done..].
Qed.

Lemma named_insert v i r id :
  res_sorted v -> search_ok res_id (res_id r) v (inr i) ->
  named (take i v ++ r :: drop i v) id = if decide (id = res_id r) then res_amount r else named v id.
Proof.
  intros Hs Hok. pose proof (sorted_insert v i r Hs Hok) as Hs'. destruct Hok as (Hi & _ & _).
  case_decide as Hid.
  - subst id. apply (named_at _ i); [done|]. rewrite lookup_inserted by done. by repeat case_decide; try lia.
  - apply named_ext; [done..|]. intros x Hx. split; intros [k Hk].
    + rewrite lookup_inserted in Hk by done. repeat case_decide; simplify_eq; eauto.
    + destruct (decide (k < i)%nat); [exists k|exists (S k)]; rewrite lookup_inserted by done;
        repeat case_decide; try lia; done.
Qed.

Lemma sorted_delete v i : res_sorted v -> res_sorted (delete i v).
Proof.
  intros Hs a b x y Hab. rewrite !list_lookup_delete.
  repeat case_decide; intros Hx Hy; (eapply Hs; [|done..]); lia.
Qed.

Lemma named_delete v i r id :
  res_sorted v -> v !! i = Some r ->
  named (delete i v) id = if decide (id = res_id r) then 0 else named v id.
Proof.
  intros Hs Hi. pose proof (sorted_delete v i Hs) as Hs'. case_decide as Hid.
  - apply named_absent; [done|]. intros k x. rewrite list_lookup_delete. subst id.
    case_decide; intros Hx He; pose proof (sorted_index v _ _ _ _ Hs Hx Hi He); lia.
  - apply named_ext; [done..|]. intros x Hx. split; intros [k Hk].
    + rewrite list_lookup_delete in Hk. case_decide; eauto.
    + destruct (decide (k < i)%nat); [exists k|exists (pred k)]; rewrite list_lookup_delete.
      * by rewrite decide_True.
      * assert (k <> i) by (intros ->; congruence). rewrite decide_False by lia.
        by rewrite Nat.succ_pred by lia.
Qed.
End Vector.

(* ===================================================================== *)
(** ** Named reserves of the accounts *)
Section Named.
Context {P : Profile} (ED MaxReserves : Z).
Context (ED_pos : 0 < ED).
Local Abbreviation BalInv := (BalInv ED).
Implicit Types (s t u : BalancesState) (who b : AccountId) (id : N) (value : Z).

(** Per account: sorted names, and amounts the reserved balance covers. *)
Definition NamedOk s who : Prop :=
  res_sorted (reserves who s) /\
  (forall i r, reserves who s !! i = Some r -> 0 <= res_amount r) /\
  named_sum (reserves who s) <= reserved (account who s).

Record NamedInv s : Prop := {
  ni_bal : BalInv s;
  ni_named : forall who, NamedOk s who
}.

(** [delta] moved from the free balance of [who] to its reserve [id]; nothing
    else changed. *)
Record named_moved id who (delta : Z) s t : Prop := {
  nm_account : forall b, account b t =
    if decide (b = who) then reserve_in delta (account who s) else account b s;
  nm_named : forall b id', reserved_balance_named id' b t =
    reserved_balance_named id' b s + (if decide (b = who /\ id' = id) then delta else 0);
  nm_issuance : TotalIssuance t = TotalIssuance s;
  nm_locks : Locks t = Locks s
}.

Lemma named_le_sum (v : list ReserveData) i r :
  (forall i r, v !! i = Some r -> 0 <= res_amount r) -> v !! i = Some r ->
  0 <= res_amount r <= named_sum v.
Proof.
  intros Hp Hi. split; [by apply (Hp i)|]. pose proof (named_sum_delete v i r Hi) as Hd.
  assert (forall w : list ReserveData, (forall i r, w !! i = Some r -> 0 <= res_amount r) -> 0 <= named_sum w) as Hn.
  { induction w as [|x w IH]; simpl; [lia|]. intros Hw. pose proof (Hw 0%nat x eq_refl).
    assert (0 <= named_sum w) by (apply IH; intros k y Hk; apply (Hw (S k) y Hk)). unfold named_sum in *. lia. }
  enough (0 <= named_sum (delete i v)) by lia. apply Hn. intros k x. rewrite list_lookup_delete.
  case_decide; apply Hp.
Qed.

Lemma settle_moved who delta s :
  BalInv s -> data_ok (reserve_in delta (account who s)) -> (delta = 0 \/ 0 < tot (account who s)) ->
  settle ED (reserve_in delta (account who s)) = reserve_in delta (account who s).
Proof.
  intros Hs Ha [->|Hp]; [rewrite reserve_in_zero; by apply settle_account|].
  apply settle_kept; [done|]. rewrite tot_reserve_in. by apply (bi_ed _ _ Hs), positive_not_default.
Qed.

(** The vector is written after the balance has moved. *)
Lemma named_moved_write id who delta s t v' u :
  NamedInv s -> Eff ED who (reserve_in delta (account who s)) s t -> BalInv t ->
  data_ok (reserve_in delta (account who s)) ->
  settle ED (reserve_in delta (account who s)) = reserve_in delta (account who s) ->
  bal_sys u = bal_sys t -> TotalIssuance u = TotalIssuance t -> Locks u = Locks t ->
  (forall b, reserves b u = if decide (b = who) then v' else reserves b t) ->
  res_sorted v' -> (forall i r, v' !! i = Some r -> 0 <= res_amount r) ->
  named_sum v' = named_sum (reserves who s) + delta ->
  (forall id', named v' id' = named (reserves who s) id' + if decide (id' = id) then delta else 0) ->
  NamedInv u /\ named_moved id who delta s u.
Proof using ED_pos.
  intros [Hs Hn] Ht Hit Hd Hnd Hsys HT HL Hv Hso Hpos Hsum Hnam.
  assert (forall b, account b u = if decide (b = who) then reserve_in delta (account who s) else account b s) as Ha.
  { intros b. unfold account at 1, stored_get, account_info. simpl. rewrite Hsys.
    change (account b t = if decide (b = who) then reserve_in delta (account who s) else account b s).
    rewrite (eff_account _ _ _ _ _ Ht). by case_decide. }
  assert (forall b, reserves b t = reserves b s) as Hr.
  { intros b. unfold reserves. by rewrite (eff_reserves _ _ _ _ _ Ht). }
  pose proof (dust_balanced ED who _ s Hs Hd (tot_reserve_in _ _)) as Hdust.
  pose proof (eff_issuance _ _ _ _ _ Ht) as HTt.
  split.
  - split.
    + destruct Hit as [H1 H2 H3 H4 H5]. destruct u as [su Tu Lu Ru], t as [st Tt Lt Rt]. simpl in *. subst.
      by split.
    + intros b. unfold NamedOk. rewrite Hv, Ha, Hr. case_decide; [|apply Hn]. subst b. split; [done|].
      split; [done|]. rewrite Hsum. destruct (Hn who) as (_ & _ & Hle). simpl. lia.
  - split; [done| |lia|].
    + intros b id'. unfold reserved_balance_named. change (named (reserves b u) id' =
        named (reserves b s) id' + (if decide (b = who /\ id' = id) then delta else 0)).
      rewrite Hv, Hr. case_decide as Hb; [|rewrite decide_False by naive_solver; lia].
      subst b. rewrite Hnam. f_equal. destruct (decide (id' = id)); [by rewrite decide_True|].
      by rewrite decide_False by naive_solver.
    + rewrite HL. apply (eff_locks _ _ _ _ _ Ht).
Qed.

Lemma named_moved_zero id who s : named_moved id who 0 s s.
Proof.
  split; [|intros; case_decide; lia|done|done].
  intros b. case_decide; [subst; by rewrite reserve_in_zero|done].
Qed.

Lemma reserves_put who b v s :
  reserves b (set_Reserves (<[who := v]> (Reserves s)) s) = if decide (b = who) then v else reserves b s.
Proof.
  unfold reserves. simpl. case_decide; [subst; by rewrite lookup_insert_eq|].
  by rewrite lookup_insert_ne.
Qed.

(** The two ways [reserve_named] and the two ways [unreserve_named] change
    the vector. *)
Definition grown (v v' : list ReserveData) id (delta : Z) : Prop :=
  res_sorted v' /\ (forall i r, v' !! i = Some r -> 0 <= res_amount r) /\
  named_sum v' = named_sum v + delta /\
  forall id', named v' id' = named v id' + if decide (id' = id) then delta else 0.

Lemma grown_set v i r x :
  res_sorted v -> (forall i r, v !! i = Some r -> 0 <= res_amount r) -> v !! i = Some r -> 0 <= x ->
  grown v (<[i := set_amount x r]> v) (res_id r) (x - res_amount r).
Proof.
  intros Hs Hp Hi Hx. split; [by eapply sorted_set|]. split; [|split].
  - intros k y Hk. apply list_lookup_insert_Some in Hk as [(_ & <- & _)|[_ Hk]]; [done|by eapply Hp].
  - rewrite (named_sum_set v i r) by done. simpl. lia.
  - intros id'. rewrite (named_set v i r) by done. case_decide; [subst|lia].
    rewrite (named_at v i r) by done. simpl. lia.
Qed.

Lemma grown_insert v i id x :
  res_sorted v -> (forall i r, v !! i = Some r -> 0 <= res_amount r) ->
  search_ok res_id id v (inr i) -> find_reserve id v = inr i -> 0 <= x ->
  grown v (take i v ++ mkReserve id x :: drop i v) id x.
Proof.
  intros Hs Hp Hi Hf Hx. split; [by apply sorted_insert|]. split; [|split].
  - intros k y. rewrite lookup_inserted by apply Hi. repeat case_decide; naive_solver.
  - by rewrite named_sum_insert.
  - intros id'. rewrite (named_insert v i) by done. simpl. case_decide; [subst|lia].
    unfold named. by rewrite Hf.
Qed.

Lemma grown_delete v i r :
  res_sorted v -> (forall i r, v !! i = Some r -> 0 <= res_amount r) -> v !! i = Some r ->
  grown v (delete i v) (res_id r) (- res_amount r).
Proof.
  intros Hs Hp Hi. split; [by apply sorted_delete|]. split; [|split].
  - intros k y. rewrite list_lookup_delete. case_decide; apply Hp.
  - rewrite (named_sum_delete v i r) by done. lia.
  - intros id'. rewrite (named_delete v i r) by done. case_decide; [subst|lia].
    rewrite (named_at v i r) by done. lia.
Qed.

Lemma alter_amount (v : list ReserveData) i r (f : ReserveData -> ReserveData) :
  v !! i = Some r -> alter f i v = <[i := f r]> v.
Proof.
  intros Hi. apply list_eq. intros k. destruct (decide (k = i)) as [->|Hne].
  - rewrite list_lookup_alter_eq, Hi, list_lookup_insert_eq by (by eapply lookup_lt_Some). done.
  - by rewrite list_lookup_alter_ne, list_lookup_insert_ne.
Qed.

Lemma grown_write id who delta s t v' u :
  NamedInv s -> Eff ED who (reserve_in delta (account who s)) s t -> BalInv t ->
  data_ok (reserve_in delta (account who s)) ->
  settle ED (reserve_in delta (account who s)) = reserve_in delta (account who s) ->
  bal_sys u = bal_sys t -> TotalIssuance u = TotalIssuance t -> Locks u = Locks t ->
  (forall b, reserves b u = if decide (b = who) then v' else reserves b t) ->
  grown (reserves who s) v' id delta ->
  NamedInv u /\ named_moved id who delta s u.
Proof using ED_pos. intros ????????? (? & ? & ? & ?). by eapply named_moved_write. Qed.

(** Reserving under a name: the vector is prepared, then the balance moves. *)
Lemma wp_reserve_named id who value s :
  NamedInv s -> 0 <= value < UB ->
  wp (reserve_named ED MaxReserves id who value)
    (fun _ t => NamedInv t /\ named_moved id who value s t) (fun _ t => t = s) s.
Proof using ED_pos.
  intros Hs Hv. unfold reserve_named. destruct (Z.eqb_spec value 0) as [->|Hne].
  { bal_steps. split; [done|apply named_moved_zero]. }
  pose proof (ni_bal _ Hs) as Hb. destruct (ni_named _ Hs who) as (Hso & Hp & Hle). know_account Hb who.
  assert (forall v', (value <= free (account who s) -> grown (reserves who s) v' id value) ->
    wp (reserve ED who value ;; put_reserves who v')
      (fun _ t => NamedInv t /\ named_moved id who value s t) (fun _ t => t = s) s) as Hend.
  { intros v' Hg. bal_steps. apply wp_reserve; [done..| |done]. intros t Hr Ht. unfold put_reserves. bal_steps.
    assert (data_ok (reserve_in value (account who s))) as Hd by (unfold data_ok, reserve_in, tot; simpl; lia).
    eapply grown_write; try done.
    - by eapply Eff_balanced; [..|apply tot_reserve_in].
    - apply settle_moved; [done..|right; unfold tot; lia].
    - intros b. apply reserves_put.
    - apply Hg. lia. }
  bal_steps. pose proof (binary_search_ok res_id id (reserves who s) Hso) as Hf.
  destruct (find_reserve id (reserves who s)) as [i|i] eqn:Hfr; unfold find_reserve in Hfr; rewrite Hfr in Hf.
  - destruct Hf as (r & Hi & <-). apply wp_ret, Hend. intros Hfree.
    rewrite (alter_amount _ _ r) by done. pose proof (named_le_sum _ _ _ Hp Hi).
    replace (saturating_add UB (res_amount r) value) with (res_amount r + value) by (unfold saturating_add; lia).
    replace value with (res_amount r + value - res_amount r) at 2 by lia. apply grown_set; try done. lia.
  - unfold try_insert. case_match; apply wp_ok_or; intros; simplify_eq; try done. apply Hend. intros _.
    apply grown_insert; try done. lia.
Qed.

(** What is left of [v] when [delta] of the entry at [i] is given back. *)
Definition shrunk (v : list ReserveData) i (remaining : Z) : list ReserveData :=
  if remaining =? 0 then delete i v else alter (set_amount remaining) i v.

Lemma grown_shrunk v i r x :
  res_sorted v -> (forall i r, v !! i = Some r -> 0 <= res_amount r) -> v !! i = Some r ->
  0 <= x <= res_amount r -> grown v (shrunk v i (res_amount r - x)) (res_id r) (- x).
Proof.
  intros Hs Hp Hi Hx. unfold shrunk. destruct (Z.eqb_spec (res_amount r - x) 0) as [He|Hne].
  - replace x with (res_amount r) by lia. by apply grown_delete.
  - rewrite (alter_amount _ _ r) by done.
    replace (- x) with (res_amount r - x - res_amount r) by lia. apply grown_set; try done. lia.
Qed.

(** Giving back from a name never fails and gives back all it can. *)
Lemma wp_unreserve_named id who value s X :
  NamedInv s -> 0 <= value < UB ->
  let moved := Z.min value (reserved_balance_named id who s) in
  wp (unreserve_named ED id who value)
    (fun left t => left = value - moved /\ NamedInv t /\ named_moved id who (- moved) s t) X s.
Proof using ED_pos.
  intros Hs Hv moved. unfold unreserve_named. unfold reserved_balance_named, reserves in moved.
  pose proof (ni_bal _ Hs) as Hb. destruct (ni_named _ Hs who) as (Hso & Hp & Hle). know_account Hb who.
  assert (forall left, moved = 0 -> left = value ->
    left = value - moved /\ NamedInv s /\ named_moved id who (- moved) s s) as Hnop.
  { intros left -> ->. split; [lia|]. split; [done|apply named_moved_zero]. }
  unfold reserves in Hso, Hp, Hle. destruct (Z.eqb_spec value 0) as [Hz|Hne].
  { bal_steps. apply Hnop; [|done]. subst moved value. clear - Hp Hso. simpl.
    pose proof (binary_search_ok res_id id _ Hso) as Hf.
    destruct (find_reserve id _) as [i|i] eqn:Hfr; unfold find_reserve in Hfr; rewrite Hfr in Hf; [|done].
    destruct Hf as (r & Hi & _). unfold amount_at. rewrite Hi. pose proof (Hp _ _ Hi). lia. }
  bal_steps. destruct (Reserves s !! who) as [v|] eqn:Hv'; simpl in Hso, Hp, Hle, moved.
  2:{ bal_steps. apply Hnop; [|done]. subst moved. simpl. lia. }
  pose proof (binary_search_ok res_id id v Hso) as Hf. subst moved.
  destruct (find_reserve id v) as [i|i] eqn:Hfr; unfold find_reserve in Hfr; rewrite Hfr in Hf.
  2:{ unfold put_reserves. bal_steps. rewrite insert_id by done.
      replace (set_Reserves (Reserves s) s) with s by (by destruct s). apply Hnop; [lia|done]. }
  destruct Hf as (r & Hi & <-). unfold amount_at in *. rewrite Hi in *.
  pose proof (named_le_sum v i r Hp Hi) as Hr. rewrite (Z.min_comm value) in *.
  set (x := Z.min (res_amount r) value) in *. assert (0 <= x <= res_amount r /\ x <= value) as Hx by lia.
  clearbody x. bal_steps. apply wp_unreserve; [done|done|lia|].
  replace (Z.min (reserved (account who s)) x) with x by lia. intros t Ht Hit. bal_steps.
  { unfold saturating_sub. lia. }
  replace (saturating_sub x (x - x)) with x by (unfold saturating_sub; lia).
  assert (data_ok (reserve_in (- x) (account who s))) as Hd by (unfold data_ok, reserve_in, tot; simpl; lia).
  assert (forall u, bal_sys u = bal_sys t -> TotalIssuance u = TotalIssuance t -> Locks u = Locks t ->
    (forall b, reserves b u = if decide (b = who) then shrunk v i (res_amount r - x) else reserves b t) ->
    wp (sub UB value x) (fun left t => left = value - x /\ NamedInv t /\ named_moved (res_id r) who (- x) s t) X u)
    as Hend.
  { intros u H1 H2 H3 H4. bal_steps; [lia|]. split; [done|]. eapply grown_write; try done.
    - apply settle_moved; [done..|]. unfold tot. lia.
    - unfold reserves. rewrite Hv'. apply grown_shrunk; [done|done|done|lia]. }
  unfold shrunk in Hend. destruct (res_amount r - x =? 0); unfold put_reserves; [case_bool_decide as Hl|];
    apply wp_modify, Hend; try done; intros b; try apply reserves_put.
  unfold reserves at 1. simpl. destruct (decide (b = who)) as [->|]; [|by rewrite lookup_delete_ne].
  rewrite lookup_delete_eq. simpl. destruct v as [|y [|z v]], i; try done; by destruct i.
Qed.

(** The named reserves of an account are a map from names to amounts.
    Where the vectors are sorted and covered by the reserved balances,
    [reserve_named] adds exactly the amount under the name, moving it out of the
    free balance, or fails and changes nothing; [unreserve_named] never fails,
    takes exactly the smaller of the amount and what the name holds, and
    returns the rest.  No other name, account or lock changes, and the vectors
    stay sorted and covered. *)
Theorem named_reserves_are_a_map id who value s :
  NamedInv s -> 0 <= value < UB ->
  wp (reserve_named ED MaxReserves id who value)
    (fun _ t => NamedInv t /\ named_moved id who value s t) (fun _ t => t = s) s /\
  wp (unreserve_named ED id who value)
    (fun left t =>
       let moved := Z.min value (reserved_balance_named id who s) in
       left = value - moved /\ NamedInv t /\ named_moved id who (- moved) s t)
    (fun _ _ => False) s.
Proof using ED_pos. intros Hs Hv. split; [by apply wp_reserve_named|by apply wp_unreserve_named]. Qed.

Lemma reserved_balance_named_range id who s :
  NamedInv s -> 0 <= reserved_balance_named id who s < UB.
Proof.
  intros [Hs Hn]. destruct (Hn who) as (Hso & Hp & Hle). know_account Hs who.
  unfold reserved_balance_named. pose proof (binary_search_ok res_id id _ Hso) as Hf.
  destruct (find_reserve id (reserves who s)) as [i|i] eqn:Hfr; [|lia].
  unfold find_reserve in Hfr. rewrite Hfr in Hf. destruct Hf as (r & Hi & _). unfold amount_at. rewrite Hi.
  pose proof (named_le_sum _ _ _ Hp Hi). lia.
Qed.

(** [ensure_reserved_named] sets a name to the amount: it reserves what is
    missing or gives back what is too much, so that afterwards exactly [value]
    is reserved under the name and the free balance has paid the difference;
    when the account cannot pay it, nothing changes. *)
Theorem ensure_reserved_named_sets id who value s :
  NamedInv s -> 0 <= value < UB ->
  wp (ensure_reserved_named ED MaxReserves id who value)
    (fun _ t => NamedInv t /\ reserved_balance_named id who t = value /\
       named_moved id who (value - reserved_balance_named id who s) s t)
    (fun _ t => t = s) s.
Proof using ED_pos.
  intros Hs Hv. pose proof (reserved_balance_named_range id who s Hs) as Hr.
  set (current := reserved_balance_named id who s) in *.
  assert (forall t, named_moved id who (value - current) s t -> reserved_balance_named id who t = value) as He.
  { intros t Ht. rewrite (nm_named _ _ _ _ _ Ht), decide_True by done. fold current. lia. }
  unfold ensure_reserved_named. apply wp_bind, wp_gets. fold current.
  destruct (Z.ltb_spec value current); [|destruct (Z.ltb_spec current value)].
  - apply wp_bind, wp_arith; [lia|]. apply wp_bind.
    eapply wp_mono; [apply (wp_unreserve_named id who _ _ (fun _ _ => False)); [done|lia]| |done].
    fold current. rewrite Z.min_l by lia. intros left t (_ & Ht & Hm).
    replace (- (current - value)) with (value - current) in Hm by lia. apply wp_ret. auto.
  - apply wp_bind, wp_arith; [lia|].
    eapply wp_mono; [apply wp_reserve_named; [done|lia]| |done]. intros ? t (Ht & Hm). auto.
  - assert (value = current) as -> by lia. apply wp_ret. rewrite Z.sub_diag.
    split; [done|]. split; [done|apply named_moved_zero].
Qed.
End Named.

(** Account 1 with 60 reserved: 20 under the name 3, 30 under the name 8. *)
Definition ex_named : BalancesState :=
  set_Reserves {[1%N := [mkReserve 3 20; mkReserve 8 30]]} (ex_bal 0 100 60).

Lemma ex_named_inv : NamedInv 10 ex_named.
Proof.
  assert (BalInv 10 ex_named) as Hb.
  { assert (BalInv 10 (ex_bal 0 100 60)) as [] by (apply ex_bal_inv; vm_compute; intuition congruence).
    by split. }
  split; [done|]. intros who. unfold NamedOk, reserves. simpl.
  destruct (decide (who = 1%N)) as [->|]; [rewrite lookup_singleton_eq|rewrite lookup_singleton_ne by done]; simpl.
  - split; [|split; [|by vm_compute]].
    + intros [|[|i]] [|[|j]] x y Hij Hx Hy; simplify_eq/=; try lia; done.
    + intros [|[|i]] r Hr; simplify_eq/=; try lia.
  - split; [by intros i j x y _ Hx|]. split; [by intros i r Hr|]. know_account Hb who. lia.
Qed.

Lemma named_reserves_are_a_map_witness :
  wp (reserve_named (P := release) 10 50 5 1%N 15)
    (fun _ t => reserved_balance_named 5 1%N t = 15 /\ reserved_balance_named 8 1%N t = 30)
    (fun _ t => t = ex_named) ex_named.
Proof.
  eapply wp_mono; [apply (named_reserves_are_a_map (P := release) 10 50 ltac:(lia) 5 1%N 15 ex_named ex_named_inv
    ltac:(done))| |done].
  intros [] t [_ Ht]. by rewrite !(nm_named _ _ _ _ _ Ht).
Defined.

Lemma ensure_reserved_named_sets_witness :
  wp (ensure_reserved_named (P := release) 10 50 8 1%N 12)
    (fun _ t => reserved_balance_named 8 1%N t = 12 /\ free (account 1%N t) = 118)
    (fun _ t => t = ex_named) ex_named.
Proof.
  eapply wp_mono; [apply (ensure_reserved_named_sets (P := release) 10 50 ltac:(lia) 8 1%N 12 ex_named ex_named_inv
    ltac:(done))| |done].
  intros [] t (_ & Ht & Hm). split; [done|]. by rewrite (nm_account _ _ _ _ _ Hm).
Defined.
