(* ===== verification/Assets.v ===== *)
(** * pallet_assets: fungible assets

    Models [frame/assets/src/lib.rs], [functions.rs], [types.rs] and
    [impl_fungibles.rs] as the runtime configures them
    ([bin/node/runtime/src/lib.rs]): asset balances are [u64]s, asset ids
    [u32]s, the force origin is root, nothing is frozen by another pallet and
    accounts carry no extra data.  The currency the deposits are reserved in and
    frame_system are an interface, [AssetsRuntime]; [AssetsBalances]
    implements it with pallet_balances. *)

From S2P Require Import Prelude System.

(* ===================================================================== *)
(** ** Data *)

(** The width of [T::Balance]. *)
Abbreviation UA := U64.
Abbreviation AssetId := N.

Record AssetDetails := mkDetails {
  d_owner : AccountId;
  d_issuer : AccountId;
  d_admin : AccountId;
  d_freezer : AccountId;
  d_supply : Z;
  d_deposit : Z;
  d_min_balance : Z;
  d_is_sufficient : bool;
  d_accounts : Z;
  d_sufficients : Z;
  d_approvals : Z;
  d_is_frozen : bool
}.

Record Approval := mkApproval { ap_amount : Z; ap_deposit : Z }.
Record AssetBalance := mkAssetBalance { a_balance : Z; a_is_frozen : bool; a_sufficient : bool }.
Record AssetMetadata := mkMetadata {
  m_deposit : Z;
  m_name : bytes;
  m_symbol : bytes;
  m_decimals : Z;
  m_is_frozen : bool
}.
Record DestroyWitness := mkWitness { w_accounts : Z; w_sufficients : Z; w_approvals : Z }.
Record TransferFlags := mkTransferFlags { tf_keep_alive : bool; tf_best_effort : bool; tf_burn_dust : bool }.
Record DebitFlags := mkDebitFlags { df_keep_alive : bool; df_best_effort : bool }.

Definition debit_flags (f : TransferFlags) : DebitFlags := mkDebitFlags (tf_keep_alive f) (tf_best_effort f).

#[export] Instance AssetBalance_default : Default AssetBalance := mkAssetBalance 0 false false.
#[export] Instance Approval_default : Default Approval := mkApproval 0 0.
#[export] Instance AssetMetadata_default : Default AssetMetadata := mkMetadata 0 [] [] 0 false.

Definition destroy_witness (d : AssetDetails) : DestroyWitness :=
  mkWitness (d_accounts d) (d_sufficients d) (d_approvals d).

(** Assignments to fields of the details. *)
Definition set_supply x (d : AssetDetails) := mkDetails (d_owner d) (d_issuer d) (d_admin d) (d_freezer d)
  x (d_deposit d) (d_min_balance d) (d_is_sufficient d) (d_accounts d) (d_sufficients d) (d_approvals d) (d_is_frozen d).
Definition set_counts a x (d : AssetDetails) := mkDetails (d_owner d) (d_issuer d) (d_admin d) (d_freezer d)
  (d_supply d) (d_deposit d) (d_min_balance d) (d_is_sufficient d) a x (d_approvals d) (d_is_frozen d).
Definition set_approvals x (d : AssetDetails) := mkDetails (d_owner d) (d_issuer d) (d_admin d) (d_freezer d)
  (d_supply d) (d_deposit d) (d_min_balance d) (d_is_sufficient d) (d_accounts d) (d_sufficients d) x (d_is_frozen d).
Definition set_asset_frozen x (d : AssetDetails) := mkDetails (d_owner d) (d_issuer d) (d_admin d) (d_freezer d)
  (d_supply d) (d_deposit d) (d_min_balance d) (d_is_sufficient d) (d_accounts d) (d_sufficients d) (d_approvals d) x.
Definition set_roles o i a f (d : AssetDetails) := mkDetails o i a f
  (d_supply d) (d_deposit d) (d_min_balance d) (d_is_sufficient d) (d_accounts d) (d_sufficients d) (d_approvals d)
  (d_is_frozen d).
Definition set_status m x (d : AssetDetails) := mkDetails (d_owner d) (d_issuer d) (d_admin d) (d_freezer d)
  (d_supply d) (d_deposit d) m x (d_accounts d) (d_sufficients d) (d_approvals d) (d_is_frozen d).

Definition set_a_balance x (a : AssetBalance) := mkAssetBalance x (a_is_frozen a) (a_sufficient a).
Definition set_a_frozen x (a : AssetBalance) := mkAssetBalance (a_balance a) x (a_sufficient a).
Definition set_a_sufficient x (a : AssetBalance) := mkAssetBalance (a_balance a) (a_is_frozen a) x.

Inductive AssetsError :=
| BalanceLow
| BalanceZero
| NoPermission
| Unknown
| FrozenErr
| InUse
| BadWitness
| MinBalanceZero
| NoProvider
| BadMetadata
| Unapproved
| WouldDieErr.

Inductive AssetsEvent :=
| CreatedEv (id : AssetId) (owner admin : AccountId)
| Issued (id : AssetId) (who : AccountId) (amount : Z)
| Transferred (id : AssetId) (from to : AccountId) (amount : Z)
| Burned (id : AssetId) (who : AccountId) (amount : Z)
| TeamChanged (id : AssetId) (issuer admin freezer : AccountId)
| OwnerChanged (id : AssetId) (owner : AccountId)
| FrozenEv (id : AssetId) (who : AccountId)
| Thawed (id : AssetId) (who : AccountId)
| AssetFrozen (id : AssetId)
| AssetThawed (id : AssetId)
| Destroyed (id : AssetId)
| ForceCreated (id : AssetId) (owner : AccountId)
| MetadataSet (id : AssetId) (name symbol : bytes) (decimals : Z) (is_frozen : bool)
| MetadataCleared (id : AssetId)
| ApprovedTransfer (id : AssetId) (owner delegate : AccountId) (amount : Z)
| ApprovalCancelled (id : AssetId) (owner delegate : AccountId)
| TransferredApproved (id : AssetId) (owner delegate destination : AccountId) (amount : Z)
| AssetStatusChanged (id : AssetId).

(** [impl FrozenBalance for ()] *)
Definition frozen_balance (_ : AssetId) (_ : AccountId) : option Z := None.

(** The pallet's [Call]; addresses are of type [Source]. *)
Inductive AssetsCall (Source : Type) :=
| Create (id : AssetId) (admin : Source) (min_balance : Z)
| ForceCreate (id : AssetId) (owner : Source) (is_sufficient : bool) (min_balance : Z)
| Destroy (id : AssetId) (witness : DestroyWitness)
| Mint (id : AssetId) (beneficiary : Source) (amount : Z)
| Burn (id : AssetId) (who : Source) (amount : Z)
| Transfer (id : AssetId) (target : Source) (amount : Z)
| TransferKeepAlive (id : AssetId) (target : Source) (amount : Z)
| ForceTransfer (id : AssetId) (source dest : Source) (amount : Z)
| Freeze (id : AssetId) (who : Source)
| Thaw (id : AssetId) (who : Source)
| FreezeAsset (id : AssetId)
| ThawAsset (id : AssetId)
| TransferOwnership (id : AssetId) (owner : Source)
| SetTeam (id : AssetId) (issuer admin freezer : Source)
| SetMetadata (id : AssetId) (name symbol : bytes) (decimals : Z)
| ClearMetadata (id : AssetId)
| ForceSetMetadata (id : AssetId) (name symbol : bytes) (decimals : Z) (is_frozen : bool)
| ForceClearMetadata (id : AssetId)
| ForceAssetStatus (id : AssetId) (owner issuer admin freezer : Source) (min_balance : Z)
    (is_sufficient is_frozen : bool)
| ApproveTransfer (id : AssetId) (delegate : Source) (amount : Z)
| CancelApproval (id : AssetId) (delegate : Source)
| ForceCancelApproval (id : AssetId) (owner delegate : Source)
| TransferApproved (id : AssetId) (owner destination : Source) (amount : Z).
Arguments Create {Source}.
Arguments ForceCreate {Source}.
Arguments Destroy {Source}.
Arguments Mint {Source}.
Arguments Burn {Source}.
Arguments Transfer {Source}.
Arguments TransferKeepAlive {Source}.
Arguments ForceTransfer {Source}.
Arguments Freeze {Source}.
Arguments Thaw {Source}.
Arguments FreezeAsset {Source}.
Arguments ThawAsset {Source}.
Arguments TransferOwnership {Source}.
Arguments SetTeam {Source}.
Arguments SetMetadata {Source}.
Arguments ClearMetadata {Source}.
Arguments ForceSetMetadata {Source}.
Arguments ForceClearMetadata {Source}.
Arguments ForceAssetStatus {Source}.
Arguments ApproveTransfer {Source}.
Arguments CancelApproval {Source}.
Arguments ForceCancelApproval {Source}.
Arguments TransferApproved {Source}.

(* ===================================================================== *)
(** ** What the pallet asks of the runtime: its [Config] *)

(** [T::Currency] as a [ReservableCurrency], the reference counters and the
    event log of frame_system, over the state [C] of the pallets below. *)
Class AssetsRuntime (C ME : Type) := {
  assets_error : AssetsError -> ME;
  rt_reserve : AccountId -> Z -> M C (DispatchError ME) unit;
  rt_unreserve : AccountId -> Z -> M C (DispatchError ME) Z;
  rt_repatriate_reserved : AccountId -> AccountId -> Z -> BalanceStatus -> M C (DispatchError ME) Z;
  rt_inc_sufficients : AccountId -> M C (DispatchError ME) IncRefStatus;
  rt_dec_sufficients : AccountId -> M C (DispatchError ME) DecRefStatus;
  rt_inc_consumers : AccountId -> M C (DispatchError ME) unit;
  rt_dec_consumers : AccountId -> M C (DispatchError ME) unit;
  rt_providers : AccountId -> C -> Z;
  rt_deposit_event : AssetsEvent -> M C (DispatchError ME) unit
}.

(** The pallet's constants. *)
Class AssetsConstants := {
  AssetDeposit : Z;
  MetadataDepositBase : Z;
  MetadataDepositPerByte : Z;
  ApprovalDeposit : Z;
  StringLimit : Z
}.

(** The order in which the storage iterates over the keys under a prefix: that
    of their hashes. *)
Class StorageOrder := {
  storage_order : forall A : Type, list A -> list A;
  storage_order_perm : forall A (l : list A), storage_order A l ≡ₚ l
}.

(* ===================================================================== *)
(** ** Storage *)

Record AssetsState (C : Type) := mkAssets {
  rt : C;
  Asset : gmap AssetId AssetDetails;
  AccountOf : gmap (AssetId * AccountId) AssetBalance;
  Approvals : gmap (AssetId * AccountId * AccountId) Approval;
  Metadata : gmap AssetId AssetMetadata
}.
Arguments mkAssets {C}.
Arguments rt {C}.
Arguments Asset {C}.
Arguments AccountOf {C}.
Arguments Approvals {C}.
Arguments Metadata {C}.

Section Storage.
Context {C : Type}.

Definition set_rt (c : C) (s : AssetsState C) := mkAssets c (Asset s) (AccountOf s) (Approvals s) (Metadata s).
Definition set_Asset m (s : AssetsState C) := mkAssets (rt s) m (AccountOf s) (Approvals s) (Metadata s).
Definition set_AccountOf m (s : AssetsState C) := mkAssets (rt s) (Asset s) m (Approvals s) (Metadata s).
Definition set_Approvals m (s : AssetsState C) := mkAssets (rt s) (Asset s) (AccountOf s) m (Metadata s).
Definition set_Metadata m (s : AssetsState C) := mkAssets (rt s) (Asset s) (AccountOf s) (Approvals s) m.

(** [Account] is a [ValueQuery]. *)
Definition asset_account (id : AssetId) (who : AccountId) (s : AssetsState C) : AssetBalance :=
  default default_value (AccountOf s !! (id, who)).
End Storage.

(* ===================================================================== *)
(** ** Operations *)
Section Pallet.
Context {P : Profile} {C ME : Type} `{!AssetsRuntime C ME, !AssetsConstants, !StorageOrder}.
Local Abbreviation E := (DispatchError ME).
Local Abbreviation MA := (M (AssetsState C) (DispatchError ME)).
Implicit Types (id : AssetId) (who : AccountId) (amount : Z) (s : AssetsState C).

(** A call into the runtime below. *)
Definition call {A} (m : M C E A) : MA A := zoom rt set_rt m.

Definition err (e : AssetsError) : E := Module_ (assets_error e).
Definition emit (e : AssetsEvent) : MA unit := call (rt_deposit_event e).

(** [Asset::try_mutate], [Account::try_mutate_exists], [Approvals::try_mutate]
    and [Metadata::try_mutate_exists]: the closure returns what it leaves of the
    entry, which is written when it succeeds. *)
Definition try_mutate_asset {R} id (f : option AssetDetails -> MA (R * option AssetDetails)) : MA R :=
  let! d := gets (fun s => Asset s !! id) in
  let! '(r, d') := f d in
  modify (fun s => set_Asset (put_opt id d' (Asset s)) s) ;; ret r.
Definition try_mutate_account {R} id who (f : option AssetBalance -> MA (R * option AssetBalance)) : MA R :=
  let! a := gets (fun s => AccountOf s !! (id, who)) in
  let! '(r, a') := f a in
  modify (fun s => set_AccountOf (put_opt (id, who) a' (AccountOf s)) s) ;; ret r.
Definition try_mutate_approval {R} id (owner delegate : AccountId)
    (f : option Approval -> MA (R * option Approval)) : MA R :=
  let! a := gets (fun s => Approvals s !! (id, owner, delegate)) in
  let! '(r, a') := f a in
  modify (fun s => set_Approvals (put_opt (id, owner, delegate) a' (Approvals s)) s) ;; ret r.
Definition try_mutate_metadata {R} id (f : option AssetMetadata -> MA (R * option AssetMetadata)) : MA R :=
  let! m := gets (fun s => Metadata s !! id) in
  let! '(r, m') := f m in
  modify (fun s => set_Metadata (put_opt id m' (Metadata s)) s) ;; ret r.

Definition balance id who s : Z := a_balance (asset_account id who s).

Definition total_supply id s : Z :=
  match Asset s !! id with Some x => d_supply x | None => 0 end.

(** The details come back with the counters changed. *)
Definition new_account who (d : AssetDetails) : MA (bool * AssetDetails) :=
  let! accounts := ok_or (checked_add U32 (d_accounts d) 1) (Arithmetic Overflow) in
  if d_is_sufficient d then
    call (rt_inc_sufficients who) ;;
    let! x := add U32 (d_sufficients d) 1 in
    ret (true, set_counts accounts x d)
  else
    map_err (fun _ => err NoProvider) (call (rt_inc_consumers who)) ;;
    ret (false, set_counts accounts (d_sufficients d) d).

Definition dead_account (what : AssetId) who (d : AssetDetails) (sufficient : bool) : MA AssetDetails :=
  let! x :=
    if sufficient then
      call (rt_dec_sufficients who) ;; ret (saturating_sub (d_sufficients d) 1)
    else call (rt_dec_consumers who) ;; ret (d_sufficients d) in
  ret (set_counts (saturating_sub (d_accounts d) 1) x d).

Definition can_increase id who amount s : DepositConsequence :=
  match Asset s !! id with
  | None => D_UnknownAsset
  | Some details =>
      match checked_add UA (d_supply details) amount with
      | None => D_Overflow
      | Some _ =>
          let account := asset_account id who s in
          match checked_add UA (a_balance account) amount with
          | None => D_Overflow
          | Some _ =>
              if a_balance account =? 0 then
                if amount <? d_min_balance details then D_BelowMinimum
                else if negb (d_is_sufficient details) && (rt_providers who (rt s) =? 0) then D_CannotCreate
                else if d_is_sufficient details
                        && negb (bool_decide (is_Some (checked_add U32 (d_sufficients details) 1)))
                then D_Overflow
                else D_Success
              else D_Success
          end
      end
  end.

Definition can_decrease id who amount (keep_alive : bool) s : WithdrawConsequence :=
  match Asset s !! id with
  | None => W_UnknownAsset
  | Some details =>
      match checked_sub (d_supply details) amount with
      | None => W_Underflow
      | Some _ =>
          let account := asset_account id who s in
          if d_is_frozen details then W_Frozen
          else if a_is_frozen account then W_Frozen
          else
            match checked_sub (a_balance account) amount with
            | None => W_NoFunds
            | Some rest =>
                let finish :=
                  if rest <? d_min_balance details then
                    if keep_alive then W_WouldDie else W_ReducedToZero rest
                  else W_Success in
                match frozen_balance id who with
                | Some frozen =>
                    match checked_add UA frozen (d_min_balance details) with
                    | Some required => if rest <? required then W_Frozen else finish
                    | None => W_Overflow
                    end
                | None => finish
                end
            end
      end
  end.

Definition reducible_balance id who (keep_alive : bool) : MA Z :=
  let! o := gets (fun s => Asset s !! id) in
  let! details := ok_or o (err Unknown) in
  ensure (negb (d_is_frozen details)) (err FrozenErr) ;;
  let! account := gets (asset_account id who) in
  ensure (negb (a_is_frozen account)) (err FrozenErr) ;;
  let! amount :=
    match frozen_balance id who with
    | Some frozen =>
        let! required := ok_or (checked_add UA frozen (d_min_balance details)) (Arithmetic Overflow) in
        ret (saturating_sub (a_balance account) required)
    | None =>
        if keep_alive then ret (saturating_sub (a_balance account) (d_min_balance details))
        else ret (a_balance account)
    end in
  ret (Z.min amount (d_supply details)).

Definition prep_debit id (target : AccountId) amount (f : DebitFlags) : MA Z :=
  let! reducible := reducible_balance id target (df_keep_alive f) in
  let actual := Z.min reducible amount in
  ensure (df_best_effort f || (amount <=? actual)) (err BalanceLow) ;;
  let! conseq := gets (can_decrease id target actual (df_keep_alive f)) in
  let! dust := on_err (withdraw_into_result conseq) (debug_assert false) in
  ret (saturating_add UA actual dust).

Definition prep_credit id (dest : AccountId) amount (debit : Z) (burn_dust : bool) : MA (Z * option Z) :=
  let '(credit, maybe_burn) :=
    match burn_dust, checked_sub debit amount with
    | true, Some dust => (amount, Some dust)
    | _, _ => (debit, None)
    end in
  let! conseq := gets (can_increase id dest credit) in
  deposit_into_result conseq ;;
  ret (credit, maybe_burn).

(** [Account::try_mutate(id, beneficiary, ..)] on the [ValueQuery] map. *)
Definition increase_balance id (beneficiary : AccountId) amount
    (check : AssetDetails -> MA AssetDetails) : MA unit :=
  if amount =? 0 then ret tt
  else
    let! conseq := gets (can_increase id beneficiary amount) in
    deposit_into_result conseq ;;
    try_mutate_asset id (fun maybe_details =>
      let! details := ok_or maybe_details (err Unknown) in
      let! details := check details in
      let! details :=
        try_mutate_account id beneficiary (fun o =>
          let t := default default_value o in
          let new_balance := saturating_add UA (a_balance t) amount in
          ensure (d_min_balance details <=? new_balance) (Token BelowMinimum) ;;
          let! '(sufficient, details) :=
            if a_balance t =? 0 then new_account beneficiary details
            else ret (a_sufficient t, details) in
          ret (details, Some (set_a_balance new_balance (set_a_sufficient sufficient t)))) in
      ret (tt, Some details)).

(** The closure of [do_mint] and of the genesis build. *)
Definition raise_supply amount (d : AssetDetails) : MA AssetDetails :=
  let! room := sub UA (UA - 1) (d_supply d) in
  debug_assert (amount <=? room) ;;
  ret (set_supply (saturating_add UA (d_supply d) amount) d).

Definition do_mint id (beneficiary : AccountId) amount (maybe_check_issuer : option AccountId) : MA unit :=
  increase_balance id beneficiary amount (fun details =>
    match maybe_check_issuer with
    | Some check_issuer => ensure (bool_decide (check_issuer = d_issuer details)) (err NoPermission)
    | None => ret tt
    end ;;
    raise_supply amount details) ;;
  emit (Issued id beneficiary amount).

Definition decrease_balance id (target : AccountId) amount (f : DebitFlags)
    (check : Z -> AssetDetails -> MA AssetDetails) : MA Z :=
  if amount =? 0 then ret amount
  else
    let! actual := prep_debit id target amount f in
    try_mutate_asset id (fun maybe_details =>
      let! details := ok_or maybe_details (err Unknown) in
      let! details := check actual details in
      let! details :=
        try_mutate_account id target (fun maybe_account =>
          let account := default default_value maybe_account in
          debug_assert (actual <=? a_balance account) ;;
          let account := set_a_balance (saturating_sub (a_balance account) actual) account in
          if a_balance account <? d_min_balance details then
            debug_assert (a_balance account =? 0) ;;
            let! details := dead_account id target details (a_sufficient account) in
            ret (details, None)
          else ret (details, Some account)) in
      ret (tt, Some details)) ;;
    ret actual.

Definition do_burn id (target : AccountId) amount (maybe_check_admin : option AccountId) (f : DebitFlags)
    : MA Z :=
  let! actual := decrease_balance id target amount f (fun actual details =>
    match maybe_check_admin with
    | Some check_admin => ensure (bool_decide (check_admin = d_admin details)) (err NoPermission)
    | None => ret tt
    end ;;
    debug_assert (actual <=? d_supply details) ;;
    ret (set_supply (saturating_sub (d_supply details) actual) details)) in
  emit (Burned id target actual) ;;
  ret actual.

(** The credit of [do_transfer], with its account creation. *)
Definition credit_dest id (dest : AccountId) (credit : Z) (details : AssetDetails) : MA AssetDetails :=
  try_mutate_account id dest (fun o =>
    let a := default default_value o in
    debug_assert (bool_decide (is_Some (checked_add UA (a_balance a) credit))) ;;
    let new_balance := saturating_add UA (a_balance a) credit in
    let! '(sufficient, details) :=
      if a_balance a =? 0 then new_account dest details else ret (a_sufficient a, details) in
    ret (details, Some (set_a_balance new_balance (set_a_sufficient sufficient a)))).

Definition do_transfer id (source dest : AccountId) amount (maybe_need_admin : option AccountId)
    (f : TransferFlags) : MA Z :=
  if amount =? 0 then
    emit (Transferred id source dest amount) ;; ret amount
  else
    let! debit := prep_debit id source amount (debit_flags f) in
    let! '(credit, maybe_burn) := prep_credit id dest amount debit (tf_burn_dust f) in
    let! source_account := gets (asset_account id source) in
    try_mutate_asset id (fun maybe_details =>
      let! details := ok_or maybe_details (err Unknown) in
      match maybe_need_admin with
      | Some need_admin => ensure (bool_decide (need_admin = d_admin details)) (err NoPermission)
      | None => ret tt
      end ;;
      if bool_decide (source = dest) then ret (tt, Some details)
      else
        let! details :=
          match maybe_burn with
          | Some burn =>
              debug_assert (burn <=? d_supply details) ;;
              ret (set_supply (saturating_sub (d_supply details) burn) details)
          | None => ret details
          end in
        debug_assert (debit <=? a_balance source_account) ;;
        let source_account := set_a_balance (saturating_sub (a_balance source_account) debit) source_account in
        let! details := credit_dest id dest credit details in
        if a_balance source_account <? d_min_balance details then
          debug_assert (a_balance source_account =? 0) ;;
          let! details := dead_account id source details (a_sufficient source_account) in
          modify (fun s => set_AccountOf (delete (id, source) (AccountOf s)) s) ;;
          ret (tt, Some details)
        else
          modify (fun s => set_AccountOf (<[(id, source) := source_account]> (AccountOf s)) s) ;;
          ret (tt, Some details)) ;;
    emit (Transferred id source dest credit) ;;
    ret credit.

Definition fresh_details (owner admin : AccountId) (deposit min_balance : Z) (is_sufficient : bool)
    : AssetDetails :=
  mkDetails owner admin admin admin 0 deposit min_balance is_sufficient 0 0 0 false.

Definition insert_asset id (d : AssetDetails) : MA unit :=
  modify (fun s => set_Asset (<[id := d]> (Asset s)) s).

Definition do_force_create id (owner : AccountId) (is_sufficient : bool) (min_balance : Z) : MA unit :=
  let! exists_ := gets (fun s => bool_decide (is_Some (Asset s !! id))) in
  ensure (negb exists_) (err InUse) ;;
  ensure (negb (min_balance =? 0)) (err MinBalanceZero) ;;
  insert_asset id (fresh_details owner owner 0 min_balance is_sufficient) ;;
  emit (ForceCreated id owner).

(** The entries under the prefix [id], in the order of the storage. *)
Definition accounts_of id s : list (AccountId * AssetBalance) :=
  storage_order _ (omap (fun '((i, who), v) => if decide (i = id) then Some (who, v) else None)
                     (map_to_list (AccountOf s))).
Definition approvals_of id s : list (AccountId * AccountId * Approval) :=
  storage_order _ (omap (fun '((i, owner, delegate), v) =>
                           if decide (i = id) then Some (owner, delegate, v) else None)
                     (map_to_list (Approvals s))).

(** The loops over [drain_prefix]. *)
Fixpoint drain_accounts id (l : list (AccountId * AssetBalance)) (d : AssetDetails) : MA AssetDetails :=
  match l with
  | [] => ret d
  | (who, v) :: l =>
      modify (fun s => set_AccountOf (delete (id, who) (AccountOf s)) s) ;;
      let! d := dead_account id who d (a_sufficient v) in
      drain_accounts id l d
  end.
Definition drain_approvals id (l : list (AccountId * AccountId * Approval)) : MA unit :=
  for_each l (fun '(owner, delegate, approval) =>
    modify (fun s => set_Approvals (delete (id, owner, delegate) (Approvals s)) s) ;;
    call (rt_unreserve owner (ap_deposit approval)) ;; ret tt).

Definition do_destroy id (witness : DestroyWitness) (maybe_check_owner : option AccountId)
    : MA DestroyWitness :=
  try_mutate_asset id (fun maybe_details =>
    let! details := ok_or maybe_details (err Unknown) in
    match maybe_check_owner with
    | Some check_owner => ensure (bool_decide (d_owner details = check_owner)) (err NoPermission)
    | None => ret tt
    end ;;
    ensure (d_accounts details <=? w_accounts witness) (err BadWitness) ;;
    ensure (d_sufficients details <=? w_sufficients witness) (err BadWitness) ;;
    ensure (d_approvals details <=? w_approvals witness) (err BadWitness) ;;
    let! l := gets (accounts_of id) in
    let! details := drain_accounts id l details in
    debug_assert (d_accounts details =? 0) ;;
    debug_assert (d_sufficients details =? 0) ;;
    let! metadata := gets (fun s => default default_value (Metadata s !! id)) in
    modify (fun s => set_Metadata (delete id (Metadata s)) s) ;;
    call (rt_unreserve (d_owner details) (saturating_add U128 (d_deposit details) (m_deposit metadata))) ;;
    let! l := gets (approvals_of id) in
    drain_approvals id l ;;
    emit (Destroyed id) ;;
    ret (destroy_witness details, None)).

(* --------------------------------------------------------------------- *)
(** *** [fungibles] *)

Definition minimum_balance id s : Z :=
  match Asset s !! id with Some x => d_min_balance x | None => 0 end.
Definition mint_into id who amount : MA unit := do_mint id who amount None.
Definition burn_from id who amount : MA Z := do_burn id who amount None (mkDebitFlags false false).
Definition slash id who amount : MA Z := do_burn id who amount None (mkDebitFlags false true).
Definition fungibles_transfer id (source dest : AccountId) amount (keep_alive : bool) : MA Z :=
  do_transfer id source dest amount None (mkTransferFlags keep_alive false false).

(* --------------------------------------------------------------------- *)
(** *** Genesis *)

Definition genesis_asset (a : AssetId * AccountId * bool * Z) : MA unit :=
  let '(id, owner, is_sufficient, min_balance) := a in
  let! exists_ := gets (fun s => bool_decide (is_Some (Asset s !! id))) in
  assert (negb exists_) ;;
  assert (negb (min_balance =? 0)) ;;
  insert_asset id (fresh_details owner owner 0 min_balance is_sufficient).

Definition genesis_metadata (m : AssetId * bytes * bytes * Z) : MA unit :=
  let '(id, name, symbol, decimals) := m in
  let! exists_ := gets (fun s => bool_decide (is_Some (Asset s !! id))) in
  assert exists_ ;;
  assert (Z.of_nat (length name) <=? StringLimit) ;;
  assert (Z.of_nat (length symbol) <=? StringLimit) ;;
  modify (fun s => set_Metadata (<[id := mkMetadata 0 name symbol decimals false]> (Metadata s)) s).

Definition genesis_account (a : AssetId * AccountId * Z) : MA unit :=
  let '(id, account_id, amount) := a in
  let! result := attempt (increase_balance id account_id amount (raise_supply amount)) in
  assert (bool_decide (is_Some result)).

Definition genesis_build (assets : list (AssetId * AccountId * bool * Z))
    (metadata : list (AssetId * bytes * bytes * Z)) (accounts : list (AssetId * AccountId * Z)) : MA unit :=
  for_each assets genesis_asset ;;
  for_each metadata genesis_metadata ;;
  for_each accounts genesis_account.

(* --------------------------------------------------------------------- *)
(** *** Dispatchables *)

(** [T::Lookup] *)
Context {Source : Type} (lookup_source : Source -> option AccountId).

Definition lookup_addr (x : Source) : MA AccountId := ok_or (lookup_source x) CannotLookup.

Definition create (origin : RawOrigin) id (admin : Source) (min_balance : Z) : MA unit :=
  let! owner := ensure_signed origin in
  let! admin := lookup_addr admin in
  let! exists_ := gets (fun s => bool_decide (is_Some (Asset s !! id))) in
  ensure (negb exists_) (err InUse) ;;
  ensure (negb (min_balance =? 0)) (err MinBalanceZero) ;;
  call (rt_reserve owner AssetDeposit) ;;
  insert_asset id (fresh_details owner admin AssetDeposit min_balance false) ;;
  emit (CreatedEv id owner admin).

Definition force_create (origin : RawOrigin) id (owner : Source) (is_sufficient : bool) (min_balance : Z)
    : MA unit :=
  ensure_root origin ;;
  let! owner := lookup_addr owner in
  do_force_create id owner is_sufficient min_balance.

Definition destroy (origin : RawOrigin) id (witness : DestroyWitness) : MA unit :=
  let! maybe_check_owner :=
    match origin with
    | Root => ret None
    | _ => let! who := ensure_signed origin in ret (Some who)
    end in
  do_destroy id witness maybe_check_owner ;; ret tt.

Definition mint (origin : RawOrigin) id (beneficiary : Source) amount : MA unit :=
  let! origin := ensure_signed origin in
  let! beneficiary := lookup_addr beneficiary in
  do_mint id beneficiary amount (Some origin).

Definition burn (origin : RawOrigin) id (who : Source) amount : MA unit :=
  let! origin := ensure_signed origin in
  let! who := lookup_addr who in
  do_burn id who amount (Some origin) (mkDebitFlags false true) ;; ret tt.

Definition transfer (origin : RawOrigin) id (target : Source) amount : MA unit :=
  let! origin := ensure_signed origin in
  let! dest := lookup_addr target in
  do_transfer id origin dest amount None (mkTransferFlags false false false) ;; ret tt.

Definition transfer_keep_alive (origin : RawOrigin) id (target : Source) amount : MA unit :=
  let! source := ensure_signed origin in
  let! dest := lookup_addr target in
  do_transfer id source dest amount None (mkTransferFlags true false false) ;; ret tt.

Definition force_transfer (origin : RawOrigin) id (source dest : Source) amount : MA unit :=
  let! origin := ensure_signed origin in
  let! source := lookup_addr source in
  let! dest := lookup_addr dest in
  do_transfer id source dest amount (Some origin) (mkTransferFlags false false false) ;; ret tt.

(** [Asset::get(id).ok_or(Unknown)?] *)
Definition get_asset id : MA AssetDetails :=
  let! o := gets (fun s => Asset s !! id) in ok_or o (err Unknown).

(** [Account::mutate(id, &who, |a| a.is_frozen = x)] *)
Definition mutate_frozen id who (x : bool) : MA unit :=
  modify (fun s => set_AccountOf (<[(id, who) := set_a_frozen x (asset_account id who s)]> (AccountOf s)) s).

Definition freeze (origin : RawOrigin) id (who : Source) : MA unit :=
  let! origin := ensure_signed origin in
  let! d := get_asset id in
  ensure (bool_decide (origin = d_freezer d)) (err NoPermission) ;;
  let! who := lookup_addr who in
  let! held := gets (fun s => bool_decide (is_Some (AccountOf s !! (id, who)))) in
  ensure held (err BalanceZero) ;;
  mutate_frozen id who true ;;
  emit (FrozenEv id who).

Definition thaw (origin : RawOrigin) id (who : Source) : MA unit :=
  let! origin := ensure_signed origin in
  let! d := get_asset id in
  ensure (bool_decide (origin = d_admin d)) (err NoPermission) ;;
  let! who := lookup_addr who in
  let! held := gets (fun s => bool_decide (is_Some (AccountOf s !! (id, who)))) in
  ensure held (err BalanceZero) ;;
  mutate_frozen id who false ;;
  emit (Thawed id who).

Definition freeze_asset (origin : RawOrigin) id : MA unit :=
  let! origin := ensure_signed origin in
  try_mutate_asset id (fun maybe_details =>
    let! d := ok_or maybe_details (err Unknown) in
    ensure (bool_decide (origin = d_freezer d)) (err NoPermission) ;;
    emit (AssetFrozen id) ;;
    ret (tt, Some (set_asset_frozen true d))).

Definition thaw_asset (origin : RawOrigin) id : MA unit :=
  let! origin := ensure_signed origin in
  try_mutate_asset id (fun maybe_details =>
    let! d := ok_or maybe_details (err Unknown) in
    ensure (bool_decide (origin = d_admin d)) (err NoPermission) ;;
    emit (AssetThawed id) ;;
    ret (tt, Some (set_asset_frozen false d))).

Definition transfer_ownership (origin : RawOrigin) id (owner : Source) : MA unit :=
  let! origin := ensure_signed origin in
  let! owner := lookup_addr owner in
  try_mutate_asset id (fun maybe_details =>
    let! details := ok_or maybe_details (err Unknown) in
    ensure (bool_decide (origin = d_owner details)) (err NoPermission) ;;
    if bool_decide (d_owner details = owner) then ret (tt, Some details)
    else
      let! metadata_deposit := gets (fun s => m_deposit (default default_value (Metadata s !! id))) in
      let! deposit := add U128 (d_deposit details) metadata_deposit in
      call (rt_repatriate_reserved (d_owner details) owner deposit Status_Reserved) ;;
      emit (OwnerChanged id owner) ;;
      ret (tt, Some (set_roles owner (d_issuer details) (d_admin details) (d_freezer details) details))).

Definition set_team (origin : RawOrigin) id (issuer admin freezer : Source) : MA unit :=
  let! origin := ensure_signed origin in
  let! issuer := lookup_addr issuer in
  let! admin := lookup_addr admin in
  let! freezer := lookup_addr freezer in
  try_mutate_asset id (fun maybe_details =>
    let! details := ok_or maybe_details (err Unknown) in
    ensure (bool_decide (origin = d_owner details)) (err NoPermission) ;;
    emit (TeamChanged id issuer admin freezer) ;;
    ret (tt, Some (set_roles (d_owner details) issuer admin freezer details))).

Definition set_metadata (origin : RawOrigin) id (name symbol : bytes) (decimals : Z) : MA unit :=
  let! origin := ensure_signed origin in
  ensure (Z.of_nat (length name) <=? StringLimit) (err BadMetadata) ;;
  ensure (Z.of_nat (length symbol) <=? StringLimit) (err BadMetadata) ;;
  let! d := get_asset id in
  ensure (bool_decide (origin = d_owner d)) (err NoPermission) ;;
  try_mutate_metadata id (fun metadata =>
    ensure (match metadata with Some m => negb (m_is_frozen m) | None => true end) (err NoPermission) ;;
    let old_deposit := match metadata with Some m => m_deposit m | None => 0 end in
    let new_deposit :=
      saturating_add U128
        (saturating_mul U128 MetadataDepositPerByte (cast U32 (Z.of_nat (length name + length symbol))))
        MetadataDepositBase in
    (if old_deposit <? new_deposit then
       let! x := sub U128 new_deposit old_deposit in call (rt_reserve origin x)
     else
       let! x := sub U128 old_deposit new_deposit in call (rt_unreserve origin x) ;; ret tt) ;;
    emit (MetadataSet id name symbol decimals false) ;;
    ret (tt, Some (mkMetadata new_deposit name symbol decimals false))).

Definition clear_metadata (origin : RawOrigin) id : MA unit :=
  let! origin := ensure_signed origin in
  let! d := get_asset id in
  ensure (bool_decide (origin = d_owner d)) (err NoPermission) ;;
  try_mutate_metadata id (fun metadata =>
    let! m := ok_or metadata (err Unknown) in
    call (rt_unreserve (d_owner d) (m_deposit m)) ;;
    emit (MetadataCleared id) ;;
    ret (tt, None)).

Definition force_set_metadata (origin : RawOrigin) id (name symbol : bytes) (decimals : Z) (is_frozen : bool)
    : MA unit :=
  ensure_root origin ;;
  ensure (Z.of_nat (length name) <=? StringLimit) (err BadMetadata) ;;
  ensure (Z.of_nat (length symbol) <=? StringLimit) (err BadMetadata) ;;
  let! exists_ := gets (fun s => bool_decide (is_Some (Asset s !! id))) in
  ensure exists_ (err Unknown) ;;
  try_mutate_metadata id (fun metadata =>
    let deposit := match metadata with Some m => m_deposit m | None => 0 end in
    emit (MetadataSet id name symbol decimals is_frozen) ;;
    ret (tt, Some (mkMetadata deposit name symbol decimals is_frozen))).

Definition force_clear_metadata (origin : RawOrigin) id : MA unit :=
  ensure_root origin ;;
  let! d := get_asset id in
  try_mutate_metadata id (fun metadata =>
    let! m := ok_or metadata (err Unknown) in
    call (rt_unreserve (d_owner d) (m_deposit m)) ;;
    emit (MetadataCleared id) ;;
    ret (tt, None)).

Definition force_asset_status (origin : RawOrigin) id (owner issuer admin freezer : Source)
    (min_balance : Z) (is_sufficient is_frozen : bool) : MA unit :=
  ensure_root origin ;;
  try_mutate_asset id (fun maybe_asset =>
    let! asset := ok_or maybe_asset (err Unknown) in
    let! owner := lookup_addr owner in
    let! issuer := lookup_addr issuer in
    let! admin := lookup_addr admin in
    let! freezer := lookup_addr freezer in
    emit (AssetStatusChanged id) ;;
    ret (tt, Some (set_asset_frozen is_frozen (set_status min_balance is_sufficient
                     (set_roles owner issuer admin freezer asset))))).

Definition approve_transfer (origin : RawOrigin) id (delegate : Source) amount : MA unit :=
  let! owner := ensure_signed origin in
  let! delegate := lookup_addr delegate in
  let! d := get_asset id in
  ensure (negb (d_is_frozen d)) (err FrozenErr) ;;
  let! d :=
    try_mutate_approval id owner delegate (fun maybe_approved =>
      let '(approved, d) :=
        match maybe_approved with
        | Some a => (a, d)
        | None => (default_value, set_approvals (saturating_add U32 (d_approvals d) 1) d)
        end in
      let! approved :=
        if ap_deposit approved <? ApprovalDeposit then
          let! x := sub U128 ApprovalDeposit (ap_deposit approved) in
          call (rt_reserve owner x) ;;
          ret (mkApproval (ap_amount approved) ApprovalDeposit)
        else ret approved in
      ret (d, Some (mkApproval (saturating_add UA (ap_amount approved) amount) (ap_deposit approved)))) in
  insert_asset id d ;;
  emit (ApprovedTransfer id owner delegate amount).

(** The end of [cancel_approval] and [force_cancel_approval]. *)
Definition take_approval id (owner delegate : AccountId) (d : AssetDetails) : MA unit :=
  let! o := gets (fun s => Approvals s !! (id, owner, delegate)) in
  modify (fun s => set_Approvals (delete (id, owner, delegate) (Approvals s)) s) ;;
  let! approval := ok_or o (err Unknown) in
  call (rt_unreserve owner (ap_deposit approval)) ;;
  insert_asset id (set_approvals (saturating_sub (d_approvals d) 1) d) ;;
  emit (ApprovalCancelled id owner delegate).

Definition cancel_approval (origin : RawOrigin) id (delegate : Source) : MA unit :=
  let! owner := ensure_signed origin in
  let! delegate := lookup_addr delegate in
  let! d := get_asset id in
  take_approval id owner delegate d.

Definition force_cancel_approval (origin : RawOrigin) id (owner delegate : Source) : MA unit :=
  let! d := get_asset id in
  match origin with
  | Root => ret tt
  | _ => let! origin := ensure_signed origin in
         ensure (bool_decide (origin = d_admin d)) (err NoPermission)
  end ;;
  let! owner := lookup_addr owner in
  let! delegate := lookup_addr delegate in
  take_approval id owner delegate d.

Definition transfer_approved (origin : RawOrigin) id (owner destination : Source) amount : MA unit :=
  let! delegate := ensure_signed origin in
  let! owner := lookup_addr owner in
  let! destination := lookup_addr destination in
  try_mutate_approval id owner delegate (fun maybe_approved =>
    let! approved := ok_or maybe_approved (err Unapproved) in
    let! remaining := ok_or (checked_sub (ap_amount approved) amount) (err Unapproved) in
    do_transfer id owner destination amount None (mkTransferFlags false false false) ;;
    if remaining =? 0 then
      call (rt_unreserve owner (ap_deposit approved)) ;;
      modify (fun s => set_Asset (alter (fun d => set_approvals (saturating_sub (d_approvals d) 1) d) id (Asset s)) s) ;;
      ret (tt, None)
    else ret (tt, Some (mkApproval remaining (ap_deposit approved)))).

Definition dispatch (origin : RawOrigin) (c : AssetsCall Source) : MA unit :=
  match c with
  | Create id admin min_balance => create origin id admin min_balance
  | ForceCreate id owner is_sufficient min_balance => force_create origin id owner is_sufficient min_balance
  | Destroy id witness => destroy origin id witness
  | Mint id beneficiary amount => mint origin id beneficiary amount
  | Burn id who amount => burn origin id who amount
  | Transfer id target amount => transfer origin id target amount
  | TransferKeepAlive id target amount => transfer_keep_alive origin id target amount
  | ForceTransfer id source dest amount => force_transfer origin id source dest amount
  | Freeze id who => freeze origin id who
  | Thaw id who => thaw origin id who
  | FreezeAsset id => freeze_asset origin id
  | ThawAsset id => thaw_asset origin id
  | TransferOwnership id owner => transfer_ownership origin id owner
  | SetTeam id issuer admin freezer => set_team origin id issuer admin freezer
  | SetMetadata id name symbol decimals => set_metadata origin id name symbol decimals
  | ClearMetadata id => clear_metadata origin id
  | ForceSetMetadata id name symbol decimals is_frozen =>
      force_set_metadata origin id name symbol decimals is_frozen
  | ForceClearMetadata id => force_clear_metadata origin id
  | ForceAssetStatus id owner issuer admin freezer min_balance is_sufficient is_frozen =>
      force_asset_status origin id owner issuer admin freezer min_balance is_sufficient is_frozen
  | ApproveTransfer id delegate amount => approve_transfer origin id delegate amount
  | CancelApproval id delegate => cancel_approval origin id delegate
  | ForceCancelApproval id owner delegate => force_cancel_approval origin id owner delegate
  | TransferApproved id owner destination amount => transfer_approved origin id owner destination amount
  end.
End Pallet.
