(* ===== verification/AssetsFacts.v ===== *)
(** * pallet_assets: the books balance

    What the pallet relies on in the runtime below it, the invariant of the
    registry (the supply of an asset is the sum of its balances, its counters
    count its accounts), and the effect of each operation. *)

From S2P Require Import Prelude System Assets.

Set Default Proof Using "Type".

(* ===================================================================== *)
(** ** The contract of the runtime *)

(** [RI] is the invariant of the state below.  An operation of the currency
    keeps it and does not panic; one that fails has changed nothing; and what
    gives back a reserve or a reference does not fail. *)
Class AssetsRuntimeOk {C ME : Type} `{!AssetsRuntime C ME} (RI : C -> Prop) := {
  can_repatriate : AccountId -> C -> Prop;
  ok_reserve who v c : RI c -> 0 <= v < U128 ->
    wp (rt_reserve who v) (fun _ => RI) (fun _ c' => c' = c) c;
  ok_unreserve who v c : RI c -> 0 <= v < U128 ->
    wp (rt_unreserve who v) (fun _ => RI) (fun _ _ => False) c;
  ok_repatriate from to v st c : RI c -> 0 <= v < U128 -> can_repatriate from c ->
    wp (rt_repatriate_reserved from to v st) (fun _ => RI) (fun _ => RI) c;
  ok_inc_sufficients who c : RI c ->
    wp (rt_inc_sufficients who) (fun _ => RI) (fun _ _ => False) c;
  ok_dec_sufficients who c : RI c ->
    wp (rt_dec_sufficients who) (fun _ => RI) (fun _ _ => False) c;
  ok_inc_consumers who c : RI c ->
    wp (rt_inc_consumers who) (fun _ => RI) (fun _ c' => c' = c) c;
  ok_dec_consumers who c : RI c ->
    wp (rt_dec_consumers who) (fun _ => RI) (fun _ _ => False) c;
  ok_deposit_event e c : RI c ->
    wp (rt_deposit_event e) (fun _ => RI) (fun _ _ => False) c
}.

(** The deposits fit the currency's type. *)
Class AssetsConstantsOk `{!AssetsConstants} := {
  StringLimit_nonneg : 0 <= StringLimit;
  deposits_nonneg : 0 <= AssetDeposit /\ 0 <= ApprovalDeposit < U128 /\
    0 <= MetadataDepositBase /\ 0 <= MetadataDepositPerByte;
  deposits_fit : AssetDeposit + (MetadataDepositPerByte * (2 * StringLimit) + MetadataDepositBase) < U128
}.

(** The largest deposit metadata can need. *)
Definition max_metadata `{!AssetsConstants} : Z :=
  MetadataDepositPerByte * (2 * StringLimit) + MetadataDepositBase.

(* ===================================================================== *)
(** ** Tallies of an asset *)
Section Tallies.
Implicit Types (f : AssetBalance -> Z) (id : AssetId) (who : AccountId)
  (m : gmap (AssetId * AccountId) AssetBalance).

(** The sum of [f] over the accounts of [id]. *)
Definition weigh f id m : Z := key_sum (fun k v => if decide (k.1 = id) then f v else 0) m.

Definition weight_of f (o : option AssetBalance) : Z := match o with Some v => f v | None => 0 end.

Lemma weigh_put f id who o m :
  weigh f id (put_opt (id, who) o m) = weigh f id m - weight_of f (m !! (id, who)) + weight_of f o.
Proof.
  unfold weigh. rewrite key_sum_put. unfold opt_at, weight_of.
  destruct (m !! (id, who)), o; simpl; rewrite ?decide_True by done; lia.
Qed.

Lemma weigh_put_ne f id id' who o m : id' <> id -> weigh f id' (put_opt (id, who) o m) = weigh f id' m.
Proof.
  intros Hne. unfold weigh. rewrite key_sum_put. unfold opt_at.
  destruct (m !! (id, who)), o; simpl; rewrite ?decide_False by done; lia.
Qed.

Lemma weigh_nonneg f id m :
  (forall who v, m !! (id, who) = Some v -> 0 <= f v) -> 0 <= weigh f id m.
Proof.
  intros Hf. apply key_sum_nonneg. intros [i w] v Hv. simpl. case_decide; [subst; eauto|lia].
Qed.

Lemma weight_le f id who m :
  (forall who v, m !! (id, who) = Some v -> 0 <= f v) -> weight_of f (m !! (id, who)) <= weigh f id m.
Proof.
  intros Hf. etrans; [|apply (opt_at_le _ m (id, who))].
  - unfold opt_at, weight_of. destruct (m !! (id, who)); [|done]. simpl. by rewrite decide_True.
  - intros [i w] v Hv. simpl. case_decide; [subst; eauto|lia].
Qed.

Lemma weigh_none f id m : (forall who, m !! (id, who) = None) -> weigh f id m = 0.
Proof.
  intros Hm. unfold weigh. trans (key_sum (V := AssetBalance) (fun _ _ => 0) m); [apply key_sum_ext|apply key_sum_zero].
  intros [i w] v Hv. simpl. case_decide as Hi; [|done]. subst i. by rewrite Hm in Hv.
Qed.

(** One for every account; one for every account that counts as sufficient. *)
Definition one (_ : AssetBalance) : Z := 1.
Definition suff (a : AssetBalance) : Z := if a_sufficient a then 1 else 0.
End Tallies.

(** The details of [id] agree with the accounts [m]. *)
Record asset_ok (m : gmap (AssetId * AccountId) AssetBalance) (id : AssetId) (d : AssetDetails) : Prop := {
  ao_supply : d_supply d = weigh a_balance id m;
  ao_supply_range : d_supply d < UA;
  ao_accounts : d_accounts d = weigh one id m;
  ao_accounts_range : d_accounts d < U32;
  ao_sufficients : d_sufficients d = weigh suff id m;
  ao_min : 0 < d_min_balance d < UA
}.

(* ===================================================================== *)
(** ** The invariant *)
Section Invariant.
Context {P : Profile} {C ME : Type} {RT : AssetsRuntime C ME} {CO : AssetsConstants} {SO : StorageOrder}.
Context (RI : C -> Prop) {RO : AssetsRuntimeOk RI} {CK : AssetsConstantsOk}.
Local Abbreviation MA := (M (AssetsState C) (DispatchError ME)).
Implicit Types (id : AssetId) (who : AccountId) (amount : Z) (s t : AssetsState C) (d : AssetDetails).

Record AssetsInv s : Prop := {
  ai_rt : RI (rt s);
  ai_asset : forall id d, Asset s !! id = Some d -> asset_ok (AccountOf s) id d;
  ai_account : forall id who a, AccountOf s !! (id, who) = Some a ->
    0 < a_balance a /\ is_Some (Asset s !! id);
  ai_deposit : forall id d, Asset s !! id = Some d -> 0 <= d_deposit d <= AssetDeposit;
  ai_metadata : forall id m, Metadata s !! id = Some m -> 0 <= m_deposit m <= max_metadata;
  ai_approval : forall k a, Approvals s !! k = Some a ->
    0 <= ap_amount a < UA /\ 0 <= ap_deposit a <= ApprovalDeposit
}.

Lemma account_nonneg s id : AssetsInv s ->
  forall who v, AccountOf s !! (id, who) = Some v -> 0 <= a_balance v.
Proof. intros Hs who v Hv. pose proof (ai_account _ Hs _ _ _ Hv). lia. Qed.

Lemma suff_le m id : 0 <= weigh suff id m <= weigh one id m.
Proof.
  split.
  - apply weigh_nonneg. intros who v _. unfold suff. by destruct (a_sufficient v).
  - apply key_sum_le. intros [i w] v _. simpl. case_decide; [|done]. unfold suff, one. by destruct (a_sufficient v).
Qed.

(** The range of everything about one asset and one of its accounts. *)
Lemma asset_bounds s id d who :
  AssetsInv s -> Asset s !! id = Some d ->
  0 <= balance id who s <= d_supply d /\ d_supply d < UA /\
  0 <= d_sufficients d <= d_accounts d /\ d_accounts d < U32 /\ 0 < d_min_balance d < UA.
Proof.
  intros Hs Hd. destruct (ai_asset _ Hs id d Hd) as [A1 A2 A3 A4 A5 A6].
  pose proof (suff_le (AccountOf s) id).
  pose proof (weight_le a_balance id who (AccountOf s) (account_nonneg s id Hs)) as Hw.
  pose proof (account_nonneg s id Hs who) as Hn. unfold balance, asset_account.
  destruct (AccountOf s !! (id, who)) as [a|]; simpl in *; [specialize (Hn a eq_refl)|]; lia.
Qed.

Lemma balance_zero s id who : AssetsInv s -> balance id who s = 0 <-> AccountOf s !! (id, who) = None.
Proof.
  intros Hs. unfold balance, asset_account. destruct (AccountOf s !! (id, who)) as [a|] eqn:Ha; simpl; [|done].
  pose proof (ai_account _ Hs _ _ _ Ha). split; [lia|done].
Qed.

(** A write of the details and of one account that keeps the tallies. *)
Lemma AssetsInv_write id d d' who o s t :
  AssetsInv s -> Asset s !! id = Some d -> RI (rt t) ->
  Asset t = <[id := d']> (Asset s) -> AccountOf t = put_opt (id, who) o (AccountOf s) ->
  Approvals t = Approvals s -> Metadata t = Metadata s ->
  (forall a, o = Some a -> 0 < a_balance a) ->
  let old := AccountOf s !! (id, who) in
  d_supply d' = d_supply d - weight_of a_balance old + weight_of a_balance o -> d_supply d' < UA ->
  d_accounts d' = d_accounts d - weight_of one old + weight_of one o -> d_accounts d' < U32 ->
  d_sufficients d' = d_sufficients d - weight_of suff old + weight_of suff o ->
  0 < d_min_balance d' < UA -> 0 <= d_deposit d' <= AssetDeposit -> AssetsInv t.
Proof.
  intros Hs Hd Hrt HA HB HC HM Ho old A1 A2 A3 A4 A5 A6 A7. destruct (ai_asset _ Hs id d Hd).
  split; [done|..].
  - intros i x. rewrite HA, HB. intros [[<- <-]|[Hne Hx]]%lookup_insert_Some.
    + split; rewrite ?weigh_put; fold old; try done; lia.
    + destruct (ai_asset _ Hs i x Hx). split; rewrite ?weigh_put_ne; try done; lia.
  - intros i w a. rewrite HA, HB, lookup_put_opt. case_decide as Hk; simplify_eq.
    + intros ->. split; [by apply Ho|]. rewrite lookup_insert_eq. by eexists.
    + intros Ha. pose proof (ai_account _ Hs _ _ _ Ha) as [Hp Hi]. split; [done|].
      destruct (decide (i = id)) as [->|]; [rewrite lookup_insert_eq; by eexists|by rewrite lookup_insert_ne].
  - intros i x. rewrite HA. intros [[<- <-]|[Hne Hx]]%lookup_insert_Some; [done|by eapply (ai_deposit _ Hs)].
  - rewrite HM. apply (ai_metadata _ Hs).
  - rewrite HC. apply (ai_approval _ Hs).
Qed.

Lemma AssetsInv_rt s c : AssetsInv s -> RI c -> AssetsInv (set_rt c s).
Proof. by intros [] Hc. Qed.

Lemma set_rt_rt s : set_rt (rt s) s = s.
Proof. by destruct s. Qed.
End Invariant.

(* ===================================================================== *)
(** ** The operations *)

Ltac asset_step :=
  lazymatch goal with
  | |- wp (try_mutate_asset _ _) _ _ _ => unfold try_mutate_asset
  | |- wp (try_mutate_account _ _ _) _ _ _ => unfold try_mutate_account
  | |- wp (try_mutate_approval _ _ _ _) _ _ _ => unfold try_mutate_approval
  | |- wp (try_mutate_metadata _ _) _ _ _ => unfold try_mutate_metadata
  | |- wp (get_asset _) _ _ _ => unfold get_asset
  | |- wp (lookup_addr _ _) _ _ _ => unfold lookup_addr
  | |- wp (insert_asset _ _) _ _ _ => unfold insert_asset
  | |- wp (attempt _) _ _ _ => unfold attempt
  | |- wp (add _ _ _) _ _ _ => apply wp_arith
  | |- wp (sub _ _ _) _ _ _ => apply wp_arith
  | |- wp (debug_assert _) _ _ _ => apply wp_debug_assert
  | |- _ => wp_step
  end; cbv beta.
Ltac asset_steps := repeat asset_step.

Section Operations.
Context {P : Profile} {C ME : Type} {RT : AssetsRuntime C ME} {CO : AssetsConstants} {SO : StorageOrder}.
Context (RI : C -> Prop) {RO : AssetsRuntimeOk RI} {CK : AssetsConstantsOk}.
Local Abbreviation MA := (M (AssetsState C) (DispatchError ME)).
Local Abbreviation AssetsInv := (AssetsInv RI).
Implicit Types (id : AssetId) (who : AccountId) (amount : Z) (s t : AssetsState C) (d : AssetDetails).

Lemma wp_emit e s (Q : unit -> AssetsState C -> Prop) X :
  RI (rt s) -> (forall c, RI c -> Q tt (set_rt c s)) -> wp (emit e : MA unit) Q X s.
Proof using RO.
  intros Hs HQ. unfold emit. apply wp_zoom. eapply wp_mono; [by apply ok_deposit_event| |done].
  intros [] c Hc. by apply HQ.
Qed.

Lemma wp_call {A} (m : M C (DispatchError ME) A) (Q : A -> AssetsState C -> Prop) X (Y : C -> Prop) s :
  wp m (fun _ => RI) (fun _ => Y) (rt s) ->
  (forall a c, RI c -> Q a (set_rt c s)) -> (forall e c, Y c -> X e (set_rt c s)) ->
  wp (call m) Q X s.
Proof. intros Hm HQ HX. apply wp_zoom. eapply wp_mono; [exact Hm|auto|auto]. Qed.

Lemma wp_call_total {A} (m : M C (DispatchError ME) A) (Q : A -> AssetsState C -> Prop) X s :
  wp m (fun _ => RI) (fun _ _ => False) (rt s) -> (forall a c, RI c -> Q a (set_rt c s)) ->
  wp (call m) Q X s.
Proof. intros Hm HQ. by eapply wp_call. Qed.

(** The two counters after an account was added or removed. *)
Definition counted (k : Z) (b : bool) d : AssetDetails :=
  set_counts (d_accounts d + k) (d_sufficients d + if b then k else 0) d.

Lemma wp_new_account who d s (Q : bool * AssetDetails -> AssetsState C -> Prop) (X : DispatchError ME -> _) :
  RI (rt s) -> 0 <= d_sufficients d <= d_accounts d -> d_accounts d < U32 ->
  (forall c, RI c -> d_accounts d + 1 < U32 ->
     Q (d_is_sufficient d, counted 1 (d_is_sufficient d) d) (set_rt c s)) ->
  (forall e, X e s) -> wp (new_account who d) Q X s.
Proof using RO.
  intros Hs H1 H2 HQ HX. unfold new_account, checked_add. asset_steps; case_match; simplify_eq; [|apply HX].
  unfold counted in HQ. destruct (d_is_sufficient d); asset_steps.
  - apply wp_call_total; [by apply ok_inc_sufficients|]. intros _ c Hc. asset_steps; [lia|]. apply HQ; [done|lia].
  - eapply wp_call; [by apply ok_inc_consumers| |]; cbv beta.
    + intros _ c Hc. asset_steps. rewrite Z.add_0_r in HQ. apply HQ; [done|lia].
    + intros e c ->. rewrite set_rt_rt. apply HX.
Qed.

Lemma wp_dead_account id who d b s (Q : AssetDetails -> AssetsState C -> Prop) X :
  RI (rt s) -> 1 <= d_accounts d -> (b = true -> 1 <= d_sufficients d) ->
  (forall c, RI c -> Q (counted (-1) b d) (set_rt c s)) -> wp (dead_account id who d b) Q X s.
Proof using RO.
  intros Hs H1 H2 HQ. unfold dead_account, counted, saturating_sub in *. destruct b; asset_steps.
  - apply wp_call_total; [by apply ok_dec_sufficients|]. intros _ c Hc. asset_steps.
    rewrite !Z.max_r by lia. by apply HQ.
  - apply wp_call_total; [by apply ok_dec_consumers|]. intros _ c Hc. asset_steps.
    rewrite Z.max_r by lia. rewrite Z.add_0_r in HQ. by apply HQ.
Qed.

(** What [prep_debit] promises: the account stays at or above the minimum or
    is emptied, and unless the debit is best effort, at least the amount and
    less than the minimum above it is taken. *)
Record debit_ok id who amount (f : DebitFlags) (x : Z) d s : Prop := {
  do_asset : Asset s !! id = Some d;
  do_thawed : d_is_frozen d = false /\ a_is_frozen (asset_account id who s) = false;
  do_range : 0 <= x <= balance id who s;
  do_rest : balance id who s - x = 0 \/ d_min_balance d <= balance id who s - x;
  do_alive : df_keep_alive f = true -> 0 < x -> d_min_balance d <= balance id who s - x;
  do_amount : df_best_effort f = false -> amount <= x /\ (x = amount \/ x = balance id who s);
  do_excess : x < amount + d_min_balance d
}.

Lemma wp_reducible_balance id who (keep_alive : bool) s (Q : Z -> AssetsState C -> Prop) (X : DispatchError ME -> _) :
  AssetsInv s ->
  (forall d, Asset s !! id = Some d -> d_is_frozen d = false ->
     a_is_frozen (asset_account id who s) = false ->
     Q (if keep_alive then saturating_sub (balance id who s) (d_min_balance d) else balance id who s) s) ->
  (forall e, X e s) -> wp (reducible_balance id who keep_alive) Q X s.
Proof.
  intros Hs HQ HX. unfold reducible_balance, frozen_balance. asset_steps; try apply HX.
  rename a into d, H into Hd, H0 into Hfd, H1 into Hfa. apply negb_true_iff in Hfd, Hfa.
  pose proof (asset_bounds RI s id d who Hs Hd) as Hb. specialize (HQ d Hd Hfd Hfa). fold (balance id who s).
  destruct keep_alive; asset_steps; rewrite Z.min_l; try done; unfold saturating_sub; lia.
Qed.

Lemma can_decrease_eq id who x (keep_alive : bool) d s :
  AssetsInv s -> Asset s !! id = Some d -> d_is_frozen d = false ->
  a_is_frozen (asset_account id who s) = false -> 0 <= x <= balance id who s ->
  can_decrease id who x keep_alive s =
    if balance id who s - x <? d_min_balance d then
      if keep_alive then W_WouldDie else W_ReducedToZero (balance id who s - x)
    else W_Success.
Proof.
  intros Hs Hd Hfd Hfa Hx. pose proof (asset_bounds RI s id d who Hs Hd) as Hb.
  unfold can_decrease, frozen_balance, checked_sub. rewrite Hd, Hfd, Hfa. fold (balance id who s).
  by rewrite !(proj2 (Z.leb_le x _)) by lia.
Qed.

Lemma wp_prep_debit id who amount f s (Q : Z -> AssetsState C -> Prop) (X : DispatchError ME -> _) :
  AssetsInv s -> 0 < amount -> (df_keep_alive f = true -> df_best_effort f = false) ->
  (forall d x, debit_ok id who amount f x d s -> Q x s) -> (forall e, X e s) ->
  wp (prep_debit id who amount f) Q X s.
Proof.
  intros Hs Ha Hf HQ HX. unfold prep_debit. asset_steps. apply wp_reducible_balance; [done| |done].
  intros d Hd Hfd Hfa. pose proof (asset_bounds RI s id d who Hs Hd) as Hb. asset_steps; [|apply HX].
  set (b := balance id who s) in *. set (r := if df_keep_alive f then _ else _) in *.
  assert (0 <= r <= b /\ (df_keep_alive f = true -> r = Z.max 0 (b - d_min_balance d))) as Hr.
  { unfold r, saturating_sub. destruct (df_keep_alive f); [|naive_solver lia]. naive_solver lia. }
  assert (df_best_effort f = false -> amount <= Z.min r amount) as Hbe.
  { intros He. rewrite He in H. simpl in H. lia. }
  rewrite (can_decrease_eq id who _ _ d) by (done || (fold b; lia)). fold b. clearbody r.
  destruct (Z.ltb_spec (b - Z.min r amount) (d_min_balance d)) as [Hlt|Hge].
  - destruct (df_keep_alive f) eqn:Hk; [specialize (Hf eq_refl); specialize (Hbe Hf); destruct Hr as [? Hr];
      specialize (Hr eq_refl); lia|].
    simpl. asset_steps. unfold saturating_add.
    replace (Z.min (Z.min r amount + (b - Z.min r amount)) (UA - 1)) with b by lia.
    apply (HQ d). split; fold b; rewrite ?Hk; try done; try lia. intros He. specialize (Hbe He). lia.
  - simpl. asset_steps. unfold saturating_add.
    replace (Z.min (Z.min r amount + 0) (UA - 1)) with (Z.min r amount) by lia.
    apply (HQ d). split; fold b; try done; try lia. intros He. specialize (Hbe He). lia.
Qed.

(** What a successful [can_increase] says. *)
Record credit_ok id who amount d s : Prop := {
  co_asset : Asset s !! id = Some d;
  co_supply : d_supply d + amount < UA;
  co_min : balance id who s = 0 -> d_min_balance d <= amount
}.

Lemma wp_can_increase id who amount s (Q : unit -> AssetsState C -> Prop) X :
  (forall d, credit_ok id who amount d s -> Q tt s) -> (forall e, X e s) ->
  wp (deposit_into_result (can_increase id who amount s) : MA unit) Q X s.
Proof.
  intros HQ HX. unfold can_increase, checked_add. fold (balance id who s).
  repeat case_match; simpl; asset_steps; simplify_eq; try apply HX; (eapply HQ; split; [done|lia|lia]).
Qed.

(** The account and the details after a credit. *)
Definition credited_account d (a : AssetBalance) (x : Z) : AssetBalance :=
  set_a_balance (a_balance a + x)
    (set_a_sufficient (if a_balance a =? 0 then d_is_sufficient d else a_sufficient a) a).
Definition credited_details d (a : AssetBalance) : AssetDetails :=
  if a_balance a =? 0 then counted 1 (d_is_sufficient d) d else d.

(** What the entries of an account weigh. *)
Lemma weight_account s id who : weight_of a_balance (AccountOf s !! (id, who)) = balance id who s.
Proof. unfold balance, asset_account. by destruct (AccountOf s !! (id, who)). Qed.

Lemma weight_one s id who : AssetsInv s ->
  weight_of one (AccountOf s !! (id, who)) = if balance id who s =? 0 then 0 else 1.
Proof.
  intros Hs. unfold balance, asset_account. destruct (AccountOf s !! (id, who)) as [a|] eqn:Ha; simpl; [|done].
  pose proof (ai_account _ _ Hs _ _ _ Ha). destruct (Z.eqb_spec (a_balance a) 0); [lia|done].
Qed.

Lemma weight_suff s id who : AssetsInv s ->
  weight_of suff (AccountOf s !! (id, who)) =
    if balance id who s =? 0 then 0 else if a_sufficient (asset_account id who s) then 1 else 0.
Proof.
  intros Hs. unfold balance, asset_account. destruct (AccountOf s !! (id, who)) as [a|] eqn:Ha; simpl; [|done].
  pose proof (ai_account _ _ Hs _ _ _ Ha). destruct (Z.eqb_spec (a_balance a) 0); [lia|done].
Qed.

(** A holder is counted. *)
Lemma holder_counted s id d who :
  AssetsInv s -> Asset s !! id = Some d -> 0 < balance id who s ->
  1 <= d_accounts d /\ (a_sufficient (asset_account id who s) = true -> 1 <= d_sufficients d).
Proof.
  intros Hs Hd Hb. destruct (ai_asset _ _ Hs id d Hd).
  pose proof (weight_le one id who (AccountOf s)) as H1. pose proof (weight_le suff id who (AccountOf s)) as H2.
  rewrite weight_one in H1 by done. rewrite weight_suff in H2 by done.
  destruct (Z.eqb_spec (balance id who s) 0); [lia|]. split.
  - rewrite ao_accounts0. by apply H1.
  - intros Hsf. rewrite Hsf in H2. rewrite ao_sufficients0. apply H2. intros w v _. unfold suff. by destruct (a_sufficient v).
Qed.

(** A credit of [x > 0] to an account, with the supply raised by it. *)
Lemma AssetsInv_credit id who x d s t :
  AssetsInv s -> Asset s !! id = Some d -> 0 < x -> d_supply d + x < UA ->
  let a := asset_account id who s in
  let d' := set_supply (d_supply d + x) (credited_details d a) in
  RI (rt t) -> d_accounts d' < U32 -> Asset t = <[id := d']> (Asset s) ->
  AccountOf t = <[(id, who) := credited_account d a x]> (AccountOf s) ->
  Approvals t = Approvals s -> Metadata t = Metadata s -> AssetsInv t.
Proof.
  intros Hs Hd Hx Hsup a d' Hrt Hacc HA HB HC HM.
  pose proof (asset_bounds RI s id d who Hs Hd) as Hb. unfold balance in Hb. fold a in Hb.
  eapply (AssetsInv_write RI id d d' who (Some (credited_account d a x)) s t); try done.
  - intros ? [= <-]. simpl. lia.
  - rewrite weight_account. unfold balance. fold a. simpl. lia.
  - rewrite weight_one by done. unfold balance, d', credited_details. fold a. simpl. unfold one.
    destruct (a_balance a =? 0); simpl; lia.
  - rewrite weight_suff by done. unfold balance, d', credited_details, suff. fold a. simpl.
    destruct (a_balance a =? 0); simpl; [|destruct (a_sufficient a); lia]. destruct (d_is_sufficient d); lia.
  - unfold d', credited_details. destruct (a_balance a =? 0); simpl; lia.
  - pose proof (ai_deposit _ _ Hs id d Hd). unfold d', credited_details. by destruct (a_balance a =? 0).
Qed.

(** The account after a debit that leaves nothing or at least the minimum. *)
Definition debited_account d (a : AssetBalance) (x : Z) : option AssetBalance :=
  if a_balance a - x <? d_min_balance d then None else Some (set_a_balance (a_balance a - x) a).
Definition debited_details d (a : AssetBalance) (x : Z) : AssetDetails :=
  if a_balance a - x <? d_min_balance d then counted (-1) (a_sufficient a) d else d.

Lemma AssetsInv_debit id who x d s t :
  AssetsInv s -> Asset s !! id = Some d -> 0 <= x <= balance id who s -> 0 < balance id who s ->
  (balance id who s - x = 0 \/ d_min_balance d <= balance id who s - x) ->
  let a := asset_account id who s in
  let d' := set_supply (d_supply d - x) (debited_details d a x) in
  RI (rt t) -> Asset t = <[id := d']> (Asset s) ->
  AccountOf t = put_opt (id, who) (debited_account d a x) (AccountOf s) ->
  Approvals t = Approvals s -> Metadata t = Metadata s -> AssetsInv t.
Proof.
  intros Hs Hd Hx Hpos Hrest a d' Hrt HA HB HC HM.
  pose proof (asset_bounds RI s id d who Hs Hd) as Hb. unfold balance in *. fold a in Hx, Hpos, Hrest, Hb.
  eapply (AssetsInv_write RI id d d' who (debited_account d a x) s t); try done;
    rewrite ?weight_account, ?weight_one, ?weight_suff by done; unfold balance; fold a;
    unfold d', debited_details, debited_account, suff, one;
    destruct (Z.ltb_spec (a_balance a - x) (d_min_balance d)); simpl;
    try (destruct (Z.eqb_spec (a_balance a) 0); [lia|]);
    try (pose proof (ai_deposit _ _ Hs id d Hd)); try (destruct (a_sufficient a)); try lia; try done.
  all: intros ? [= <-]; simpl; lia.
Qed.

(* --------------------------------------------------------------------- *)
(** *** Effects *)

(** Who may do what with an asset. *)
Definition roles id s : option (AccountId * AccountId * AccountId * AccountId) :=
  (fun d => (d_owner d, d_issuer d, d_admin d, d_freezer d)) <$> Asset s !! id.

(** [t] is [s] with the balances changed by [delta], and the supplies and
    counters with them. *)
Record Moves (delta : AssetId -> AccountId -> Z) s t : Prop := {
  mv_inv : AssetsInv t;
  mv_balance : forall id who, balance id who t = balance id who s + delta id who;
  mv_roles : forall id, roles id t = roles id s;
  mv_approvals : Approvals t = Approvals s;
  mv_metadata : Metadata t = Metadata s
}.

Definition at_account id who (x : Z) : AssetId -> AccountId -> Z :=
  fun i w => if decide ((i, w) = (id, who)) then x else 0.

Lemma Moves_rt delta s t c : RI c -> Moves delta s t -> Moves delta s (set_rt c t).
Proof. intros Hc [A1 A2 A3 A4 A5]. split; try done. by apply AssetsInv_rt. Qed.

Lemma Moves_refl s : AssetsInv s -> Moves (fun _ _ => 0) s s.
Proof. intros Hs. split; try done. intros. lia. Qed.

Lemma Moves_ext delta delta' s t :
  Moves delta s t -> (forall i w, delta i w = delta' i w) -> Moves delta' s t.
Proof. intros [A1 A2 A3 A4 A5] He. split; try done. intros. by rewrite A2, He. Qed.

Lemma roles_insert id d d' s t :
  Asset s !! id = Some d -> Asset t = <[id := d']> (Asset s) ->
  d_owner d' = d_owner d -> d_issuer d' = d_issuer d -> d_admin d' = d_admin d -> d_freezer d' = d_freezer d ->
  forall i, roles i t = roles i s.
Proof.
  intros Hd HA E1 E2 E3 E4 i. unfold roles. rewrite HA. destruct (decide (i = id)) as [->|].
  - rewrite lookup_insert_eq, Hd. simpl. by rewrite E1, E2, E3, E4.
  - by rewrite lookup_insert_ne.
Qed.

Lemma balance_put id who o s t i w :
  AccountOf t = put_opt (id, who) o (AccountOf s) ->
  balance i w t = if decide ((i, w) = (id, who)) then weight_of a_balance o else balance i w s.
Proof.
  intros Ht. unfold balance, asset_account. rewrite Ht, lookup_put_opt. case_decide; [|done]. by destruct o.
Qed.

(* --------------------------------------------------------------------- *)
(** *** Minting *)

(** The account side of a credit, shared by [increase_balance] and
    [do_transfer]. *)
Lemma wp_credit_account id who x d s (Q : bool * AssetDetails -> AssetsState C -> Prop) (X : DispatchError ME -> _) :
  RI (rt s) -> 0 <= d_sufficients d <= d_accounts d -> d_accounts d < U32 ->
  let a := asset_account id who s in
  (forall c, RI c -> d_accounts (credited_details d a) < U32 ->
     Q (a_sufficient (credited_account d a x), credited_details d a) (set_rt c s)) ->
  (forall e, X e s) ->
  wp (if a_balance a =? 0 then new_account who d else ret (a_sufficient a, d)) Q X s.
Proof using RO.
  intros Hs H1 H2 a HQ HX. unfold credited_account, credited_details in HQ. simpl in HQ.
  destruct (a_balance a =? 0).
  - apply wp_new_account; [done..| |done]. intros c Hc Hlt. by apply HQ.
  - asset_steps. rewrite <- (set_rt_rt s). by apply HQ.
Qed.

Lemma wp_increase_balance id who amount check (G : AssetDetails -> Prop) s (Q : unit -> AssetsState C -> Prop) (X : DispatchError ME -> _) :
  AssetsInv s -> 0 <= amount < UA ->
  (forall d, credit_ok id who amount d s ->
     wp (check d) (fun d' t => t = s /\ d' = set_supply (d_supply d + amount) d /\ G d) (fun _ t => t = s) s) ->
  (forall t, Moves (at_account id who amount) s t ->
     (amount = 0 \/ exists d, Asset s !! id = Some d /\ G d) -> Q tt t) -> (forall e, X e s) ->
  wp (increase_balance id who amount check) Q X s.
Proof using RO.
  intros Hs Ha Hck HQ HX. unfold increase_balance. destruct (Z.eqb_spec amount 0) as [->|Hne]; asset_steps.
  { apply HQ; [|by left]. eapply Moves_ext; [by apply Moves_refl|]. intros. unfold at_account. by case_decide. }
  apply wp_can_increase; [|done]. intros d Hco. pose proof (Hck d Hco) as Hc. destruct Hco as [Hd Hsup Hmin].
  pose proof (asset_bounds RI s id d who Hs Hd) as Hb. asset_steps; [|by rewrite Hd in *].
  simplify_eq. eapply wp_mono; [exact Hc| |by intros e t ->]. intros d' t (-> & -> & HG). cbv beta. asset_steps; [|apply HX].
  fold (asset_account id who s). apply (wp_credit_account id who amount); [apply (ai_rt _ _ Hs)|simpl; lia|simpl; lia| |done].
  intros c Hrt Hlt. asset_steps. unfold saturating_add. fold (asset_account id who s) in *.
  unfold balance in Hb. rewrite Z.min_l by lia. apply HQ; [|right; by exists d].
  set (a := asset_account id who s) in *. set (t := set_Asset _ _).
  assert (credited_details (set_supply (d_supply d + amount) d) a = set_supply (d_supply d + amount) (credited_details d a))
    as He by (unfold credited_details; by destruct (a_balance a =? 0)).
  split; try done.
  - eapply (AssetsInv_credit id who amount d s t); simpl; try done; try lia.
    + rewrite He in Hlt. done.
    + by rewrite He.
  - intros i w. rewrite (balance_put id who (Some (credited_account d a amount)) s t) by done. unfold at_account.
    case_decide as Hk; [|lia]. simplify_eq. simpl. unfold balance. fold a. lia.
  - eapply roles_insert; [exact Hd|simpl; by rewrite He|..]; unfold credited_details; by destruct (a_balance a =? 0).
Qed.

Lemma wp_raise_supply amount d s (Q : AssetDetails -> AssetsState C -> Prop) (X : DispatchError ME -> _) :
  0 <= amount -> 0 <= d_supply d -> d_supply d + amount < UA ->
  Q (set_supply (d_supply d + amount) d) s -> wp (raise_supply amount d) Q X s.
Proof.
  intros Ha Hd Hs HQ. unfold raise_supply. asset_steps; [lia|lia|]. unfold saturating_add.
  by rewrite Z.min_l by lia.
Qed.

(** The check that the caller holds a role. *)
Definition checks (maybe : option AccountId) who : Prop := forall i, maybe = Some i -> i = who.

Lemma wp_check_role (maybe : option AccountId) who (e : DispatchError ME) s (Q : unit -> AssetsState C -> Prop) X :
  (checks maybe who -> Q tt s) -> X e s ->
  wp (match maybe with Some i => ensure (bool_decide (i = who)) e | None => ret tt end) Q X s.
Proof.
  intros HQ HX. destruct maybe as [i|]; asset_steps.
  - apply HQ. intros ? [= <-]. by case_bool_decide.
  - done.
  - by apply HQ.
Qed.

Lemma wp_do_mint id who amount check s (Q : unit -> AssetsState C -> Prop) (X : DispatchError ME -> _) :
  AssetsInv s -> 0 <= amount < UA ->
  (forall t, Moves (at_account id who amount) s t ->
     (amount = 0 \/ exists d, Asset s !! id = Some d /\ checks check (d_issuer d)) -> Q tt t) ->
  (forall e, X e s) -> wp (do_mint id who amount check) Q X s.
Proof using RO.
  intros Hs Ha HQ HX. unfold do_mint. asset_steps.
  apply (wp_increase_balance id who amount _ (fun d => checks check (d_issuer d))); [done|done| | |done].
  - intros d [Hd Hsup _]. asset_steps. apply wp_check_role; [|done]. intros Hck.
    pose proof (asset_bounds RI s id d who Hs Hd). by apply wp_raise_supply; [lia..|].
  - intros t Ht HG. apply wp_emit; [apply (ai_rt _ _ (mv_inv _ _ _ Ht))|]. intros c Hc. apply HQ; [|done].
    by apply Moves_rt.
Qed.

(* --------------------------------------------------------------------- *)
(** *** Burning *)

(** The account has an entry, which it has unless the debit is best effort. *)
Lemma wp_decrease_balance id who amount f check (G : AssetDetails -> Prop) s
    (Q : Z -> AssetsState C -> Prop) (X : DispatchError ME -> _) :
  AssetsInv s -> 0 <= amount < UA -> df_keep_alive f = false ->
  (df_best_effort f = true -> amount = 0 \/ 0 < balance id who s) ->
  (forall x d, debit_ok id who amount f x d s ->
     wp (check x d) (fun d' t => t = s /\ d' = set_supply (d_supply d - x) d /\ G d) (fun _ t => t = s) s) ->
  (forall x t, Moves (at_account id who (- x)) s t ->
     (amount = 0 /\ x = 0 \/ exists d, debit_ok id who amount f x d s /\ G d) -> Q x t) ->
  (forall e, X e s) -> wp (decrease_balance id who amount f check) Q X s.
Proof using RO.
  intros Hs Ha Hk Hbe Hck HQ HX. unfold decrease_balance. destruct (Z.eqb_spec amount 0) as [->|Hne]; asset_steps.
  { apply HQ; [|by left]. eapply Moves_ext; [by apply Moves_refl|]. intros. unfold at_account. by case_decide. }
  apply wp_prep_debit; [done|lia|congruence| |done]. intros d x Hdo. pose proof (Hck x d Hdo) as Hc.
  pose proof Hdo as [Hd _ Hx Hrest _ Ham _]. pose proof (asset_bounds RI s id d who Hs Hd) as Hb.
  assert (0 < balance id who s) as Hpos.
  { destruct (df_best_effort f); [destruct (Hbe eq_refl); lia|]. destruct (Ham eq_refl). lia. }
  destruct (holder_counted s id d who Hs Hd Hpos) as [Hacc Hsf].
  asset_steps; [|by rewrite Hd in *]. simplify_eq. eapply wp_mono; [exact Hc| |by intros e t ->].
  intros d' t (-> & -> & HG). cbv beta. asset_steps; fold (asset_account id who s); [unfold balance in Hx; lia|].
  set (a := asset_account id who s) in *. change (balance id who s) with (a_balance a) in *.
  replace (a_balance (set_a_balance (saturating_sub (a_balance a) x) a)) with (a_balance a - x)
    by (simpl; unfold saturating_sub; lia).
  assert (forall c o, RI c -> o = debited_account d a x ->
    let t := set_Asset (<[id := set_supply (d_supply d - x) (debited_details d a x)]> (Asset s))
               (set_AccountOf (put_opt (id, who) o (AccountOf s)) (set_rt c s)) in Q x t) as Hend.
  { intros c o Hrt -> t. apply HQ; [|right; by exists d]. split; try done.
    - by eapply (AssetsInv_debit id who x d s t).
    - intros i w. rewrite (balance_put id who (debited_account d a x) s t) by done. unfold at_account.
      case_decide as Hi; [|lia]. simplify_eq. change (balance id who s) with (a_balance a). unfold debited_account.
      destruct (Z.ltb_spec (a_balance a - x) (d_min_balance d)); simpl; lia.
    - eapply roles_insert; [exact Hd|done|..]; unfold debited_details; by case_match. }
  unfold debited_account, debited_details in Hend. simpl. revert Hend.
  destruct (Z.ltb_spec (a_balance a - x) (d_min_balance d)) as [Hlt|Hge]; intros Hend; asset_steps.
  - unfold saturating_sub. simpl. lia.
  - apply wp_dead_account; [apply (ai_rt _ _ Hs)|done|done|]. intros c Hrt. asset_steps.
    by apply (Hend c None).
  - unfold saturating_sub. rewrite Z.max_r by lia. rewrite <- (set_rt_rt s). apply (Hend (rt s)); [apply (ai_rt _ _ Hs)|done].
Qed.

Lemma wp_do_burn id who amount check f s (Q : Z -> AssetsState C -> Prop) (X : DispatchError ME -> _) :
  AssetsInv s -> 0 <= amount < UA -> df_keep_alive f = false ->
  (df_best_effort f = true -> amount = 0 \/ 0 < balance id who s) ->
  (forall x t, Moves (at_account id who (- x)) s t ->
     (amount = 0 /\ x = 0 \/ exists d, debit_ok id who amount f x d s /\ checks check (d_admin d)) -> Q x t) ->
  (forall e, X e s) -> wp (do_burn id who amount check f) Q X s.
Proof using RO.
  intros Hs Ha Hk Hbe HQ HX. unfold do_burn. asset_steps.
  apply (wp_decrease_balance id who amount f _ (fun d => checks check (d_admin d))); [done..| | |done].
  - intros x d Hdo. asset_steps. apply wp_check_role; [|done]. intros Hck.
    destruct Hdo as [Hd _ Hx _ _ _ _]. pose proof (asset_bounds RI s id d who Hs Hd). asset_steps; [lia|].
    unfold saturating_sub. by rewrite Z.max_r by lia.
  - intros x t Ht HG. asset_steps. apply wp_emit; [apply (ai_rt _ _ (mv_inv _ _ _ Ht))|]. intros c Hc.
    asset_steps. apply HQ; [|done]. by apply Moves_rt.
Qed.

(* --------------------------------------------------------------------- *)
(** *** Transfers *)

Lemma wp_prep_credit id dest amount debit s (Q : Z * option Z -> AssetsState C -> Prop) (X : DispatchError ME -> _) :
  (forall d, credit_ok id dest debit d s -> Q (debit, None) s) -> (forall e, X e s) ->
  wp (prep_credit id dest amount debit false) Q X s.
Proof. intros HQ HX. unfold prep_credit. asset_steps. apply wp_can_increase; [|done]. intros d Hd. asset_steps. eauto. Qed.

Lemma wp_credit_dest id dest x d s (Q : AssetDetails -> AssetsState C -> Prop) (X : DispatchError ME -> _) :
  AssetsInv s -> Asset s !! id = Some d -> 0 < x -> d_supply d + x < UA ->
  let a := asset_account id dest s in
  (forall c, RI c -> d_accounts (credited_details d a) < U32 ->
     Q (credited_details d a)
       (set_AccountOf (<[(id, dest) := credited_account d a x]> (AccountOf s)) (set_rt c s))) ->
  (forall e, X e s) -> wp (credit_dest id dest x d) Q X s.
Proof using RO.
  intros Hs Hd Hx Hsup a HQ HX. pose proof (asset_bounds RI s id d dest Hs Hd) as Hb. unfold credit_dest.
  asset_steps; fold (asset_account id dest s); fold a; unfold balance in Hb; fold a in Hb.
  { unfold checked_add. rewrite (proj2 (Z.ltb_lt _ UA)) by lia. done. }
  apply (wp_credit_account id dest x); [apply (ai_rt _ _ Hs)|lia|lia| |done]. fold a. intros c Hc Hlt. asset_steps.
  unfold saturating_add. rewrite Z.min_l by lia. by apply HQ.
Qed.

(** Both sides of a transfer between two accounts. *)
Definition moved id (source dest : AccountId) (x : Z) : AssetId -> AccountId -> Z :=
  fun i w => at_account id dest x i w - at_account id source x i w.

Lemma debited_set_supply d b x y z :
  y = d_supply d -> set_supply y (debited_details (set_supply z d) b x) = debited_details d b x.
Proof. intros ->. unfold debited_details. simpl. by case_match; destruct d. Qed.

Lemma Moves_transfer id source dest x d s t :
  AssetsInv s -> Asset s !! id = Some d -> source <> dest -> 0 < x <= balance id source s ->
  (balance id source s - x = 0 \/ d_min_balance d <= balance id source s - x) -> d_supply d + x < UA ->
  let a := asset_account id dest s in let b := asset_account id source s in
  let d1 := credited_details d a in
  RI (rt t) -> d_accounts d1 < U32 -> Asset t = <[id := debited_details d1 b x]> (Asset s) ->
  AccountOf t = put_opt (id, source) (debited_account d b x)
                  (<[(id, dest) := credited_account d a x]> (AccountOf s)) ->
  Approvals t = Approvals s -> Metadata t = Metadata s -> Moves (moved id source dest x) s t.
Proof.
  intros Hs Hd Hne Hx Hrest Hsup a b d1 Hrt Hacc HA HB HC HM.
  set (d2 := set_supply (d_supply d + x) d1).
  set (s1 := mkAssets (rt t) (<[id := d2]> (Asset s))
               (<[(id, dest) := credited_account d a x]> (AccountOf s)) (Approvals s) (Metadata s)).
  assert (d_min_balance d1 = d_min_balance d /\ d_supply d1 = d_supply d) as [Hmin Hsu].
  { unfold d1, credited_details. by destruct (a_balance a =? 0). }
  assert (AssetsInv s1) as Hs1 by (eapply (AssetsInv_credit id dest x d s s1); try done; lia).
  assert (asset_account id source s1 = b) as Hb.
  { unfold asset_account. simpl. rewrite lookup_insert_ne by congruence. done. }
  assert (balance id source s1 = balance id source s) as Hbal by (unfold balance; by rewrite Hb).
  assert (AssetsInv t) as Ht.
  { eapply (AssetsInv_debit id source x d2 s1 t); rewrite ?Hbal, ?Hb; try done; try lia.
    - simpl. apply lookup_insert_eq.
    - change (d_min_balance d2) with (d_min_balance d1). rewrite Hmin. lia.
    - simpl. rewrite insert_insert_eq, HA. f_equal. unfold d2. rewrite debited_set_supply by (simpl; lia). done.
    - simpl. rewrite HB. unfold debited_account. by change (d_min_balance d2) with (d_min_balance d1); rewrite Hmin. }
  split; try done.
  - intros i w. rewrite (balance_put id source (debited_account d b x) s1 t) by done. unfold moved, at_account.
    rewrite (balance_put id dest (Some (credited_account d a x)) s s1) by done. simpl.
    destruct (decide ((i, w) = (id, source))) as [[= -> ->]|].
    + rewrite decide_False by congruence. unfold debited_account, balance. fold b. unfold balance in *. fold b in Hx, Hrest.
      destruct (Z.ltb_spec (a_balance b - x) (d_min_balance d)); simpl; lia.
    + case_decide as Hk; [|lia]. simplify_eq. unfold balance. fold a. lia.
  - eapply roles_insert; [exact Hd|exact HA|..]; unfold debited_details, d1, credited_details; by repeat case_match.
Qed.

(** The debit, the credit and the check of the admin that a transfer of a
    positive amount went through. *)
Definition transfer_ok id (source dest : AccountId) amount (need : option AccountId) f (x : Z) s : Prop :=
  exists d, debit_ok id source amount (debit_flags f) x d s /\ checks need (d_admin d).

Lemma wp_do_transfer id source dest amount need f s (Q : Z -> AssetsState C -> Prop) (X : DispatchError ME -> _) :
  AssetsInv s -> 0 <= amount < UA -> tf_best_effort f = false -> tf_burn_dust f = false ->
  (forall x t, Moves (moved id source dest x) s t ->
     (amount = 0 /\ x = 0 \/ 0 < amount /\ transfer_ok id source dest amount need f x s) -> Q x t) ->
  (forall e, X e s) -> wp (do_transfer id source dest amount need f) Q X s.
Proof using RO.
  intros Hs Ha Hbe Hbd HQ HX. unfold do_transfer. destruct (Z.eqb_spec amount 0) as [->|Hne]; asset_steps.
  { apply wp_emit; [apply (ai_rt _ _ Hs)|]. intros c Hc. asset_steps. apply HQ; [|by left]. apply Moves_rt; [done|].
    eapply Moves_ext; [by apply Moves_refl|]. intros. unfold moved, at_account. by repeat case_decide. }
  apply wp_prep_debit; [done|lia|by intros _| |done]. intros d x Hdo. asset_steps. rewrite Hbd.
  apply wp_prep_credit; [|done]. intros d' Hco. asset_steps; [|by rewrite (do_asset _ _ _ _ _ _ _ Hdo) in *].
  pose proof Hdo as [Hd _ Hx Hrest _ Ham _]. destruct (Ham Hbe) as [Ham' _]. destruct Hco as [Hd' Hsup _].
  assert (d' = d) as -> by congruence. assert (a = d) as -> by congruence.
  apply wp_check_role; [|done]. intros Hck. pose proof (asset_bounds RI s id d source Hs Hd) as Hb.
  assert (forall t, Moves (moved id source dest x) s t ->
    wp (emit (Transferred id source dest x)) (fun _ => wp (ret x) Q X) X t) as Hend.
  { intros t Ht. apply wp_emit; [apply (ai_rt _ _ (mv_inv _ _ _ Ht))|]. intros c Hc. asset_steps.
    apply HQ; [by apply Moves_rt|]. right. split; [lia|]. by exists d. }
  case_bool_decide as Heq.
  - asset_steps. subst dest. apply Hend. eapply Moves_ext with (delta := fun _ _ => 0); [|intros; unfold moved; lia].
    split; try done; [|intros; unfold balance, asset_account; simpl; lia|].
    + destruct s as [c A B Ap Me]. simpl in *. rewrite insert_id by done. done.
    + intros i. unfold roles. simpl. by rewrite insert_id.
  - destruct (holder_counted s id d source Hs Hd) as [Hacc Hsf]; [lia|].
    asset_steps; [unfold balance in Hx; lia|]. apply wp_credit_dest; [done..|lia|done| |done]. cbv zeta.
    set (a := asset_account id dest s). set (b := asset_account id source s) in *.
    set (d1 := credited_details d a). intros c Hc Hlt.
    assert (d_min_balance d1 = d_min_balance d /\ d_accounts d <= d_accounts d1 /\ d_sufficients d <= d_sufficients d1)
      as (Hmin & Hac1 & Hsu1).
    { unfold d1, credited_details. destruct (a_balance a =? 0); simpl; [|lia]. destruct (d_is_sufficient d); lia. }
    change (balance id source s) with (a_balance b) in *.
    unfold saturating_sub. rewrite Z.max_r by lia. simpl. rewrite Hmin.
    pose proof (fun t => Moves_transfer id source dest x d s t Hs Hd Heq) as Hmv. cbv zeta in Hmv. fold a b in Hmv. fold d1 in Hmv.
    change (balance id source s) with (a_balance b) in Hmv.
    unfold debited_account, debited_details in Hmv. rewrite Hmin in Hmv.
    destruct (Z.ltb_spec (a_balance b - x) (d_min_balance d)) as [Hl|Hg]; asset_steps; [lia| |].
    + apply wp_dead_account; [done|lia|intros Hsb; specialize (Hsf Hsb); lia|]. intros c' Hc'. asset_steps.
      apply Hend, Hmv; try done; lia.
    + apply Hend, Hmv; try done; lia.
Qed.
End Operations.
