(* ===== verification/AssetsCalls.v ===== *)
(** * pallet_assets: the dispatchables

    Every call keeps the invariant and never panics, and what each of them may
    take from an account. *)

From S2P Require Import Prelude System Assets AssetsFacts.

Set Default Proof Using "Type".

(* ===================================================================== *)
(** ** Destroying an asset *)
Section Destroy.
Context {P : Profile} {C ME : Type} {RT : AssetsRuntime C ME} {CO : AssetsConstants} {SO : StorageOrder}.
Context (RI : C -> Prop) {RO : AssetsRuntimeOk RI} {CK : AssetsConstantsOk}.
Local Abbreviation MA := (M (AssetsState C) (DispatchError ME)).
Local Abbreviation AssetsInv := (AssetsInv RI).
Implicit Types (id : AssetId) (who : AccountId) (amount : Z) (s t : AssetsState C) (d : AssetDetails).

Lemma elem_of_accounts_of id who v s : (who, v) ∈ accounts_of id s <-> AccountOf s !! (id, who) = Some v.
Proof.
  unfold accounts_of. rewrite storage_order_perm, list_elem_of_omap. split.
  - intros ([[i w] x] & Hin & He). apply elem_of_map_to_list in Hin. case_decide; by simplify_eq.
  - intros Hv. exists ((id, who), v). rewrite elem_of_map_to_list. split; [done|]. by rewrite decide_True.
Qed.

(** The names in a list of entries with different keys, once one component of
    the key is fixed. *)
Lemma NoDup_omap_fst {A B X} (g : A -> option (B * X)) (l : list A) :
  NoDup l ->
  (forall x y b u v, x ∈ l -> y ∈ l -> g x = Some (b, u) -> g y = Some (b, v) -> x = y) ->
  NoDup (omap g l).*1.
Proof.
  induction 1 as [|x l Hx Hl IH]; intros Hg; simpl; [constructor|].
  assert (NoDup (omap g l).*1) as IH'.
  { apply IH. intros y z b u v Hy Hz. apply Hg; by right. }
  destruct (g x) as [[b u]|] eqn:Hgx; [|done]. simpl. apply NoDup_cons. split; [|done].
  intros ([b' v] & He & Hin)%list_elem_of_fmap. simpl in He. subst b'.
  apply list_elem_of_omap in Hin as (y & Hy & Hgy).
  assert (x = y) as -> by (eapply Hg; [by left|by right|done|done]). done.
Qed.

Lemma NoDup_accounts_of id s : NoDup (accounts_of id s).*1.
Proof.
  unfold accounts_of. rewrite storage_order_perm. apply NoDup_omap_fst; [apply NoDup_map_to_list|].
  intros [[i w] x] [[j z] y] b u v Hx Hy. apply elem_of_map_to_list in Hx, Hy. repeat case_decide; try done.
  intros; simplify_eq. done.
Qed.

(** The accounts that are left. *)
Definition without id (l : list AccountId) (m : gmap (AssetId * AccountId) AssetBalance) :=
  foldl (fun m who => delete (id, who) m) m l.

Lemma lookup_without id l m k :
  without id l m !! k = if decide (k.1 = id /\ k.2 ∈ l) then None else m !! k.
Proof using CO CK.
  unfold without. revert m. induction l as [|w l IH]; intros m; simpl.
  - rewrite decide_False; [done|]. intros [_ Hk]. set_solver.
  - rewrite IH. destruct k as [i z]. simpl. destruct (decide (i = id /\ z ∈ l)) as [Hin|Hn].
    + rewrite decide_True; [done|]. set_solver.
    + destruct (decide ((i, z) = (id, w))) as [[= -> ->]|Hne].
      * rewrite lookup_delete_eq, decide_True; [done|]. set_solver.
      * rewrite lookup_delete_ne by done. rewrite decide_False; [done|].
        intros [-> [->|Hz]%elem_of_cons]; [done|]. by apply Hn.
Qed.

Lemma wp_drain_accounts id l d s (Q : AssetDetails -> AssetsState C -> Prop) X :
  RI (rt s) -> NoDup l.*1 -> (forall who v, (who, v) ∈ l -> AccountOf s !! (id, who) = Some v) ->
  d_accounts d = weigh one id (AccountOf s) -> d_sufficients d = weigh suff id (AccountOf s) ->
  (forall c, let m := without id l.*1 (AccountOf s) in
     RI c -> Q (set_counts (weigh one id m) (weigh suff id m) d) (set_AccountOf m (set_rt c s))) ->
  wp (drain_accounts id l d) Q X s.
Proof using RO.
  revert d s. induction l as [|[w v] l IH]; intros d s Hs Hnd Hl Ha Hsf HQ; simpl; asset_steps.
  - specialize (HQ (rt s) Hs). simpl in HQ. rewrite <- Ha, <- Hsf in HQ. destruct d, s. exact HQ.
  - apply NoDup_cons in Hnd as [Hw Hnd]. pose proof (Hl w v ltac:(by left)) as Hv.
    set (m' := delete (id, w) (AccountOf s)).
    assert (forall f, weigh f id m' = weigh f id (AccountOf s) - f v) as Hm.
    { intros f. change m' with (put_opt (id, w) None (AccountOf s)). rewrite weigh_put, Hv. simpl. lia. }
    assert (0 <= weigh suff id m' <= weigh one id m') as Hbd by apply suff_le.
    apply (wp_dead_account RI); [done| | |].
    + rewrite Ha. specialize (Hm one). unfold one in *. lia.
    + intros Hb. rewrite Hsf. specialize (Hm suff). unfold suff at 3 in Hm. rewrite Hb in Hm. lia.
    + intros c Hc. apply IH; [done|done| |..].
      * intros w' v' Hin. simpl. unfold m'. rewrite lookup_delete_ne; [apply Hl; by right|].
        intros [= <-]. apply Hw. apply list_elem_of_fmap. by exists (w, v').
      * simpl. specialize (Hm one). unfold one in *. lia.
      * simpl. specialize (Hm suff). unfold suff at 3 in Hm. destruct (a_sufficient v); lia.
      * intros c' m Hc'. exact (HQ c' Hc').
Qed.

Lemma elem_of_approvals_of id o z a s :
  (o, z, a) ∈ approvals_of id s <-> Approvals s !! (id, o, z) = Some a.
Proof.
  unfold approvals_of. rewrite storage_order_perm, list_elem_of_omap. split.
  - intros ([[[i o'] z'] x] & Hin & He). apply elem_of_map_to_list in Hin. case_decide; by simplify_eq.
  - intros Hv. exists ((id, o, z), a). rewrite elem_of_map_to_list. split; [done|]. by rewrite decide_True.
Qed.

(** What holds while the approvals of [rest] are still to be removed. *)
Record draining id (rest : list (AccountId * AccountId * Approval)) s t : Prop := {
  dr_rt : RI (rt t);
  dr_same : Asset t = Asset s /\ AccountOf t = AccountOf s /\ Metadata t = Metadata s;
  dr_sub : forall k a, Approvals t !! k = Some a -> Approvals s !! k = Some a;
  dr_left : forall o z a, Approvals t !! (id, o, z) = Some a -> (o, z, a) ∈ rest;
  dr_other : forall i o z, i <> id -> Approvals t !! (i, o, z) = Approvals s !! (i, o, z);
  dr_range : forall o z a, (o, z, a) ∈ rest -> 0 <= ap_deposit a < U128
}.

Lemma wp_drain_approvals id s (Q : unit -> AssetsState C -> Prop) X :
  RI (rt s) -> (forall k a, Approvals s !! k = Some a -> 0 <= ap_deposit a <= ApprovalDeposit) ->
  (forall t, draining id [] s t -> Q tt t) ->
  wp (drain_approvals id (approvals_of id s)) Q X s.
Proof using RO CK.
  intros Hs Hr HQ. unfold drain_approvals.
  pose proof deposits_nonneg as Hdep.
  eapply wp_mono; [apply (wp_for_each (fun rest t => draining id rest s t) _ _ X)| |done]; [| |intros []; exact HQ].
  - split; try done; intros o z a; rewrite elem_of_approvals_of; [done|].
    intros Ha. specialize (Hr _ _ Ha). lia.
  - intros [[o z] a] rest t [D1 (D2 & D3 & D4) D5 D6 D7 D8]. asset_steps.
    apply (wp_call_total RI); [apply ok_unreserve; [done|apply (D8 o z); by left]|].
    intros _ c Hc. asset_steps. split; try done; simpl.
    + intros k x [_ Hk]%lookup_delete_Some. by apply D5.
    + intros o' z' x [Hne Hk]%lookup_delete_Some. apply D6 in Hk. apply elem_of_cons in Hk as [[= -> -> ->]|]; done.
    + intros i o' z' Hi. rewrite lookup_delete_ne by congruence. by apply D7.
    + intros o' z' x Hin. apply (D8 o' z'). by right.
Qed.

(** Nothing of the asset is left, and nothing else changed. *)
Record destroyed id s t : Prop := {
  ds_inv : AssetsInv t;
  ds_asset : Asset t = delete id (Asset s);
  ds_account : forall i w, AccountOf t !! (i, w) = if decide (i = id) then None else AccountOf s !! (i, w);
  ds_approval : forall i o z, Approvals t !! (i, o, z) = if decide (i = id) then None else Approvals s !! (i, o, z);
  ds_metadata : Metadata t = delete id (Metadata s)
}.

Lemma weigh_agree (f : AssetBalance -> Z) (i : AssetId) (m m' : gmap (AssetId * AccountId) AssetBalance) :
  (forall w, m' !! (i, w) = m !! (i, w)) -> weigh f i m' = weigh f i m.
Proof.
  revert m'. induction m as [|[j w] v m Hk IH] using map_ind; intros m' He.
  - rewrite !weigh_none; [done|intros; apply lookup_empty|]. intros w. rewrite He. apply lookup_empty.
  - change (<[(j, w) := v]> m) with (put_opt (j, w) (Some v) m) in *.
    destruct (decide (j = i)) as [->|Hne].
    + rewrite weigh_put, Hk. simpl. rewrite <- (IH (delete (i, w) m')).
      * change (delete (i, w) m') with (put_opt (i, w) None m'). rewrite weigh_put, He, lookup_put_opt, decide_True by done.
        simpl. lia.
      * intros w'. rewrite lookup_delete. case_decide as Hw; [simplify_eq; done|].
        rewrite He, lookup_put_opt, decide_False by congruence. done.
    + rewrite weigh_put_ne by done. apply IH. intros w'. rewrite He, lookup_put_opt, decide_False by congruence. done.
Qed.

Lemma AssetsInv_destroyed id s t :
  AssetsInv s -> RI (rt t) -> Asset t = delete id (Asset s) ->
  (forall i w, AccountOf t !! (i, w) = if decide (i = id) then None else AccountOf s !! (i, w)) ->
  (forall k a, Approvals t !! k = Some a -> Approvals s !! k = Some a) -> Metadata t = delete id (Metadata s) ->
  AssetsInv t.
Proof.
  intros Hs Hrt HA HB HC HM. split; [done|..].
  - intros i d. rewrite HA. intros [Hne Hd]%lookup_delete_Some.
    destruct (ai_asset _ _ Hs i d Hd). assert (forall f, weigh f i (AccountOf t) = weigh f i (AccountOf s)) as Hw.
    { intros f. apply weigh_agree. intros w. rewrite HB. by rewrite decide_False. }
    by split; rewrite ?Hw.
  - intros i w a. rewrite HB. case_decide; [done|]. intros Ha.
    pose proof (ai_account _ _ Hs _ _ _ Ha) as [Hp Hi]. split; [done|]. by rewrite HA, lookup_delete_ne.
  - intros i d. rewrite HA. intros [_ Hd]%lookup_delete_Some. by eapply (ai_deposit _ _ Hs).
  - intros i m. rewrite HM. intros [_ Hm]%lookup_delete_Some. by eapply (ai_metadata _ _ Hs).
  - intros k a Ha. by eapply (ai_approval _ _ Hs), HC.
Qed.

Lemma max_metadata_nonneg : 0 <= max_metadata.
Proof using CK.
  pose proof StringLimit_nonneg. pose proof deposits_nonneg as (_ & _ & ? & ?). unfold max_metadata. nia.
Qed.

Lemma metadata_deposit_range s id :
  AssetsInv s -> 0 <= m_deposit (default default_value (Metadata s !! id)) <= max_metadata.
Proof using CK.
  intros Hs. pose proof max_metadata_nonneg. destruct (Metadata s !! id) as [m|] eqn:Hm; simpl; [|done].
  by apply (ai_metadata _ _ Hs id).
Qed.

Lemma wp_do_destroy id w check s (Q : DestroyWitness -> AssetsState C -> Prop) (X : DispatchError ME -> _) :
  AssetsInv s ->
  (forall t d, Asset s !! id = Some d -> checks check (d_owner d) -> destroyed id s t ->
     Q (mkWitness 0 0 (d_approvals d)) t) ->
  (forall e, X e s) -> wp (do_destroy id w check) Q X s.
Proof using RO CK.
  intros Hs HQ HX. unfold do_destroy. asset_steps; [|apply HX]. rename a into d, H into Hd.
  destruct (ai_asset _ _ Hs id d Hd). pose proof (metadata_deposit_range s id Hs) as Hmd.
  pose proof (ai_deposit _ _ Hs id d Hd). pose proof deposits_fit as Hfit. fold max_metadata in Hfit.
  set (m := without id (accounts_of id s).*1 (AccountOf s)).
  assert (forall i z, m !! (i, z) = if decide (i = id) then None else AccountOf s !! (i, z)) as Hm.
  { intros i z. unfold m. rewrite lookup_without. simpl. destruct (decide (i = id)) as [->|Hne].
    - case_decide as Hz; [done|]. destruct (AccountOf s !! (id, z)) as [v|] eqn:Hv; [|done].
      exfalso. apply Hz. split; [done|]. apply list_elem_of_fmap. exists (z, v). by rewrite elem_of_accounts_of.
    - by rewrite decide_False by naive_solver. }
  assert (forall f, weigh f id m = 0) as Hz.
  { intros f. apply weigh_none. intros z. by rewrite Hm, decide_True. }
  assert (wp (match check with Some o => ensure (bool_decide (d_owner d = o)) (err NoPermission) | None => ret tt end)
    (fun _ t => t = s /\ checks check (d_owner d)) (fun _ t => t = s) s) as Hck.
  { destruct check as [o|]; asset_steps; [|done|by split]. split; [done|]. intros ? [= <-]. by case_bool_decide. }
  eapply wp_mono; [exact Hck| |by intros e t ->]. intros _ t [-> Hch]. asset_steps; try apply HX.
  apply wp_drain_accounts; [apply (ai_rt _ _ Hs)|apply NoDup_accounts_of| |done|done|].
  { intros z v. by rewrite elem_of_accounts_of. }
  intros c. fold m. cbv zeta. rewrite !Hz. intros Hc. asset_steps; [done|done|].
  apply (wp_call_total RI); [apply ok_unreserve; [done|unfold saturating_add; simpl; lia]|].
  intros _ c2 Hc2. asset_steps. apply wp_drain_approvals; [done| |].
  { intros k a Ha. by apply (ai_approval _ _ Hs k). }
  intros t [D1 (D2 & D3 & D4) D5 D6 D7 _]. asset_steps. apply (wp_emit RI); [done|]. intros c3 Hc3. asset_steps.
  apply (HQ _ d); [done|done|]. simpl in *. split; simpl; rewrite ?D2, ?D3, ?D4; try done.
  - eapply (AssetsInv_destroyed id s); simpl; rewrite ?D2, ?D3, ?D4; done.
  - intros i o z. case_decide as Hi; [subst i|by apply D7].
    destruct (Approvals t !! (id, o, z)) as [a|] eqn:Ha; [|done]. apply D6 in Ha. by apply not_elem_of_nil in Ha.
Qed.
End Destroy.

(* ===================================================================== *)
(** ** Calls that move no balance *)
Section Quiet.
Context {P : Profile} {C ME : Type} {RT : AssetsRuntime C ME} {CO : AssetsConstants} {SO : StorageOrder}.
Context (RI : C -> Prop) {RO : AssetsRuntimeOk RI} {CK : AssetsConstantsOk}.
Context {Source : Type} (lookup : Source -> option AccountId).
Local Abbreviation MA := (M (AssetsState C) (DispatchError ME)).
Local Abbreviation AssetsInv := (AssetsInv RI).
Implicit Types (id : AssetId) (who : AccountId) (amount : Z) (s t : AssetsState C) (d : AssetDetails).

(** The invariant holds and no balance changed. *)
Definition Same s t : Prop := AssetsInv t /\ forall i w, balance i w t = balance i w s.

Lemma Same_refl s : AssetsInv s -> Same s s.
Proof. done. Qed.

Lemma Same_rt s t c : RI c -> Same s t -> Same s (set_rt c t).
Proof. intros Hc [Ht Hb]. split; [by apply AssetsInv_rt|done]. Qed.

(** The details of an asset change in fields the tallies do not see. *)
Lemma Same_details id d d' s t :
  AssetsInv s -> RI (rt t) -> Asset s !! id = Some d -> Asset t = <[id := d']> (Asset s) ->
  AccountOf t = AccountOf s -> Metadata t = Metadata s ->
  (forall k a, Approvals t !! k = Some a -> 0 <= ap_amount a < UA /\ 0 <= ap_deposit a <= ApprovalDeposit) ->
  d_supply d' = d_supply d -> d_accounts d' = d_accounts d -> d_sufficients d' = d_sufficients d ->
  d_deposit d' = d_deposit d -> 0 < d_min_balance d' < UA -> Same s t.
Proof.
  intros Hs Hrt Hd HA HB HM HC E1 E2 E3 E4 Hm. split.
  - split; [done|..].
    + intros i x. rewrite HA, HB. intros [[<- <-]|[Hne Hx]]%lookup_insert_Some; [|by apply (ai_asset _ _ Hs)].
      destruct (ai_asset _ _ Hs id d Hd). by split; rewrite ?E1, ?E2, ?E3.
    + intros i w a. rewrite HA, HB. intros Ha. pose proof (ai_account _ _ Hs _ _ _ Ha) as [Hp Hi]. split; [done|].
      destruct (decide (i = id)) as [->|]; [rewrite lookup_insert_eq; by eexists|by rewrite lookup_insert_ne].
    + intros i x. rewrite HA. intros [[<- <-]|[Hne Hx]]%lookup_insert_Some; [rewrite E4|]; by eapply (ai_deposit _ _ Hs).
    + rewrite HM. apply (ai_metadata _ _ Hs).
    + done.
  - intros i w. unfold balance, asset_account. by rewrite HB.
Qed.

(** A new asset has no accounts. *)
Lemma Same_fresh id o a dep m sf s t :
  AssetsInv s -> RI (rt t) -> Asset s !! id = None -> 0 <= dep <= AssetDeposit -> 0 < m < UA ->
  Asset t = <[id := fresh_details o a dep m sf]> (Asset s) ->
  AccountOf t = AccountOf s -> Metadata t = Metadata s -> Approvals t = Approvals s -> Same s t.
Proof.
  intros Hs Hrt Hd Hdep Hm HA HB HM HC. split; [|intros i w; unfold balance, asset_account; by rewrite HB].
  assert (forall f, weigh f id (AccountOf s) = 0) as Hz.
  { intros f. apply weigh_none. intros w. destruct (AccountOf s !! (id, w)) as [x|] eqn:Hx; [|done].
    pose proof (ai_account _ _ Hs _ _ _ Hx) as [_ Hi]. rewrite Hd in Hi. by destruct Hi. }
  split; [done|..].
  - intros i x. rewrite HA, HB. intros [[<- <-]|[Hne Hx]]%lookup_insert_Some; [|by apply (ai_asset _ _ Hs)].
    split; rewrite ?Hz; done.
  - intros i w x. rewrite HA, HB. intros Hx. pose proof (ai_account _ _ Hs _ _ _ Hx) as [Hp Hi]. split; [done|].
    destruct (decide (i = id)) as [->|]; [rewrite lookup_insert_eq; by eexists|by rewrite lookup_insert_ne].
  - intros i x. rewrite HA. intros [[<- <-]|[Hne Hx]]%lookup_insert_Some; [done|by eapply (ai_deposit _ _ Hs)].
  - rewrite HM. apply (ai_metadata _ _ Hs).
  - rewrite HC. apply (ai_approval _ _ Hs).
Qed.

Lemma Same_metadata id o s t :
  AssetsInv s -> RI (rt t) -> Asset t = Asset s -> AccountOf t = AccountOf s -> Approvals t = Approvals s ->
  Metadata t = put_opt id o (Metadata s) -> (forall m, o = Some m -> 0 <= m_deposit m <= max_metadata) -> Same s t.
Proof.
  intros Hs Hrt HA HB HC HM Ho. split; [|intros i w; unfold balance, asset_account; by rewrite HB].
  destruct Hs as [S1 S2 S3 S4 S5 S6]. split; [done|..].
  - by rewrite HA, HB.
  - rewrite HA, HB. exact S3.
  - by rewrite HA.
  - intros i m. rewrite HM, lookup_put_opt. case_decide; [apply Ho|apply S5].
  - by rewrite HC.
Qed.

Lemma Same_frozen id who x s :
  AssetsInv s -> is_Some (AccountOf s !! (id, who)) ->
  Same s (set_AccountOf (<[(id, who) := set_a_frozen x (asset_account id who s)]> (AccountOf s)) s).
Proof.
  intros Hs [a Ha]. pose proof (ai_account _ _ Hs _ _ _ Ha) as [Hp [d Hd]].
  assert (asset_account id who s = a) as He by (unfold asset_account; by rewrite Ha). rewrite He.
  set (t := set_AccountOf _ _).
  destruct (ai_asset _ _ Hs id d Hd). split.
  - eapply (AssetsInv_write RI id d d who (Some (set_a_frozen x a)) s t); try done; try apply (ai_rt _ _ Hs).
    + simpl. by rewrite insert_id.
    + intros ? [= <-]. done.
    + rewrite Ha. simpl. lia.
    + rewrite Ha. unfold one. simpl. lia.
    + rewrite Ha. unfold suff. unfold one. simpl. lia.
    + by apply (ai_deposit _ _ Hs id).
  - intros i w. rewrite (balance_put id who (Some (set_a_frozen x a)) s t) by done. case_decide; [|done].
    simplify_eq. simpl. unfold balance, asset_account. by rewrite Ha.
Qed.

Hint Resolve Same_refl : core.

Lemma wp_ensure_signed_same o s (Q : AccountId -> AssetsState C -> Prop) (X : DispatchError ME -> _) :
  (forall w, o = Signed w -> Q w s) -> (forall e, X e s) -> wp (ensure_signed o) Q X s.
Proof. intros HQ HX. destruct o; simpl; asset_steps; auto. Qed.

Lemma wp_ensure_root_same o s (Q : unit -> AssetsState C -> Prop) (X : DispatchError ME -> _) :
  (o = Root -> Q tt s) -> (forall e, X e s) -> wp (ensure_root o) Q X s.
Proof. intros HQ HX. destruct o; simpl; asset_steps; auto. Qed.

Lemma create_same o id admin m s :
  AssetsInv s -> 0 <= m < UA ->
  wp (create lookup o id admin m) (fun _ => Same s) (fun _ => Same s) s.
Proof using RO CK.
  intros Hs Hm. pose proof deposits_nonneg as Hdep. pose proof max_metadata_nonneg as Hmm.
  pose proof deposits_fit as Hfit. fold max_metadata in Hfit. unfold create. asset_steps.
  apply wp_ensure_signed_same; [intros w _|auto]. asset_steps; auto. apply negb_true_iff in H0, H1.
  eapply (wp_call RI); [apply ok_reserve; [apply (ai_rt _ _ Hs)|lia]| |]; cbv beta.
  - intros _ c Hc. asset_steps. apply (wp_emit RI); [done|]. intros c2 Hc2.
    eapply Same_fresh with (id := id); simpl; try done; [|lia..]. by apply bool_decide_eq_false, eq_None_not_Some in H0.
  - intros e c ->. rewrite set_rt_rt. auto.
Qed.

Lemma force_create_same o id owner sf m s :
  AssetsInv s -> 0 <= m < UA ->
  wp (force_create lookup o id owner sf m) (fun _ => Same s) (fun _ => Same s) s.
Proof using RO CK.
  intros Hs Hm. pose proof deposits_nonneg as Hdep. unfold force_create, do_force_create. asset_steps.
  apply wp_ensure_root_same; [intros _|auto]. asset_steps; auto. apply negb_true_iff in H0, H1.
  apply (wp_emit RI); [apply (ai_rt _ _ Hs)|]. intros c2 Hc2.
  eapply Same_fresh with (id := id); simpl; try done; [|lia..]. by apply bool_decide_eq_false, eq_None_not_Some in H0.
Qed.

Lemma freeze_same o id x s :
  AssetsInv s -> wp (freeze lookup o id x) (fun _ => Same s) (fun _ => Same s) s.
Proof using RO.
  intros Hs. unfold freeze, mutate_frozen. asset_steps. apply wp_ensure_signed_same; [intros w _|auto].
  asset_steps; auto. apply (wp_emit RI); [apply (ai_rt _ _ Hs)|]. intros c Hc. apply Same_rt; [done|].
  apply Same_frozen; [done|]. by apply bool_decide_eq_true in H2.
Qed.

Lemma thaw_same o id x s :
  AssetsInv s -> wp (thaw lookup o id x) (fun _ => Same s) (fun _ => Same s) s.
Proof using RO.
  intros Hs. unfold thaw, mutate_frozen. asset_steps. apply wp_ensure_signed_same; [intros w _|auto].
  asset_steps; auto. apply (wp_emit RI); [apply (ai_rt _ _ Hs)|]. intros c Hc. apply Same_rt; [done|].
  apply Same_frozen; [done|]. by apply bool_decide_eq_true in H2.
Qed.

(** The calls that change only the roles or the flag of an asset. *)
Lemma Same_roles id d d' s t c :
  t = set_Asset (<[id := d']> (Asset s)) (set_rt c s) -> AssetsInv s -> RI c -> Asset s !! id = Some d ->
  d_supply d' = d_supply d -> d_accounts d' = d_accounts d -> d_sufficients d' = d_sufficients d ->
  d_deposit d' = d_deposit d -> 0 < d_min_balance d' < UA -> Same s t.
Proof. intros -> Hs Hc Hd ?????. eapply Same_details; try done. apply (ai_approval _ _ Hs). Qed.

Lemma freeze_asset_same o id s :
  AssetsInv s -> wp (freeze_asset o id) (fun _ => Same s) (fun _ => Same s) s.
Proof using RO.
  intros Hs. unfold freeze_asset. asset_steps. apply wp_ensure_signed_same; [intros w _|auto].
  asset_steps; auto. apply (wp_emit RI); [apply (ai_rt _ _ Hs)|]. intros c Hc. asset_steps.
  destruct (ai_asset _ _ Hs id a H). by eapply (Same_roles id a).
Qed.

Lemma thaw_asset_same o id s :
  AssetsInv s -> wp (thaw_asset o id) (fun _ => Same s) (fun _ => Same s) s.
Proof using RO.
  intros Hs. unfold thaw_asset. asset_steps. apply wp_ensure_signed_same; [intros w _|auto].
  asset_steps; auto. apply (wp_emit RI); [apply (ai_rt _ _ Hs)|]. intros c Hc. asset_steps.
  destruct (ai_asset _ _ Hs id a H). by eapply (Same_roles id a).
Qed.

Lemma set_team_same o id i ad f s :
  AssetsInv s -> wp (set_team lookup o id i ad f) (fun _ => Same s) (fun _ => Same s) s.
Proof using RO.
  intros Hs. unfold set_team. asset_steps. apply wp_ensure_signed_same; [intros w _|auto].
  asset_steps; auto. apply (wp_emit RI); [apply (ai_rt _ _ Hs)|]. intros c Hc. asset_steps.
  destruct (ai_asset _ _ Hs id a2 H2). by eapply (Same_roles id a2).
Qed.

Lemma force_asset_status_same o id ow i ad f m sf fr s :
  AssetsInv s -> 0 < m < UA ->
  wp (force_asset_status lookup o id ow i ad f m sf fr) (fun _ => Same s) (fun _ => Same s) s.
Proof using RO.
  intros Hs Hm. unfold force_asset_status. asset_steps. apply wp_ensure_root_same; [intros _|auto].
  asset_steps; auto. apply (wp_emit RI); [apply (ai_rt _ _ Hs)|]. intros c Hc. asset_steps.
  by eapply (Same_roles id a).
Qed.

Lemma transfer_ownership_same o id owner s :
  AssetsInv s -> (forall d, Asset s !! id = Some d -> can_repatriate (d_owner d) (rt s)) ->
  wp (transfer_ownership lookup o id owner) (fun _ => Same s) (fun _ => Same s) s.
Proof using CK.
  intros Hs Hr. unfold transfer_ownership. asset_steps. apply wp_ensure_signed_same; [intros w _|auto].
  asset_steps; auto. rename a0 into d, H0 into Hd. destruct (ai_asset _ _ Hs id d Hd).
  pose proof (metadata_deposit_range RI s id Hs) as Hmd. pose proof (ai_deposit _ _ Hs id d Hd).
  pose proof deposits_fit as Hfit. fold max_metadata in Hfit. destruct (bool_decide (d_owner d = a)); asset_steps; [|lia|].
  - eapply (Same_roles id d); [|done|apply (ai_rt _ _ Hs)|done..]. by rewrite set_rt_rt.
  - eapply (wp_call RI); [apply ok_repatriate; [apply (ai_rt _ _ Hs)|lia|by apply Hr]| |]; cbv beta.
    + intros _ c Hc. asset_steps. apply (wp_emit RI); [done|]. intros c2 Hc2. asset_steps. by eapply (Same_roles id d).
    + intros e c Hc. by apply Same_rt, Same_refl.
Qed.

(* --------------------------------------------------------------------- *)
(** *** Metadata *)

(** The deposit for a name and a symbol within the limit. *)
Lemma metadata_deposit_ok (name symbol : bytes) :
  Z.of_nat (length name) <= StringLimit -> Z.of_nat (length symbol) <= StringLimit ->
  0 <= saturating_add U128
         (saturating_mul U128 MetadataDepositPerByte (cast U32 (Z.of_nat (length name + length symbol))))
         MetadataDepositBase <= max_metadata.
Proof using CK.
  intros Hn Hs. pose proof deposits_nonneg as (_ & _ & Hb & Hp). pose proof StringLimit_nonneg.
  unfold saturating_add, saturating_mul, cast, max_metadata.
  set (n := Z.of_nat (length name + length symbol)).
  assert (0 <= n <= 2 * StringLimit) as Hr by lia.
  assert (0 <= n mod U32 <= n) as Hc.
  { split; [apply Z.mod_pos_bound; done|apply Z.mod_le; [lia|done]]. }
  assert (0 <= MetadataDepositPerByte * (n mod U32) <= MetadataDepositPerByte * (2 * StringLimit)) by nia.
  assert (0 < U128) by done. lia.
Qed.

Lemma set_metadata_same o id name symbol dec s :
  AssetsInv s -> wp (set_metadata o id name symbol dec) (fun _ => Same s) (fun _ => Same s) s.
Proof using RO CK.
  intros Hs. unfold set_metadata. asset_steps. apply wp_ensure_signed_same; [intros w _|auto]. asset_steps; auto.
  pose proof (metadata_deposit_ok name symbol ltac:(lia) ltac:(lia)) as Hnew.
  set (new := saturating_add _ _ _) in *. pose proof deposits_fit as Hfit. fold max_metadata in Hfit.
  pose proof deposits_nonneg as Hdep.
  assert (0 <= match Metadata s !! id with Some m => m_deposit m | None => 0 end <= max_metadata) as Hold.
  { destruct (Metadata s !! id) as [m|] eqn:Hm; [by apply (ai_metadata _ _ Hs id)|]. pose proof max_metadata_nonneg. lia. }
  set (old := match Metadata s !! id with Some m => m_deposit m | None => 0 end) in *.
  assert (forall c, RI c -> let t := set_rt c s in
    Same s (set_Metadata (put_opt id (Some (mkMetadata new name symbol dec false)) (Metadata t)) t)) as Hend.
  { intros c Hc. eapply (Same_metadata id (Some _)); try done. by intros m [= <-]. }
  destruct (old <? new) eqn:Hlt; asset_steps; try lia.
  - eapply (wp_call RI); [apply ok_reserve; [apply (ai_rt _ _ Hs)|lia]| |]; cbv beta.
    + intros _ c Hc. asset_steps. apply (wp_emit RI); [done|]. intros c2 Hc2. asset_steps. by apply Hend.
    + intros e c ->. rewrite set_rt_rt. auto.
  - apply (wp_call_total RI); [apply ok_unreserve; [apply (ai_rt _ _ Hs)|lia]|]. intros _ c Hc. asset_steps.
    apply (wp_emit RI); [done|]. intros c2 Hc2. asset_steps. by apply Hend.
Qed.

Lemma clear_metadata_same o id s :
  AssetsInv s -> wp (clear_metadata o id) (fun _ => Same s) (fun _ => Same s) s.
Proof using RO CK.
  intros Hs. unfold clear_metadata. asset_steps. apply wp_ensure_signed_same; [intros w _|auto]. asset_steps; auto.
  pose proof (ai_metadata _ _ Hs _ _ H1) as Hm. pose proof deposits_fit as Hfit. fold max_metadata in Hfit.
  pose proof deposits_nonneg as Hdep.
  apply (wp_call_total RI); [apply ok_unreserve; [apply (ai_rt _ _ Hs)|lia]|]. intros _ c Hc. asset_steps.
  apply (wp_emit RI); [done|]. intros c2 Hc2. asset_steps. by eapply (Same_metadata id None).
Qed.

Lemma force_clear_metadata_same o id s :
  AssetsInv s -> wp (force_clear_metadata o id) (fun _ => Same s) (fun _ => Same s) s.
Proof using RO CK.
  intros Hs. unfold force_clear_metadata. asset_steps. apply wp_ensure_root_same; [intros _|auto]. asset_steps; auto.
  pose proof (ai_metadata _ _ Hs _ _ H0) as Hm. pose proof deposits_fit as Hfit. fold max_metadata in Hfit.
  pose proof deposits_nonneg as Hdep.
  apply (wp_call_total RI); [apply ok_unreserve; [apply (ai_rt _ _ Hs)|lia]|]. intros _ c Hc. asset_steps.
  apply (wp_emit RI); [done|]. intros c2 Hc2. asset_steps. by eapply (Same_metadata id None).
Qed.

Lemma force_set_metadata_same o id name symbol dec fr s :
  AssetsInv s -> wp (force_set_metadata o id name symbol dec fr) (fun _ => Same s) (fun _ => Same s) s.
Proof using RO CK.
  intros Hs. unfold force_set_metadata. asset_steps. apply wp_ensure_root_same; [intros _|auto]. asset_steps; auto.
  apply (wp_emit RI); [apply (ai_rt _ _ Hs)|]. intros c Hc. asset_steps.
  eapply (Same_metadata id (Some _)); try done. intros m [= <-]. simpl.
  destruct (Metadata s !! id) as [m|] eqn:Hm; [by apply (ai_metadata _ _ Hs id)|]. pose proof max_metadata_nonneg. lia.
Qed.

(* --------------------------------------------------------------------- *)
(** *** Approvals *)

(** The approvals of an asset and their counter change. *)
Lemma Same_approval id k oa x s t :
  AssetsInv s -> RI (rt t) ->
  (exists d, Asset s !! id = Some d /\ Asset t = <[id := set_approvals x d]> (Asset s)) ->
  AccountOf t = AccountOf s -> Metadata t = Metadata s -> Approvals t = put_opt k oa (Approvals s) ->
  (forall a, oa = Some a -> 0 <= ap_amount a < UA /\ 0 <= ap_deposit a <= ApprovalDeposit) -> Same s t.
Proof.
  intros Hs Hrt (d & Hd & HA) HB HM HC Ho. destruct (ai_asset _ _ Hs id d Hd).
  eapply (Same_details id d (set_approvals x d)); try done.
  intros j a. rewrite HC, lookup_put_opt. case_decide; [apply Ho|apply (ai_approval _ _ Hs)].
Qed.

Lemma set_approvals_same d : set_approvals (d_approvals d) d = d.
Proof. by destruct d. Qed.

Lemma approve_transfer_same o id z amount s :
  AssetsInv s -> 0 <= amount < UA ->
  wp (approve_transfer lookup o id z amount) (fun _ => Same s) (fun _ => Same s) s.
Proof using RO CK.
  intros Hs Ha. unfold approve_transfer. asset_steps. apply wp_ensure_signed_same; [intros w _|auto]. asset_steps; auto.
  rename a into z', a0 into d, H0 into Hd. pose proof deposits_nonneg as Hdep. set (k := (id, w, z')).
  set (old := default default_value (Approvals s !! k)).
  assert (0 <= ap_amount old < UA /\ 0 <= ap_deposit old <= ApprovalDeposit) as Hold.
  { unfold old. destruct (Approvals s !! k) as [a|] eqn:Hk; [by apply (ai_approval _ _ Hs k)|]. simpl. assert (0 < UA) by done. lia. }
  assert (forall c x, RI c -> let t := set_rt c s in let y := mkApproval (saturating_add UA (ap_amount old) amount) ApprovalDeposit in
    Same s (set_Asset (<[id := set_approvals x d]> (Asset s)) (set_Approvals (put_opt k (Some y) (Approvals s)) t))) as Hend.
  { intros c x Hc t y. eapply (Same_approval id k (Some y) x); try done; [by exists d|].
    intros a [= <-]. simpl. unfold saturating_add. lia. }
  assert (exists x, match Approvals s !! k with
      | Some a => (a, d)
      | None => (default_value, set_approvals (saturating_add U32 (d_approvals d) 1) d)
      end = (old, set_approvals x d)) as [x ->].
  { unfold old. destruct (Approvals s !! k); [exists (d_approvals d); by rewrite set_approvals_same|eauto]. }
  destruct (Z.ltb_spec (ap_deposit old) ApprovalDeposit); asset_steps; [lia| |].
  - eapply (wp_call RI); [apply ok_reserve; [apply (ai_rt _ _ Hs)|lia]| |]; cbv beta.
    + intros _ c Hc. asset_steps. apply (wp_emit RI); [done|]. intros c2 Hc2. by apply Same_rt, (Hend c).
    + intros e c ->. rewrite set_rt_rt. auto.
  - replace (ap_deposit old) with ApprovalDeposit by lia.
    apply (wp_emit RI); [apply (ai_rt _ _ Hs)|]. intros c2 Hc2. by apply (Hend c2).
Qed.

Lemma take_approval_same id owner delegate d s :
  AssetsInv s -> Asset s !! id = Some d ->
  wp (take_approval id owner delegate d) (fun _ => Same s) (fun _ => Same s) s.
Proof using RO CK.
  intros Hs Hd. unfold take_approval. asset_steps.
  - pose proof (ai_approval _ _ Hs _ _ H) as [_ Hr]. pose proof deposits_nonneg as Hdep.
    apply (wp_call_total RI); [apply ok_unreserve; [apply (ai_rt _ _ Hs)|lia]|]. intros _ c Hc. asset_steps.
    apply (wp_emit RI); [done|]. intros c2 Hc2. eapply (Same_approval id (id, owner, delegate) None); try done. by exists d.
  - rewrite delete_id by done. by destruct s.
Qed.

Lemma cancel_approval_same o id z s :
  AssetsInv s -> wp (cancel_approval lookup o id z) (fun _ => Same s) (fun _ => Same s) s.
Proof using RO CK.
  intros Hs. unfold cancel_approval. asset_steps. apply wp_ensure_signed_same; [intros w _|auto]. asset_steps; auto.
  by apply take_approval_same.
Qed.

Lemma force_cancel_approval_same o id w z s :
  AssetsInv s -> wp (force_cancel_approval lookup o id w z) (fun _ => Same s) (fun _ => Same s) s.
Proof using RO CK.
  intros Hs. unfold force_cancel_approval. asset_steps; auto. destruct o; simpl; asset_steps; auto;
    by apply take_approval_same.
Qed.
End Quiet.
