(* ===== verification/AssetsTheorems.v ===== *)
(** * pallet_assets: what the registry promises

    The books balance over every history of calls, nobody but the holder, the
    admin, a delegate or the destroyer of the asset takes a balance, transfers
    and approvals move what they say, and destroying leaves nothing. *)

From S2P Require Import Prelude System Assets AssetsFacts AssetsCalls.

Set Default Proof Using "Type".

Section Theorems.
Context {P : Profile} {C ME : Type} {RT : AssetsRuntime C ME} {CO : AssetsConstants} {SO : StorageOrder}.
Context (RI : C -> Prop) {RO : AssetsRuntimeOk RI} {CK : AssetsConstantsOk}.
Context {Source : Type} (lookup : Source -> option AccountId).
Local Abbreviation MA := (M (AssetsState C) (DispatchError ME)).
Local Abbreviation AssetsInv := (AssetsInv RI).
Implicit Types (id : AssetId) (who : AccountId) (amount : Z) (s t : AssetsState C) (d : AssetDetails).

(* --------------------------------------------------------------------- *)
(** *** Spending an approval *)

(** The approval after [amount] of it was spent. *)
Definition spent (a : Approval) amount : option Approval :=
  if ap_amount a - amount =? 0 then None else Some (mkApproval (ap_amount a - amount) (ap_deposit a)).

(** [transfer_approved] by [z] from [w] to [y]: the approval pays the amount,
    the holder what the transfer takes. *)
Record approved_move id (w z y : AccountId) amount (x : Z) s t : Prop := {
  am_inv : AssetsInv t;
  am_balance : forall i v, balance i v t = balance i v s + moved id w y x i v;
  am_approved : exists a, Approvals s !! (id, w, z) = Some a /\ amount <= ap_amount a /\
    Approvals t = put_opt (id, w, z) (spent a amount) (Approvals s);
  am_range : amount = 0 /\ x = 0 \/
    0 < amount /\ transfer_ok id w y amount None (mkTransferFlags false false false) x s
}.

(** Only approvals and their counters changed. *)
Lemma AssetsInv_spend k oa s t :
  AssetsInv s -> RI (rt t) -> AccountOf t = AccountOf s -> Metadata t = Metadata s ->
  Approvals t = put_opt k oa (Approvals s) ->
  (forall a, oa = Some a -> 0 <= ap_amount a < UA /\ 0 <= ap_deposit a <= ApprovalDeposit) ->
  (forall i d', Asset t !! i = Some d' -> exists d x, Asset s !! i = Some d /\ d' = set_approvals x d) ->
  (forall i, is_Some (Asset s !! i) -> is_Some (Asset t !! i)) -> AssetsInv t.
Proof.
  intros [S1 S2 S3 S4 S5 S6] Hrt HB HM HC Ho HA HA'. split; [done|..].
  - intros i d' Hd'. destruct (HA i d' Hd') as (d & x & Hd & ->). rewrite HB. destruct (S2 i d Hd). by split.
  - intros i w a. rewrite HB. intros Ha. destruct (S3 i w a Ha). auto.
  - intros i d' Hd'. destruct (HA i d' Hd') as (d & x & Hd & ->). exact (S4 i d Hd).
  - by rewrite HM.
  - intros j a. rewrite HC, lookup_put_opt. case_decide; [apply Ho|apply S6].
Qed.

Lemma wp_transfer_approved o id ow ds amount s (Q : unit -> AssetsState C -> Prop) (X : DispatchError ME -> _) :
  AssetsInv s -> 0 <= amount < UA ->
  (forall w y z x t, o = Signed z -> lookup ow = Some w -> lookup ds = Some y ->
     approved_move id w z y amount x s t -> Q tt t) ->
  (forall e, X e s) -> wp (transfer_approved lookup o id ow ds amount) Q X s.
Proof using RO CK.
  intros Hs Ha HQ HX. unfold transfer_approved. asset_steps. apply wp_ensure_signed_same; [intros z Hz|done].
  asset_steps; try apply HX. rename a into w, a0 into y, a1 into ap, a2 into remaining.
  unfold checked_sub in *. destruct (Z.leb_spec amount (ap_amount ap)) as [Hle|]; simplify_eq.
  pose proof (ai_approval _ _ Hs _ _ H1) as [Har Hdr]. pose proof deposits_nonneg as Hdep.
  apply (wp_do_transfer RI); [done..| |done]. intros x t Ht Hor.
  assert (forall t', AssetsInv t' -> AccountOf t' = AccountOf t ->
    Approvals t' = put_opt (id, w, z) (spent ap amount) (Approvals s) -> Q tt t') as Hend.
  { intros t' Ht' HB HC. eapply (HQ w y z x); [done..|]. split; [done| | |done].
    - intros i v. rewrite <- (mv_balance _ _ _ _ Ht). unfold balance, asset_account. by rewrite HB.
    - by exists ap. }
  unfold spent in Hend. destruct (Z.eqb_spec (ap_amount ap - amount) 0) as [He|Hne]; asset_steps.
  - apply (wp_call_total RI); [apply ok_unreserve; [apply (ai_rt _ _ (mv_inv _ _ _ _ Ht))|lia]|].
    intros _ c Hc. asset_steps. apply Hend; [|done|simpl; by rewrite (mv_approvals _ _ _ _ Ht)].
    apply (AssetsInv_spend (id, w, z) None t); [apply (mv_inv _ _ _ _ Ht)|done..| |]; simpl.
    + intros i d' [(-> & d & Hd & ->)|[_ Hd]]%lookup_alter_Some; [eauto|].
      exists d', (d_approvals d'). by rewrite set_approvals_same.
    + intros i Hi. by rewrite lookup_alter_is_Some.
  - apply Hend; [|done|simpl; by rewrite (mv_approvals _ _ _ _ Ht)].
    apply (AssetsInv_spend (id, w, z) (Some (mkApproval (ap_amount ap - amount) (ap_deposit ap))) t);
      [apply (mv_inv _ _ _ _ Ht)| |done|done|done| | |done]; simpl.
    + apply (ai_rt _ _ (mv_inv _ _ _ _ Ht)).
    + intros a [= <-]. simpl. lia.
    + intros i d Hd. exists d, (d_approvals d). by rewrite set_approvals_same.
Qed.

(* --------------------------------------------------------------------- *)
(** *** All calls *)

(** The arguments fit their types; a burn is not of an account that holds
    nothing, and root does not set a minimum balance of zero; the owner of an
    asset that is handed over can part with its deposit. *)
Definition call_ok (c : AssetsCall Source) s : Prop :=
  match c with
  | Create _ _ m | ForceCreate _ _ _ m => 0 <= m < UA
  | Mint _ _ v | Transfer _ _ v | TransferKeepAlive _ _ v | ForceTransfer _ _ _ v
  | TransferApproved _ _ _ v | ApproveTransfer _ _ v => 0 <= v < UA
  | Burn id x v => 0 <= v < UA /\ forall w, lookup x = Some w -> v = 0 \/ 0 < balance id w s
  | ForceAssetStatus _ _ _ _ _ m _ _ => 0 < m < UA
  | TransferOwnership id _ => forall d, Asset s !! id = Some d -> can_repatriate (d_owner d) (rt s)
  | _ => True
  end.

(** Who may make [w] lose [loss] of the asset [i]. *)
Inductive may_lose (o : RawOrigin) (i : AssetId) (w : AccountId) (loss : Z) s : Prop :=
| by_holder : o = Signed w -> may_lose o i w loss s
| by_admin d : Asset s !! i = Some d -> o = Signed (d_admin d) -> may_lose o i w loss s
| by_delegate z a d : o = Signed z -> Approvals s !! (i, w, z) = Some a -> Asset s !! i = Some d ->
    loss <= ap_amount a \/ (loss = balance i w s /\ loss < ap_amount a + d_min_balance d) -> may_lose o i w loss s
| by_destroyer d : Asset s !! i = Some d -> o = Root \/ o = Signed (d_owner d) -> loss = balance i w s ->
    may_lose o i w loss s.

(** The invariant, and the balances that went down did so by right. *)
Definition fair o s t : Prop :=
  AssetsInv t /\
  forall i w, balance i w t < balance i w s -> may_lose o i w (balance i w s - balance i w t) s.

Lemma fair_same o s t : Same RI s t -> fair o s t.
Proof. intros [Ht Hb]. split; [done|]. intros i w. rewrite Hb. lia. Qed.

(** A transfer lowers the balance of its source only. *)
Lemma moved_lowers id source dest x i w s t :
  0 <= x -> (forall i w, balance i w t = balance i w s + moved id source dest x i w) ->
  balance i w t < balance i w s -> i = id /\ w = source /\ balance i w s - balance i w t <= x.
Proof.
  intros Hx Hb. rewrite Hb. unfold moved, at_account. repeat case_decide; simplify_eq; lia.
Qed.

Lemma Moves_fair_transfer o id source dest amount need f x s t :
  Moves RI (moved id source dest x) s t ->
  (amount = 0 /\ x = 0 \/ 0 < amount /\ transfer_ok id source dest amount need f x s) ->
  (o = Signed source \/ exists z, need = Some z /\ o = Signed z) -> fair o s t.
Proof.
  intros Ht Hor Ho. split; [apply (mv_inv _ _ _ _ Ht)|]. intros i w Hlt.
  assert (0 <= x) as Hx by (destruct Hor as [[_ ->]|[_ (d & Hd & _)]]; [done|apply (do_range _ _ _ _ _ _ _ Hd)]).
  destruct (moved_lowers id source dest x i w s t Hx (mv_balance _ _ _ _ Ht) Hlt) as (-> & -> & _).
  destruct Ho as [->|(z & Hz & ->)]; [by apply by_holder|].
  destruct Hor as [[_ ->]|[_ (d & Hd & Hck)]].
  - rewrite (mv_balance _ _ _ _ Ht) in Hlt. unfold moved, at_account in Hlt. repeat case_decide; lia.
  - eapply by_admin; [apply (do_asset _ _ _ _ _ _ _ Hd)|]. by rewrite (Hck z Hz).
Qed.

Lemma mint_fair o id x amount s :
  AssetsInv s -> 0 <= amount < UA ->
  wp (mint lookup o id x amount) (fun _ => fair o s) (fun _ t => t = s) s.
Proof using RO.
  intros Hs Ha. unfold mint. asset_steps. apply wp_ensure_signed_same; [intros w ->|done]. asset_steps; [|done].
  apply (wp_do_mint RI); [done..| |done]. intros t Ht _. split; [apply (mv_inv _ _ _ _ Ht)|].
  intros i v. rewrite (mv_balance _ _ _ _ Ht). unfold at_account. case_decide; lia.
Qed.

Lemma burn_fair o id x amount s :
  AssetsInv s -> 0 <= amount < UA -> (forall w, lookup x = Some w -> amount = 0 \/ 0 < balance id w s) ->
  wp (burn lookup o id x amount) (fun _ => fair o s) (fun _ t => t = s) s.
Proof using RO.
  intros Hs Ha Hb. unfold burn. asset_steps. apply wp_ensure_signed_same; [intros w ->|done]. asset_steps; [|done].
  apply (wp_do_burn RI); [done..|auto| |done]. intros y t Ht Hor. asset_steps. split; [apply (mv_inv _ _ _ _ Ht)|].
  intros i v. rewrite (mv_balance _ _ _ _ Ht). unfold at_account. case_decide; [|lia]. simplify_eq.
  destruct Hor as [[_ ->]|(d & Hd & Hck)]; [lia|]. intros _. eapply by_admin; [apply (do_asset _ _ _ _ _ _ _ Hd)|].
  by rewrite (Hck w eq_refl).
Qed.

Lemma transfer_approved_fair o id ow ds amount s :
  AssetsInv s -> 0 <= amount < UA ->
  wp (transfer_approved lookup o id ow ds amount) (fun _ => fair o s) (fun _ t => t = s) s.
Proof using RO CK.
  intros Hs Ha. apply wp_transfer_approved; [done..| |done].
  intros w y z x t -> _ _ [Hi Hb (a & Hap & Hle & _) Hor]. split; [done|]. intros i v Hlt.
  destruct Hor as [[_ ->]|[_ (d & Hd & _)]].
  { rewrite Hb in Hlt. unfold moved, at_account in Hlt. repeat case_decide; lia. }
  pose proof Hd as [Hd1 _ Hx _ _ Ham Hex]. destruct (Ham eq_refl) as [_ Hor'].
  destruct (moved_lowers id w y x i v s t ltac:(lia) Hb Hlt) as (-> & -> & Hl).
  eapply by_delegate; [done|done|done|]. destruct Hor' as [->|Heq]; [left; lia|right].
  rewrite Hb in Hlt |- *. unfold moved, at_account in *. repeat case_decide; simplify_eq; lia.
Qed.

Lemma destroy_fair o id wit s :
  AssetsInv s -> wp (destroy o id wit) (fun _ => fair o s) (fun _ t => t = s) s.
Proof using RO CK.
  intros Hs. unfold destroy.
  assert (forall ck, (ck = None -> o = Root) -> (forall w, ck = Some w -> o = Signed w) ->
    wp (do_destroy id wit ck) (fun _ => fair o s) (fun _ t => t = s) s) as Hd.
  { intros ck Hn Hsome. apply (wp_do_destroy RI); [done| |done]. intros t d Hd Hck Ht.
    split; [apply (ds_inv _ _ _ _ Ht)|]. intros i w. unfold balance at 1, asset_account. rewrite (ds_account _ _ _ _ Ht).
    case_decide; [subst i|unfold balance, asset_account; lia]. simpl. intros Hlt.
    eapply by_destroyer; [exact Hd| |unfold balance, asset_account; rewrite (ds_account _ _ _ _ Ht), decide_True by done; simpl; lia].
    destruct ck as [z|]; [right|by left; apply Hn]. rewrite <- (Hck z eq_refl). by apply Hsome. }
  destruct o; simpl; asset_steps; try done.
  - eapply wp_mono; [by apply (Hd None)| |done]. done.
  - eapply wp_mono; [by apply (Hd (Some who)); [|intros ? [= ->]]| |done]. done.
Qed.

Lemma wp_dispatch o c s :
  AssetsInv s -> call_ok c s -> wp (dispatch lookup o c) (fun _ => fair o s) (fun _ => Same RI s) s.
Proof using CK.
  intros Hs Hc.
  assert (forall m : MA unit, wp m (fun _ => Same RI s) (fun _ => Same RI s) s ->
    wp m (fun _ => fair o s) (fun _ => Same RI s) s) as Hq.
  { intros m Hm. eapply wp_mono; [exact Hm|intros; by apply fair_same|done]. }
  assert (forall m : MA unit, wp m (fun _ => fair o s) (fun _ t => t = s) s ->
    wp m (fun _ => fair o s) (fun _ => Same RI s) s) as Hf.
  { intros m Hm. eapply wp_mono; [exact Hm|done|]. intros e t ->. by apply Same_refl. }
  destruct c; simpl in *; try (apply Hq; first
    [ by apply (create_same RI)| by apply (force_create_same RI)| by apply (freeze_same RI)
    | by apply (thaw_same RI)| by apply (freeze_asset_same RI)| by apply (thaw_asset_same RI)
    | by apply (transfer_ownership_same RI)| by apply (set_team_same RI)| by apply (set_metadata_same RI)
    | by apply (clear_metadata_same RI)| by apply (force_set_metadata_same RI)| by apply (force_clear_metadata_same RI)
    | by apply (force_asset_status_same RI)| by apply (approve_transfer_same RI)| by apply (cancel_approval_same RI)
    | by apply (force_cancel_approval_same RI) ]); apply Hf; try first
    [ by apply mint_fair | by apply transfer_approved_fair | by apply destroy_fair | by apply burn_fair; destruct Hc ].
  - unfold transfer. asset_steps. apply wp_ensure_signed_same; [intros w ->|done]. asset_steps; [|done].
    apply (wp_do_transfer RI); [done..| |done]. intros x t Ht Hor. asset_steps. eapply Moves_fair_transfer; eauto.
  - unfold transfer_keep_alive. asset_steps. apply wp_ensure_signed_same; [intros w ->|done]. asset_steps; [|done].
    apply (wp_do_transfer RI); [done..| |done]. intros x t Ht Hor. asset_steps. eapply Moves_fair_transfer; eauto.
  - unfold force_transfer. asset_steps. apply wp_ensure_signed_same; [intros w ->|done]. asset_steps; [|done..].
    apply (wp_do_transfer RI); [done..| |done]. intros x t Ht Hor. asset_steps. eapply Moves_fair_transfer; eauto.
Qed.

(* --------------------------------------------------------------------- *)
(** *** Genesis *)

Definition no_assets (c : C) : AssetsState C := mkAssets c ∅ ∅ ∅ ∅.

Lemma for_each_Ok {A} (I : AssetsState C -> Prop) (body : A -> MA unit) l s t :
  (forall x u v, x ∈ l -> I u -> body x u = Ok tt v -> I v) ->
  I s -> for_each l body s = Ok tt t -> I t.
Proof.
  revert s. induction l as [|x l IH]; intros s Hb Hs; simpl.
  - by intros [= ->].
  - unfold bind. destruct (body x s) as [[] u| |] eqn:Hx; [|done..]. apply IH.
    + intros y u' v' Hy. apply Hb. by right.
    + eapply Hb; [by left|exact Hs|done].
Qed.

(** The amounts of a genesis configuration fit their types. *)
Definition genesis_ok (assets : list (AssetId * AccountId * bool * Z)) (accounts : list (AssetId * AccountId * Z))
    : Prop :=
  Forall (fun a => 0 <= a.2 < UA) assets /\ Forall (fun a => 0 <= a.2 < UA) accounts.

Lemma genesis_asset_inv a u v : 0 <= a.2 < UA -> AssetsInv u -> (genesis_asset a : MA unit) u = Ok tt v -> AssetsInv v.
Proof using CK.
  destruct a as [[[id o] sf] m]. simpl. intros Hm Hu. unfold genesis_asset, bind, gets, assert.
  destruct (bool_decide (is_Some (Asset u !! id))) eqn:Hn; simpl; [done|].
  destruct (Z.eqb_spec m 0); simpl; [done|]. intros [= <-]. pose proof deposits_nonneg.
  eapply (Same_fresh RI id); simpl; try done; [apply (ai_rt _ _ Hu)| |lia|lia].
  by apply bool_decide_eq_false, eq_None_not_Some in Hn.
Qed.

Lemma genesis_metadata_inv m u v : AssetsInv u -> (genesis_metadata m : MA unit) u = Ok tt v -> AssetsInv v.
Proof using CK.
  destruct m as [[[id n] sy] dec]. intros Hu. unfold genesis_metadata, bind, gets, assert.
  destruct (bool_decide (is_Some (Asset u !! id))); simpl; [|done].
  destruct (Z.of_nat (length n) <=? StringLimit); simpl; [|done].
  destruct (Z.of_nat (length sy) <=? StringLimit); simpl; [|done].
  intros [= <-]. pose proof max_metadata_nonneg.
  eapply (Same_metadata RI id (Some (mkMetadata 0 n sy dec false))); try done; [apply (ai_rt _ _ Hu)|].
  intros ? [= <-]. simpl. lia.
Qed.

Lemma genesis_account_inv a u v : 0 <= a.2 < UA -> AssetsInv u -> genesis_account a u = Ok tt v -> AssetsInv v.
Proof using RO.
  destruct a as [[id w] x]. simpl. intros Hx Hu. unfold genesis_account. intros Hok.
  assert (wp (increase_balance id w x (raise_supply x)) (fun _ => AssetsInv) (fun _ t => t = u) u) as Hw.
  { apply (wp_increase_balance RI id w x _ (fun _ => True)); [done..| | |done].
    - intros d [Hd Hs _]. pose proof (asset_bounds RI u id d w Hu Hd). by apply wp_raise_supply; [lia..|].
    - intros t Ht _. apply (mv_inv _ _ _ _ Ht). }
  unfold bind, attempt, or_else, bind in Hok. unfold wp in Hw.
  destruct (increase_balance id w x (raise_supply x) u) as [[] t|e t|]; [|subst t|done];
    unfold ret, assert in Hok; case_bool_decide as Hb; unfold ret in Hok; by simplify_eq.
Qed.

Lemma genesis_inv assets metadata accounts c s0 :
  RI c -> genesis_ok assets accounts ->
  genesis_build assets metadata accounts (no_assets c) = Ok tt s0 -> AssetsInv s0.
Proof using RO CK.
  intros Hc [Ha Hl]. rewrite Forall_forall in Ha. rewrite Forall_forall in Hl. unfold genesis_build, bind.
  assert (AssetsInv (no_assets c)) as H0 by (split; done).
  destruct (for_each (E := DispatchError ME) assets genesis_asset (no_assets c)) as [[] s1| |] eqn:E1; [|done..].
  assert (AssetsInv s1) as H1.
  { eapply for_each_Ok; [|exact H0|exact E1]. intros x u v Hx. apply genesis_asset_inv. by apply Ha. }
  destruct (for_each (E := DispatchError ME) metadata genesis_metadata s1) as [[] s2| |] eqn:E2; [|done..].
  assert (AssetsInv s2) as H2.
  { eapply for_each_Ok; [|exact H1|exact E2]. intros x u v Hx. apply genesis_metadata_inv. }
  intros E3. eapply for_each_Ok; [|exact H2|exact E3]. intros x u v Hx. apply genesis_account_inv. by apply Hl.
Qed.

(** A call that was dispatched; an error keeps what was written before it. *)
Inductive asset_step : AssetsState C -> AssetsState C -> Prop :=
| asset_step_ok o c s s' : call_ok c s -> dispatch lookup o c s = Ok tt s' -> asset_step s s'
| asset_step_err o c e s s' : call_ok c s -> dispatch lookup o c s = Err e s' -> asset_step s s'.

Lemma asset_step_inv s s' : AssetsInv s -> asset_step s s' -> AssetsInv s'.
Proof using CK.
  intros Hs Hst. destruct Hst as [o c u u' Hc He|o c e u u' Hc He]; pose proof (wp_dispatch o c u Hs Hc) as Hw; unfold wp in Hw;
    rewrite He in Hw; by destruct Hw.
Qed.

(* --------------------------------------------------------------------- *)
(** *** The theorems *)

(** C7: The books balance.  From a genesis that was built, over any runtime
    that keeps its contract and in every sequence of calls by anybody, failed
    ones included, but without those that break them (a burn of an account that
    holds nothing of the asset, and a minimum balance of zero set by root, which
    are bugs) and without a change of owner by one whose deposit cannot be moved,
    the supply of each asset is the sum of its balances and fits
    its type, its counters count its accounts and its sufficient accounts, no
    account holds zero or an asset that does not exist, and no further such call
    panics or violates one of the pallet's debug assertions. *)
Theorem assets_books_balance assets metadata accounts c s0 :
  RI c -> genesis_ok assets accounts ->
  genesis_build assets metadata accounts (no_assets c) = Ok tt s0 ->
  forall s, rtc asset_step s0 s ->
    AssetsInv s /\ forall o call, call_ok call s -> dispatch lookup o call s <> Panic.
Proof using CK RO.
  intros Hc Hg Hb s Hr. pose proof (genesis_inv _ _ _ _ _ Hc Hg Hb) as H0.
  assert (AssetsInv s) as Hs.
  { revert Hr. apply (rtc_ind_r (fun t => AssetsInv t)); [done|]. intros y z _ Hyz Hy. by eapply asset_step_inv. }
  split; [done|]. intros o call Hok Hp. pose proof (wp_dispatch o call s Hs Hok) as Hw. unfold wp in Hw.
  by rewrite Hp in Hw.
Qed.

(** C17: Nobody else takes a balance.  Whenever a call, other than the three kinds
    that C7 leaves out, lowers what an account holds of an asset, the call was
    signed by the holder, by the asset's admin, or by a delegate; or it destroyed
    the asset, and root or the owner of the asset made it.  A delegate takes no
    more than the holder's approval, or empties the account and takes less than the
    minimum balance more than that: the dust that would be left. *)
Theorem only_rightful_debits s o call t i w :
  AssetsInv s -> call_ok call s -> dispatch lookup o call s = Ok tt t ->
  balance i w t < balance i w s -> may_lose o i w (balance i w s - balance i w t) s.
Proof using CK RO.
  intros Hs Hc He. pose proof (wp_dispatch o call s Hs Hc) as Hw. unfold wp in Hw. rewrite He in Hw. apply Hw.
Qed.

(** A transfer moves what leaves the sender to the receiver.  It takes at
    least the amount, and more, by less than the minimum balance, only when the
    sender would otherwise be left with dust; the sender is emptied or keeps the
    minimum; a frozen asset or account is not moved; everybody else keeps
    their balance, the books still balance, and the approvals and the metadata
    stay.  A
    transfer that fails changes nothing. *)
Theorem asset_transfer_is_exact s who id target dest amount :
  AssetsInv s -> 0 < amount < UA -> lookup target = Some dest -> who <> dest ->
  wp (transfer lookup (Signed who) id target amount)
    (fun _ t => exists d x, Asset s !! id = Some d /\ d_is_frozen d = false /\
       a_is_frozen (asset_account id who s) = false /\
       amount <= x < amount + d_min_balance d /\
       (x = amount \/ x = balance id who s) /\
       (balance id who t = 0 \/ d_min_balance d <= balance id who t) /\
       balance id who t = balance id who s - x /\ balance id dest t = balance id dest s + x /\
       (forall i w, (i, w) <> (id, who) -> (i, w) <> (id, dest) -> balance i w t = balance i w s) /\
       AssetsInv t /\ Approvals t = Approvals s /\ Metadata t = Metadata s)
    (fun _ t => t = s) s.
Proof using CK RO.
  intros Hs Ha Hl Hne. unfold transfer. simpl. asset_steps; [|congruence]. simplify_eq.
  apply (wp_do_transfer RI); [done|lia|done..| |done]. intros x t Ht [[-> _]|[_ (d & Hd & _)]]; [lia|]. asset_steps.
  pose proof Hd as [Hd1 [Hfr Hfa] Hx Hrest _ Ham Hex]. destruct (Ham eq_refl) as [Hle Hor].
  assert (balance id who t = balance id who s - x) as Hw.
  { rewrite (mv_balance _ _ _ _ Ht). unfold moved, at_account. rewrite decide_False, decide_True by congruence. lia. }
  exists d, x. rewrite Hw. split_and!; try done; try lia.
  - rewrite (mv_balance _ _ _ _ Ht). unfold moved, at_account. rewrite decide_True, decide_False by congruence. lia.
  - intros i w H1 H2. rewrite (mv_balance _ _ _ _ Ht). unfold moved, at_account.
    rewrite !decide_False by done. lia.
  - apply (mv_inv _ _ _ _ Ht).
  - apply (mv_approvals _ _ _ _ Ht).
  - apply (mv_metadata _ _ _ _ Ht).
Qed.

(** An approval is spent by what it pays for.  [transfer_approved] needs an
    approval of at least the amount, leaves exactly the rest of it, or removes
    it, and touches no other approval; a failed one changes nothing. *)
Theorem approval_is_spent s z id ow ds amount w y :
  AssetsInv s -> 0 <= amount < UA -> lookup ow = Some w -> lookup ds = Some y ->
  wp (transfer_approved lookup (Signed z) id ow ds amount)
    (fun _ t => exists a, Approvals s !! (id, w, z) = Some a /\ amount <= ap_amount a /\
       Approvals t !! (id, w, z) = spent a amount /\
       (forall k, k <> (id, w, z) -> Approvals t !! k = Approvals s !! k) /\ AssetsInv t)
    (fun _ t => t = s) s.
Proof using CK RO.
  intros Hs Ha Hw Hy. apply wp_transfer_approved; [done..| |done].
  intros w' y' z' x t [= <-] Hw' Hy' Ht. simplify_eq. destruct Ht as [Hi _ (a & Hap & Hle & HA) _].
  exists a. split; [done|]. split; [done|]. rewrite HA. split; [by rewrite lookup_put_opt, decide_True|].
  split; [|done]. intros k Hk. by rewrite lookup_put_opt, decide_False.
Qed.

(** Destroying an asset leaves nothing of it: no details, account,
    approval or metadata, and everything of every other asset as it was.  The
    witness it returns for the weight, though, counts no account at all,
    however many were removed. *)
Theorem destroy_leaves_nothing s o id wit :
  AssetsInv s ->
  wp (do_destroy id wit o)
    (fun w t => destroyed RI id s t /\ w_accounts w = 0 /\ w_sufficients w = 0 /\
       forall who, balance id who t = 0)
    (fun _ t => t = s) s.
Proof using CK RO.
  intros Hs. apply (wp_do_destroy RI); [done| |done]. intros t d Hd _ Ht. split; [done|]. split; [done|]. split; [done|].
  intros who. unfold balance, asset_account. rewrite (ds_account _ _ _ _ Ht). by rewrite decide_True.
Qed.
End Theorems.
