(* ===== verification/AssetsBalances.v ===== *)
(** * pallet_assets over pallet_balances

    The runtime's choice of [T::Currency]: pallet_balances and frame_system
    implement the interface of pallet_assets, and keep its contract in a
    release build; the promises of the registry at a concrete runtime; and the
    burn that drops a reference of an account it has nothing to do with. *)

From S2P Require Import Prelude System SystemFacts Balances BalancesFacts BalancesOps BalancesTransfer BalancesCorrect BalancesTheorems.
From S2P Require Import Assets AssetsFacts AssetsCalls AssetsTheorems.

Set Default Proof Using "Type".

(** The pallets below, with the log of the registry's events, which is kept
    apart from that of pallet_balances. *)
Record Below := mkBelow { below_balances : BalancesState; below_events : list AssetsEvent }.

Definition set_below_balances (b : BalancesState) (c : Below) : Below := mkBelow b (below_events c).

Inductive RuntimeError :=
| FromBalances (e : BalancesError)
| FromAssets (e : AssetsError).

(** An error of a pallet as one of the runtime. *)
Definition map_module {A B} (f : A -> B) (e : DispatchError A) : DispatchError B :=
  match e with
  | Other => Other
  | CannotLookup => CannotLookup
  | BadOrigin => BadOrigin
  | Module_ e => Module_ (f e)
  | ConsumerRemaining => ConsumerRemaining
  | NoProviders => NoProviders
  | Token e => Token e
  | Arithmetic e => Arithmetic e
  end.

(** A call of the pallets below. *)
Definition below {A} (m : MB A) : M Below (DispatchError RuntimeError) A :=
  zoom below_balances set_below_balances (map_err (map_module FromBalances) m).

#[export] Instance balances_runtime {P : Profile} (ED : Z) : AssetsRuntime Below RuntimeError := {|
  assets_error := FromAssets;
  rt_reserve who v := below (reserve ED who v);
  rt_unreserve who v := below (unreserve ED who v);
  rt_repatriate_reserved from to v st := below (repatriate_reserved ED from to v st);
  rt_inc_sufficients who := below (inc_sufficients who);
  rt_dec_sufficients who := below (dec_sufficients who);
  rt_inc_consumers who := below (inc_consumers who);
  rt_dec_consumers who := below (dec_consumers who);
  rt_providers who c := providers (account_info who (below_balances c));
  rt_deposit_event e := modify (fun c => mkBelow (below_balances c) (below_events c ++ [e]))
|}.

Section Contract.
Context (ED : Z) (ED_pos : 0 < ED) (ED_range : ED < UB).
Local Existing Instance release.
Local Abbreviation BalInv := (BalInv ED).
Implicit Types (s t : BalancesState) (c : Below) (who : AccountId).

(** The invariant of the pallets below: the currency's. *)
Definition below_ok c : Prop := BalInv (below_balances c).

Lemma wp_below {A} (m : MB A) (Y : BalancesState -> Prop) c :
  wp m (fun _ => BalInv) (fun _ => Y) (below_balances c) ->
  wp (below m) (fun _ => below_ok) (fun _ c' => exists b, Y b /\ c' = set_below_balances b c) c.
Proof.
  intros Hm. unfold below. apply wp_zoom, wp_map_err. eapply wp_mono; [exact Hm|done|]. intros e t Ht. by exists t.
Qed.

Lemma wp_below_atomic {A} (m : MB A) c :
  wp m (fun _ => BalInv) (fun _ t => t = below_balances c) (below_balances c) ->
  wp (below m) (fun _ => below_ok) (fun _ c' => c' = c) c.
Proof.
  intros Hm. eapply wp_mono; [by apply (wp_below m (fun t => t = below_balances c))|done|].
  intros e c' (b & -> & ->). by destruct c.
Qed.

Lemma wp_below_total {A} (m : MB A) c :
  wp m (fun _ => BalInv) (fun _ _ => False) (below_balances c) ->
  wp (below m) (fun _ => below_ok) (fun _ _ => False) c.
Proof.
  intros Hm. eapply wp_mono; [by apply (wp_below m (fun _ => False))|done|]. by intros e c' (b & [] & _).
Qed.

(** In a release build a plain operator returns some value of its type. *)
Lemma wp_release_arith {S E} w r (Q : Z -> S -> Prop) (R : E -> S -> Prop) (s : S) :
  0 < w -> (forall x, in_range w x -> Q x s) -> wp (arith w r) Q R s.
Proof.
  intros Hw HQ. unfold arith. destruct ((0 <=? r) && (r <? w)) eqn:Hb.
  - apply andb_prop in Hb as [H1 H2]. apply wp_ret, HQ. unfold in_range. lia.
  - apply wp_ret, HQ. by apply Z.mod_pos_bound.
Qed.

(** Another number of sufficient references. *)
Lemma data_put_sufficients who x s :
  SysInv s -> in_range U32 x ->
  data_put who (account who s) s (put_info who (set_sufficients x (account_info who s)) s).
Proof.
  intros Hs Hx. pose proof (account_info_ok s who Hs) as (H1 & H2 & _ & H4 & H5).
  split; [apply only_account_put|]. split.
  - unfold stored_get. by rewrite account_info_put, decide_True.
  - apply SysInv_put; [done|]. by repeat split; simpl; try apply H1; try apply H2; try apply Hx.
Qed.

Lemma BalInv_sufficients who x s :
  BalInv s -> in_range U32 x -> BalInv (put_info who (set_sufficients x (account_info who s)) s).
Proof. intros Hs Hx. eapply (BalInv_refs ED who); [done|]. apply data_put_sufficients; [apply (bi_sys _ _ Hs)|done]. Qed.

(** An account without providers holds nothing: it may go. *)
Lemma BalInv_reap who s : BalInv s -> providers (account_info who s) = 0 -> BalInv (remove_info who s).
Proof.
  intros Hs Hp. eapply (BalInv_refs ED who); [done|].
  pose proof (account_info_ok s who (bi_sys _ _ Hs)) as (_ & _ & _ & _ & Hd).
  split; [apply only_account_remove|]. split; [|apply SysInv_remove, (bi_sys _ _ Hs)].
  unfold account, stored_get. rewrite account_info_remove, decide_True by done. simpl.
  destruct (decide (data (account_info who s) = default_value)) as [->|Hne]; [done|]. specialize (Hd Hne). lia.
Qed.

Lemma wp_inc_sufficients who s (X : BalancesDispatchError -> _ -> Prop) :
  BalInv s -> wp (inc_sufficients who) (fun _ => BalInv) X s.
Proof.
  intros Hs. pose proof (account_info_ok s who (bi_sys _ _ Hs)) as (_ & _ & [Hx1 Hx2] & _).
  unfold inc_sufficients. apply wp_bind, wp_gets, wp_bind, wp_release_arith; [done|]. intros refs _. case_match.
  - apply wp_bind, wp_deposit_event, wp_bind, wp_modify, wp_ret.
    rewrite <- (account_info_event who (from (NewAccount who) : BalancesEvent) s).
    apply BalInv_sufficients; [by apply BalInv_event|by unfold in_range, U32].
  - apply wp_bind, wp_modify, wp_ret, BalInv_sufficients; [done|].
    unfold in_range, saturating_add, U32 in *. lia.
Qed.

Lemma wp_dec_sufficients who s (X : BalancesDispatchError -> _ -> Prop) :
  BalInv s -> wp (dec_sufficients who) (fun _ => BalInv) X s.
Proof.
  intros Hs. unfold dec_sufficients. apply wp_bind, wp_gets.
  destruct (Account (sys s) !! who) as [a|] eqn:Ha; [|done].
  assert (account_info who s = a) as <- by (unfold account_info; by rewrite Ha).
  destruct (_ && _) eqn:Hb.
  - apply andb_prop in Hb as [_ Hp]. apply wp_bind, wp_deposit_event, wp_bind, wp_modify, wp_ret.
    apply BalInv_reap; [by apply BalInv_event|]. rewrite account_info_event. lia.
  - apply wp_bind, wp_release_arith; [done|]. intros x Hx.
    by apply wp_bind, wp_modify, wp_ret, BalInv_sufficients.
Qed.

(** pallet_balances and frame_system keep the contract of the registry. *)
#[export] Instance balances_runtime_ok :
  @AssetsRuntimeOk Below RuntimeError (balances_runtime ED) below_ok.
Proof using ED_pos.
  refine {| can_repatriate from c := can_dec_provider from (below_balances c) = true |}; intros; simpl.
  - apply wp_below_atomic, wp_reserve; [done..| |done]. intros t Hok Ht.
    eapply Eff_balanced; [done|done| |apply tot_reserve_in].
    know_account H who. unfold data_ok, reserve_in, tot. simpl. lia.
  - by apply wp_below_total, wp_unreserve.
  - eapply wp_mono; [by apply (wp_below _ BalInv), repatriate_conserves|done|]. by intros e c' (b & Hb & ->).
  - by apply wp_below_total, wp_inc_sufficients.
  - by apply wp_below_total, wp_dec_sufficients.
  - apply wp_below_atomic, (wp_inc_consumers ED); [done| |done]. by intros t [Ht _].
  - apply wp_below_total, (wp_dec_consumers ED); [done|]. by intros t [Ht _].
  - done.
Defined.
End Contract.

(* ===================================================================== *)
(** ** The burn of nothing *)
Section BurnOfNothing.
Context {P : Profile} {CO : AssetsConstants} {SO : StorageOrder} (ED : Z).
Context {Source : Type} (lookup : Source -> option AccountId).
Implicit Types (s t : AssetsState Below).

(** The consumer references of an account, in frame_system. *)
Definition consumers_of (who : AccountId) s : Z := consumers (account_info who (below_balances (rt s))).

(** Best effort finds that zero can be taken from an account without an entry. *)
Lemma prep_debit_nothing {ME} {RT : AssetsRuntime Below ME} s id who d amount (X : DispatchError ME -> _) :
  Asset s !! id = Some d -> d_is_frozen d = false -> 0 < d_min_balance d -> 0 <= d_supply d ->
  AccountOf s !! (id, who) = None -> 0 < amount ->
  wp (prep_debit id who amount (mkDebitFlags false true)) (fun x t => x = 0 /\ t = s) X s.
Proof.
  intros Hd Hfr Hmin Hsup Hno Ham. unfold prep_debit, reducible_balance. simpl.
  assert (asset_account id who s = default_value) as Hacc by (unfold asset_account; by rewrite Hno).
  asset_steps; rewrite ?Hacc, ?Hfr in *; simplify_eq; rewrite ?Hfr in *; try done.
  unfold can_decrease. rewrite Hd, Hfr, Hacc. simpl.
  replace (Z.min (Z.min 0 (d_supply d)) amount) with 0 by lia. unfold checked_sub.
  replace (0 <=? d_supply d) with true by lia. simpl. rewrite Z.sub_0_r. replace (0 <? d_min_balance d) with true by lia.
  by split.
Qed.

(** The balances after a consumer reference of [who] is dropped. *)
Definition dropped (who : AccountId) s : AssetsState Below :=
  let b := below_balances (rt s) in
  set_rt (set_below_balances (put_info who (set_consumers (consumers_of who s - 1) (account_info who b)) b) (rt s)) s.

Lemma wp_drop_consumer who s X :
  0 < consumers_of who s < U32 ->
  wp (call (rt_dec_consumers (AssetsRuntime := balances_runtime ED) who)) (fun _ t => t = dropped who s) X s.
Proof.
  intros Hc. unfold consumers_of in Hc. apply wp_zoom, wp_zoom, wp_map_err. unfold dec_consumers. asset_steps.
  replace (0 <? _) with true by lia. asset_steps; [lia|done].
Qed.

Lemma consumers_dropped who s : consumers_of who (dropped who s) = consumers_of who s - 1.
Proof. unfold consumers_of at 1, dropped. cbn [rt set_rt below_balances set_below_balances]. by rewrite account_info_put, decide_True. Qed.

(** The admin of any asset can drop consumer references of any account.  A
    burn from an account that holds nothing of the asset succeeds, although
    nothing is burnt, and decrements the victim's consumer references, which
    other pallets hold, and the asset's counter of accounts. *)
Theorem burn_of_nothing_drops_a_reference s admin id target who d amount :
  Asset s !! id = Some d -> d_admin d = admin -> d_is_frozen d = false ->
  0 < d_min_balance d -> 0 <= d_supply d -> AccountOf s !! (id, who) = None -> lookup target = Some who ->
  0 < amount -> 0 < consumers_of who s < U32 ->
  wp (burn (AssetsRuntime0 := balances_runtime ED) lookup (Signed admin) id target amount)
    (fun _ t => consumers_of who t = consumers_of who s - 1 /\
       Asset t !! id = Some (set_counts (saturating_sub (d_accounts d) 1) (d_sufficients d) d) /\
       AccountOf t = AccountOf s)
    (fun _ _ => False) s.
Proof.
  intros Hd <- Hfr Hmin Hsup Hno Hl Ham Hc. unfold burn, do_burn, decrease_balance. simpl.
  asset_steps; [|congruence]. simplify_eq. replace (amount =? 0) with false by lia. apply wp_bind.
  eapply wp_mono; [by apply (prep_debit_nothing s id who d amount (fun _ _ => False))|simpl|done]. intros x u [-> ->].
  asset_steps; simplify_eq; rewrite ?Hno; try lia; try done; [|by rewrite bool_decide_eq_true_2 in *].
  simpl. replace (0 <? d_min_balance _) with true by lia. asset_steps; [done|].
  unfold dead_account. simpl. asset_steps. eapply wp_mono; [by apply (wp_drop_consumer who s (fun _ _ => False))| |done].
  intros [] t ->. asset_steps. apply wp_zoom. simpl. asset_steps. split_and!; simpl.
  - apply consumers_dropped.
  - rewrite lookup_insert_eq. unfold saturating_sub at 2. rewrite Z.sub_0_r, Z.max_r by done. by destruct d.
  - by apply delete_id.
Qed.
End BurnOfNothing.

(* ===================================================================== *)
(** ** The runtime's configuration, and the promises at it *)

Definition DOLLARS : Z := 100 * (1000 * 1000000000).

#[export] Instance runtime_constants : AssetsConstants := {|
  AssetDeposit := 100 * DOLLARS;
  ApprovalDeposit := 1 * DOLLARS;
  StringLimit := 50;
  MetadataDepositBase := 10 * DOLLARS;
  MetadataDepositPerByte := 1 * DOLLARS
|}.

#[export] Instance runtime_constants_ok : AssetsConstantsOk.
Proof. by split. Qed.

(** An order of the storage's keys. *)
Definition key_order : StorageOrder := {| storage_order := fun A l => l; storage_order_perm := fun A l => reflexivity l |}.

Section Examples.
Local Existing Instances release key_order.

#[local] Instance ex_runtime : AssetsRuntime Below RuntimeError := balances_runtime 10.
#[local] Instance ex_runtime_ok : AssetsRuntimeOk (below_ok 10) := balances_runtime_ok 10 eq_refl.

(** A call, when it succeeds. *)
Definition run (o : RawOrigin) (c : AssetsCall AccountId) (s : AssetsState Below) : AssetsState Below :=
  match dispatch Some o c s with Ok _ t => t | _ => s end.

(** Asset 7 of account 1 and asset 8 of account 2, with a minimum balance of 5;
    account 1 holds 100 of asset 7, and has the consumer reference for it. *)
Definition ex_start : AssetsState Below := no_assets (mkBelow (ex_bal 0 (1000 * DOLLARS) 0) []).

Definition ex_genesis : AssetsState Below :=
  match genesis_build
    [(7%N, 1%N, false, 5); (8%N, 2%N, false, 5)] [] [(7%N, 1%N, 100)] ex_start with
  | Ok _ s => s
  | _ => ex_start
  end.

Lemma ex_genesis_built :
  genesis_build
    [(7%N, 1%N, false, 5); (8%N, 2%N, false, 5)] [] [(7%N, 1%N, 100)] ex_start = Ok tt ex_genesis.
Proof. by vm_compute. Qed.

Lemma ex_start_ok : below_ok 10 (rt ex_start).
Proof. apply ex_bal_inv; vm_compute; intuition congruence. Qed.

Lemma ex_genesis_ok : genesis_ok [(7%N, 1%N, false, 5); (8%N, 2%N, false, 5)] [(7%N, 1%N, 100)].
Proof. split; repeat constructor; vm_compute; intuition congruence. Qed.

Lemma ex_genesis_inv : AssetsInv (below_ok 10) ex_genesis.
Proof. eapply (genesis_inv (below_ok 10)); [apply ex_start_ok|apply ex_genesis_ok|apply ex_genesis_built]. Qed.

Lemma run_inv o c s : AssetsInv (below_ok 10) s -> call_ok (below_ok 10) Some c s -> AssetsInv (below_ok 10) (run o c s).
Proof.
  intros Hs Hc. unfold run. destruct (dispatch Some o c s) as [[] t| |] eqn:He; [|done..].
  eapply (asset_step_inv (below_ok 10) Some); [done|]. by eapply asset_step_ok.
Qed.

(** Account 1 lets account 2 transfer 40 of asset 7. *)
Definition ex_approved : AssetsState Below := run (Signed 1%N) (ApproveTransfer 7%N 2%N 40) ex_genesis.

Lemma ex_approved_inv : AssetsInv (below_ok 10) ex_approved.
Proof. apply run_inv; [apply ex_genesis_inv|by vm_compute]. Qed.

Lemma ex_approved_reached : rtc (asset_step (below_ok 10) Some) ex_genesis ex_approved.
Proof.
  apply rtc_once, (asset_step_ok (below_ok 10) Some (Signed 1%N) (ApproveTransfer 7%N 2%N 40)); by vm_compute.
Qed.

Lemma assets_books_balance_witness :
  AssetsInv (below_ok 10) ex_approved /\
  dispatch Some (Signed 2%N) (TransferApproved 7%N 1%N 2%N 40) ex_approved <> Panic.
Proof.
  destruct (assets_books_balance (below_ok 10) Some _ _ _ _ _ ex_start_ok ex_genesis_ok ex_genesis_built
    ex_approved ex_approved_reached) as [Hi Hp].
  split; [done|]. apply Hp. vm_compute. intuition congruence.
Defined.

(** A delegate takes the dust too: with an approval of 97 it moves all 100. *)
Lemma delegate_takes_the_dust :
  let s := run (Signed 1%N) (ApproveTransfer 7%N 2%N 97) ex_genesis in
  let t := run (Signed 2%N) (TransferApproved 7%N 1%N 2%N 97) s in
  balance 7%N 1%N s = 100 /\ balance 7%N 1%N t = 0 /\ balance 7%N 2%N t = 100.
Proof. vm_compute. split_and!; reflexivity. Qed.

Lemma only_rightful_debits_witness :
  may_lose (Signed 2%N) 7%N 1%N 40 ex_approved.
Proof.
  apply (only_rightful_debits (below_ok 10) Some ex_approved (Signed 2%N) (TransferApproved 7%N 1%N 2%N 40)
    (run (Signed 2%N) (TransferApproved 7%N 1%N 2%N 40) ex_approved) 7%N 1%N);
    [apply ex_approved_inv|vm_compute; intuition congruence|by vm_compute..].
Defined.

Lemma asset_transfer_is_exact_witness :
  wp (transfer Some (Signed 1%N) 7%N 2%N 97)
    (fun _ t => balance 7%N 1%N t = 0 /\ balance 7%N 2%N t = 100) (fun _ t => t = ex_genesis) ex_genesis.
Proof.
  eapply wp_mono; [apply (asset_transfer_is_exact (below_ok 10) Some ex_genesis 1%N 7%N 2%N 2%N 97)| |done].
  - apply ex_genesis_inv.
  - vm_compute. intuition congruence.
  - done.
  - done.
  - intros [] t (d & x & Hd & _ & _ & Hx & Hor & Hr & H1 & H2 & _).
    assert (d_min_balance d = 5) as Hm by (vm_compute in Hd; by simplify_eq).
    assert (balance 7%N 1%N ex_genesis = 100) as Hb by (by vm_compute).
    assert (balance 7%N 2%N ex_genesis = 0) as Hz by (by vm_compute). lia.
Defined.

Lemma approval_is_spent_witness :
  wp (transfer_approved Some (Signed 2%N) 7%N 1%N 2%N 40)
    (fun _ t => Approvals t !! (7%N, 1%N, 2%N) = None) (fun _ t => t = ex_approved) ex_approved.
Proof.
  eapply wp_mono; [apply (approval_is_spent (below_ok 10) Some ex_approved 2%N 7%N 1%N 2%N 40 1%N 2%N)| |done].
  - apply ex_approved_inv.
  - vm_compute. intuition congruence.
  - done.
  - done.
  - intros [] t (a & Ha & _ & -> & _). vm_compute in Ha. simplify_eq. done.
Defined.

Lemma destroy_leaves_nothing_witness :
  wp (do_destroy 7%N (mkWitness 1 0 1) (Some 1%N))
    (fun w t => Asset t !! 7%N = None /\ w_accounts w = 0) (fun _ t => t = ex_approved) ex_approved.
Proof.
  eapply wp_mono; [apply (destroy_leaves_nothing (below_ok 10) ex_approved (Some 1%N) 7%N), ex_approved_inv| |done].
  intros w t (Hd & Hw & _). split; [|done]. by rewrite (ds_asset _ _ _ _ Hd), lookup_delete_eq.
Defined.

Lemma burn_of_nothing_drops_a_reference_witness :
  consumers_of 1%N ex_genesis = 1 /\
  wp (burn Some (Signed 2%N) 8%N 1%N 1) (fun _ t => consumers_of 1%N t = 0) (fun _ _ => False) ex_genesis.
Proof.
  split; [by vm_compute|].
  eapply wp_mono; [eapply (burn_of_nothing_drops_a_reference 10 Some ex_genesis 2%N 8%N 1%N 1%N _ 1)| |done];
    [by vm_compute..|]. intros [] t (-> & _). by vm_compute.
Defined.
End Examples.
