(* ===== verification/Council.v ===== *)
(** * pallet_council

    [bin/node/pallets/pallet-council/src/lib.rs]: a collective whose members
    vote on motions with the power of a governance token, and the diff of two
    member lists of [frame/support/src/traits/members.rs].

    The calls the motions carry are those of the runtime: their dispatch, hash,
    length and weight are a class, as are the other pallets' state [X], the
    token's balances, the block number and the event log.  The weights that the
    dispatchables return are not modelled, whether they charge a fee is. *)

From S2P Require Import Prelude System.

(* ===================================================================== *)
(** ** Data *)

Abbreviation GovAssetId := N.

Record Votes := mkVotes {
  v_index : Z;
  v_threshold : Z;
  v_ayes : list AccountId;
  v_ayes_power : list (AccountId * Z);
  v_nays : list AccountId;
  v_nays_power : list (AccountId * Z);
  v_end : Z
}.

Definition set_ayes a p (v : Votes) :=
  mkVotes (v_index v) (v_threshold v) a p (v_nays v) (v_nays_power v) (v_end v).
Definition set_nays a p (v : Votes) :=
  mkVotes (v_index v) (v_threshold v) (v_ayes v) (v_ayes_power v) a p (v_end v).

Inductive CouncilError :=
| NotMember
| DuplicateProposal
| ProposalMissing
| WrongIndex
| DuplicateVote
| AlreadyInitialized
| TooEarly
| TooManyProposals
| WrongProposalWeight
| WrongProposalLength.

(** [DispatchResult] in an event. *)
Inductive CouncilEvent (ME : Type) :=
| Proposed (who : AccountId) (index : Z) (h : Hash) (threshold : Z)
| Voted (who : AccountId) (h : Hash) (approve : bool) (yes no : Z)
| Approved (h : Hash)
| Disapproved (h : Hash)
| Executed (h : Hash) (r : unit + DispatchError ME)
| MemberExecuted (h : Hash) (r : unit + DispatchError ME)
| Closed (h : Hash) (yes no : Z).
#[global] Arguments Proposed {ME}.
#[global] Arguments Voted {ME}.
#[global] Arguments Approved {ME}.
#[global] Arguments Disapproved {ME}.
#[global] Arguments Executed {ME}.
#[global] Arguments MemberExecuted {ME}.
#[global] Arguments Closed {ME}.

(** [Pays] of the post-dispatch information. *)
Inductive Pays := PaysYes | PaysNo.

Inductive CouncilCall (Call : Type) :=
| SetMembers (new_members : list AccountId) (prime : option AccountId)
| Execute (proposal : Call) (length_bound : Z)
| Propose (threshold : Z) (proposal : Call) (length_bound : Z)
| Vote (proposal : Hash) (index : Z) (approve : bool)
| Close (proposal_hash : Hash) (index proposal_weight_bound length_bound : Z)
| DisapproveProposal (proposal_hash : Hash)
| SetGovTokenId (token_id : GovAssetId).
#[global] Arguments SetMembers {Call}.
#[global] Arguments Execute {Call}.
#[global] Arguments Propose {Call}.
#[global] Arguments Vote {Call}.
#[global] Arguments Close {Call}.
#[global] Arguments DisapproveProposal {Call}.
#[global] Arguments SetGovTokenId {Call}.

Record CouncilState (X Call : Type) := mkCouncil {
  rest : X;
  GovTokenId : GovAssetId;
  Proposals : list Hash;
  ProposalOf : gmap Hash Call;
  Voting : gmap Hash Votes;
  VotingPower : gmap AccountId Z;
  ProposalCount : Z;
  Members : list AccountId;
  Prime : option AccountId
}.
#[global] Arguments mkCouncil {X Call}.
#[global] Arguments rest {X Call}.
#[global] Arguments GovTokenId {X Call}.
#[global] Arguments Proposals {X Call}.
#[global] Arguments ProposalOf {X Call}.
#[global] Arguments Voting {X Call}.
#[global] Arguments VotingPower {X Call}.
#[global] Arguments ProposalCount {X Call}.
#[global] Arguments Members {X Call}.
#[global] Arguments Prime {X Call}.

Section Setters.
Context {X Call : Type}.
Implicit Types (s : CouncilState X Call).

Definition set_rest (x : X) s : CouncilState X Call := mkCouncil x (GovTokenId s) (Proposals s) (ProposalOf s) (Voting s) (VotingPower s) (ProposalCount s) (Members s) (Prime s).
Definition set_GovTokenId x s := mkCouncil (rest s) x (Proposals s) (ProposalOf s) (Voting s) (VotingPower s) (ProposalCount s) (Members s) (Prime s).
Definition set_Proposals x s := mkCouncil (rest s) (GovTokenId s) x (ProposalOf s) (Voting s) (VotingPower s) (ProposalCount s) (Members s) (Prime s).
Definition set_ProposalOf (x : gmap Hash Call) s := mkCouncil (rest s) (GovTokenId s) (Proposals s) x (Voting s) (VotingPower s) (ProposalCount s) (Members s) (Prime s).
Definition set_Voting x s := mkCouncil (rest s) (GovTokenId s) (Proposals s) (ProposalOf s) x (VotingPower s) (ProposalCount s) (Members s) (Prime s).
Definition set_VotingPower x s := mkCouncil (rest s) (GovTokenId s) (Proposals s) (ProposalOf s) (Voting s) x (ProposalCount s) (Members s) (Prime s).
Definition set_ProposalCount x s := mkCouncil (rest s) (GovTokenId s) (Proposals s) (ProposalOf s) (Voting s) (VotingPower s) x (Members s) (Prime s).
Definition set_Members x s := mkCouncil (rest s) (GovTokenId s) (Proposals s) (ProposalOf s) (Voting s) (VotingPower s) (ProposalCount s) x (Prime s).
Definition set_Prime x s := mkCouncil (rest s) (GovTokenId s) (Proposals s) (ProposalOf s) (Voting s) (VotingPower s) (ProposalCount s) (Members s) x.
End Setters.

(* ===================================================================== *)
(** ** The runtime *)

(** [T::Proposal] and the pallets below.  [dispatch_call] acts on the council
    too, since the calls of the runtime include the council's. *)
Class CouncilRuntime (X Call ME : Type) := {
  council_error : CouncilError -> ME;
  token_balance : GovAssetId -> AccountId -> X -> Z;
  block_number : X -> Z;
  council_event : CouncilEvent ME -> M X (DispatchError ME) unit;
  hash_of : Call -> Hash;
  encoded_len : Call -> Z;
  dispatch_weight : Call -> Z;
  dispatch_call : RawOrigin -> Call -> M (CouncilState X Call) (DispatchError ME) unit;
  default_vote : option bool -> Z -> Z -> Z -> M (CouncilState X Call) (DispatchError ME) bool
}.

Class CouncilConstants := { MotionDuration : Z; MaxProposals : Z }.

(* ===================================================================== *)
(** ** The diff of two member lists *)

(** [ChangeMembers::compute_members_diff_sorted]: the pair is what is incoming
    and what is outgoing.  Every iteration takes from one of the lists, so
    that their lengths are enough fuel. *)
Fixpoint diff_loop (fuel : nat) (old new incoming outgoing : list AccountId)
    : list AccountId * list AccountId :=
  match fuel with
  | O => (incoming, outgoing)
  | S fuel =>
      match old, new with
      | [], [] => (incoming, outgoing)
      | o :: old', n :: new' =>
          if (o =? n)%N then diff_loop fuel old' new' incoming outgoing
          else if (o <? n)%N then diff_loop fuel old' new incoming (outgoing ++ [o])
          else diff_loop fuel old new' (incoming ++ [n]) outgoing
      | o :: old', [] => diff_loop fuel old' new incoming (outgoing ++ [o])
      | [], n :: new' => diff_loop fuel old new' (incoming ++ [n]) outgoing
      end
  end.

Definition compute_members_diff_sorted (new old : list AccountId) : list AccountId * list AccountId :=
  diff_loop (length new + length old) old new [] [].

(* ===================================================================== *)
(** ** Default votes *)

Definition PrimeDefaultVote {S E} (prime_vote : option bool) (yes_power no_power len : Z) : M S E bool :=
  ret (default false prime_vote).

Definition MoreThanMajorityThenPrimeDefaultVote {P : Profile} {S E}
    (prime_vote : option bool) (yes_power no_power len : Z) : M S E bool :=
  let! twice := mul U32 yes_power 2 in
  let more_than_majority := len <? twice in
  ret (more_than_majority || default false prime_vote).

(* ===================================================================== *)
(** ** Operations *)
Section Pallet.
Context {P : Profile} {X Call ME : Type} {RT : CouncilRuntime X Call ME} {CO : CouncilConstants}.
Local Abbreviation E := (DispatchError ME).
Local Abbreviation MC := (M (CouncilState X Call) (DispatchError ME)).
Implicit Types (s : CouncilState X Call) (who : AccountId) (h : Hash).

Definition council_err (e : CouncilError) : E := Module_ (council_error e).
Definition deposit (e : CouncilEvent ME) : MC unit := zoom rest set_rest (council_event e).

(** [TryInto::<u32>::try_into(power).ok()] *)
Definition try_into_u32 (x : Z) : option Z := if (0 <=? x) && (x <? U32) then Some x else None.

Definition members_len s : Z := cast U32 (Z.of_nat (length (Members s))).

(** [for voting_power in powers { sum = sum + voting_power.1 }] *)
Fixpoint sum_power (acc : Z) (powers : list (AccountId * Z)) : MC Z :=
  match powers with
  | [] => ret acc
  | p :: powers' => let! acc := add U32 acc p.2 in sum_power acc powers'
  end.

Fixpoint sum_tokens (acc : Z) (members : list AccountId) : MC Z :=
  match members with
  | [] => ret acc
  | member :: members' =>
      let! power := gets (fun s => token_balance (GovTokenId s) member (rest s)) in
      let! vote_power := unwrap (try_into_u32 power) in
      let! acc := add U32 acc vote_power in
      sum_tokens acc members'
  end.

Definition calculate_max_gov_tokens : MC Z :=
  let! members := gets Members in sum_tokens 0 members.

Definition validate_and_get_proposal h (length_bound weight_bound : Z) : MC (Call * Z) :=
  let! o := gets (fun s => ProposalOf s !! h) in
  let! proposal_len := ok_or (encoded_len <$> o) (council_err ProposalMissing) in
  ensure (proposal_len <=? length_bound) (council_err WrongProposalLength) ;;
  let! proposal := ok_or o (council_err ProposalMissing) in
  ensure (dispatch_weight proposal <=? weight_bound) (council_err WrongProposalWeight) ;;
  ret (proposal, proposal_len).

Definition remove_proposal h : MC Z :=
  modify (fun s => set_ProposalOf (delete h (ProposalOf s)) s) ;;
  modify (fun s => set_Voting (delete h (Voting s)) s) ;;
  modify (fun s => set_Proposals (retain (fun x => negb (x =? h)%N) (Proposals s)) s) ;;
  let! n := gets (fun s => Z.of_nat (length (Proposals s))) in
  ret (cast U32 (n + 1)).

Definition do_approve_proposal h (proposal : Call) : MC Z :=
  deposit (Approved h) ;;
  let! result := result_of (dispatch_call Root proposal) in
  deposit (Executed h result) ;;
  remove_proposal h.

Definition do_disapprove_proposal h : MC Z :=
  deposit (Disapproved h) ;;
  remove_proposal h.

(* --------------------------------------------------------------------- *)
(** *** Members *)

(** What [change_members_sorted] leaves of the votes. *)
Definition is_outgoing (outgoing : list AccountId) who : bool :=
  match binary_search_by_key id who outgoing with inl _ => true | inr _ => false end.

Definition drop_votes (outgoing : list AccountId) (v : Votes) : Votes :=
  let stays who := negb (is_outgoing outgoing who) in
  set_nays (retain stays (v_nays v)) (retain (fun i => stays i.1) (v_nays_power v))
    (set_ayes (retain stays (v_ayes v)) (retain (fun i => stays i.1) (v_ayes_power v)) v).

Definition change_members_sorted (incoming outgoing new : list AccountId) : MC unit :=
  let outgoing := sort_accounts outgoing in
  let! proposals := gets Proposals in
  for_each proposals (fun h => modify (fun s => set_Voting (alter (drop_votes outgoing) h (Voting s)) s)) ;;
  modify (set_Members new) ;;
  modify (set_Prime None).

Definition set_members_sorted (new old : list AccountId) : MC unit :=
  let '(incoming, outgoing) := compute_members_diff_sorted new old in
  change_members_sorted incoming outgoing new.

Definition initialize_members (members : list AccountId) : MC unit :=
  if bool_decide (members = []) then ret tt
  else
    let! old := gets Members in
    assert (bool_decide (old = [])) ;;
    modify (set_Members members).

Definition genesis_build (members : list AccountId) : MC unit :=
  assert (bool_decide (size (list_to_set members : gset AccountId) = length members)) ;;
  initialize_members members.

(* --------------------------------------------------------------------- *)
(** *** Dispatchables *)

Definition set_members (origin : RawOrigin) (new_members : list AccountId) (prime : option AccountId) : MC Pays :=
  ensure_root origin ;;
  let! old := gets Members in
  let new_members := sort_accounts new_members in
  set_members_sorted new_members old ;;
  modify (set_Prime prime) ;;
  ret PaysYes.

Definition execute (origin : RawOrigin) (proposal : Call) (length_bound : Z) : MC Pays :=
  let! who := ensure_signed origin in
  let! members := gets Members in
  ensure (contains who members) (council_err NotMember) ;;
  ensure (encoded_len proposal <=? length_bound) (council_err WrongProposalLength) ;;
  let! result := result_of (dispatch_call Root proposal) in
  deposit (MemberExecuted (hash_of proposal) result) ;;
  ret PaysYes.

Definition propose (origin : RawOrigin) (threshold : Z) (proposal : Call) (length_bound : Z) : MC Pays :=
  let! who := ensure_signed origin in
  let! members := gets Members in
  ensure (contains who members) (council_err NotMember) ;;
  ensure (encoded_len proposal <=? length_bound) (council_err WrongProposalLength) ;;
  let h := hash_of proposal in
  let! exists_ := gets (fun s => bool_decide (is_Some (ProposalOf s !! h))) in
  ensure (negb exists_) (council_err DuplicateProposal) ;;
  if threshold <? 2 then
    let! result := result_of (dispatch_call Root proposal) in
    deposit (Executed h result) ;;
    ret PaysYes
  else
    let! proposals := gets Proposals in
    let! proposals := ok_or (try_push MaxProposals proposals h) (council_err TooManyProposals) in
    modify (set_Proposals proposals) ;;
    let! index := gets ProposalCount in
    let! count := add U32 index 1 in
    modify (set_ProposalCount count) ;;
    modify (fun s => set_ProposalOf (<[h := proposal]> (ProposalOf s)) s) ;;
    let! now := gets (fun s => block_number (rest s)) in
    let! end_ := add U32 now MotionDuration in
    modify (fun s => set_Voting (<[h := mkVotes index threshold [] [] [] [] end_]> (Voting s)) s) ;;
    deposit (Proposed who index h threshold) ;;
    ret PaysYes.

(** The vote of [who] for one side: it is pushed there, and removed from the
    other side at [pos]. *)
Definition cast_aye who (power : Z) (position_no : option nat) (v : Votes) : MC Votes :=
  let v := set_ayes (v_ayes v ++ [who]) (v_ayes_power v ++ [(who, power)]) v in
  match position_no with
  | Some pos =>
      let! nays := unwrap (swap_remove pos (v_nays v)) in
      let! nays_power := unwrap (swap_remove pos (v_nays_power v)) in
      ret (set_nays nays nays_power v)
  | None => ret v
  end.

Definition cast_nay who (power : Z) (position_yes : option nat) (v : Votes) : MC Votes :=
  let v := set_nays (v_nays v ++ [who]) (v_nays_power v ++ [(who, power)]) v in
  match position_yes with
  | Some pos =>
      let! ayes := unwrap (swap_remove pos (v_ayes v)) in
      let! ayes_power := unwrap (swap_remove pos (v_ayes_power v)) in
      ret (set_ayes ayes ayes_power v)
  | None => ret v
  end.

Definition vote (origin : RawOrigin) (proposal : Hash) (index : Z) (approve : bool) : MC Pays :=
  let! who := ensure_signed origin in
  let! members := gets Members in
  ensure (contains who members) (council_err NotMember) ;;
  let! power := gets (fun s => token_balance (GovTokenId s) who (rest s)) in
  let! vote_power := unwrap (try_into_u32 power) in
  modify (fun s => set_VotingPower (<[who := vote_power]> (VotingPower s)) s) ;;
  let! o := gets (fun s => Voting s !! proposal) in
  let! voting := ok_or o (council_err ProposalMissing) in
  ensure (v_index voting =? index) (council_err WrongIndex) ;;
  let position_yes := position (fun a => (a =? who)%N) (v_ayes voting) in
  let position_no := position (fun a => (a =? who)%N) (v_nays voting) in
  let first := bool_decide (position_yes = None) && bool_decide (position_no = None) in
  let! voting :=
    if approve then
      ensure (bool_decide (position_yes = None)) (council_err DuplicateVote) ;;
      cast_aye who vote_power position_no voting
    else
      ensure (bool_decide (position_no = None)) (council_err DuplicateVote) ;;
      cast_nay who vote_power position_yes voting in
  let! yes_power := sum_power 0 (v_ayes_power voting) in
  let! no_power := sum_power 0 (v_nays_power voting) in
  deposit (Voted who proposal approve yes_power no_power) ;;
  modify (fun s => set_Voting (<[proposal := voting]> (Voting s)) s) ;;
  ret (if first then PaysNo else PaysYes).

(** The two ends of [close]. *)
Definition close_approved h (yes no weight_bound length_bound : Z) : MC Pays :=
  let! pl := validate_and_get_proposal h length_bound weight_bound in
  deposit (Closed h yes no) ;;
  do_approve_proposal h pl.1 ;;
  ret PaysYes.

Definition close_disapproved h (yes no : Z) : MC Pays :=
  deposit (Closed h yes no) ;;
  do_disapprove_proposal h ;;
  ret PaysNo.

(** [close] once the powers are summed. *)
Definition decide_motion h (voting : Votes) (seats yes_power no_power actual_threshold turnout weight_bound length_bound : Z)
    : MC Pays :=
  if (actual_threshold <=? turnout) && (no_power <? yes_power) then
    close_approved h yes_power no_power weight_bound length_bound
  else if (actual_threshold <=? turnout) && (yes_power <? no_power) then
    close_disapproved h yes_power no_power
  else
    let! now := gets (fun s => block_number (rest s)) in
    ensure (v_end voting <=? now) (council_err TooEarly) ;;
    let! prime_vote := gets (fun s => (fun who => contains who (v_ayes voting)) <$> Prime s) in
    let! default := default_vote prime_vote yes_power no_power seats in
    let! abstentions := sub U32 seats turnout in
    let! yes := if default then add U32 yes_power abstentions else ret yes_power in
    let! no := if default then ret no_power else add U32 no_power abstentions in
    if actual_threshold <=? yes then close_approved h yes no weight_bound length_bound
    else close_disapproved h yes no.

Definition close (origin : RawOrigin) h (index weight_bound length_bound : Z) : MC Pays :=
  ensure_signed origin ;;
  let! o := gets (fun s => Voting s !! h) in
  let! voting := ok_or o (council_err ProposalMissing) in
  ensure (v_index voting =? index) (council_err WrongIndex) ;;
  let! seats := gets members_len in
  let! yes_power := sum_power 0 (v_ayes_power voting) in
  let! no_power := sum_power 0 (v_nays_power voting) in
  let! max_gov_tokens := calculate_max_gov_tokens in
  let! thirty := mul U32 max_gov_tokens 30 in
  let! turnout := add U32 yes_power no_power in
  decide_motion h voting seats yes_power no_power (thirty / 100) turnout weight_bound length_bound.

Definition disapprove_proposal (origin : RawOrigin) h : MC Pays :=
  ensure_root origin ;;
  do_disapprove_proposal h ;;
  ret PaysYes.

Definition set_gov_token_id (origin : RawOrigin) (token_id : GovAssetId) : MC Pays :=
  ensure_root origin ;;
  modify (set_GovTokenId token_id) ;;
  ret PaysYes.

Definition council_dispatch (origin : RawOrigin) (c : CouncilCall Call) : MC Pays :=
  match c with
  | SetMembers new_members prime => set_members origin new_members prime
  | Execute p bound => execute origin p bound
  | Propose threshold p bound => propose origin threshold p bound
  | Vote h index approve => vote origin h index approve
  | Close h index weight_bound bound => close origin h index weight_bound bound
  | DisapproveProposal h => disapprove_proposal origin h
  | SetGovTokenId id => set_gov_token_id origin id
  end.
End Pallet.
