(* ===== verification/CouncilFacts.v ===== *)
(** * pallet_council: the invariant

    The diff of two sorted member lists is their difference as multisets; the
    coherence of the motions' storage, at most one vote per member and motion,
    and votes of members only, kept by every operation. *)

From Stdlib Require Import Sorted.
From S2P Require Import Prelude System Council.

Set Default Proof Using "Type".

(* ===================================================================== *)
(** ** Lists *)
Section Lists.
Implicit Types (l old new : list AccountId) (w : AccountId).

Lemma sorted_nondecreasing l : StronglySorted N.le l -> nondecreasing id l.
Proof.
  induction 1 as [|x l Hl IH Hx]; intros i j a b Hij Ha Hb; [done|].
  destruct j as [|j]; [lia|]. destruct i as [|i]; simpl in *; simplify_eq.
  - rewrite Forall_forall in Hx. by eapply Hx, list_elem_of_lookup_2.
  - by apply (IH i j); [lia|..].
Qed.

Lemma sort_accounts_sorted l : StronglySorted N.le (sort_accounts l).
Proof. apply Sorted_StronglySorted; [intros ???; lia|]. apply Sorted_merge_sort. intros ??; lia. Qed.

Lemma elem_of_sort_accounts l w : w ∈ sort_accounts l <-> w ∈ l.
Proof. unfold sort_accounts. by rewrite merge_sort_Permutation. Qed.

Lemma is_outgoing_spec l w : is_outgoing (sort_accounts l) w = bool_decide (w ∈ l).
Proof.
  unfold is_outgoing.
  pose proof (binary_search_weak id w _ (sorted_nondecreasing _ (sort_accounts_sorted l))) as Hs.
  destruct (binary_search_by_key id w (sort_accounts l)) as [i|i]; simpl in Hs; symmetry.
  - destruct Hs as (x & Hx & <-). apply bool_decide_eq_true_2, elem_of_sort_accounts. by eapply list_elem_of_lookup_2.
  - apply bool_decide_eq_false_2. rewrite <- elem_of_sort_accounts, list_elem_of_lookup. intros [j Hj].
    destruct Hs as (_ & Hlo & Hhi). destruct (decide (j < i)%nat) as [Hlt|Hge].
    + specialize (Hlo _ _ Hj Hlt). unfold id in *. lia.
    + specialize (Hhi _ _ Hj ltac:(lia)). unfold id in *. lia.
Qed.

Lemma count_sorted_below w n new : StronglySorted N.le (n :: new) -> (w < n)%N -> count w (n :: new) = 0%nat.
Proof.
  intros Hs Hw. apply count_zero. apply StronglySorted_inv in Hs as [_ Hn]. rewrite Forall_forall in Hn.
  intros [->|Hin]%elem_of_cons; [lia|]. specialize (Hn _ Hin). lia.
Qed.

Lemma count_nil w : count w [] = 0%nat.
Proof. done. Qed.

(** The loop of the diff: multiset differences of sorted lists. *)
Lemma diff_loop_spec fuel old new inc out w :
  (length old + length new <= fuel)%nat -> StronglySorted N.le old -> StronglySorted N.le new ->
  let r := diff_loop fuel old new inc out in
  count w r.1 = (count w inc + (count w new - count w old))%nat /\
  count w r.2 = (count w out + (count w old - count w new))%nat.
Proof.
  revert old new inc out. induction fuel as [|fuel IH]; intros old new inc out Hf Ho Hn.
  { destruct old, new; simpl in Hf; cbn [diff_loop fst snd]; lia. }
  destruct old as [|o old'], new as [|n new']; simpl in Hf; cbn [diff_loop].
  - cbn [fst snd]. lia.
  - edestruct (IH [] new' (inc ++ [n]) out) as [-> ->]; [simpl; lia|done|by destruct (StronglySorted_inv Hn)|].
    rewrite !count_app, !count_cons, !count_nil. lia.
  - edestruct (IH old' [] inc (out ++ [o])) as [-> ->]; [simpl; lia|by destruct (StronglySorted_inv Ho)|done|].
    rewrite !count_app, !count_cons, !count_nil. lia.
  - pose proof (proj1 (StronglySorted_inv Ho)) as Ho'. pose proof (proj1 (StronglySorted_inv Hn)) as Hn'.
    destruct (N.eqb_spec o n) as [->|Hne]; [|destruct (N.ltb_spec o n) as [Hlt|Hge]].
    + edestruct (IH old' new' inc out) as [-> ->]; [lia|done|done|]. rewrite !count_cons. case_decide; lia.
    + edestruct (IH old' (n :: new') inc (out ++ [o])) as [-> ->]; [simpl; lia|done|done|].
      rewrite !count_app, (count_cons w o old'). pose proof (count_sorted_below o n new' Hn Hlt).
      rewrite (count_cons w o []), count_nil. case_decide; subst; lia.
    + edestruct (IH (o :: old') new' (inc ++ [n]) out) as [-> ->]; [simpl; lia|done|done|].
      rewrite !count_app, (count_cons w n new'). pose proof (count_sorted_below n o old' Ho ltac:(lia)).
      rewrite (count_cons w n []), count_nil. case_decide; subst; lia.
Qed.
End Lists.

(** What is outgoing between sorted lists. *)
Lemma outgoing_spec new old w :
  StronglySorted N.le old -> StronglySorted N.le new ->
  w ∈ (compute_members_diff_sorted new old).2 <-> (count w new < count w old)%nat.
Proof.
  intros Ho Hn. rewrite <- count_pos. unfold compute_members_diff_sorted.
  destruct (diff_loop_spec (length new + length old) old new [] [] w) as [_ ->]; [lia|done|done|].
  rewrite count_nil. lia.
Qed.

(** Sorted or not, an old member is in the new list or outgoing. *)
Lemma diff_loop_covers fuel old new inc out w :
  (length old + length new <= fuel)%nat -> w ∈ old \/ w ∈ out ->
  w ∈ new \/ w ∈ (diff_loop fuel old new inc out).2.
Proof.
  revert old new inc out. induction fuel as [|fuel IH]; intros old new inc out Hf Hw.
  { destruct old; simpl in *; [set_solver|lia]. }
  destruct old as [|o old'], new as [|n new']; simpl in Hf; cbn [diff_loop].
  - set_solver.
  - destruct (IH [] new' (inc ++ [n]) out); [simpl; lia|done|set_solver|by right].
  - apply IH; [simpl; lia|set_solver].
  - destruct (N.eqb_spec o n) as [->|Hne]; [|destruct (N.ltb_spec o n)].
    + destruct (decide (w = n)) as [->|]; [set_solver|].
      destruct (IH old' new' inc out); [lia|set_solver|set_solver|by right].
    + apply IH; [simpl; lia|set_solver].
    + destruct (IH (o :: old') new' (inc ++ [n]) out); [simpl; lia|done|set_solver|by right].
Qed.

Lemma outgoing_member new old w :
  w ∈ old -> w ∉ (compute_members_diff_sorted new old).2 -> w ∈ new.
Proof.
  intros Hw Hout. destruct (diff_loop_covers (length new + length old) old new [] [] w); [lia|by left|done|done].
Qed.

Section MapLists.
Context {A B : Type} (f : A -> B).

Lemma retain_fmap (p : B -> bool) (l : list A) : retain p (f <$> l) = f <$> retain (fun x => p (f x)) l.
Proof.
  induction l as [|x l IH]; [done|]. rewrite fmap_cons. cbn [retain].
  destruct (p (f x)); by rewrite ?fmap_cons, IH.
Qed.

Lemma swap_remove_fmap i (l : list A) : swap_remove i (f <$> l) = (fun k : list A => f <$> k) <$> swap_remove i l.
Proof.
  unfold swap_remove. rewrite list_lookup_fmap, fmap_last.
  destruct (l !! i), (last l); simpl; try done. by rewrite length_fmap, <- list_fmap_insert, fmap_take.
Qed.
End MapLists.

(** The votes of two sides, without those of the outgoing. *)
Lemma NoDup_retain_app {A} (p : A -> bool) l k : NoDup (l ++ k) -> NoDup (retain p l ++ retain p k).
Proof. intros Hn. eapply sublist_NoDup; [exact Hn|]. apply sublist_app; apply retain_sublist. Qed.

Lemma retain_all {A} (p : A -> bool) l : (forall x, x ∈ l -> p x = true) -> retain p l = l.
Proof.
  induction l as [|x l IH]; intros Hp; simpl; [done|]. rewrite Hp by left. f_equal. apply IH. intros y Hy. apply Hp. by right.
Qed.

(** The entries of all but one voter. *)
Definition others who (l : list (AccountId * Z)) : list (AccountId * Z) :=
  retain (fun p => negb (p.1 =? who)%N) l.

(** [swap_remove] of a voter's position takes its entry out. *)
Lemma swap_remove_voter who (l : list (AccountId * Z)) pos :
  NoDup l.*1 -> position (fun a => (a =? who)%N) l.*1 = Some pos ->
  exists l', swap_remove pos l = Some l' /\ swap_remove pos l.*1 = Some l'.*1 /\ l' ≡ₚ others who l.
Proof.
  intros Hn (w & Hw & ->%N.eqb_eq)%position_Some. rewrite list_lookup_fmap in Hw.
  destruct (l !! pos) as [[w q]|] eqn:Hl; simpl in Hw; simplify_eq.
  destruct (swap_remove_is_Some _ _ _ Hl) as [l' Hl']. exists l'. rewrite swap_remove_fmap, Hl'. split_and!; [done|done|].
  pose proof (swap_remove_perm _ _ _ _ Hl Hl') as Hp. unfold others. rewrite (retain_Permutation _ _ _ Hp). simpl.
  rewrite N.eqb_refl. simpl. rewrite retain_all; [done|]. intros [v x] Hv. simpl.
  rewrite Hp in Hn. simpl in Hn. apply NoDup_cons in Hn as [Hn _].
  apply negb_true_iff, N.eqb_neq. intros ->. apply Hn, list_elem_of_fmap. by exists (who, x).
Qed.

Lemma others_absent who l : who ∉ l.*1 -> others who l = l.
Proof.
  intros Hw. apply retain_all. intros [v x] Hv. simpl. apply negb_true_iff, N.eqb_neq. intros ->.
  apply Hw, list_elem_of_fmap. by exists (who, x).
Qed.

(* ===================================================================== *)
(** ** The invariant *)
Section Invariant.
Context {P : Profile} {X Call ME : Type} {RT : CouncilRuntime X Call ME} {CO : CouncilConstants}.
Local Abbreviation MC := (M (CouncilState X Call) (DispatchError ME)).
Implicit Types (s t : CouncilState X Call) (h : Hash) (w who : AccountId) (v : Votes).

(** The votes of a motion: the accounts and the powers are of the same voters,
    each votes once, on one side, and is a member. *)
Record VotesOk (members : list AccountId) v : Prop := {
  vo_ayes : v_ayes v = (v_ayes_power v).*1;
  vo_nays : v_nays v = (v_nays_power v).*1;
  vo_once : NoDup (v_ayes v ++ v_nays v);
  vo_member : forall w, w ∈ v_ayes v ++ v_nays v -> w ∈ members;
  vo_power : forall p, p ∈ v_ayes_power v ++ v_nays_power v -> in_range U32 p.2
}.

(** The three stores of the motions agree. *)
Record CouncilInv s : Prop := {
  ci_once : NoDup (Proposals s);
  ci_bound : Z.of_nat (length (Proposals s)) <= Z.max 0 MaxProposals;
  ci_stored : forall h, h ∈ Proposals s <-> is_Some (ProposalOf s !! h);
  ci_voting : forall h, h ∈ Proposals s <-> is_Some (Voting s !! h);
  ci_hash : forall h c, ProposalOf s !! h = Some c -> hash_of c = h;
  ci_votes : forall h v, Voting s !! h = Some v -> VotesOk (Members s) v
}.

(** A change of nothing the invariant speaks of. *)
Lemma CouncilInv_frame s t :
  CouncilInv s -> Proposals t = Proposals s -> ProposalOf t = ProposalOf s -> Voting t = Voting s ->
  Members t = Members s -> CouncilInv t.
Proof. intros [H1 H2 H3 H4 H5 H6] E1 E2 E3 E4. split; rewrite ?E1, ?E2, ?E3, ?E4; done. Qed.

(** One motion less. *)
Lemma CouncilInv_remove h s t :
  CouncilInv s -> Proposals t = retain (fun x => negb (x =? h)%N) (Proposals s) ->
  ProposalOf t = delete h (ProposalOf s) -> Voting t = delete h (Voting s) -> Members t = Members s ->
  CouncilInv t.
Proof.
  intros [H1 H2 H3 H4 H5 H6] E1 E2 E3 E4.
  assert (forall A (m : gmap Hash A) x, (x ∈ Proposals s <-> is_Some (m !! x)) ->
    (x ∈ Proposals t <-> is_Some (delete h m !! x))) as Hd.
  { intros A m x Hx. rewrite E1, elem_of_retain, Hx, lookup_delete_is_Some, negb_true_iff, N.eqb_neq. naive_solver. }
  split; rewrite ?E2, ?E3, ?E4; try done.
  - rewrite E1. by eapply sublist_NoDup; [|apply retain_sublist].
  - rewrite E1. pose proof (length_retain (fun x => negb (x =? h)%N) (Proposals s)). lia.
  - intros x. by apply Hd.
  - intros x. by apply Hd.
  - intros x c [_ Hx]%lookup_delete_Some. by apply H5.
  - intros x v [_ Hx]%lookup_delete_Some. by eapply H6.
Qed.

(** New votes on a motion. *)
Lemma CouncilInv_vote h v v' s t :
  CouncilInv s -> Voting s !! h = Some v -> VotesOk (Members s) v' ->
  Proposals t = Proposals s -> ProposalOf t = ProposalOf s -> Voting t = <[h := v']> (Voting s) ->
  Members t = Members s -> CouncilInv t.
Proof.
  intros [H1 H2 H3 H4 H5 H6] Hv Hok E1 E2 E3 E4. split; rewrite ?E1, ?E2, ?E4; try done.
  - intros x. rewrite E3, H4. destruct (decide (x = h)) as [->|Hne].
    + rewrite lookup_insert_eq, Hv. split; eauto.
    + by rewrite lookup_insert_ne.
  - intros x u. rewrite E3. intros [[<- <-]|[_ Hx]]%lookup_insert_Some; [done|by eapply H6].
Qed.

(* --------------------------------------------------------------------- *)
(** *** Votes *)

(** [v'] is [v] with an aye of [who], and no nay of them. *)
Record aye_cast who (power : Z) v v' : Prop := {
  ac_index : v_index v' = v_index v;
  ac_threshold : v_threshold v' = v_threshold v;
  ac_end : v_end v' = v_end v;
  ac_ayes : v_ayes_power v' = v_ayes_power v ++ [(who, power)];
  ac_nays : v_nays_power v' ≡ₚ others who (v_nays_power v)
}.

Lemma VotesOk_aye members who power v v' :
  VotesOk members v -> who ∈ members -> who ∉ v_ayes v -> in_range U32 power ->
  v_ayes v' = v_ayes v ++ [who] -> v_nays v' = (v_nays_power v').*1 -> aye_cast who power v v' ->
  VotesOk members v'.
Proof.
  intros [H1 H2 H3 H4 H5] Hm Hw Hp Ea En [_ _ _ Hay Hna].
  assert (forall p, p ∈ v_nays_power v' -> p ∈ v_nays_power v /\ p.1 <> who) as Hsub.
  { intros p. rewrite Hna. unfold others. rewrite elem_of_retain, negb_true_iff, N.eqb_neq. done. }
  assert (forall w, w ∈ v_nays v' -> w ∈ v_nays v /\ w <> who) as Hn'.
  { intros w. rewrite En, H2, !list_elem_of_fmap. intros (p & -> & Hpp). destruct (Hsub _ Hpp). naive_solver. }
  apply NoDup_app in H3 as (N1 & N2 & N3). split.
  - by rewrite Ea, Hay, fmap_app, H1.
  - done.
  - rewrite Ea. apply NoDup_app. split_and!.
    + apply NoDup_app. split_and!; [done|set_solver|apply NoDup_singleton].
    + intros w Hw' Hn. destruct (Hn' _ Hn). set_solver.
    + rewrite En, Hna. unfold others. rewrite <- (retain_fmap fst (fun w => negb (w =? who)%N)), <- H2.
      by eapply sublist_NoDup; [|apply retain_sublist].
  - intros w. rewrite Ea, !elem_of_app. intros [[Hw'| ->%list_elem_of_singleton]|Hn]; [apply H4; set_solver|done|].
    apply H4. destruct (Hn' _ Hn). set_solver.
  - intros p. rewrite Hay, !elem_of_app. intros [[Hpp| ->%list_elem_of_singleton]|Hpp]; [apply H5; set_solver|done|].
    apply H5. destruct (Hsub _ Hpp). set_solver.
Qed.

Lemma wp_cast_aye members who power v s (X' : DispatchError ME -> _) :
  VotesOk members v -> who ∈ members -> who ∉ v_ayes v -> in_range U32 power ->
  wp (cast_aye who power (position (fun a => (a =? who)%N) (v_nays v)) v)
    (fun v' t => t = s /\ VotesOk members v' /\ aye_cast who power v v') X' s.
Proof.
  intros Hv Hm Hw Hp. pose proof Hv as [H1 H2 H3 _ _]. apply NoDup_app in H3 as (_ & _ & N3).
  unfold cast_aye. rewrite H2. destruct (position _ _) as [pos|] eqn:Hpos.
  - destruct (swap_remove_voter who (v_nays_power v) pos) as (l & E1 & E2 & Hl); [by rewrite <- H2|done|].
    simpl. rewrite H2, E1, E2. apply wp_ret. assert (aye_cast who power v
      (set_nays l.*1 l (set_ayes (v_ayes v ++ [who]) (v_ayes_power v ++ [(who, power)]) v))) as Hc by done.
    split_and!; [done|by eapply VotesOk_aye|done].
  - assert (aye_cast who power v (set_ayes (v_ayes v ++ [who]) (v_ayes_power v ++ [(who, power)]) v)) as Hc.
    { split; try done. simpl. rewrite others_absent; [done|]. intros Hin.
      pose proof (position_None _ _ Hpos _ Hin) as Hf. by apply N.eqb_neq in Hf. }
    apply wp_ret. split_and!; [done|by eapply VotesOk_aye|done].
Qed.

(** Nays are ayes with the sides swapped. *)
Definition swap_sides v : Votes :=
  mkVotes (v_index v) (v_threshold v) (v_nays v) (v_nays_power v) (v_ayes v) (v_ayes_power v) (v_end v).

Lemma swap_sides_twice v : swap_sides (swap_sides v) = v.
Proof. by destruct v. Qed.

Lemma VotesOk_swap members v : VotesOk members v -> VotesOk members (swap_sides v).
Proof.
  intros [H1 H2 H3 H4 H5]. split; simpl; try done.
  - by rewrite Permutation_app_comm.
  - intros w. rewrite Permutation_app_comm. apply H4.
  - intros p. rewrite Permutation_app_comm. apply H5.
Qed.

(** The votes after [who] approves or not. *)
Definition vote_cast (approve : bool) who (power : Z) v v' : Prop :=
  if approve then aye_cast who power v v' else aye_cast who power (swap_sides v) (swap_sides v').

Lemma wp_cast_nay members who power v s (X' : DispatchError ME -> _) :
  VotesOk members v -> who ∈ members -> who ∉ v_nays v -> in_range U32 power ->
  wp (cast_nay who power (position (fun a => (a =? who)%N) (v_ayes v)) v)
    (fun v' t => t = s /\ VotesOk members v' /\ vote_cast false who power v v') X' s.
Proof.
  intros Hv Hm Hw Hp.
  pose proof (wp_cast_aye members who power (swap_sides v) s X' (VotesOk_swap _ _ Hv) Hm Hw Hp) as Ha.
  unfold wp, cast_aye, cast_nay in *. simpl in *. revert Ha.
  destruct (position _ (v_ayes v)) as [pos|]; simpl.
  - unfold bind, unwrap, ret, panic. destruct (swap_remove pos (v_ayes v)), (swap_remove pos (v_ayes_power v)); try done.
    intros (_ & Hok & Hc). split_and!; [done| |done]. by apply VotesOk_swap in Hok.
  - intros (_ & Hok & Hc). split_and!; [done| |done]. by apply VotesOk_swap in Hok.
Qed.

Lemma try_into_u32_Some x y : try_into_u32 x = Some y -> y = x /\ in_range U32 x.
Proof. unfold try_into_u32, in_range. destruct (_ && _) eqn:Hb; [|done]. intros [= <-]. lia. Qed.

Lemma position_absent who l : position (fun a => (a =? who)%N) l = None <-> who ∉ l.
Proof.
  split.
  - intros Hp Hw. pose proof (position_None _ _ Hp _ Hw) as Hf. by apply N.eqb_neq in Hf.
  - intros Hw. destruct (position _ l) as [i|] eqn:Hp; [|done].
    destruct (position_Some _ _ _ Hp) as (x & Hx & ->%N.eqb_eq). by apply list_elem_of_lookup_2 in Hx.
Qed.
End Invariant.
