(* ===== verification/CouncilCorrect.v ===== *)
(** * pallet_council: every call keeps the invariant

    The contract of the runtime's calls, and the effect of each operation of
    the council on the state. *)

From S2P Require Import Prelude System Council CouncilFacts.

Set Default Proof Using "Type".

(** Events are recorded, the default vote reads only, and the calls of the
    runtime keep the council coherent. *)
Class CouncilRuntimeOk {X Call ME : Type} {RT : CouncilRuntime X Call ME} {CO : CouncilConstants} := {
  ok_council_event e x : wp (council_event e) (fun _ _ => True) (fun _ _ => False) x;
  ok_default_vote o y n l s : wlp (default_vote o y n l) (fun _ t => t = s) (fun _ _ => False) s;
  ok_dispatch_call o c : keeps CouncilInv (dispatch_call o c)
}.
#[global] Arguments CouncilRuntimeOk X Call ME {RT CO}.

Section Correct.
Context {P : Profile} {X Call ME : Type} {RT : CouncilRuntime X Call ME} {CO : CouncilConstants}.
Context {RO : CouncilRuntimeOk X Call ME}.
Local Abbreviation MC := (M (CouncilState X Call) (DispatchError ME)).
Implicit Types (s t : CouncilState X Call) (h : Hash) (w who : AccountId) (v : Votes).

(** [t] is [s] but for the other pallets. *)
Definition below_changed s t : Prop := exists x, t = set_rest x s.

Lemma below_changed_inv s t : CouncilInv s -> below_changed s t -> CouncilInv t.
Proof. intros Hs [x ->]. by eapply CouncilInv_frame. Qed.

Lemma wp_deposit e s (Q : unit -> CouncilState X Call -> Prop) (R : DispatchError ME -> _) :
  (forall x, Q tt (set_rest x s)) -> wp (deposit e) Q R s.
Proof using RO. intros HQ. apply wp_zoom. eapply wp_mono; [apply ok_council_event| |done]. by intros [] x _. Qed.

Lemma wlp_deposit e s (Q : unit -> CouncilState X Call -> Prop) (R : DispatchError ME -> _) :
  (forall x, Q tt (set_rest x s)) -> wlp (deposit e) Q R s.
Proof using RO. intros HQ. by apply wp_wlp, wp_deposit. Qed.

(* --------------------------------------------------------------------- *)
(** *** Sums *)

Definition power_sum (l : list (AccountId * Z)) : Z := foldr (fun p acc => p.2 + acc) 0 l.

Lemma power_sum_nonneg l : (forall p, p ∈ l -> 0 <= p.2) -> 0 <= power_sum l.
Proof.
  induction l as [|p l IH]; simpl; intros Hp; [done|].
  pose proof (Hp p ltac:(left)). specialize (IH ltac:(intros; apply Hp; by right)). lia.
Qed.

Lemma power_sum_app l k : power_sum (l ++ k) = power_sum l + power_sum k.
Proof. induction l as [|p l IH]; simpl; [lia|]. rewrite IH. lia. Qed.

Lemma power_sum_Permutation l k : l ≡ₚ k -> power_sum l = power_sum k.
Proof. induction 1; simpl; lia. Qed.

Lemma wlp_sum_power acc l s (Q : Z -> CouncilState X Call -> Prop) (R : DispatchError ME -> _) :
  (forall x, Q x s) -> wlp (sum_power acc l) Q R s.
Proof.
  intros HQ. revert acc. induction l as [|p l IH]; intros acc; simpl; wlp_steps; auto.
Qed.

(** The loop adds, when the sum fits. *)
Lemma wp_sum_power acc l s (Q : Z -> CouncilState X Call -> Prop) (R : DispatchError ME -> _) :
  (forall p, p ∈ l -> 0 <= p.2) -> 0 <= acc -> acc + power_sum l < U32 ->
  Q (acc + power_sum l) s -> wp (sum_power acc l) Q R s.
Proof.
  revert acc. induction l as [|p l IH]; intros acc Hp Ha Hf HQ; simpl in *.
  - rewrite Z.add_0_r in HQ. by apply wp_ret.
  - pose proof (Hp p ltac:(left)). pose proof (power_sum_nonneg l ltac:(intros; apply Hp; by right)).
    apply wp_bind, wp_arith; [lia|]. apply IH; [intros; apply Hp; by right|lia|lia|]. by rewrite <- Z.add_assoc.
Qed.

(** The tokens of the members together. *)
Definition tokens_of s who : Z := token_balance (GovTokenId s) who (rest s).
Definition tokens_sum s (l : list AccountId) : Z := foldr (fun w acc => tokens_of s w + acc) 0 l.

Lemma tokens_sum_nonneg s l : (forall w, w ∈ l -> 0 <= tokens_of s w) -> 0 <= tokens_sum s l.
Proof.
  induction l as [|p l IH]; simpl; intros Hp; [done|].
  pose proof (Hp p ltac:(left)). specialize (IH ltac:(intros; apply Hp; by right)). lia.
Qed.

Lemma wlp_sum_tokens acc l s (Q : Z -> CouncilState X Call -> Prop) (R : DispatchError ME -> _) :
  (forall x, Q x s) -> wlp (sum_tokens acc l) Q R s.
Proof. intros HQ. revert acc. induction l as [|w l IH]; intros acc; simpl; wlp_steps; auto. Qed.

Lemma wp_sum_tokens acc l s (Q : Z -> CouncilState X Call -> Prop) (R : DispatchError ME -> _) :
  (forall w, w ∈ l -> 0 <= tokens_of s w) -> 0 <= acc -> acc + tokens_sum s l < U32 ->
  Q (acc + tokens_sum s l) s -> wp (sum_tokens acc l) Q R s.
Proof.
  revert acc. induction l as [|w l IH]; intros acc Hp Ha Hf HQ; simpl in *.
  - rewrite Z.add_0_r in HQ. by apply wp_ret.
  - pose proof (Hp w ltac:(left)). pose proof (tokens_sum_nonneg s l ltac:(intros; apply Hp; by right)).
    apply wp_bind, wp_gets, wp_bind. fold (tokens_of s w).
    apply (wp_unwrap _ _ _ _ (tokens_of s w)).
    { unfold try_into_u32. by replace (_ && _) with true by lia. }
    apply wp_bind, wp_arith; [lia|]. apply IH; [intros; apply Hp; by right|lia|lia|]. by rewrite <- Z.add_assoc.
Qed.

(* --------------------------------------------------------------------- *)
(** *** The end of a motion *)

(** [s] without the motion. *)
Definition without h s : CouncilState X Call :=
  set_Proposals (retain (fun x => negb (x =? h)%N) (Proposals s))
    (set_Voting (delete h (Voting s)) (set_ProposalOf (delete h (ProposalOf s)) s)).

Lemma without_inv h s : CouncilInv s -> CouncilInv (without h s).
Proof. intros Hs. by eapply (CouncilInv_remove h). Qed.

Lemma remove_proposal_eq h s :
  remove_proposal h s = Ok (cast U32 (Z.of_nat (length (Proposals (without h s))) + 1)) (without h s) :> outcome _ (DispatchError ME) _.
Proof. done. Qed.

Lemma keeps_dispatch_result o c : keeps CouncilInv (result_of (dispatch_call o c)).
Proof using RO. intros s Hs. apply wlp_result_of, ok_dispatch_call, Hs. Qed.

Lemma do_approve_keeps h c : keeps CouncilInv (do_approve_proposal h c).
Proof using RO.
  intros s Hs. unfold do_approve_proposal. wlp_steps. apply wlp_deposit. intros x. wlp_steps.
  assert (CouncilInv (set_rest x s)) as Hx by (eapply below_changed_inv; [exact Hs|by exists x]).
  eapply wlp_mono; [by apply ok_dispatch_call|..]; intros r t Ht; wlp_steps; apply wlp_deposit; intros y;
    apply wp_wlp; unfold wp; rewrite remove_proposal_eq; apply without_inv; eapply below_changed_inv; [exact Ht|by exists y|exact Ht|by exists y].
Qed.

Lemma do_disapprove_keeps h : keeps CouncilInv (do_disapprove_proposal h).
Proof using RO.
  intros s Hs. unfold do_disapprove_proposal. wlp_steps. apply wlp_deposit. intros x.
  apply wp_wlp. unfold wp. rewrite remove_proposal_eq. apply without_inv. eapply below_changed_inv; [exact Hs|by exists x].
Qed.

(* --------------------------------------------------------------------- *)
(** *** The members *)

Lemma wp_drop_all out l s (R : DispatchError ME -> _) :
  NoDup l ->
  wp (for_each l (fun h => modify (fun s => set_Voting (alter (drop_votes out) h (Voting s)) s)))
    (fun _ t => exists m, t = set_Voting m s /\
       forall h, m !! h = if decide (h ∈ l) then drop_votes out <$> Voting s !! h else Voting s !! h) R s.
Proof using RT RO CO.
  revert s. induction l as [|x l IH]; intros s Hn; simpl.
  - apply wp_ret. exists (Voting s). by destruct s.
  - apply NoDup_cons in Hn as [Hx Hn]. apply wp_bind, wp_modify. eapply wp_mono; [by apply IH| |done].
    intros [] t (m & -> & Hm). exists m. split; [done|]. intros h. rewrite Hm. simpl.
    destruct (decide (h = x)) as [->|Hne].
    + rewrite decide_False, decide_True by set_solver. by rewrite lookup_alter_eq.
    + rewrite lookup_alter_ne by done. repeat case_decide; set_solver.
Qed.

Lemma VotesOk_drop new old v :
  VotesOk old v ->
  VotesOk new (drop_votes (sort_accounts (compute_members_diff_sorted new old).2) v).
Proof.
  intros [H1 H2 H3 H4 H5]. set (out := (compute_members_diff_sorted new old).2).
  split; simpl.
  - rewrite H1. apply (retain_fmap fst (fun w => negb (is_outgoing (sort_accounts out) w))).
  - rewrite H2. apply (retain_fmap fst (fun w => negb (is_outgoing (sort_accounts out) w))).
  - by apply NoDup_retain_app.
  - intros w Hw. assert (w ∈ v_ayes v ++ v_nays v /\ w ∉ out) as [Hin Hout].
    { rewrite elem_of_app in Hw. rewrite !elem_of_retain, is_outgoing_spec, negb_true_iff, bool_decide_eq_false in Hw.
      rewrite elem_of_app. tauto. }
    by eapply outgoing_member; [apply H4|].
  - intros p Hp. apply H5. rewrite elem_of_app, !elem_of_retain in Hp. rewrite elem_of_app. tauto.
Qed.

(** The members are replaced, and the votes of those who left dropped. *)
Lemma wp_set_members_sorted new s (Q : unit -> CouncilState X Call -> Prop) (R : DispatchError ME -> _) :
  CouncilInv s ->
  (forall m, (forall h, m !! h = drop_votes (sort_accounts (compute_members_diff_sorted new (Members s)).2) <$> Voting s !! h) ->
     Q tt (set_Prime None (set_Members new (set_Voting m s)))) ->
  wp (set_members_sorted new (Members s)) Q R s.
Proof using RO.
  intros Hs HQ. unfold set_members_sorted, change_members_sorted.
  destruct (compute_members_diff_sorted new (Members s)) as [inc out] eqn:Hd. simpl in HQ.
  wp_steps. eapply wp_mono; [apply wp_drop_all, (ci_once _ Hs)| |done]. intros [] t (m & -> & Hm). wp_steps.
  apply HQ. intros h. rewrite Hm. case_decide as Hin; [done|].
  rewrite (ci_voting _ Hs) in Hin. destruct (Voting s !! h) eqn:Hv; [|done]. destruct Hin. eauto.
Qed.

Lemma CouncilInv_members new m s t :
  CouncilInv s ->
  (forall h, m !! h = drop_votes (sort_accounts (compute_members_diff_sorted new (Members s)).2) <$> Voting s !! h) ->
  Proposals t = Proposals s -> ProposalOf t = ProposalOf s -> Voting t = m -> Members t = new -> CouncilInv t.
Proof.
  intros [H1 H2 H3 H4 H5 H6] Hm E1 E2 E3 E4. split; rewrite ?E1, ?E2, ?E3, ?E4; try done.
  - intros h. by rewrite Hm, fmap_is_Some.
  - intros h v. rewrite Hm. intros (u & Hu & ->)%fmap_Some. apply VotesOk_drop. by eapply H6.
Qed.

Lemma wp_set_members o new prime s (Q : Pays -> CouncilState X Call -> Prop) (R : DispatchError ME -> _) :
  CouncilInv s ->
  (forall m t, o = Root ->
     (forall h, m !! h = drop_votes (sort_accounts (compute_members_diff_sorted (sort_accounts new) (Members s)).2) <$> Voting s !! h) ->
     t = set_Prime prime (set_Members (sort_accounts new) (set_Voting m s)) -> CouncilInv t -> Q PaysYes t) ->
  (forall e, R e s) -> wp (set_members o new prime) Q R s.
Proof using RO.
  intros Hs HQ HR. unfold set_members. wp_steps. destruct o; simpl; wp_steps; auto.
  apply wp_set_members_sorted; [done|]. intros m Hm. wp_steps. eapply HQ; [done|exact Hm|done|].
  eapply CouncilInv_members; [exact Hs|exact Hm|done..].
Qed.

(* --------------------------------------------------------------------- *)
(** *** Voting *)

(** [vote] of [who]: the power recorded, and their vote on the motion. *)
Record vote_done who h (index : Z) (approve : bool) (pays : Pays) s t : Prop := {
  vd_inv : CouncilInv t;
  vd_member : who ∈ Members s;
  vd_power : VotingPower t = <[who := tokens_of s who]> (VotingPower s);
  vd_votes : exists v v', Voting s !! h = Some v /\ v_index v = index /\
    Voting t = <[h := v']> (Voting s) /\ vote_cast approve who (tokens_of s who) v v' /\
    who ∉ (if approve then v_ayes v else v_nays v) /\
    pays = (if bool_decide (who ∉ v_ayes v ++ v_nays v) then PaysNo else PaysYes);
  vd_rest : Proposals t = Proposals s /\ ProposalOf t = ProposalOf s /\ Members t = Members s /\
    Prime t = Prime s /\ GovTokenId t = GovTokenId s /\ ProposalCount t = ProposalCount s
}.

(** The votes of one side, by the branch of [vote]. *)
Lemma wp_cast approve who power v s (Q : Votes -> CouncilState X Call -> Prop) (R : DispatchError ME -> _) :
  VotesOk (Members s) v -> who ∈ Members s -> in_range U32 power ->
  (forall v', VotesOk (Members s) v' -> vote_cast approve who power v v' ->
     who ∉ (if approve then v_ayes v else v_nays v) -> Q v' s) ->
  (who ∈ (if approve then v_ayes v else v_nays v) -> R (council_err DuplicateVote) s) ->
  wp (if approve then
         ensure (bool_decide (position (fun a => (a =? who)%N) (v_ayes v) = None)) (council_err DuplicateVote) ;;
         cast_aye who power (position (fun a => (a =? who)%N) (v_nays v)) v
       else
         ensure (bool_decide (position (fun a => (a =? who)%N) (v_nays v) = None)) (council_err DuplicateVote) ;;
         cast_nay who power (position (fun a => (a =? who)%N) (v_ayes v)) v) Q R s.
Proof.
  intros Hv Hm Hp HQ HR. destruct approve; wp_steps.
  - apply bool_decide_eq_true, position_absent in H.
    eapply wp_mono; [by apply (wp_cast_aye (Members s) who power v s (fun _ _ => False))| |done]. intros v' t (-> & Hok & Hc). auto.
  - apply bool_decide_eq_false in H. rewrite position_absent in H. apply HR. by apply dec_stable.
  - apply bool_decide_eq_true, position_absent in H.
    eapply wp_mono; [by apply (wp_cast_nay (Members s) who power v s (fun _ _ => False))| |done]. intros v' t (-> & Hok & Hc). auto.
  - apply bool_decide_eq_false in H. rewrite position_absent in H. apply HR. by apply dec_stable.
Qed.

Lemma first_vote who v :
  bool_decide (position (fun a => (a =? who)%N) (v_ayes v) = None) &&
  bool_decide (position (fun a => (a =? who)%N) (v_nays v) = None) = bool_decide (who ∉ v_ayes v ++ v_nays v).
Proof.
  rewrite <- bool_decide_and. apply bool_decide_ext. rewrite !position_absent, elem_of_app. tauto.
Qed.

(** Two of the branch's sums. *)
Lemma power_sum_others who l : (forall p, p ∈ l -> 0 <= p.2) -> power_sum (others who l) <= power_sum l.
Proof.
  induction l as [|p l IH]; simpl; intros Hp; [done|].
  pose proof (Hp p ltac:(left)). specialize (IH ltac:(intros; apply Hp; by right)).
  unfold others in *. simpl. destruct (negb (p.1 =? who)%N); simpl; lia.
Qed.

(** The powers of both sides after a vote. *)
Lemma vote_cast_sums approve who power v v' :
  (forall p, p ∈ v_ayes_power v ++ v_nays_power v -> in_range U32 p.2) -> 0 <= power ->
  vote_cast approve who power v v' ->
  power_sum (v_ayes_power v') <= power_sum (v_ayes_power v) + power /\
  power_sum (v_nays_power v') <= power_sum (v_nays_power v) + power.
Proof using X RT RO ME Call CO.
  intros Hp H0 Hc.
  assert (forall l, (forall p, p ∈ l -> p ∈ v_ayes_power v ++ v_nays_power v) -> power_sum (others who l) <= power_sum l) as Ho.
  { intros l Hl. apply power_sum_others. intros p Hin. by destruct (Hp p (Hl p Hin)). }
  destruct approve, Hc as [_ _ _ E1 E2]; simpl in E1, E2; rewrite E1, power_sum_app, (power_sum_Permutation _ _ E2); simpl.
  - specialize (Ho (v_nays_power v) ltac:(set_solver)). lia.
  - specialize (Ho (v_ayes_power v) ltac:(set_solver)). lia.
Qed.

Lemma vote_done_intro who h approve v v' x s :
  CouncilInv s -> who ∈ Members s -> Voting s !! h = Some v -> VotesOk (Members s) v' ->
  vote_cast approve who (tokens_of s who) v v' -> who ∉ (if approve then v_ayes v else v_nays v) ->
  vote_done who h (v_index v) approve (if bool_decide (who ∉ v_ayes v ++ v_nays v) then PaysNo else PaysYes) s
    (set_Voting (<[h := v']> (Voting s)) (set_rest x (set_VotingPower (<[who := tokens_of s who]> (VotingPower s)) s))).
Proof.
  intros Hs Hm Hv Hok Hc Hno. split; [|done|done| |done].
  - by eapply (CouncilInv_vote h v v' s).
  - by exists v, v'.
Qed.

Lemma wlp_vote o h index approve s (Q : Pays -> CouncilState X Call -> Prop) (R : DispatchError ME -> _) :
  CouncilInv s ->
  (forall who pays t, o = Signed who -> vote_done who h index approve pays s t -> Q pays t) ->
  (forall e, R e s) ->
  (forall e who p, o = Signed who -> who ∈ Members s -> R e (set_VotingPower (<[who := p]> (VotingPower s)) s)) ->
  wlp (vote o h index approve) Q R s.
Proof using RO.
  intros Hs HQ HR HR'. unfold vote. destruct o as [| who|]; simpl; wlp_steps; try apply HR.
  all: apply contains_true in H; try by apply HR'.
  apply try_into_u32_Some in H0 as [-> Hp]. fold (tokens_of s who) in *. simpl in *.
  apply wp_wlp, wp_cast; [by eapply (ci_votes _ Hs)|done|done| |by intros; apply HR'].
  intros v' Hok Hc Hno. wlp_steps. apply wlp_sum_power. intros yes. wlp_steps. apply wlp_sum_power. intros no.
  wlp_steps. apply wlp_deposit. intros x. wlp_steps. rewrite first_vote.
  eapply HQ; [done|]. apply Z.eqb_eq in H2 as <-. by apply (vote_done_intro who h approve a0 v' x s).
Qed.

(* --------------------------------------------------------------------- *)
(** *** All calls *)

Lemma execute_keeps o c bound : keeps CouncilInv (execute o c bound).
Proof using RO.
  intros s Hs. unfold execute. destruct o; simpl; wlp_steps; try done.
  eapply wlp_mono; [by apply ok_dispatch_call|..]; intros r t Ht; wlp_steps; apply wlp_deposit; intros x; wlp_steps;
    (eapply below_changed_inv; [exact Ht|by exists x]).
Qed.

(** A new motion. *)
Lemma CouncilInv_propose c v l s t :
  CouncilInv s -> ProposalOf s !! hash_of c = None -> try_push MaxProposals (Proposals s) (hash_of c) = Some l ->
  VotesOk (Members s) v -> Proposals t = l -> ProposalOf t = <[hash_of c := c]> (ProposalOf s) ->
  Voting t = <[hash_of c := v]> (Voting s) -> Members t = Members s -> CouncilInv t.
Proof using RO.
  intros [H1 H2 H3 H4 H5 H6] Hno Hl Hv E1 E2 E3 E4. unfold try_push in Hl.
  destruct (Z.ltb_spec (Z.of_nat (length (Proposals s))) MaxProposals) as [Hlt|]; [|done]. simplify_eq.
  assert (hash_of c ∉ Proposals s) as Hnew by (rewrite H3, Hno; by intros [? ?]).
  assert (forall A (m : gmap Hash A) a x, (x ∈ Proposals s <-> is_Some (m !! x)) ->
    (x ∈ Proposals s ++ [hash_of c] <-> is_Some (<[hash_of c := a]> m !! x))) as Hi.
  { intros A m a x Hx. rewrite elem_of_app, list_elem_of_singleton, Hx, lookup_insert_is_Some. destruct (decide (hash_of c = x)); naive_solver. }
  split; rewrite <- ?Hl, ?E2, ?E3, ?E4; try done.
  - apply NoDup_app. split_and!; [done|set_solver|apply NoDup_singleton].
  - rewrite length_app. simpl. lia.
  - intros x. by apply Hi.
  - intros x. by apply Hi.
  - intros x c'. intros [[<- <-]|[_ Hx]]%lookup_insert_Some; [done|by apply H5].
  - intros x u. intros [[<- <-]|[_ Hx]]%lookup_insert_Some; [done|by eapply H6].
Qed.

Lemma VotesOk_new members index threshold end_ : VotesOk members (mkVotes index threshold [] [] [] [] end_).
Proof using X RT RO ME Call CO. split; simpl; try done; [constructor|set_solver|set_solver]. Qed.

Lemma propose_keeps o threshold c bound : keeps CouncilInv (propose o threshold c bound).
Proof using RO.
  intros s Hs. unfold propose. destruct o; simpl; wlp_steps; try done.
  apply negb_true_iff, bool_decide_eq_false, eq_None_not_Some in H1. case_match; wlp_steps; try done.
  - eapply wlp_mono; [by apply ok_dispatch_call|..]; intros r t Ht; wlp_steps; apply wlp_deposit; intros x; wlp_steps;
      (eapply below_changed_inv; [exact Ht|by exists x]).
  - apply wlp_deposit. intros y. wlp_steps. eapply (CouncilInv_propose c); [exact Hs|exact H1|exact H3| |done..].
    apply VotesOk_new.
Qed.

Lemma close_approved_keeps h y n wb lb : keeps CouncilInv (close_approved h y n wb lb).
Proof using RO.
  intros s Hs. unfold close_approved, validate_and_get_proposal. wlp_steps; try done.
  apply wlp_deposit. intros x. wlp_steps. eapply wlp_mono; [apply do_approve_keeps|..].
  - eapply below_changed_inv; [exact Hs|by exists x].
  - intros r t Ht. by wlp_steps.
  - done.
Qed.

Lemma close_disapproved_keeps h y n : keeps CouncilInv (close_disapproved h y n).
Proof using RO.
  intros s Hs. unfold close_disapproved. wlp_steps. apply wlp_deposit. intros x. wlp_steps.
  eapply wlp_mono; [apply do_disapprove_keeps|..].
  - eapply below_changed_inv; [exact Hs|by exists x].
  - intros r t Ht. by wlp_steps.
  - done.
Qed.

Lemma decide_motion_keeps h v seats yes no q turnout wb lb :
  keeps CouncilInv (decide_motion h v seats yes no q turnout wb lb).
Proof using RO.
  intros s Hs. unfold decide_motion.
  case_match; [by apply close_approved_keeps|]. case_match; [by apply close_disapproved_keeps|]. wlp_steps; [|done].
  eapply wlp_mono; [apply ok_default_vote| |done]. intros d t ->. wlp_steps.
  destruct d; wlp_steps; (case_match; [by apply close_approved_keeps|by apply close_disapproved_keeps]).
Qed.

Lemma close_keeps o h index wb lb : keeps CouncilInv (close o h index wb lb).
Proof using RO.
  intros s Hs. unfold close, calculate_max_gov_tokens. destruct o as [|who|]; simpl; wlp_steps; try done.
  apply wlp_sum_power. intros yes. wlp_steps. apply wlp_sum_power. intros no. wlp_steps.
  apply wlp_sum_tokens. intros total. wlp_steps. by apply decide_motion_keeps.
Qed.

Lemma council_dispatch_keeps o c : keeps CouncilInv (council_dispatch o c).
Proof using RO.
  destruct c; simpl; auto using execute_keeps, propose_keeps, close_keeps; intros s Hs.
  - by apply wp_wlp, wp_set_members.
  - apply wlp_vote; [done|by intros who pays t _ []|done|]. intros e who p _ _. by eapply CouncilInv_frame.
  - unfold disapprove_proposal. destruct o; simpl; wlp_steps; try done.
    eapply wlp_mono; [by apply do_disapprove_keeps|..]; [|done]. intros r t Ht. by wlp_steps.
  - unfold set_gov_token_id. destruct o; simpl; wlp_steps; try done. by eapply CouncilInv_frame.
Qed.
End Correct.
