(* ===== verification/CouncilTheorems.v ===== *)
(** * pallet_council: what the council promises, and does not

    The storage stays coherent over every history; a motion is decided by its
    tally while it is open; a vote is recorded once; outsiders change nothing;
    a change of members keeps exactly the votes of those who stay.  After the
    end of a motion, though, the prime alone can carry it against the quorum,
    and a tie is approved. *)

From Stdlib Require Import Sorted.
From S2P Require Import Prelude System Council CouncilFacts CouncilCorrect.

Set Default Proof Using "Type".

Section Theorems.
Context {P : Profile} {X Call ME : Type} {RT : CouncilRuntime X Call ME} {CO : CouncilConstants}.
Context {RO : CouncilRuntimeOk X Call ME}.
Local Abbreviation MC := (M (CouncilState X Call) (DispatchError ME)).
Implicit Types (s t : CouncilState X Call) (h : Hash) (w who : AccountId) (v : Votes) (c : Call).

(* --------------------------------------------------------------------- *)
(** *** Histories *)

Definition no_council (x : X) : CouncilState X Call := mkCouncil x 0%N [] ∅ ∅ ∅ 0 [] None.

(** A call of the council by anybody, failed or not, or a step of the other
    pallets. *)
Inductive council_step : CouncilState X Call -> CouncilState X Call -> Prop :=
| council_step_ok o (c : CouncilCall Call) r s t : council_dispatch o c s = Ok r t -> council_step s t
| council_step_err o (c : CouncilCall Call) e s t : council_dispatch o c s = Err e t -> council_step s t
| council_step_other x s : council_step s (set_rest x s).

Lemma council_step_inv s t : CouncilInv s -> council_step s t -> CouncilInv t.
Proof using RO.
  intros Hs Hst. destruct Hst as [o c r s t He|o c e s t He|x s].
  - pose proof (council_dispatch_keeps o c s Hs) as Hk. unfold wlp in Hk. by rewrite He in Hk.
  - pose proof (council_dispatch_keeps o c s Hs) as Hk. unfold wlp in Hk. by rewrite He in Hk.
  - eapply below_changed_inv; [exact Hs|by exists x].
Qed.

Lemma genesis_council_inv members x s0 :
  genesis_build members (no_council x) = Ok tt s0 :> outcome _ (DispatchError ME) _ ->
  CouncilInv s0.
Proof using RO.
  unfold genesis_build, initialize_members, bind, assert.
  case_bool_decide; simpl; [|done]. assert (forall l, CouncilInv (set_Members l (no_council x))) as H0.
  { intros l. split; simpl; try done; [constructor|lia|..]; intros h; rewrite lookup_empty.
    - split; [set_solver|by intros [? ?]].
    - split; [set_solver|by intros [? ?]]. }
  case_bool_decide as Hmm; intros [= <-]; [apply (H0 [])|apply H0].
Qed.

(** C8: The council's storage is coherent.  From genesis, in
    every sequence of calls by anybody, failed ones included, interleaved
    with anything the other pallets do, the active motions are listed once, at
    most [MaxProposals] of them, each with its call, stored under its hash, and
    its votes; on every motion an account votes at most once and on one side,
    has its power recorded with the vote, and is a member. *)
Theorem council_stays_coherent members x s0 s :
  genesis_build members (no_council x) = Ok tt s0 :> outcome _ (DispatchError ME) _ ->
  rtc council_step s0 s -> CouncilInv s.
Proof using RO.
  intros Hg. apply (rtc_ind_r (fun t => CouncilInv t)); [by eapply genesis_council_inv|].
  intros y z _ Hyz Hy. by eapply council_step_inv.
Qed.

(** Outsiders change nothing.  A signed account that is no member cannot
    execute, propose or vote, and no signed account can set the members, drop a
    motion or choose the token: such a call returns an error and leaves the
    state as it was.  (Closing a motion is open to all.) *)
Theorem outsiders_are_refused who s (c : CouncilCall Call) :
  who ∉ Members s -> (forall h i wb lb, c <> Close h i wb lb) ->
  exists e, council_dispatch (Signed who) c s = Err e s.
Proof.
  intros Hw Hc. assert (contains who (Members s) = false) as Hn by (by apply contains_false).
  destruct c; simpl; [by eexists|..|by eexists|by eexists];
    try (exists (council_err NotMember); unfold execute, propose, vote; simpl; by run_with Hn).
  by destruct (Hc proposal_hash index proposal_weight_bound length_bound).
Qed.

(* --------------------------------------------------------------------- *)
(** *** The tally *)

Definition ayes_of v : Z := power_sum (v_ayes_power v).
Definition nays_of v : Z := power_sum (v_nays_power v).
Definition quorum s : Z := tokens_sum s (Members s) * 30 / 100.

(** The sums of the motion fit their type. *)
Record tally_ok v s : Prop := {
  ta_tokens : forall w, w ∈ Members s -> 0 <= tokens_of s w;
  ta_total : tokens_sum s (Members s) * 30 < U32;
  ta_turnout : ayes_of v + nays_of v < U32
}.

(** [r] is what comes of running [c] as root and removing the motion; [x] and
    [y] are the other pallets after the events before and after it. *)
Definition executed h c s (r : outcome (CouncilState X Call) (DispatchError ME) Pays) : Prop :=
  exists x, match dispatch_call Root c (set_rest x s) with
    | Ok _ t | Err _ t => exists y, r = Ok PaysYes (without h (set_rest y t))
    | Panic => r = Panic
    end.

(** [r] is what comes of removing the motion only. *)
Definition dropped_motion h s (r : outcome (CouncilState X Call) (DispatchError ME) Pays) : Prop :=
  exists x, r = Ok PaysNo (without h (set_rest x s)).

Lemma deposit_run e s : exists x, deposit e s = Ok tt (set_rest x s).
Proof using RO.
  pose proof (wp_deposit e s (fun _ t => exists x, t = set_rest x s) (fun _ _ => False) (fun x => ex_intro _ x eq_refl)) as Hw.
  unfold wp in Hw. destruct (deposit e s) as [[] t| |]; [|done..]. destruct Hw as [x ->]. by exists x.
Qed.

Lemma set_rest_twice x y s : set_rest x (set_rest y s) = set_rest x s.
Proof. done. Qed.

Lemma close_approved_run h c y n wb lb s :
  ProposalOf s !! h = Some c -> encoded_len c <= lb -> dispatch_weight c <= wb ->
  executed h c s (close_approved h y n wb lb s).
Proof using RO.
  intros Hc Hl Hw. unfold close_approved, validate_and_get_proposal, do_approve_proposal.
  unfold bind at 1. unfold bind at 1. unfold gets at 1. rewrite Hc. simpl.
  apply Z.leb_le in Hl, Hw. unfold bind, ensure, ret, ok_or, result_of. rewrite Hl. simpl. rewrite Hw. simpl. destruct (deposit_run (Closed h y n) s) as [x1 ->].
  destruct (deposit_run (Approved h) (set_rest x1 s)) as [x2 ->]. rewrite set_rest_twice. exists x2.
  destruct (dispatch_call Root c (set_rest x2 s)) as [[] t|e t|]; [..|done].
  - destruct (deposit_run (Executed h (inl tt)) t) as [z ->]. by exists z.
  - destruct (deposit_run (Executed h (inr e)) t) as [z ->]. by exists z.
Qed.

Lemma close_disapproved_run h y n s : dropped_motion h s (close_disapproved h y n s).
Proof using RO.
  unfold close_disapproved, do_disapprove_proposal, bind. destruct (deposit_run (Closed h y n) s) as [x1 ->].
  destruct (deposit_run (Disapproved h) (set_rest x1 s)) as [x2 ->]. rewrite set_rest_twice. by exists x2.
Qed.

Lemma bind_Ok {A B} (m : MC A) (k : A -> MC B) s a t : m s = Ok a t -> bind m k s = k a t.
Proof. unfold bind. by intros ->. Qed.

Lemma wp_run {A} (m : MC A) s a : wp m (fun b t => b = a /\ t = s) (fun _ _ => False) s -> m s = Ok a s.
Proof. unfold wp. destruct (m s); naive_solver. Qed.

(** The sums of an open motion, as [close] computes them. *)
Lemma close_run who h index wb lb v s :
  CouncilInv s -> Voting s !! h = Some v -> v_index v = index -> tally_ok v s ->
  close (Signed who) h index wb lb s =
  decide_motion h v (members_len s) (ayes_of v) (nays_of v) (quorum s) (ayes_of v + nays_of v) wb lb s.
Proof using RO.
  intros Hs Hv <- [Ht1 Ht2 Ht3]. destruct (ci_votes _ Hs _ _ Hv) as [_ _ _ _ Hp].
  assert (forall p, p ∈ v_ayes_power v -> 0 <= p.2) as Hay by (intros p Hin; destruct (Hp p ltac:(set_solver)); lia).
  assert (forall p, p ∈ v_nays_power v -> 0 <= p.2) as Hna by (intros p Hin; destruct (Hp p ltac:(set_solver)); lia).
  pose proof (power_sum_nonneg _ Hay) as Ha. pose proof (power_sum_nonneg _ Hna) as Hn.
  pose proof (tokens_sum_nonneg s _ Ht1) as H0. unfold ayes_of, nays_of in *.
  assert (forall l, (forall p, p ∈ l -> 0 <= p.2) -> power_sum l < U32 -> sum_power 0 l s = Ok (power_sum l) s :> outcome _ (DispatchError ME) _) as Hsum.
  { intros l Hl Hf. apply wp_run, wp_sum_power; [done|done|lia|done]. }
  unfold close. do 2 (erewrite bind_Ok by done). cbv beta. rewrite Hv. do 2 (erewrite bind_Ok by (simpl; by rewrite ?Z.eqb_refl)).
  erewrite bind_Ok by done. erewrite bind_Ok by (apply Hsum; [done|lia]). erewrite bind_Ok by (apply Hsum; [done|lia]).
  erewrite bind_Ok by (apply wp_run, wp_sum_tokens; [done|done|lia|done]).
  erewrite bind_Ok by (apply wp_run, wp_arith; [lia|done]). by erewrite bind_Ok by (apply wp_run, wp_arith; [lia|done]).
Qed.

(** C33: While its voting period lasts, a motion is decided by its tally, if this
    fits its type: no member's balance is negative, 30 times the members' tokens is
    less than 2^32, which 143 million tokens exceed, and so is the sum of the votes.
    The threshold that the motion was proposed with plays no role.  With at least
    30% of the members' tokens voting, a majority of ayes runs the
    stored call as root, a majority of nays drops it, and the motion is removed
    from every store either way; below the quorum or at a tie [close] returns
    [TooEarly] and changes nothing. *)
Theorem close_follows_the_tally who h index wb lb v c s :
  CouncilInv s -> Voting s !! h = Some v -> v_index v = index -> tally_ok v s ->
  ProposalOf s !! h = Some c -> encoded_len c <= lb -> dispatch_weight c <= wb ->
  let r := close (Signed who) h index wb lb s in
  (quorum s <= ayes_of v + nays_of v -> nays_of v < ayes_of v -> executed h c s r) /\
  (quorum s <= ayes_of v + nays_of v -> ayes_of v < nays_of v -> dropped_motion h s r) /\
  (ayes_of v + nays_of v < quorum s \/ ayes_of v = nays_of v -> block_number (rest s) < v_end v ->
   r = Err (council_err TooEarly) s).
Proof using RO.
  intros Hs Hv Hi Ht Hc Hl Hw r. unfold r. rewrite (close_run who h index wb lb v s Hs Hv Hi Ht).
  unfold decide_motion. split_and!.
  - intros Hq Hlt. replace (quorum s <=? _) with true by lia. replace (nays_of v <? ayes_of v) with true by lia.
    by apply close_approved_run.
  - intros Hq Hlt. replace (quorum s <=? _) with true by lia. replace (nays_of v <? ayes_of v) with false by lia.
    replace (ayes_of v <? nays_of v) with true by lia. apply close_disapproved_run.
  - intros Hor Hend. replace (_ && (nays_of v <? ayes_of v)) with false by lia.
    replace (_ && (ayes_of v <? nays_of v)) with false by lia.
    unfold bind, gets, ensure. simpl. by replace (v_end v <=? _) with false by lia.
Qed.

(** A member's vote is recorded once, with their tokens as its power.  A
    member who has not voted on a side yet, and whose vote does not overflow
    the sums, gets exactly that vote added on it and any vote on the other side
    taken back; the first vote on a motion is free, a change of it is not; all
    other votes, motions and members stay.  A second vote on the same side is
    refused. *)
Theorem vote_is_recorded_once who h index approve v s :
  CouncilInv s -> who ∈ Members s -> Voting s !! h = Some v -> v_index v = index ->
  0 <= tokens_of s who -> ayes_of v + nays_of v + tokens_of s who < U32 ->
  wp (vote (Signed who) h index approve)
    (fun pays t => vote_done who h index approve pays s t)
    (fun e t => e = council_err DuplicateVote /\ who ∈ (if approve then v_ayes v else v_nays v) /\
       Voting t = Voting s /\ CouncilInv t) s.
Proof using RO.
  intros Hs Hm Hv <- H0 Hf. unfold vote. simpl. wp_steps; [|by apply contains_false in H].
  fold (tokens_of s who). pose proof (ci_votes _ Hs _ _ Hv) as Hok. pose proof (vo_power _ _ Hok) as Hp.
  pose proof (power_sum_nonneg (v_ayes_power v) ltac:(intros p Hin; destruct (Hp p ltac:(set_solver)); lia)).
  pose proof (power_sum_nonneg (v_nays_power v) ltac:(intros p Hin; destruct (Hp p ltac:(set_solver)); lia)).
  unfold ayes_of, nays_of in Hf. apply (wp_unwrap _ _ _ _ (tokens_of s who)).
  { unfold try_into_u32. by replace (_ && _) with true by lia. }
  wp_steps; simpl in *; [| |congruence]; simplify_eq; [|by rewrite Z.eqb_refl in *].
  apply wp_cast; [done|done|unfold in_range; lia| |by intros; split_and!; [done..|eapply CouncilInv_frame]].
  intros v' Hok' Hc Hno. destruct (vote_cast_sums _ _ _ _ _ Hp H0 Hc) as [Ha' Hn'].
  pose proof (vo_power _ _ Hok') as Hp'. wp_steps.
  apply wp_sum_power; [intros p Hin; destruct (Hp' p ltac:(set_solver)); lia|lia|lia|]. wp_steps.
  apply wp_sum_power; [intros p Hin; destruct (Hp' p ltac:(set_solver)); lia|lia|lia|]. wp_steps.
  apply wp_deposit. intros x. wp_steps. rewrite first_vote. by apply (vote_done_intro who h approve v v' x s).
Qed.

(* --------------------------------------------------------------------- *)
(** *** The members *)

Lemma retain_ext {A} (p q : A -> bool) l : (forall x, x ∈ l -> p x = q x) -> retain p l = retain q l.
Proof.
  induction l as [|x l IH]; simpl; intros He; [done|]. rewrite (He x) by left.
  rewrite IH by (intros; apply He; by right). done.
Qed.

(** Among old members without duplicates, those who stay are those in the new list. *)
Lemma stays_spec new old w :
  StronglySorted N.le old -> NoDup old -> w ∈ old ->
  negb (is_outgoing (sort_accounts (compute_members_diff_sorted (sort_accounts new) old).2) w) = contains w new.
Proof.
  intros Ho Hn Hw. rewrite is_outgoing_spec. unfold contains. rewrite <- bool_decide_not. apply bool_decide_ext.
  rewrite outgoing_spec by (done || apply sort_accounts_sorted).
  pose proof (count_NoDup w old Hn). pose proof (proj2 (count_pos w old) Hw).
  rewrite <- (elem_of_sort_accounts new w), <- count_pos. lia.
Qed.

(** A change of sorted members keeps exactly the votes of those who stay.  Root
    replaces the members by the sorted new list; on every motion the votes that
    remain, with their powers and in their order, are those of accounts in the
    new list; the motions themselves stay.  Any other origin is refused. *)
Theorem set_members_is_exact o new prime s :
  CouncilInv s -> StronglySorted N.le (Members s) -> NoDup (Members s) ->
  wp (set_members o new prime : MC Pays)
    (fun _ t => o = Root /\ CouncilInv t /\ Members t = sort_accounts new /\ Prime t = prime /\
       Proposals t = Proposals s /\ ProposalOf t = ProposalOf s /\
       forall h v, Voting s !! h = Some v -> exists v', Voting t !! h = Some v' /\
         v_index v' = v_index v /\ v_end v' = v_end v /\
         v_ayes_power v' = retain (fun p => contains p.1 new) (v_ayes_power v) /\
         v_nays_power v' = retain (fun p => contains p.1 new) (v_nays_power v))
    (fun _ t => t = s) s.
Proof using RO.
  intros Hs Ho Hn. apply wp_set_members; [done| |done]. intros m t -> Hm -> Ht. split_and!; try done.
  intros h v Hv. simpl. eexists. split; [by rewrite Hm, Hv|]. simpl. destruct (ci_votes _ Hs _ _ Hv) as [H1 H2 _ H4 _].
  split_and!; [done|done|..]; apply retain_ext; intros p Hp; (apply stays_spec; [done|done|]);
    apply H4; rewrite H1, H2, elem_of_app, !list_elem_of_fmap; eauto.
Qed.
End Theorems.

(* ===================================================================== *)
(** ** After the end of a motion, in a release build *)
Section Lapsed.
Context {X Call ME : Type} {RT : CouncilRuntime X Call ME} {CO : CouncilConstants}.
Context {RO : CouncilRuntimeOk X Call ME}.
Local Existing Instance release.
Implicit Types (s t : CouncilState X Call) (h : Hash) (w who : AccountId) (v : Votes) (c : Call).

(** The runtime's choice of the default vote. *)
Definition votes_by_prime : Prop :=
  forall o y n l s, default_vote o y n l s = PrimeDefaultVote o y n l s :> outcome _ (DispatchError ME) _.

Lemma arith_release (w r : Z) s : 0 < w -> arith w r s = Ok (r mod w) s :> outcome _ (DispatchError ME) _.
Proof.
  intros Hw. unfold arith. destruct ((0 <=? r) && (r <? w)) eqn:Hb; [|done].
  apply andb_prop in Hb as [H1 H2]. unfold ret. rewrite Z.mod_small by lia. done.
Qed.

(** An undecided motion whose time is up. *)
Lemma decide_lapsed h v s wb lb :
  votes_by_prime -> ayes_of v + nays_of v < quorum s \/ ayes_of v = nays_of v -> v_end v <= block_number (rest s) ->
  let d := default false ((fun who => contains who (v_ayes v)) <$> Prime s) in
  let gap := (members_len s - (ayes_of v + nays_of v)) mod U32 in
  let yes := if d then (ayes_of v + gap) mod U32 else ayes_of v in
  let no := if d then nays_of v else (nays_of v + gap) mod U32 in
  decide_motion h v (members_len s) (ayes_of v) (nays_of v) (quorum s) (ayes_of v + nays_of v) wb lb s =
  if quorum s <=? yes then close_approved h yes no wb lb s else close_disapproved h yes no s.
Proof.
  intros Hp Hor He d gap yes no. unfold decide_motion.
  replace (_ && (nays_of v <? ayes_of v)) with false by lia. replace (_ && (ayes_of v <? nays_of v)) with false by lia.
  erewrite bind_Ok by done. erewrite bind_Ok by (simpl; by replace (v_end v <=? _) with true by lia).
  erewrite bind_Ok by done. erewrite bind_Ok by apply Hp. erewrite bind_Ok by (by apply arith_release).
  fold d gap. unfold yes, no. destruct d.
  - erewrite bind_Ok by (by apply arith_release). erewrite bind_Ok by done. by case_match.
  - erewrite bind_Ok by done. erewrite bind_Ok by (by apply arith_release). by case_match.
Qed.

(** The prime alone carries a motion that most of the voting tokens reject.
    After the end, without a quorum, the abstentions are the number of members
    minus the voting tokens; in a release build this wraps around, and when
    there are more nay tokens than members and the prime voted aye, the result
    passes every threshold and the call is run as root. *)
Theorem prime_overrules_the_quorum who h index wb lb v c s prime :
  CouncilInv s -> Voting s !! h = Some v -> v_index v = index -> tally_ok v s ->
  ProposalOf s !! h = Some c -> encoded_len c <= lb -> dispatch_weight c <= wb ->
  votes_by_prime -> Prime s = Some prime -> prime ∈ v_ayes v -> v_end v <= block_number (rest s) ->
  ayes_of v + nays_of v < quorum s -> members_len s < nays_of v ->
  executed h c s (close (Signed who) h index wb lb s).
Proof using RO.
  intros Hs Hv Hi Ht Hc Hl Hw Hd Hp Hin He Hq Hm. rewrite (close_run who h index wb lb v s Hs Hv Hi Ht).
  rewrite decide_lapsed by (done || by left). rewrite Hp. simpl. apply contains_true in Hin as ->.
  replace (quorum s <=? _) with true; [by apply close_approved_run|].
  destruct (ci_votes _ Hs _ _ Hv) as [_ _ _ _ Hpw].
  pose proof (power_sum_nonneg (v_ayes_power v) ltac:(intros p Hx; destruct (Hpw p ltac:(set_solver)); lia)) as Ha.
  assert (0 <= members_len s) by (by apply Z.mod_pos_bound). destruct Ht as [_ Ht2 Ht3].
  assert (100 * quorum s < U32) by (unfold quorum; pose proof (Z.mul_div_le (tokens_sum s (Members s) * 30) 100); lia).
  rewrite Zplus_mod_idemp_r. fold (ayes_of v) in Ha. change U32 with 4294967296 in *. symmetry. apply Z.leb_le.
  rewrite <- (Z.mod_unique (ayes_of v + (members_len s - (ayes_of v + nays_of v))) 4294967296 (-1) (4294967296 + members_len s - nays_of v)); lia.
Qed.

(** A tie is approved.  When ayes and nays weigh the same and either passes
    the quorum, closing the motion after its end runs the call as root, also
    without a prime to decide. *)
Theorem tie_is_approved who h index wb lb v c s :
  CouncilInv s -> Voting s !! h = Some v -> v_index v = index -> tally_ok v s ->
  ProposalOf s !! h = Some c -> encoded_len c <= lb -> dispatch_weight c <= wb ->
  votes_by_prime -> Prime s = None -> v_end v <= block_number (rest s) ->
  ayes_of v = nays_of v -> quorum s <= ayes_of v ->
  executed h c s (close (Signed who) h index wb lb s).
Proof using RO.
  intros Hs Hv Hi Ht Hc Hl Hw Hd Hp He Htie Hq. rewrite (close_run who h index wb lb v s Hs Hv Hi Ht).
  rewrite decide_lapsed by (done || by right). rewrite Hp. simpl.
  replace (quorum s <=? _) with true by lia. by apply close_approved_run.
Qed.
End Lapsed.
