(* ===== verification/CouncilNode.v ===== *)
(** * The council in the runtime

    The council with the calls of pallet_assets and its own, over the pallets
    below them: the runtime keeps the council's contract; the council's
    promises at a concrete chain; and three ways around the vote, a member
    acting as root, tokens that vote twice, and a vote lost with an unsorted
    genesis. *)

From Stdlib Require Import Sorted.
From S2P Require Import Prelude System SystemFacts Balances BalancesFacts BalancesTheorems.
From S2P Require Import AssetsFacts AssetsTheorems AssetsBalances Council CouncilFacts CouncilCorrect CouncilTheorems.

Set Default Proof Using "Type".

Inductive NodeError :=
| FromRegistry (e : RuntimeError)
| FromCouncil (e : CouncilError).

#[warnings="-register-all"]
Inductive NodeCall :=
| CallAssets (c : Assets.AssetsCall AccountId)
| CallCouncil (c : CouncilCall NodeCall).

(** The pallets below the council, with its events. *)
Record Pallets := mkPallets { registry : Assets.AssetsState Below; council_log : list (CouncilEvent NodeError) }.

Abbreviation NodeState := (CouncilState Pallets NodeCall).
Abbreviation MN := (M NodeState (DispatchError NodeError)).

Section Node.
Context {P : Profile} {AC : Assets.AssetsConstants} {SO : Assets.StorageOrder} {CO : CouncilConstants} (ED : Z).
Context (call_hash : NodeCall -> Hash) (call_len call_weight : NodeCall -> Z).
Implicit Types (s t : NodeState) (c : NodeCall) (o : RawOrigin).

(** The runtime, given the dispatch of the calls that a motion carries. *)
Definition node_runtime_with (inner : RawOrigin -> NodeCall -> MN unit) : CouncilRuntime Pallets NodeCall NodeError := {|
  council_error := FromCouncil;
  token_balance id who x := Assets.balance id who (registry x);
  block_number x := Number (bal_sys (below_balances (Assets.rt (registry x))));
  council_event e := modify (fun x => mkPallets (registry x) (council_log x ++ [e]));
  hash_of := call_hash;
  encoded_len := call_len;
  dispatch_weight := call_weight;
  dispatch_call := inner;
  default_vote := PrimeDefaultVote
|}.

Definition set_registry r (x : Pallets) : Pallets := mkPallets r (council_log x).

Definition dispatch_with (inner : RawOrigin -> NodeCall -> MN unit) o c : MN unit :=
  match c with
  | CallAssets a =>
      zoom rest set_rest (zoom registry set_registry
        (map_err (map_module FromRegistry) (Assets.dispatch (AssetsRuntime0 := balances_runtime ED) Some o a)))
  | CallCouncil m => council_dispatch (RT := node_runtime_with inner) o m ;; ret tt
  end.

(** The council dispatches as root only, and what it dispatches as root it does
    not let dispatch again: two levels are all there are. *)
Definition no_call (o : RawOrigin) c : MN unit := fail Other.
Definition node_dispatch : RawOrigin -> NodeCall -> MN unit := dispatch_with (dispatch_with no_call).
Definition node_runtime : CouncilRuntime Pallets NodeCall NodeError := node_runtime_with (dispatch_with no_call).

Lemma root_dispatches_no_more i j c s : dispatch_with i Root c s = dispatch_with j Root c s.
Proof. by destruct c as [a|[]]. Qed.

(* --------------------------------------------------------------------- *)
(** *** The contract *)

Lemma node_runtime_with_ok inner :
  (forall o c, keeps (CouncilInv (RT := node_runtime_with inner)) (inner o c)) ->
  CouncilRuntimeOk (RT := node_runtime_with inner) Pallets NodeCall NodeError.
Proof. intros Hk. by split. Qed.

(** The invariant does not depend on the dispatch. *)
Lemma inv_any_dispatch i j s :
  CouncilInv (RT := node_runtime_with i) s -> CouncilInv (RT := node_runtime_with j) s.
Proof. intros [H1 H2 H3 H4 H5 H6]. by split. Qed.

Lemma dispatch_with_keeps inner o c :
  (forall o c, keeps (CouncilInv (RT := node_runtime_with inner)) (inner o c)) ->
  keeps (CouncilInv (RT := node_runtime_with inner)) (dispatch_with inner o c).
Proof.
  intros Hk s Hs. destruct c as [a|m]; simpl.
  - apply wlp_zoom. unfold wlp. destruct (zoom _ _ _ _); [..|done]; (eapply (below_changed_inv s); [exact Hs|by eexists]).
  - pose proof (node_runtime_with_ok inner Hk) as Hok. apply wlp_bind.
    eapply wlp_mono; [by apply (council_dispatch_keeps (RO := Hok))|intros r t Ht; by apply wp_wlp, wp_ret|done].
Qed.

#[local] Instance node_runtime_ok : CouncilRuntimeOk (RT := node_runtime) Pallets NodeCall NodeError.
Proof.
  apply node_runtime_with_ok. intros o c s Hs.
  eapply wlp_mono; [apply (dispatch_with_keeps no_call); [by intros o' c' u Hu|by eapply inv_any_dispatch]|..];
    intros ? t Ht; exact (inv_any_dispatch no_call (dispatch_with no_call) t Ht).
Qed.

(* --------------------------------------------------------------------- *)
(** *** A member is root *)

(** Every member of the council is root.  [execute] runs any call of the
    runtime with the root origin on the word of one member, without a vote, and
    not with the origin of a member that its documentation promises: the state
    becomes what root's own call makes of it, up to the council's event, and
    the call succeeds even when root's would not. *)
Theorem a_member_is_root who c bound s :
  who ∈ Members s -> call_len c <= bound ->
  match node_dispatch Root c s with
  | Ok _ t | Err _ t =>
      exists x, node_dispatch (Signed who) (CallCouncil (Execute c bound)) s = Ok tt (set_rest x t)
  | Panic => node_dispatch (Signed who) (CallCouncil (Execute c bound)) s = Panic
  end.
Proof.
  intros Hm Hl. assert (contains who (Members s) = true) as Hc by (by apply contains_true).
  apply Z.leb_le in Hl. unfold node_dispatch. rewrite (root_dispatches_no_more _ no_call c s).
  cbn [dispatch_with council_dispatch]. unfold execute, result_of, bind, gets, ensure. simpl. rewrite Hc. simpl. rewrite Hl. simpl.
  destruct (dispatch_with no_call Root c s) as [r t|e t|]; [by eexists|by eexists|done].
Qed.
End Node.

(* ===================================================================== *)
(** ** A chain *)

#[export] Instance node_constants : CouncilConstants := {|
  MotionDuration := 5 * (24 * (60 * (60000 / 6000)));
  MaxProposals := 100
|}.

Section Chain.
Local Existing Instances release key_order.

(** A hash, length and weight of calls. *)
Definition ex_hash (c : NodeCall) : Hash := match c with CallCouncil _ => 1%N | CallAssets _ => 2%N end.
Definition ex_size (c : NodeCall) : Z := 10.

#[local] Instance ex_node : CouncilRuntime Pallets NodeCall NodeError := node_runtime 10 ex_hash ex_size ex_size.
#[local] Instance ex_node_ok : CouncilRuntimeOk Pallets NodeCall NodeError := node_runtime_ok 10 ex_hash ex_size ex_size.

Abbreviation ex_dispatch := (node_dispatch 10 ex_hash ex_size ex_size).

(** The calls of the list, all of which succeed, from a genesis with the given
    members over the registry's example; token 7 votes. *)
Definition ex_run (members : list AccountId) (l : list (RawOrigin * NodeCall)) : outcome NodeState (DispatchError NodeError) unit :=
  (genesis_build members ;;
   for_each ((Root, CallCouncil (SetGovTokenId 7%N)) :: l) (fun oc => ex_dispatch oc.1 oc.2))
    (no_council (mkPallets ex_genesis [])).

Abbreviation ex_motion := (CallCouncil (Propose 2 (CallCouncil (SetMembers [2%N] None)) 100)).
Abbreviation ex_vote approve := (CallCouncil (Vote 1%N 0 approve)).
Abbreviation ex_transfer v := (CallAssets (Assets.Transfer 7%N 2%N v)).

(** Tokens can vote twice.  The power of a vote is the balance when it is
    cast: on the example chain a member votes, transfers its 100 tokens to
    another member, who votes with them again, and the motion has 200 ayes of
    100 tokens that exist. *)
Theorem tokens_vote_twice :
  exists s v,
    ex_run [1%N; 2%N] [(Signed 1%N, ex_motion); (Signed 1%N, ex_vote true);
      (Signed 1%N, ex_transfer 100); (Signed 2%N, ex_vote true)] = Ok tt s /\
    Voting s !! 1%N = Some v /\ ayes_of v = 200 /\ tokens_sum s (Members s) = 100.
Proof. eexists _, _. split_and!; by vm_compute. Qed.

(** Naming the same members again can take a vote away.  The genesis stores
    its members as given, though the diff needs them sorted: with the genesis
    members out of order, setting the very same members drops the vote of one
    who stays, which the same calls on a sorted genesis keep. *)
Theorem unsorted_genesis_drops_a_vote :
  let calls := [(Signed 1%N, ex_motion); (Signed 1%N, ex_vote true);
    (Root, CallCouncil (SetMembers [1%N; 2%N] None))] in
  (exists s v, ex_run [2%N; 1%N] calls = Ok tt s /\ Voting s !! 1%N = Some v /\ v_ayes v = [] /\ 1%N ∈ Members s) /\
  (exists s v, ex_run [1%N; 2%N] calls = Ok tt s /\ Voting s !! 1%N = Some v /\ v_ayes v = [1%N]).
Proof.
  split; eexists _, _.
  - split_and!; [by vm_compute..|]. by apply contains_true; vm_compute.
  - split_and!; by vm_compute.
Qed.

(* --------------------------------------------------------------------- *)
(** *** The theorems at the chain *)

Lemma keeps_for_each {A} (I : NodeState -> Prop) (l : list A) (body : A -> MN unit) :
  (forall a, keeps I (body a)) -> keeps I (for_each l body).
Proof.
  intros Hb. induction l as [|a l IH]; intros s Hs; simpl; wlp_steps; [done|].
  eapply wlp_mono; [by apply Hb|by intros [] t Ht; apply IH|done].
Qed.

Lemma ex_dispatch_keeps o c : keeps CouncilInv (ex_dispatch o c).
Proof. apply (dispatch_with_keeps 10 ex_hash ex_size ex_size (dispatch_with 10 ex_hash ex_size ex_size (no_call))), ex_node_ok. Qed.

(** The chain after the calls. *)
Definition ex_chain (members : list AccountId) (l : list (RawOrigin * NodeCall)) : NodeState :=
  match ex_run members l with Ok _ s => s | _ => no_council (mkPallets ex_genesis []) end.

Lemma ex_chain_inv members l : ex_run members l = Ok tt (ex_chain members l) -> CouncilInv (ex_chain members l).
Proof.
  intros Hr. unfold ex_run, bind in Hr.
  destruct (genesis_build members (no_council (mkPallets ex_genesis []))) as [[] s0| |] eqn:Hg; [|done..].
  pose proof (keeps_for_each CouncilInv ((Root, CallCouncil (SetGovTokenId 7%N)) :: l)
    (fun oc => ex_dispatch oc.1 oc.2) (fun oc => ex_dispatch_keeps oc.1 oc.2) s0
    (genesis_council_inv members _ s0 Hg)) as Hk. unfold wlp in Hk. by rewrite Hr in Hk.
Qed.

(** A motion of account 1 to make account 2 the only member, with the vote of
    account 1 on it. *)
Definition ex_proposed : NodeState := ex_chain [1%N; 2%N] [(Signed 1%N, ex_motion)].
Definition ex_voted : NodeState := ex_chain [1%N; 2%N] [(Signed 1%N, ex_motion); (Signed 1%N, ex_vote true)].

Lemma ex_proposed_inv : CouncilInv ex_proposed.
Proof. by apply ex_chain_inv; vm_compute. Qed.

Lemma ex_voted_inv : CouncilInv ex_voted.
Proof. by apply ex_chain_inv; vm_compute. Qed.

Lemma council_stays_coherent_witness :
  exists s0, genesis_build [1%N; 2%N] (no_council (mkPallets ex_genesis [])) = Ok tt s0 :> outcome _ (DispatchError NodeError) _ /\
    exists t, council_dispatch Root (SetGovTokenId 7%N) s0 = Ok PaysYes t /\ CouncilInv t.
Proof.
  eexists. split; [by vm_compute|]. eexists. split; [by vm_compute|].
  eapply (council_stays_coherent [1%N; 2%N] (mkPallets ex_genesis [])); [by vm_compute|].
  apply rtc_once. by eapply (council_step_ok Root (SetGovTokenId 7%N)); vm_compute.
Defined.

Lemma outsiders_are_refused_witness :
  exists e, council_dispatch (Signed 5%N) (Vote 1%N 0 true) ex_voted = Err e ex_voted.
Proof. apply outsiders_are_refused; [by apply contains_false; vm_compute|done]. Defined.

(** The sums of a motion, by evaluation. *)
Definition tally_okb v (s : NodeState) : bool :=
  forallb (fun w => 0 <=? tokens_of s w) (Members s) && (tokens_sum s (Members s) * 30 <? U32) &&
  (ayes_of v + nays_of v <? U32).

Lemma tally_okb_ok v s : tally_okb v s = true -> tally_ok v s.
Proof.
  unfold tally_okb. intros [[H1 H2]%andb_prop H3]%andb_prop. split; [|lia..].
  intros w Hw. rewrite forallb_forall in H1. apply list_elem_of_In, H1 in Hw. lia.
Qed.

Definition ex_votes (s : NodeState) : Votes := default (mkVotes 0 0 [] [] [] [] 0) (Voting s !! 1%N).

Lemma close_follows_the_tally_witness :
  executed 1%N (CallCouncil (SetMembers [2%N] None)) ex_voted (close (Signed 5%N) 1%N 0 100 100 ex_voted).
Proof.
  apply (close_follows_the_tally 5%N 1%N 0 100 100 (ex_votes ex_voted) (CallCouncil (SetMembers [2%N] None)) ex_voted);
    [apply ex_voted_inv|by vm_compute|by vm_compute|by apply tally_okb_ok; vm_compute|by vm_compute..].
Defined.

(** The motion was proposed with a threshold of two approvals; it passes with one. *)
Lemma one_aye_passes_a_threshold_of_two :
  v_threshold (ex_votes ex_voted) = 2 /\ v_ayes (ex_votes ex_voted) = [1%N] /\
  match close (Signed 5%N) 1%N 0 100 100 ex_voted with Ok _ s => Members s = [2%N] /\ Voting s !! 1%N = None | _ => False end.
Proof. split_and!; [by vm_compute..|]. vm_compute. split; reflexivity. Qed.

(** With 143165577 tokens of the members, 30 times as many wrap around: in a build
    without overflow checks the quorum is 0, and 100 tokens pass the motion. *)
Lemma quorum_wraps :
  let s := ex_chain [1%N; 2%N] [(Signed 1%N, ex_motion); (Signed 1%N, ex_vote true);
    (Signed 1%N, CallAssets (Assets.Mint 7%N 2%N 143165477))] in
  tokens_sum s (Members s) = 143165577 /\ ayes_of (ex_votes s) = 100 /\ nays_of (ex_votes s) = 0 /\
  match close (Signed 5%N) 1%N 0 100 100 s with Ok _ s => Members s = [2%N] /\ Voting s !! 1%N = None | _ => False end.
Proof. split_and!; [by vm_compute..|]. vm_compute. split; reflexivity. Qed.

Lemma vote_is_recorded_once_witness :
  wp (vote (Signed 1%N) 1%N 0 true)
    (fun pays t => pays = PaysNo /\ exists v, Voting t !! 1%N = Some v /\ v_ayes_power v = [(1%N, 100)])
    (fun _ _ => False) ex_proposed.
Proof.
  eapply wp_mono; [apply (vote_is_recorded_once 1%N 1%N 0 true (ex_votes ex_proposed) ex_proposed)|..].
  - apply ex_proposed_inv.
  - by apply contains_true; vm_compute.
  - by vm_compute.
  - by vm_compute.
  - by vm_compute.
  - by vm_compute.
  - intros pays t [_ _ _ (v & v' & Hv & _ & -> & Hc & _ & ->) _]. vm_compute in Hv. simplify_eq. split; [by vm_compute|].
    exists v'. rewrite lookup_insert_eq. split; [done|]. rewrite (ac_ayes _ _ _ _ Hc). by vm_compute.
  - intros e t (_ & Hin & _). vm_compute in Hin. by apply elem_of_nil in Hin.
Defined.

Lemma set_members_is_exact_witness :
  wp (set_members Root [3%N; 1%N] None)
    (fun _ t => Members t = [1%N; 3%N] /\ exists v, Voting t !! 1%N = Some v /\ v_ayes_power v = [(1%N, 100)])
    (fun (_ : DispatchError NodeError) t => t = ex_voted) ex_voted.
Proof.
  eapply wp_mono; [apply (set_members_is_exact Root [3%N; 1%N] None ex_voted)|..].
  - apply ex_voted_inv.
  - vm_compute. by repeat constructor.
  - vm_compute. repeat constructor; set_solver.
  - intros _ t (_ & _ & -> & _ & _ & _ & Hv). split; [by vm_compute|].
    destruct (Hv 1%N (ex_votes ex_voted) ltac:(by vm_compute)) as (v' & Hv' & _ & _ & Ha & _). exists v'. split; [done|].
    rewrite Ha. by vm_compute.
  - done.
Defined.

Lemma a_member_is_root_witness :
  exists t, ex_dispatch (Signed 2%N) (CallCouncil (Execute (CallCouncil (SetMembers [2%N] None)) 100)) ex_proposed = Ok tt t /\
    Members t = [2%N].
Proof.
  pose proof (a_member_is_root 10 ex_hash ex_size ex_size 2%N (CallCouncil (SetMembers [2%N] None)) 100 ex_proposed) as Hm.
  destruct Hm as [x Hx]; [by apply contains_true; vm_compute|by vm_compute|].
  eexists. split; [exact Hx|by vm_compute].
Defined.

(** The chain when the motion's time is up. *)
Definition late (s : NodeState) : NodeState :=
  let r := registry (rest s) in
  let c := Assets.rt r in
  let b := below_balances c in
  let y := bal_sys b in
  let b' := mkBalances (mkSystem (Account y) 100000 (EventCount y) (Events y)) (TotalIssuance b) (Locks b) (Reserves b) in
  set_rest (mkPallets (Assets.set_rt (mkBelow b' (below_events c)) r) (council_log (rest s))) s.

Lemma late_inv s : CouncilInv s -> CouncilInv (late s).
Proof. intros Hs. eapply below_changed_inv; [exact Hs|by eexists]. Qed.

(** Account 1, the prime, is for the motion with 5 tokens, account 2 against it
    with 95, and 1000 more are minted afterwards. *)
Definition ex_rejected : NodeState :=
  late (ex_chain [1%N; 2%N] [(Root, CallCouncil (SetMembers [1%N; 2%N] (Some 1%N))); (Signed 1%N, ex_motion);
    (Signed 1%N, ex_transfer 95); (Signed 1%N, ex_vote true); (Signed 2%N, ex_vote false);
    (Signed 1%N, CallAssets (Assets.Mint 7%N 2%N 1000))]).

Lemma prime_overrules_the_quorum_witness :
  executed 1%N (CallCouncil (SetMembers [2%N] None)) ex_rejected (close (Signed 5%N) 1%N 0 100 100 ex_rejected).
Proof.
  apply (prime_overrules_the_quorum 5%N 1%N 0 100 100 (ex_votes ex_rejected) (CallCouncil (SetMembers [2%N] None)) ex_rejected 1%N);
    [by apply late_inv, ex_chain_inv; vm_compute|by vm_compute|by vm_compute|by apply tally_okb_ok; vm_compute
    |by vm_compute|by vm_compute|by vm_compute|done|by vm_compute|by apply contains_true; vm_compute|by vm_compute..].
Defined.

(** Accounts 1 and 2 have 50 tokens each, and disagree. *)
Definition ex_tie : NodeState :=
  late (ex_chain [1%N; 2%N] [(Signed 1%N, ex_motion); (Signed 1%N, ex_transfer 50);
    (Signed 1%N, ex_vote true); (Signed 2%N, ex_vote false)]).

Lemma tie_is_approved_witness :
  executed 1%N (CallCouncil (SetMembers [2%N] None)) ex_tie (close (Signed 5%N) 1%N 0 100 100 ex_tie).
Proof.
  apply (tie_is_approved 5%N 1%N 0 100 100 (ex_votes ex_tie) (CallCouncil (SetMembers [2%N] None)) ex_tie);
    [by apply late_inv, ex_chain_inv; vm_compute|by vm_compute|by vm_compute|by apply tally_okb_ok; vm_compute
    |by vm_compute|by vm_compute|by vm_compute|done|by vm_compute..].
Defined.
End Chain.
