(* ===== verification/Allocator.v ===== *)
(** * The heap allocator of the Wasm runtime

    [client/allocator/src/freeing_bump.rs]: a bump allocator with a free list
    per power of two, whose headers live in the linear memory of the guest.

    The [Memory] trait is a class; its instance for byte slices, the laws both
    rely on, and the correctness of the allocator over any memory with these
    laws are in AllocatorFacts and AllocatorTheorems. *)

From S2P Require Import Prelude.

(* ===================================================================== *)
(** ** Data *)

Inductive AllocError :=
| RequestedAllocationTooLarge
| AllocatorOutOfSpace
| MemoryShrinked
| OtherError (msg : string).

Definition ALIGNMENT : Z := 8.
Definition HEADER_SIZE : Z := 8.
Definition N_ORDERS : Z := 23.
Definition MIN_POSSIBLE_ALLOCATION : Z := 8.
Definition MAX_POSSIBLE_ALLOCATION : Z := 33554432.
Definition NIL_MARKER : Z := U32 - 1.

(** [Order(u32)] *)
Abbreviation Order := Z.

Inductive Link := Nil | Ptr (ptr : Z).

#[export] Instance Link_eq_dec : EqDecision Link.
Proof. solve_decision. Defined.

Inductive Header := Free (link : Link) | Occupied (order : Order).

(** The trait [Memory]; [None] where it returns an error. *)
Class Memory (Mem : Type) := {
  read_le_u64 : Mem -> Z -> option Z;
  write_le_u64 : Mem -> Z -> Z -> option Mem;
  mem_size : Mem -> Z
}.

Record FreeingBumpHeapAllocator := mkAllocator {
  bumper : Z;
  free_lists : list Link;
  total_size : Z;
  poisoned : bool;
  max_total_size : Z;
  max_bumper : Z;
  last_observed_memory_size : Z
}.

(** The allocator and the memory it is called with. *)
Record Heap (Mem : Type) := mkHeap { heap : FreeingBumpHeapAllocator; memory : Mem }.
#[global] Arguments mkHeap {Mem}.
#[global] Arguments heap {Mem}.
#[global] Arguments memory {Mem}.

Section Setters.
Context {Mem : Type}.
Implicit Types (a : FreeingBumpHeapAllocator) (s : Heap Mem).

Definition set_bumper x a := mkAllocator x (free_lists a) (total_size a) (poisoned a) (max_total_size a) (max_bumper a) (last_observed_memory_size a).
Definition set_free_lists x a := mkAllocator (bumper a) x (total_size a) (poisoned a) (max_total_size a) (max_bumper a) (last_observed_memory_size a).
Definition set_total_size x a := mkAllocator (bumper a) (free_lists a) x (poisoned a) (max_total_size a) (max_bumper a) (last_observed_memory_size a).
Definition set_poisoned x a := mkAllocator (bumper a) (free_lists a) (total_size a) x (max_total_size a) (max_bumper a) (last_observed_memory_size a).
Definition set_maxima x y a := mkAllocator (bumper a) (free_lists a) (total_size a) (poisoned a) x y (last_observed_memory_size a).
Definition set_observed x a := mkAllocator (bumper a) (free_lists a) (total_size a) (poisoned a) (max_total_size a) (max_bumper a) x.

Definition on_heap (f : FreeingBumpHeapAllocator -> FreeingBumpHeapAllocator) s : Heap Mem := mkHeap (f (heap s)) (memory s).
Definition set_memory (m : Mem) s : Heap Mem := mkHeap (heap s) m.
End Setters.

(* ===================================================================== *)
(** ** Orders, links and headers *)

(** [u32::trailing_zeros] *)
Fixpoint trailing_zeros_from (fuel : nat) (i x : Z) : Z :=
  match fuel with
  | O => i
  | S fuel => if Z.testbit x i then i else trailing_zeros_from fuel (i + 1) x
  end.
Definition trailing_zeros (x : Z) : Z := trailing_zeros_from 32 0 x.

(** [u32::next_power_of_two], for the arguments up to [2 ^ 31] it has a result for *)
Definition next_power_of_two (x : Z) : Z := 2 ^ Z.log2_up x.

(** [Order::size] *)
Definition order_size (o : Order) : Z := cast U32 (Z.shiftl MIN_POSSIBLE_ALLOCATION o).

Definition link_from_raw (raw : Z) : Link := if raw =? NIL_MARKER then Nil else Ptr raw.
Definition link_into_raw (l : Link) : Z := match l with Nil => NIL_MARKER | Ptr ptr => ptr end.

Definition OCCUPIED_MASK : Z := 0x100000000.

Section Allocator.
Context {P : Profile} {Mem : Type} {MM : Memory Mem}.
Local Abbreviation MH := (M (Heap Mem) AllocError).
Implicit Types (s : Heap Mem) (o : Order).

Definition order_from_raw (raw : Z) : MH Order :=
  if raw <? N_ORDERS then ret raw else fail (OtherError "invalid order").

Definition order_from_size (size : Z) : MH Order :=
  if MAX_POSSIBLE_ALLOCATION <? size then fail RequestedAllocationTooLarge
  else
    let clamped_size := if size <? MIN_POSSIBLE_ALLOCATION then MIN_POSSIBLE_ALLOCATION else size in
    sub U32 (trailing_zeros (next_power_of_two clamped_size)) (trailing_zeros MIN_POSSIBLE_ALLOCATION).

(** [Header::read_from] and [Header::write_into] *)
Definition read_header (header_ptr : Z) : MH Header :=
  let! raw := gets (fun s => read_le_u64 (memory s) header_ptr) in
  let! raw_header := ok_or raw (OtherError "read out of heap bounds") in
  let occupied := negb (Z.land raw_header OCCUPIED_MASK =? 0) in
  let header_data := cast U32 raw_header in
  if occupied then let! o := order_from_raw header_data in ret (Occupied o)
  else ret (Free (link_from_raw header_data)).

Definition raw_header (h : Header) : Z :=
  match h with
  | Occupied o => Z.lor o OCCUPIED_MASK
  | Free l => Z.lor (link_into_raw l) 0
  end.

Definition write_header (h : Header) (header_ptr : Z) : MH unit :=
  let! m := gets (fun s => write_le_u64 (memory s) header_ptr (raw_header h)) in
  let! m := ok_or m (OtherError "write out of heap bounds") in
  modify (set_memory m).

Definition into_occupied (h : Header) : option Order := match h with Occupied o => Some o | Free _ => None end.
Definition into_free (h : Header) : option Link := match h with Free l => Some l | Occupied _ => None end.

(** [self.free_lists[order]], and the assignment to it; out of range panics. *)
Definition get_head o : MH Link :=
  let! l := gets (fun s => free_lists (heap s) !! Z.to_nat o) in unwrap l.

Definition set_head o (l : Link) : MH unit :=
  let! heads := gets (fun s => free_lists (heap s)) in
  assert (bool_decide (is_Some (heads !! Z.to_nat o))) ;;
  modify (on_heap (set_free_lists (<[Z.to_nat o := l]> heads))).

(** [FreeLists::replace] *)
Definition replace_head o (l : Link) : MH Link :=
  let! prev := get_head o in
  set_head o l ;; ret prev.

(* --------------------------------------------------------------------- *)
(** *** The allocator *)

Definition new_allocator (heap_base : Z) : MH FreeingBumpHeapAllocator :=
  let! x := add U32 heap_base ALIGNMENT in
  let! x := sub U32 x 1 in
  let! aligned_heap_base := mul U32 (x / ALIGNMENT) ALIGNMENT in
  ret (mkAllocator aligned_heap_base (replicate (Z.to_nat N_ORDERS) Nil) 0 false 0 aligned_heap_base 0).

Definition bump (size heap_end : Z) : MH Z :=
  let! b := gets (fun s => bumper (heap s)) in
  let! top := add U32 b size in
  if heap_end <? top then fail AllocatorOutOfSpace
  else
    let! top := add U32 b size in
    modify (on_heap (set_bumper top)) ;;
    ret b.

Definition observe_memory_size : MH unit :=
  let! size := gets (fun s => mem_size (memory s)) in
  let! last := gets (fun s => last_observed_memory_size (heap s)) in
  if size <? last then fail MemoryShrinked
  else modify (on_heap (set_observed size)).

(** The chunk that [allocate] takes: the head of the free list, or a new one. *)
Definition take_chunk o : MH Z :=
  let! head := get_head o in
  match head with
  | Ptr header_ptr =>
      let! x := add U32 header_ptr (order_size o) in
      let! x := add U32 x HEADER_SIZE in
      let! size := gets (fun s => mem_size (memory s)) in
      assert (x <=? size) ;;
      let! h := read_header header_ptr in
      let! next_free := ok_or (into_free h) (OtherError "free list points to a occupied header") in
      set_head o next_free ;;
      ret header_ptr
  | Nil =>
      let! size := add U32 (order_size o) HEADER_SIZE in
      let! heap_end := gets (fun s => mem_size (memory s)) in
      bump size heap_end
  end.

(** A guard of both operations: an error after it leaves the allocator poisoned. *)
Definition guarded {A} (m : MH A) : MH A :=
  let! p := gets (fun s => poisoned (heap s)) in
  if p then fail (OtherError "the allocator has been poisoned")
  else on_err m (modify (on_heap (set_poisoned true))).

Definition allocate (size : Z) : MH Z :=
  guarded (
    observe_memory_size ;;
    let! o := order_from_size size in
    let! header_ptr := take_chunk o in
    write_header (Occupied o) header_ptr ;;
    let! chunk := add U32 (order_size o) HEADER_SIZE in
    let! total := gets (fun s => total_size (heap s)) in
    let! total := add U32 total chunk in
    modify (on_heap (set_total_size total)) ;;
    modify (on_heap (fun a => set_maxima (Z.max (total_size a) (max_total_size a)) (Z.max (bumper a) (max_bumper a)) a)) ;;
    add U32 header_ptr HEADER_SIZE).

Definition deallocate (ptr : Z) : MH unit :=
  guarded (
    observe_memory_size ;;
    let! header_ptr := ok_or (checked_sub ptr HEADER_SIZE) (OtherError "Invalid pointer for deallocation") in
    let! h := read_header header_ptr in
    let! o := ok_or (into_occupied h) (OtherError "the allocation points to an empty header") in
    let! prev_head := replace_head o (Ptr header_ptr) in
    write_header (Free prev_head) header_ptr ;;
    let! total := gets (fun s => total_size (heap s)) in
    let! chunk := add U32 (order_size o) HEADER_SIZE in
    let! total := ok_or (checked_sub total chunk)
      (OtherError "Unable to subtract from total heap size without overflow") in
    modify (on_heap (set_total_size total))).
End Allocator.

(* ===================================================================== *)
(** ** Byte slices *)

(** [u64::from_le_bytes] and [u64::to_le_bytes] *)
Fixpoint from_le_bytes (l : list Byte.byte) : Z :=
  match l with
  | [] => 0
  | b :: l' => Z.of_N (Byte.to_N b) + 256 * from_le_bytes l'
  end.

Fixpoint to_le_bytes (n : nat) (x : Z) : list Byte.byte :=
  match n with
  | O => []
  | S n => byte_of x :: to_le_bytes n (x / 256)
  end.

(** The start of the range, where it is in the heap. *)
Definition heap_range (offset length heap_len : Z) : option Z :=
  match checked_add U32 offset length with
  | Some end_ => if end_ <=? heap_len then Some offset else None
  | None => None
  end.

#[export] Instance Memory_bytes : Memory bytes := {|
  read_le_u64 m ptr :=
    start ← heap_range ptr 8 (Z.of_nat (length m));
    Some (from_le_bytes (take 8 (drop (Z.to_nat start) m)));
  write_le_u64 m ptr val :=
    start ← heap_range ptr 8 (Z.of_nat (length m));
    Some (take (Z.to_nat start) m ++ to_le_bytes 8 val ++ drop (Z.to_nat start + 8) m);
  mem_size m := Z.of_nat (length m)
|}.
