(* ===== verification/AllocatorFacts.v ===== *)
(** * The heap allocator: memory, orders and headers

    The laws of the [Memory] trait, which byte slices satisfy; orders are the
    exponents of the least power of two that fits; headers survive the memory. *)

From S2P Require Import Prelude Allocator.

Set Default Proof Using "Type".

(* ===================================================================== *)
(** ** The laws of memories *)

Class MemoryOk (Mem : Type) {MM : Memory Mem} := {
  valid_memory : Mem -> Prop;
  mem_size_range m : valid_memory m -> 0 <= mem_size m < U32;
  read_oob m p : valid_memory m -> 0 <= p -> mem_size m < p + 8 -> read_le_u64 m p = None;
  write_oob m p v : valid_memory m -> 0 <= p -> mem_size m < p + 8 -> write_le_u64 m p v = None;
  write_ok m p v : valid_memory m -> 0 <= p -> p + 8 <= mem_size m -> in_range U64 v ->
    exists m', write_le_u64 m p v = Some m' /\ valid_memory m' /\ mem_size m' = mem_size m /\
      read_le_u64 m' p = Some v /\
      forall q, 0 <= q -> q + 8 <= p \/ p + 8 <= q -> read_le_u64 m' q = read_le_u64 m q
}.

(* --------------------------------------------------------------------- *)
(** *** Byte slices *)

Lemma from_to_le_bytes n x : 0 <= x < 256 ^ Z.of_nat n -> from_le_bytes (to_le_bytes n x) = x.
Proof.
  revert x. induction n as [|n IH]; intros x Hx; [simpl in *; lia|]. cbn [to_le_bytes from_le_bytes].
  rewrite Nat2Z.inj_succ, Z.pow_succ_r in Hx by lia. rewrite byte_of_to, IH.
  - pose proof (Z.div_mod x 256). lia.
  - split; [apply Z.div_pos; lia|]. apply Z.div_lt_upper_bound; lia.
Qed.

Lemma length_to_le_bytes n x : length (to_le_bytes n x) = n.
Proof. revert x. induction n; intros; simpl; auto. Qed.

(** The word at [i] of the list with a word written at [j]. *)
Lemma take_drop_splice {A} (m w : list A) i j :
  length w = 8%nat -> (j + 8 <= length m)%nat -> (i + 8 <= j \/ j + 8 <= i)%nat ->
  take 8 (drop i (take j m ++ w ++ drop (j + 8) m)) = take 8 (drop i m).
Proof.
  intros Hw Hj Hd. apply list_eq. intros k. destruct (decide (k < 8)%nat) as [Hk|Hk].
  2:{ rewrite !lookup_take_ge by lia. done. }
  rewrite !lookup_take_lt, !lookup_drop by lia. destruct Hd as [Hd|Hd].
  - rewrite lookup_app_l by (rewrite length_take; lia). rewrite lookup_take_lt by lia. done.
  - rewrite lookup_app_r by (rewrite length_take; lia). rewrite length_take, Nat.min_l by lia.
    rewrite lookup_app_r by lia. rewrite lookup_drop. f_equal. lia.
Qed.

#[export] Program Instance MemoryOk_bytes : MemoryOk bytes := {|
  valid_memory m := Z.of_nat (length m) < U32
|}.
Next Obligation. intros m Hm. simpl in *. lia. Qed.
Next Obligation.
  intros m p Hm Hp Hs. simpl in *. unfold heap_range, checked_add.
  destruct (Z.ltb_spec (p + 8) U32); [|done]. by replace (p + 8 <=? _) with false by lia.
Qed.
Next Obligation.
  intros m p v Hm Hp Hs. simpl in *. unfold heap_range, checked_add.
  destruct (Z.ltb_spec (p + 8) U32); [|done]. by replace (p + 8 <=? _) with false by lia.
Qed.
Next Obligation.
  intros m p v Hm Hp Hs Hv.
  pose proof (length_to_le_bytes 8 v) as Hw. pose proof (from_to_le_bytes 8 v Hv) as Hf.
  cbn [read_le_u64 write_le_u64 mem_size Memory_bytes] in *. revert Hw Hf.
  generalize (to_le_bytes 8 v) as w. intros w Hw Hf.
  assert (forall (l : bytes) q, length l = length m -> 0 <= q -> q + 8 <= Z.of_nat (length m) ->
    heap_range q 8 (Z.of_nat (length l)) = Some q) as Hr.
  { intros l q Hl Hq Hb. unfold heap_range, checked_add. rewrite Hl.
    replace (q + 8 <? U32) with true by lia. by replace (q + 8 <=? _) with true by lia. }
  rewrite (Hr m p) by lia. simpl. eexists. split; [done|].
  assert (length (take (Z.to_nat p) m ++ w ++ drop (Z.to_nat p + 8) m) = length m) as Hlen.
  { rewrite !length_app, length_take, length_drop. lia. }
  rewrite Hlen. split_and!; [done|done|..].
  - rewrite <- Hlen, (Hr _ p) by lia. simpl. rewrite drop_app_length' by (rewrite length_take; lia).
    rewrite take_app_length' by done. by f_equal.
  - intros q Hq Hd. destruct (decide (q + 8 <= Z.of_nat (length m))) as [Hb|Hb].
    + rewrite Hr by lia. simpl. f_equal. f_equal. apply take_drop_splice; [done|lia|lia].
    + unfold heap_range. destruct (checked_add U32 q 8) eqn:Hc; [|done].
      unfold checked_add in Hc. case_match; simplify_eq. by replace (q + 8 <=? _) with false by lia.
Qed.

(* ===================================================================== *)
(** ** Orders *)

Definition order_ok (o : Order) : Prop := 0 <= o < N_ORDERS.

Lemma order_size_eq o : order_ok o -> order_size o = 2 ^ (o + 3).
Proof.
  unfold order_ok, N_ORDERS. intros Ho. unfold order_size, cast, MIN_POSSIBLE_ALLOCATION.
  rewrite Z.shiftl_mul_pow2 by lia. change 8 with (2 ^ 3). rewrite <- Z.pow_add_r by lia.
  rewrite Z.mod_small; [f_equal; lia|]. split; [apply Z.pow_nonneg; lia|]. change U32 with (2 ^ 32). apply Z.pow_lt_mono_r; lia.
Qed.

Lemma order_size_range o : order_ok o -> 8 <= order_size o <= MAX_POSSIBLE_ALLOCATION.
Proof.
  intros Ho. rewrite order_size_eq by done. unfold order_ok, N_ORDERS in Ho.
  split; [change 8 with (2 ^ 3)|change MAX_POSSIBLE_ALLOCATION with (2 ^ 25)]; apply Z.pow_le_mono_r; lia.
Qed.

Lemma order_size_aligned o : order_ok o -> order_size o mod 8 = 0.
Proof.
  intros Ho. rewrite order_size_eq by done. unfold order_ok in Ho. rewrite Z.pow_add_r by lia. apply Z_mod_mult.
Qed.

Lemma trailing_zeros_from_pow fuel i k :
  0 <= i <= k -> k < i + Z.of_nat fuel -> trailing_zeros_from fuel i (2 ^ k) = k.
Proof.
  revert i. induction fuel as [|fuel IH]; intros i Hi Hk; [lia|]. cbn [trailing_zeros_from].
  destruct (decide (i = k)) as [->|Hne]; [by rewrite Z.pow2_bits_true by lia|].
  rewrite Z.pow2_bits_false by lia. apply IH; lia.
Qed.

Lemma trailing_zeros_pow k : 0 <= k < 32 -> trailing_zeros (2 ^ k) = k.
Proof. intros Hk. apply trailing_zeros_from_pow; lia. Qed.

(** The order of a size: that of the least power of two, from 8, that holds it. *)
Definition fits (size : Z) (o : Order) : Prop :=
  order_ok o /\ size <= order_size o /\ (o = 0 \/ order_size o < 2 * size).

Section Orders.
Context {P : Profile} {Mem : Type} {MM : Memory Mem}.
Local Abbreviation MH := (M (Heap Mem) AllocError).

Lemma wp_order_from_size size s (Q : Order -> Heap Mem -> Prop) (R : AllocError -> _) :
  (forall o, fits size o -> Q o s) -> (MAX_POSSIBLE_ALLOCATION < size -> R RequestedAllocationTooLarge s) ->
  wp (order_from_size size) Q R s.
Proof.
  intros HQ HR. unfold order_from_size. destruct (Z.ltb_spec MAX_POSSIBLE_ALLOCATION size) as [Hbig|Hle]; [by apply wp_fail, HR|].
  set (c := if size <? MIN_POSSIBLE_ALLOCATION then MIN_POSSIBLE_ALLOCATION else size).
  assert (8 <= c <= 2 ^ 25 /\ size <= c /\ (c = 8 \/ c = size)) as (Hc & Hsc & Hor).
  { unfold c, MIN_POSSIBLE_ALLOCATION, MAX_POSSIBLE_ALLOCATION in *. change (2 ^ 25) with 33554432. destruct (Z.ltb_spec size 8); lia. }
  assert (3 <= Z.log2_up c <= 25) as Hk.
  { split; [apply (Z.log2_up_le_mono 8); lia|]. rewrite <- (Z.log2_up_pow2 25) by lia. apply Z.log2_up_le_mono. lia. }
  unfold next_power_of_two. rewrite trailing_zeros_pow by lia. change (trailing_zeros MIN_POSSIBLE_ALLOCATION) with 3.
  apply wp_arith; [unfold U32; lia|]. apply HQ.
  assert (order_ok (Z.log2_up c - 3)) as Ho by (unfold order_ok, N_ORDERS; lia).
  pose proof (Z.log2_up_spec c ltac:(lia)) as [Hlo Hhi].
  split; [done|]. rewrite order_size_eq by done. replace (Z.log2_up c - 3 + 3) with (Z.log2_up c) by lia.
  split; [lia|]. destruct (decide (Z.log2_up c = 3)) as [->|Hne]; [by left|right].
  replace (Z.log2_up c) with (Z.pred (Z.log2_up c) + 1) by lia. rewrite Z.pow_add_r by lia.
  destruct Hor as [He|He]; [|lia]. rewrite He in Hne. done.
Qed.

(* --------------------------------------------------------------------- *)
(** *** Headers *)

(** Links that a header can hold. *)
Definition link_ok (l : Link) : Prop := match l with Nil => True | Ptr p => 0 <= p < NIL_MARKER end.

Definition header_ok (h : Header) : Prop :=
  match h with Free l => link_ok l | Occupied o => order_ok o end.

Lemma link_roundtrip l : link_ok l -> link_from_raw (link_into_raw l) = l.
Proof.
  unfold link_from_raw. destruct l as [|p]; simpl; [done|]. intros Hp.
  by replace (p =? NIL_MARKER) with false by lia.
Qed.

Lemma land_pow2_small a k : 0 <= k -> 0 <= a < 2 ^ k -> Z.land a (2 ^ k) = 0.
Proof.
  intros Hk Ha. apply Z.bits_inj'. intros n Hn. rewrite Z.land_spec, Z.bits_0.
  destruct (decide (n = k)) as [->|Hne].
  - rewrite (proj2 (Z.testbit_false a k Hk)); [done|]. by rewrite Z.div_small.
  - rewrite Z.pow2_bits_false by lia. apply andb_false_r.
Qed.

Lemma occupied_eq o : order_ok o -> Z.lor o OCCUPIED_MASK = o + OCCUPIED_MASK.
Proof.
  intros Ho. unfold order_ok, N_ORDERS in Ho. change OCCUPIED_MASK with (2 ^ 32).
  pose proof (Z.add_lor_land o (2 ^ 32)) as He. rewrite land_pow2_small in He by lia. lia.
Qed.

Lemma raw_header_range h : header_ok h -> in_range U64 (raw_header h).
Proof.
  unfold in_range. destruct h as [l|o]; simpl; intros Hh.
  - rewrite Z.lor_0_r. destruct l; simpl in *; unfold NIL_MARKER, U32, U64 in *; lia.
  - rewrite occupied_eq by done. unfold order_ok, N_ORDERS, OCCUPIED_MASK, U64 in *. lia.
Qed.

(** What was written is read. *)
Lemma wp_read_header h p s (Q : Header -> Heap Mem -> Prop) (R : AllocError -> _) :
  header_ok h -> read_le_u64 (memory s) p = Some (raw_header h) -> Q h s -> wp (read_header p) Q R s.
Proof.
  intros Hh Hr HQ. unfold read_header. wp_steps; [|congruence].
  assert (a = raw_header h) as -> by congruence.
  destruct h as [l|o]; simpl in *.
  - rewrite Z.lor_0_r. assert (0 <= link_into_raw l < 2 ^ 32) as Hl.
    { destruct l; simpl in *; unfold NIL_MARKER, U32 in *; lia. }
    change OCCUPIED_MASK with (2 ^ 32). rewrite land_pow2_small by lia. simpl. unfold cast.
    rewrite Z.mod_small by done. rewrite link_roundtrip by done. by apply wp_ret.
  - rewrite occupied_eq by done. pose proof Hh as [Ho1 Ho2]. unfold N_ORDERS in Ho2.
    assert (Z.land (o + OCCUPIED_MASK) OCCUPIED_MASK = OCCUPIED_MASK) as ->.
    { rewrite <- occupied_eq by done. rewrite Z.land_lor_distr_l, Z.land_diag. change OCCUPIED_MASK with (2 ^ 32).
      rewrite land_pow2_small by lia. done. }
    simpl. unfold cast. rewrite <- Z.add_mod_idemp_r by done. change (OCCUPIED_MASK mod U32) with 0.
    rewrite Z.add_0_r, Z.mod_small by (unfold U32; lia). unfold order_from_raw.
    replace (o <? N_ORDERS) with true by (unfold N_ORDERS; lia). by wp_steps.
Qed.
End Orders.
