(* ===== verification/AllocatorTheorems.v ===== *)
(** * The heap allocator: blocks never overlap

    The chunks of the heap tile it from its base to the bumper; each is live or
    on the free list of its order, and the headers in the memory say which.
    From this: allocations are in the heap, aligned, large enough and disjoint,
    over every history of calls and of writes by the guest to its own blocks. *)

From S2P Require Import Prelude Allocator AllocatorFacts.

Set Default Proof Using "Type".

Definition chunk_size (o : Order) : Z := order_size o + HEADER_SIZE.

Lemma chunk_size_range o : order_ok o -> 16 <= chunk_size o <= MAX_POSSIBLE_ALLOCATION + HEADER_SIZE.
Proof. intros Ho. pose proof (order_size_range o Ho). unfold chunk_size, HEADER_SIZE. lia. Qed.

(* ===================================================================== *)
(** ** Tilings *)

Abbreviation Chunk := (Z * Order)%type.

(** The chunks, in the order of their headers, from [b] to [t]. *)
Fixpoint tiles (b : Z) (l : list Chunk) (t : Z) : Prop :=
  match l with
  | [] => b = t
  | (h, o) :: l' => h = b /\ order_ok o /\ tiles (b + chunk_size o) l' t
  end.

Section Tiles.
Implicit Types (b t h : Z) (o : Order) (l : list Chunk).

Lemma tiles_snoc b l t o : tiles b l t -> order_ok o -> tiles b (l ++ [(t, o)]) (t + chunk_size o).
Proof.
  revert b. induction l as [|[h q] l IH]; intros b Ht Ho; simpl in *.
  - by subst.
  - destruct Ht as (-> & Hq & Ht). auto.
Qed.

Lemma tiles_le b l t : tiles b l t -> b <= t.
Proof.
  revert b. induction l as [|[h o] l IH]; intros b Ht; simpl in Ht; [lia|].
  destruct Ht as (-> & Ho & Ht). pose proof (chunk_size_range o Ho). specialize (IH _ Ht). lia.
Qed.

Lemma tiles_in b l t h o :
  tiles b l t -> (h, o) ∈ l -> order_ok o /\ b <= h /\ h + chunk_size o <= t /\ h mod 8 = b mod 8.
Proof.
  revert b. induction l as [|[k q] l IH]; intros b Ht Hin; simpl in Ht; [by apply elem_of_nil in Hin|].
  destruct Ht as (-> & Hq & Ht). pose proof (chunk_size_range q Hq). pose proof (tiles_le _ _ _ Ht).
  apply elem_of_cons in Hin as [[= -> ->]|Hin]; [done|].
  destruct (IH _ Ht Hin) as (Ho & Hb & Htop & Hm). split_and!; [done|lia|done|]. rewrite Hm.
  unfold chunk_size, HEADER_SIZE. rewrite <- (Z.add_mod_idemp_r b), <- (Z.add_mod_idemp_l (order_size q)) by done.
  rewrite order_size_aligned by done. change ((0 + 8) mod 8) with 0. by rewrite Z.add_0_r.
Qed.

(** Two chunks are the same or lie apart. *)
Definition apart h o h' o' : Prop := h + chunk_size o <= h' \/ h' + chunk_size o' <= h.

Lemma tiles_apart b l t h o h' o' :
  tiles b l t -> (h, o) ∈ l -> (h', o') ∈ l -> (h, o) = (h', o') \/ apart h o h' o'.
Proof.
  unfold apart. revert b. induction l as [|[k q] l IH]; intros b Ht Hin Hin'; simpl in Ht; [by apply elem_of_nil in Hin|].
  destruct Ht as (-> & Hq & Ht). rewrite elem_of_cons in Hin, Hin'.
  destruct Hin as [E|Hin], Hin' as [E'|Hin'].
  - left. congruence.
  - simplify_eq. destruct (tiles_in _ _ _ _ _ Ht Hin') as (_ & Hb & _). lia.
  - simplify_eq. destruct (tiles_in _ _ _ _ _ Ht Hin) as (_ & Hb & _). lia.
  - by eapply IH.
Qed.

Definition chunks_sum l : Z := foldr (fun c acc => chunk_size c.2 + acc) 0 l.

Lemma tiles_sum b l t : tiles b l t -> chunks_sum l = t - b.
Proof.
  revert b. induction l as [|[h o] l IH]; intros b Ht; simpl in *; [lia|].
  destruct Ht as (-> & _ & Ht). rewrite (IH _ Ht). lia.
Qed.

Lemma tiles_nodup b l t : tiles b l t -> NoDup l.*1.
Proof.
  revert b. induction l as [|[h o] l IH]; intros b Ht; simpl in *; [constructor|].
  destruct Ht as (-> & Ho & Ht). apply NoDup_cons. split; [|by eapply IH].
  intros ([h' o'] & Hh & Hin)%list_elem_of_fmap. simpl in Hh. subst. pose proof (chunk_size_range o Ho).
  destruct (tiles_in _ _ _ _ _ Ht Hin) as (_ & Hb & _). lia.
Qed.

(** Entries of a list with distinct keys weigh at most the list. *)
Lemma map_sum_le_chunks l (m : gmap Z Order) :
  NoDup l.*1 -> (forall h o, (h, o) ∈ l -> order_ok o) -> (forall h o, m !! h = Some o -> (h, o) ∈ l) ->
  map_sum chunk_size m <= chunks_sum l.
Proof.
  revert m. induction l as [|[h o] l IH]; intros m Hn Hok Hm; simpl.
  - assert (m = ∅) as ->; [|by rewrite map_sum_empty]. apply map_eq. intros k. rewrite lookup_empty.
    destruct (m !! k) eqn:Hk; [|done]. by apply Hm, elem_of_nil in Hk.
  - simpl in Hn. apply NoDup_cons in Hn as [Hh Hn]. pose proof (chunk_size_range o (Hok h o ltac:(left))).
    assert (map_sum chunk_size (delete h m) <= chunks_sum l) as Hd.
    { apply IH; [done|intros; eapply Hok; by right|]. intros k q [Hne Hk]%lookup_delete_Some.
      apply Hm, elem_of_cons in Hk as [E|Hk]; [congruence|done]. }
    rewrite map_sum_delete_any in Hd. unfold sum_at in Hd. destruct (m !! h) as [q|] eqn:Hq; [|lia].
    apply Hm, elem_of_cons in Hq as [E|Hq]; [simplify_eq; lia|].
    destruct Hh. apply list_elem_of_fmap. by exists (h, q).
Qed.
End Tiles.

(* ===================================================================== *)
(** ** The invariant *)
Section Layout.
Context {P : Profile} {Mem : Type} {MM : Memory Mem} {MO : MemoryOk Mem}.
Local Abbreviation MH := (M (Heap Mem) AllocError).
Implicit Types (s t : Heap Mem) (m : Mem) (h base : Z) (o : Order) (live : gmap Z Order) (frees : Order -> list Z).

(** The free list from a head: the headers in the memory link it. *)
Fixpoint chain m (l : Link) (hs : list Z) : Prop :=
  match hs with
  | [] => l = Nil
  | h :: hs' => l = Ptr h /\ exists next, link_ok next /\ read_le_u64 m h = Some (raw_header (Free next)) /\ chain m next hs'
  end.

Lemma chain_frame m m' l hs :
  (forall h, h ∈ hs -> read_le_u64 m' h = read_le_u64 m h) -> chain m l hs -> chain m' l hs.
Proof.
  revert l. induction hs as [|h hs IH]; intros l Hr Hc; simpl in *; [done|].
  destruct Hc as (-> & next & Hok & Hh & Hc). split; [done|]. exists next. split; [done|].
  rewrite Hr by left. split; [done|]. apply IH; [|done]. intros k Hk. apply Hr. by right.
Qed.

Definition upd frees o (l : list Z) : Order -> list Z := fun q => if decide (q = o) then l else frees q.

(** The room for one more chunk of any order below [2 ^ 32]. *)
Definition room m : Prop := mem_size m + (MAX_POSSIBLE_ALLOCATION + HEADER_SIZE) < U32.

Record Layout base live (chunks : list Chunk) frees s : Prop := {
  ly_valid : valid_memory (memory s);
  ly_room : room (memory s);
  ly_base : 0 <= base /\ base mod 8 = 0;
  ly_tiles : tiles base chunks (bumper (heap s));
  ly_top : bumper (heap s) <= mem_size (memory s);
  ly_chunks : forall h o, (h, o) ∈ chunks <-> live !! h = Some o \/ order_ok o /\ h ∈ frees o;
  ly_disjoint : forall h o q, live !! h = Some o -> order_ok q -> h ∉ frees q;
  ly_nodup : forall o, NoDup (frees o);
  ly_occupied : forall h o, live !! h = Some o -> read_le_u64 (memory s) h = Some (raw_header (Occupied o));
  ly_heads : length (free_lists (heap s)) = Z.to_nat N_ORDERS;
  ly_chain : forall o l, order_ok o -> free_lists (heap s) !! Z.to_nat o = Some l -> chain (memory s) l (frees o);
  ly_total : total_size (heap s) = map_sum chunk_size live;
  ly_unpoisoned : poisoned (heap s) = false;
  ly_observed : last_observed_memory_size (heap s) <= mem_size (memory s)
}.

(** The live blocks of the heap, by their headers. *)
Definition AllocInv base live s : Prop := exists chunks frees, Layout base live chunks frees s.

(** [m'] is [m] with [v] at [p]. *)
Definition written m p (v : Z) m' : Prop :=
  valid_memory m' /\ mem_size m' = mem_size m /\ read_le_u64 m' p = Some v /\
  forall q, 0 <= q -> q + 8 <= p \/ p + 8 <= q -> read_le_u64 m' q = read_le_u64 m q.

Lemma ly_live base live chunks frees s h o :
  Layout base live chunks frees s -> live !! h = Some o ->
  order_ok o /\ 0 <= h /\ h + chunk_size o <= mem_size (memory s) /\ h mod 8 = 0.
Proof.
  intros Hs Hh. destruct (tiles_in _ _ _ h o (ly_tiles _ _ _ _ _ Hs)) as (Ho & Hb & Ht & Hm).
  { apply (ly_chunks _ _ _ _ _ Hs). by left. }
  pose proof (ly_top _ _ _ _ _ Hs). destruct (ly_base _ _ _ _ _ Hs) as [H0 H8]. split_and!; [done|lia|lia|congruence].
Qed.

(** Writing the header of one chunk leaves the others'. *)
Lemma written_other base live chunks frees s h o v m' h' o' :
  Layout base live chunks frees s -> (h, o) ∈ chunks -> (h', o') ∈ chunks -> h' <> h ->
  written (memory s) h v m' -> read_le_u64 m' h' = read_le_u64 (memory s) h'.
Proof.
  intros Hs Hh Hh' Hne (_ & _ & _ & Hf). pose proof (ly_tiles _ _ _ _ _ Hs) as Ht.
  destruct (ly_base _ _ _ _ _ Hs) as [H0 _].
  destruct (tiles_in _ _ _ _ _ Ht Hh) as (Ho & Hb & _). destruct (tiles_in _ _ _ _ _ Ht Hh') as (Ho' & Hb' & _).
  pose proof (chunk_size_range o Ho). pose proof (chunk_size_range o' Ho').
  apply Hf; [lia|]. destruct (tiles_apart _ _ _ _ _ _ _ Ht Hh Hh') as [E|[Hd|Hd]]; [congruence|lia|lia].
Qed.

Lemma live_weight base live chunks frees s :
  Layout base live chunks frees s -> map_sum chunk_size live <= bumper (heap s) - base.
Proof.
  intros Hs. pose proof (ly_tiles _ _ _ _ _ Hs) as Ht. rewrite <- (tiles_sum _ _ _ Ht).
  apply map_sum_le_chunks; [by eapply tiles_nodup| |].
  - intros h o Hin. apply (tiles_in _ _ _ _ _ Ht Hin).
  - intros h o Hh. apply (ly_chunks _ _ _ _ _ Hs). by left.
Qed.

Lemma chunk_key base live chunks frees s h o q :
  Layout base live chunks frees s -> (h, o) ∈ chunks -> (h, q) ∈ chunks -> o = q.
Proof.
  intros Hs H1 H2. pose proof (ly_tiles _ _ _ _ _ Hs) as Ht.
  destruct (tiles_in _ _ _ _ _ Ht H1) as (Ho & _). destruct (tiles_in _ _ _ _ _ Ht H2) as (Hq & _).
  pose proof (chunk_size_range o Ho). pose proof (chunk_size_range q Hq).
  destruct (tiles_apart _ _ _ _ _ _ _ Ht H1 H2) as [E|[Hd|Hd]]; [congruence|lia|lia].
Qed.

(** The other fields of the state after an operation. *)
Record moved_on s t (m' : Mem) (top : Z) (heads : list Link) (total : Z) : Prop := {
  mo_memory : memory t = m';
  mo_bumper : bumper (heap t) = top;
  mo_heads : free_lists (heap t) = heads;
  mo_total : total_size (heap t) = total;
  mo_unpoisoned : poisoned (heap t) = false;
  mo_observed : last_observed_memory_size (heap t) <= mem_size m'
}.

Lemma heads_insert (l : list Link) o q x y :
  order_ok o -> order_ok q -> <[Z.to_nat o := x]> l !! Z.to_nat q = Some y ->
  q = o /\ y = x \/ q <> o /\ l !! Z.to_nat q = Some y.
Proof.
  unfold order_ok. intros Ho Hq Hl. destruct (decide (q = o)) as [->|Hne].
  - left. split; [done|]. apply list_lookup_insert_Some in Hl. naive_solver.
  - right. split; [done|]. rewrite list_lookup_insert_ne in Hl by lia. done.
Qed.

(** The head of a free list becomes live. *)
Lemma Layout_reuse base live chunks frees s t o h hs next m' :
  Layout base live chunks frees s -> order_ok o -> frees o = h :: hs -> chain (memory s) next hs ->
  written (memory s) h (raw_header (Occupied o)) m' ->
  moved_on s t m' (bumper (heap s)) (<[Z.to_nat o := next]> (free_lists (heap s))) (total_size (heap s) + chunk_size o) ->
  Layout base (<[h := o]> live) chunks (upd frees o hs) t.
Proof.
  intros Hs Ho Hf Hc Hw Ht. pose proof Hs as [S1 S2 S3 S4 S5 S6 S7 S8 S9 S10 S11 S12 S13 S14].
  destruct Ht as [E1 E2 E3 E4 E5 E6]. pose proof Hw as (W1 & W2 & W3 & _). rewrite W2 in E6.
  assert ((h, o) ∈ chunks) as Hh by (apply S6; right; rewrite Hf; split; [done|left]).
  assert (live !! h = None) as Hn.
  { destruct (live !! h) as [q|] eqn:E; [|done]. destruct (S7 _ _ o E Ho). rewrite Hf. left. }
  pose proof (S8 o) as Hnd. rewrite Hf in Hnd. apply NoDup_cons in Hnd as [Hnh Hnd].
  split; rewrite ?E1, ?E2, ?E3, ?E4, ?W2; try done.
  - unfold room. by rewrite W2.
  - intros k q. rewrite S6, lookup_insert_Some. unfold upd. destruct (decide (q = o)) as [->|Hq].
    + rewrite Hf, elem_of_cons. destruct (decide (k = h)); naive_solver.
    + split; [intros [Hl|[Hq' Hk]]|intros [[[-> ->]|[_ Hl]]|Hk]]; [left; right; split; [congruence|done]|by right|done|by left|by right].
  - intros k q r. rewrite lookup_insert_Some. unfold upd. intros [[<- <-]|[Hne Hk]] Hr; case_decide as Hro.
    + done.
    + intros Hin. destruct Hro. eapply (chunk_key _ _ _ _ _ h); [exact Hs| |exact Hh]. apply S6. by right.
    + subst r. intros Hin. apply (S7 _ _ o Hk Ho). rewrite Hf. by right.
    + by eapply S7.
  - intros q. unfold upd. by case_decide.
  - intros k q. rewrite lookup_insert_Some. intros [[<- <-]|[Hne Hk]]; [done|].
    rewrite (written_other _ _ _ _ _ h o (raw_header (Occupied o)) m' k q Hs Hh); [by apply S9|apply S6; by left|done|done].
  - by rewrite length_insert.
  - intros q l Hq Hl. unfold upd. destruct (heads_insert _ _ _ _ _ Ho Hq Hl) as [[-> ->]|[Hne Hl']].
    + rewrite decide_True by done. eapply chain_frame; [|exact Hc]. intros k Hk.
      eapply (written_other _ _ _ _ _ h o _ m' k o Hs Hh); [apply S6; right; rewrite Hf; split; [done|by right]| |done].
      intros ->. done.
    + rewrite decide_False by done. eapply chain_frame; [|by eapply S11]. intros k Hk.
      assert ((k, q) ∈ chunks) as Hkq by (apply S6; by right).
      eapply (written_other _ _ _ _ _ h o _ m' k q Hs Hh); [done| |done].
      intros ->. apply Hne. by eapply chunk_key.
  - rewrite S12, map_sum_insert. unfold sum_at. rewrite Hn. lia.
Qed.

(** A new chunk is live. *)
Lemma Layout_fresh base live chunks frees s t o m' :
  Layout base live chunks frees s -> order_ok o ->
  bumper (heap s) + chunk_size o <= mem_size (memory s) ->
  written (memory s) (bumper (heap s)) (raw_header (Occupied o)) m' ->
  moved_on s t m' (bumper (heap s) + chunk_size o) (free_lists (heap s)) (total_size (heap s) + chunk_size o) ->
  Layout base (<[bumper (heap s) := o]> live) (chunks ++ [(bumper (heap s), o)]) frees t.
Proof.
  intros Hs Ho Htop Hw Ht. pose proof Hs as [S1 S2 S3 S4 S5 S6 S7 S8 S9 S10 S11 S12 S13 S14].
  destruct Ht as [E1 E2 E3 E4 E5 E6]. pose proof Hw as (W1 & W2 & W3 & W4). rewrite W2 in E6. set (h := bumper (heap s)) in *.
  assert (forall k q, (k, q) ∈ chunks -> 0 <= k /\ k + 8 <= h /\ k <> h) as Hbelow.
  { intros k q Hk. destruct (tiles_in _ _ _ _ _ S4 Hk) as (Hq & Hb & Hd & _). pose proof (chunk_size_range q Hq). lia. }
  assert (live !! h = None) as Hn.
  { destruct (live !! h) as [q|] eqn:E; [|done]. destruct (Hbelow h q); [apply S6; by left|lia]. }
  split; rewrite ?E1, ?E2, ?E3, ?E4, ?W2; try done.
  - unfold room. by rewrite W2.
  - by apply tiles_snoc.
  - intros k q. rewrite elem_of_app, list_elem_of_singleton, S6, lookup_insert_Some. split.
    + intros [[Hl|Hk]|[= -> ->]]; [|by right|by left; left]. left. right. split; [|done].
      destruct (Hbelow k q); [apply S6; by left|lia].
    + intros [[[-> ->]|[_ Hl]]|Hk]; [by right|left; by left|left; by right].
  - intros k q r. rewrite lookup_insert_Some. intros [[<- <-]|[_ Hk]] Hr; [|by eapply S7].
    intros Hin. destruct (Hbelow h r); [apply S6; by right|lia].
  - intros k q. rewrite lookup_insert_Some. intros [[<- <-]|[_ Hk]]; [done|].
    destruct (Hbelow k q) as (H0 & H8 & _); [apply S6; by left|]. rewrite W4 by lia. by apply S9.
  - intros q l Hq Hl. eapply chain_frame; [|by eapply S11]. intros k Hk.
    destruct (Hbelow k q) as (H0 & H8 & _); [apply S6; by right|]. apply W4; lia.
  - rewrite S12, map_sum_insert. unfold sum_at. rewrite Hn. lia.
Qed.

(** Headers are below the marker of the empty list. *)
Lemma chunk_link base live chunks frees s h o :
  Layout base live chunks frees s -> (h, o) ∈ chunks -> link_ok (Ptr h).
Proof.
  intros Hs Hh. destruct (tiles_in _ _ _ _ _ (ly_tiles _ _ _ _ _ Hs) Hh) as (Ho & Hb & Ht & _).
  pose proof (chunk_size_range o Ho). pose proof (ly_top _ _ _ _ _ Hs). destruct (ly_base _ _ _ _ _ Hs) as [Hb0 _].
  pose proof (mem_size_range _ (ly_valid _ _ _ _ _ Hs)). simpl. unfold NIL_MARKER. lia.
Qed.

Lemma head_link base live chunks frees s o l :
  Layout base live chunks frees s -> order_ok o -> free_lists (heap s) !! Z.to_nat o = Some l -> link_ok l.
Proof.
  intros Hs Ho Hl. pose proof (ly_chain _ _ _ _ _ Hs o l Ho Hl) as Hc.
  destruct (frees o) as [|h hs] eqn:Hf; simpl in Hc; [by subst|]. destruct Hc as [-> _].
  eapply chunk_link; [exact Hs|]. apply (ly_chunks _ _ _ _ _ Hs). right. rewrite Hf. split; [done|left].
Qed.

(** A live chunk becomes the head of its free list. *)
Lemma Layout_free base live chunks frees s t o h prev m' :
  Layout base live chunks frees s -> live !! h = Some o -> free_lists (heap s) !! Z.to_nat o = Some prev ->
  written (memory s) h (raw_header (Free prev)) m' ->
  moved_on s t m' (bumper (heap s)) (<[Z.to_nat o := Ptr h]> (free_lists (heap s))) (total_size (heap s) - chunk_size o) ->
  Layout base (delete h live) chunks (upd frees o (h :: frees o)) t.
Proof.
  intros Hs Hl Hp Hw Ht. pose proof Hs as [S1 S2 S3 S4 S5 S6 S7 S8 S9 S10 S11 S12 S13 S14].
  destruct Ht as [E1 E2 E3 E4 E5 E6]. pose proof Hw as (W1 & W2 & W3 & _). rewrite W2 in E6.
  destruct (ly_live _ _ _ _ _ _ _ Hs Hl) as (Ho & _).
  assert ((h, o) ∈ chunks) as Hh by (apply S6; by left).
  split; rewrite ?E1, ?E2, ?E3, ?E4, ?W2; try done.
  - unfold room. by rewrite W2.
  - intros k q. rewrite S6, lookup_delete_Some. unfold upd. destruct (decide (q = o)) as [->|Hq].
    + rewrite elem_of_cons. destruct (decide (k = h)); naive_solver.
    + split; [intros [Hk|Hk]|intros [[_ Hk]|Hk]]; [left; split; [congruence|done]|by right|by left|by right].
  - intros k q r [Hne Hk]%lookup_delete_Some Hr. unfold upd. case_decide as Hro; [|by eapply S7].
    rewrite elem_of_cons. intros [->|Hin]; [done|]. by apply (S7 _ _ o Hk Ho).
  - intros q. unfold upd. case_decide; [|done]. apply NoDup_cons. split; [by eapply S7|done].
  - intros k q [Hne Hk]%lookup_delete_Some.
    rewrite (written_other _ _ _ _ _ h o (raw_header (Free prev)) m' k q Hs Hh); [by apply S9|apply S6; by left|done|done].
  - by rewrite length_insert.
  - intros q l Hq Hl'. unfold upd. destruct (heads_insert _ _ _ _ _ Ho Hq Hl') as [[-> ->]|[Hne Hl2]].
    + rewrite decide_True by done. split; [done|]. exists prev. split; [by eapply head_link|]. split; [done|].
      eapply chain_frame; [|by eapply S11]. intros k Hk.
      eapply (written_other _ _ _ _ _ h o _ m' k o Hs Hh); [apply S6; by right| |done].
      intros ->. by apply (S7 _ _ o Hl Ho).
    + rewrite decide_False by done. eapply chain_frame; [|by eapply S11]. intros k Hk.
      eapply (written_other _ _ _ _ _ h o _ m' k q Hs Hh); [apply S6; by right| |done].
      intros ->. by apply (S7 _ _ q Hl Hq).
  - rewrite S12, map_sum_delete_any. unfold sum_at. by rewrite Hl.
Qed.

(* --------------------------------------------------------------------- *)
(** *** The operations *)

Lemma wp_write_header hd p s (Q : unit -> Heap Mem -> Prop) (R : AllocError -> _) :
  valid_memory (memory s) -> header_ok hd -> 0 <= p -> p + 8 <= mem_size (memory s) ->
  (forall m', written (memory s) p (raw_header hd) m' -> Q tt (set_memory m' s)) ->
  wp (write_header hd p) Q R s.
Proof.
  intros Hv Hh Hp Hs HQ. unfold write_header.
  destruct (write_ok _ p (raw_header hd) Hv Hp Hs (raw_header_range hd Hh)) as (m' & Hw & H1 & H2 & H3 & H4).
  wp_steps; [|congruence]. assert (a = m') as -> by congruence. by apply HQ.
Qed.

Lemma wp_get_head base live chunks frees s o (Q : Link -> Heap Mem -> Prop) (R : AllocError -> _) :
  Layout base live chunks frees s -> order_ok o ->
  (forall l, free_lists (heap s) !! Z.to_nat o = Some l -> Q l s) -> wp (get_head o) Q R s.
Proof.
  intros Hs Ho HQ. unfold get_head. wp_steps.
  destruct (lookup_lt_is_Some_2 (free_lists (heap s)) (Z.to_nat o)) as [l Hl].
  { rewrite (ly_heads _ _ _ _ _ Hs). unfold order_ok in Ho. lia. }
  rewrite Hl. apply (wp_unwrap _ _ _ _ l); auto.
Qed.

Lemma wp_set_head o l l' s (Q : unit -> Heap Mem -> Prop) (R : AllocError -> _) :
  free_lists (heap s) !! Z.to_nat o = Some l' ->
  Q tt (on_heap (set_free_lists (<[Z.to_nat o := l]> (free_lists (heap s)))) s) -> wp (set_head o l) Q R s.
Proof.
  intros Hl HQ. unfold set_head. wp_steps. rewrite Hl. apply wp_assert; [|by wp_steps]. by apply bool_decide_eq_true_2.
Qed.

Lemma wp_guarded {A} (m : MH A) s (Q : A -> Heap Mem -> Prop) (R : AllocError -> _) :
  poisoned (heap s) = false -> wp m Q (fun e t => R e (on_heap (set_poisoned true) t)) s -> wp (guarded m) Q R s.
Proof.
  intros Hp Hm. unfold guarded. wp_steps. rewrite Hp. apply wp_on_err. eapply wp_mono; [exact Hm|done|].
  intros e t Ht. by wp_steps.
Qed.

Definition observed s : Heap Mem := on_heap (set_observed (mem_size (memory s))) s.

Lemma Layout_observed base live chunks frees s :
  Layout base live chunks frees s -> Layout base live chunks frees (observed s).
Proof. intros [S1 S2 S3 S4 S5 S6 S7 S8 S9 S10 S11 S12 S13 S14]. by split. Qed.

Lemma wp_observe base live chunks frees s (Q : unit -> Heap Mem -> Prop) (R : AllocError -> _) :
  Layout base live chunks frees s -> Q tt (observed s) -> wp observe_memory_size Q R s.
Proof.
  intros Hs HQ. unfold observe_memory_size. wp_steps. pose proof (ly_observed _ _ _ _ _ Hs).
  replace (_ <? _) with false by lia. by wp_steps.
Qed.

(** The chunk that is taken for an order, and the head and the bumper after it. *)
Definition next_chunk frees s o : Z := match frees o with h :: _ => h | [] => bumper (heap s) end.

Lemma wp_take_chunk base live chunks frees s o (Q : Z -> Heap Mem -> Prop) (R : AllocError -> _) :
  Layout base live chunks frees s -> order_ok o ->
  (forall h hs next, frees o = h :: hs -> (h, o) ∈ chunks -> chain (memory s) next hs ->
     Q h (on_heap (set_free_lists (<[Z.to_nat o := next]> (free_lists (heap s)))) s)) ->
  (frees o = [] -> bumper (heap s) + chunk_size o <= mem_size (memory s) ->
     Q (bumper (heap s)) (on_heap (set_bumper (bumper (heap s) + chunk_size o)) s)) ->
  (frees o = [] -> mem_size (memory s) < bumper (heap s) + chunk_size o -> R AllocatorOutOfSpace s) ->
  wp (take_chunk o) Q R s.
Proof.
  intros Hs Ho HQ HQ' HR. pose proof Hs as [S1 S2 [S3 _] S4 S5 S6 _ _ _ _ S11 _ _ _].
  pose proof (chunk_size_range o Ho) as Hc. pose proof (order_size_range o Ho) as Hos. unfold chunk_size, room, HEADER_SIZE in *.
  pose proof (mem_size_range _ S1) as Hsz. pose proof (tiles_le _ _ _ S4) as Hle. unfold take_chunk. wp_steps.
  apply (wp_get_head base live chunks frees); [done..|]. intros l Hl.
  pose proof (S11 o l Ho Hl) as Hch. destruct (frees o) as [|h hs] eqn:Hf; simpl in Hch.
  - subst l. wp_steps. apply wp_arith; [unfold HEADER_SIZE; lia|]. wp_steps. unfold bump, HEADER_SIZE. wp_steps.
    apply wp_arith; [lia|]. destruct (Z.ltb_spec (mem_size (memory s)) (bumper (heap s) + (order_size o + 8))).
    + apply wp_fail. auto.
    + wp_steps. apply wp_arith; [lia|]. wp_steps. auto.
  - destruct Hch as (-> & next & Hn & Hr & Hch).
    assert ((h, o) ∈ chunks) as Hh by (apply S6; right; rewrite Hf; split; [done|left]).
    destruct (tiles_in _ _ _ _ _ S4 Hh) as (_ & Hb & Ht & _). unfold chunk_size, HEADER_SIZE in *.
    wp_steps. apply wp_arith; [lia|]. wp_steps. apply wp_arith; [unfold HEADER_SIZE; lia|]. wp_steps.
    apply wp_assert; [unfold HEADER_SIZE; lia|]. wp_steps. apply (wp_read_header (Free next)); [done|done|].
    wp_steps; [|done]. simpl in *. simplify_eq. eapply wp_set_head; [done|]. wp_steps. by eapply HQ.
Qed.

(** The bookkeeping after the header of the new block is written. *)
Lemma wp_book o h s t0 m' top heads (Q : Z -> Heap Mem -> Prop) (R : AllocError -> _) :
  moved_on s t0 m' top heads (total_size (heap s)) -> order_ok o ->
  0 <= total_size (heap s) -> total_size (heap s) + chunk_size o < U32 -> 0 <= h -> h + HEADER_SIZE < U32 ->
  (forall t, moved_on s t m' top heads (total_size (heap s) + chunk_size o) -> Q (h + HEADER_SIZE) t) ->
  wp (let! chunk := add U32 (order_size o) HEADER_SIZE in
      let! total := gets (fun s => total_size (heap s)) in
      let! total := add U32 total chunk in
      modify (on_heap (set_total_size total)) ;;
      modify (on_heap (fun a => set_maxima (Z.max (total_size a) (max_total_size a)) (Z.max (bumper a) (max_bumper a)) a)) ;;
      add U32 h HEADER_SIZE) Q R t0.
Proof.
  intros [E1 E2 E3 E4 E5 E6] Ho H0 Hf Hh Hh' HQ. pose proof (order_size_range o Ho). unfold chunk_size, HEADER_SIZE in *.
  wp_steps. apply wp_arith; [lia|]. wp_steps. rewrite E4. apply wp_arith; [lia|]. wp_steps. apply wp_arith; [lia|].
  by apply HQ.
Qed.

Lemma wp_allocate base live chunks frees size s (Q : Z -> Heap Mem -> Prop) (R : AllocError -> _) :
  Layout base live chunks frees s ->
  (forall o t chunks' frees', fits size o -> live !! next_chunk frees s o = None ->
     Layout base (<[next_chunk frees s o := o]> live) chunks' frees' t ->
     mem_size (memory t) = mem_size (memory s) ->
     Q (next_chunk frees s o + HEADER_SIZE) t) ->
  (forall t, poisoned (heap t) = true -> MAX_POSSIBLE_ALLOCATION < size -> R RequestedAllocationTooLarge t) ->
  (forall o t, poisoned (heap t) = true -> fits size o -> frees o = [] ->
     mem_size (memory s) < bumper (heap s) + chunk_size o -> R AllocatorOutOfSpace t) ->
  wp (allocate size) Q R s.
Proof.
  intros Hs0 HQ HR1 HR2. unfold allocate. apply wp_guarded; [apply (ly_unpoisoned _ _ _ _ _ Hs0)|]. wp_steps.
  apply (wp_observe base live chunks frees); [done|]. apply Layout_observed in Hs0 as Hs. wp_steps.
  apply wp_order_from_size; [|by intros; apply HR1]. intros o Ho. pose proof (proj1 Ho) as Hok. wp_steps.
  pose proof (live_weight _ _ _ _ _ Hs) as Hlw. pose proof Hs as [S1 S2 [S3 _] S4 S5 S6 S7 _ _ _ _ S12 S13 _].
  pose proof (chunk_size_range o Hok) as Hc. pose proof (mem_size_range _ S1) as Hsz. pose proof (tiles_le _ _ _ S4) as Hle.
  assert (0 <= total_size (heap (observed s))) as H0.
  { rewrite S12. apply map_sum_nonneg. intros k q Hq. destruct (ly_live _ _ _ _ _ _ _ Hs Hq) as (Hqo & _).
    pose proof (chunk_size_range q Hqo). lia. }
  unfold room, HEADER_SIZE in *. specialize (HQ o). unfold next_chunk in HQ.
  apply (wp_take_chunk base live chunks frees); [done|done|..].
  - intros h hs next Hf Hh Hch. rewrite Hf in HQ. destruct (tiles_in _ _ _ _ _ S4 Hh) as (_ & Hb & Ht & _). wp_steps.
    apply wp_write_header; [done|done|lia|simpl in *; lia|]. intros m' Hw.
    apply (wp_book o h (observed s) _ m' (bumper (heap s)) (<[Z.to_nat o := next]> (free_lists (heap s))));
      [|done|done|lia|lia|unfold HEADER_SIZE; lia|].
    { split; try done. simpl. destruct Hw as (_ & -> & _). done. }
    intros t Ht'. eapply HQ; [done| | |].
    + destruct (live !! h) as [q|] eqn:E; [|done]. destruct (S7 _ _ o E Hok). rewrite Hf. left.
    + by eapply Layout_reuse.
    + rewrite (mo_memory _ _ _ _ _ _ Ht'). apply Hw.
  - intros Hf Htop. rewrite Hf in HQ. wp_steps. apply wp_write_header; [done|done|simpl in *; lia|simpl in *; lia|]. intros m' Hw.
    apply (wp_book o (bumper (heap s)) (observed s) _ m' (bumper (heap s) + chunk_size o) (free_lists (heap s)));
      [|done|done|lia|simpl in *; lia|simpl in *; unfold HEADER_SIZE; lia|].
    { split; try done. simpl. destruct Hw as (_ & -> & _). done. }
    intros t Ht'. eapply HQ; [done| | |].
    + destruct (live !! bumper (heap s)) as [q|] eqn:E; [|done]. destruct (tiles_in _ _ _ _ _ S4 (proj2 (S6 _ _) (or_introl E))) as (Hq & Hb & Ht & _).
      pose proof (chunk_size_range q Hq). simpl in *. lia.
    + by eapply (Layout_fresh base live chunks frees (observed s)).
    + rewrite (mo_memory _ _ _ _ _ _ Ht'). apply Hw.
  - intros Hf Htop. by eapply HR2.
Qed.

(** [checked_sub] of what is there. *)
Lemma wp_checked_sub {S E} a b (e : E) (Q : Z -> S -> Prop) R (s : S) : b <= a -> Q (a - b) s -> wp (ok_or (checked_sub a b) e) Q R s.
Proof. intros Hb HQ. unfold checked_sub. destruct (Z.leb_spec b a); [|lia]. by apply wp_ret. Qed.

Lemma live_total base live chunks frees s h o :
  Layout base live chunks frees s -> live !! h = Some o -> chunk_size o <= total_size (heap s).
Proof.
  intros Hs Hl. rewrite (ly_total _ _ _ _ _ Hs). pose proof (map_sum_delete_any chunk_size live h) as Hd.
  unfold sum_at in Hd. rewrite Hl in Hd. assert (0 <= map_sum chunk_size (delete h live)); [|lia].
  apply map_sum_nonneg. intros k q [_ Hq]%lookup_delete_Some. destruct (ly_live _ _ _ _ _ _ _ Hs Hq) as (Hqo & _).
  pose proof (chunk_size_range q Hqo). lia.
Qed.

Lemma wp_deallocate base live chunks frees h o s (Q : unit -> Heap Mem -> Prop) (R : AllocError -> _) :
  Layout base live chunks frees s -> live !! h = Some o ->
  (forall t, Layout base (delete h live) chunks (upd frees o (h :: frees o)) t ->
     mem_size (memory t) = mem_size (memory s) -> Q tt t) ->
  wp (deallocate (h + HEADER_SIZE)) Q R s.
Proof.
  intros Hs0 Hl HQ. unfold deallocate. apply wp_guarded; [apply (ly_unpoisoned _ _ _ _ _ Hs0)|]. wp_step.
  apply (wp_observe base live chunks frees); [done|]. apply Layout_observed in Hs0 as Hs. cbv beta.
  destruct (ly_live _ _ _ _ _ _ _ Hs Hl) as (Ho & H0 & Htop & _). pose proof (order_size_range o Ho) as Hr.
  pose proof (live_total _ _ _ _ _ _ _ Hs Hl) as Htot. unfold chunk_size in Htot, Htop.
  wp_step. apply wp_checked_sub; [lia|]. replace (h + HEADER_SIZE - HEADER_SIZE) with h by lia. wp_step.
  apply (wp_read_header (Occupied o)); [done|by apply (ly_occupied _ _ _ _ _ Hs)|]. wp_steps; [|done]. simpl in *. simplify_eq.
  unfold replace_head. wp_steps. apply (wp_get_head base live chunks frees); [done|done|]. intros prev Hp. wp_steps.
  eapply wp_set_head; [exact Hp|]. wp_steps.
  apply wp_write_header; [apply Hs|by eapply head_link|done|unfold HEADER_SIZE in *; simpl in *; lia|]. intros m' Hw. wp_steps.
  apply wp_arith; [unfold HEADER_SIZE, MAX_POSSIBLE_ALLOCATION, U32 in *; lia|]. wp_step. apply wp_checked_sub; [done|]. wp_steps.
  eapply HQ; [|apply Hw]. eapply (Layout_free _ _ _ _ (observed s)); [done|done|done|exact Hw|].
  split; try done; [apply Hs|simpl]. destruct Hw as (_ & -> & _). done.
Qed.
End Layout.
