(* ===== verification/AllocatorGuest.v ===== *)
(** * The heap allocator and its guest

    Histories of a guest: it allocates, frees, writes to its own blocks and
    grows its memory, from a new allocator.  What it can rely on. *)

From S2P Require Import Prelude Allocator AllocatorFacts AllocatorTheorems.

Set Default Proof Using "Type".

Section Guest.
Context {P : Profile} {Mem : Type} {MM : Memory Mem} {MO : MemoryOk Mem}.
Implicit Types (s t : Heap Mem) (m : Mem) (blocks : gmap Z Z) (ptr size : Z).

(** [m'] is [m] but for the bytes from [lo] to [hi]. *)
Definition same_outside (lo hi : Z) m m' : Prop :=
  valid_memory m' /\ mem_size m' = mem_size m /\
  forall q, 0 <= q -> q + 8 <= lo \/ hi <= q -> read_le_u64 m' q = read_le_u64 m q.

(** [m'] is [m] with more memory after it. *)
Definition grown m m' : Prop :=
  valid_memory m' /\ room m' /\ mem_size m <= mem_size m' /\
  forall q, 0 <= q -> q + 8 <= mem_size m -> read_le_u64 m' q = read_le_u64 m q.

(** The guest's blocks, by pointer, with the sizes it asked for, and the heap. *)
Inductive guest_step : gmap Z Z * Heap Mem -> gmap Z Z * Heap Mem -> Prop :=
| guest_allocates blocks s size ptr t :
    in_range U32 size -> allocate size s = Ok ptr t -> guest_step (blocks, s) (<[ptr := size]> blocks, t)
| guest_frees blocks s ptr size t :
    blocks !! ptr = Some size -> deallocate ptr s = Ok tt t -> guest_step (blocks, s) (delete ptr blocks, t)
| guest_writes blocks s ptr size m' :
    blocks !! ptr = Some size -> same_outside ptr (ptr + size) (memory s) m' ->
    guest_step (blocks, s) (blocks, set_memory m' s)
| guest_grows blocks s m' : grown (memory s) m' -> guest_step (blocks, s) (blocks, set_memory m' s).

Inductive guest_starts (heap_base : Z) : gmap Z Z * Heap Mem -> Prop :=
| guest_new s0 s1 a m :
    new_allocator heap_base s0 = Ok a s1 -> valid_memory m -> room m -> bumper a <= mem_size m ->
    guest_starts heap_base (∅, mkHeap a m).

Definition guest_reaches (heap_base : Z) (w : gmap Z Z * Heap Mem) : Prop :=
  exists w0, guest_starts heap_base w0 /\ rtc guest_step w0 w.

(* --------------------------------------------------------------------- *)
(** *** The invariant over the history *)

(** Each block of the guest is the payload of a live chunk. *)
Definition blocks_live blocks (live : gmap Z Order) : Prop :=
  forall ptr size, blocks !! ptr = Some size -> 0 <= size /\ exists o, live !! (ptr - HEADER_SIZE) = Some o /\ fits size o.

Definition Coherent base (w : gmap Z Z * Heap Mem) : Prop :=
  exists live, AllocInv base live w.2 /\ blocks_live w.1 live.

(** The empty allocator, from the first aligned address unless that wraps. *)
Definition fresh_at heap_base (a : FreeingBumpHeapAllocator) : Prop :=
  exists b, a = mkAllocator b (replicate (Z.to_nat N_ORDERS) Nil) 0 false 0 b 0 /\
    0 <= b /\ b mod 8 = 0 /\ (heap_base + ALIGNMENT < U32 -> heap_base <= b).

Lemma fresh_round heap_base x s (R : AllocError -> _) :
  0 <= x < U32 -> (heap_base + ALIGNMENT < U32 -> x = heap_base + ALIGNMENT - 1) ->
  wlp (let! b := mul U32 (x / ALIGNMENT) ALIGNMENT in
       ret (mkAllocator b (replicate (Z.to_nat N_ORDERS) Nil) 0 false 0 b 0)) (fun a _ => fresh_at heap_base a) R s.
Proof.
  unfold ALIGNMENT. intros Hx Hxe. pose proof (Z.div_mod x 8 ltac:(lia)). pose proof (Z.mod_pos_bound x 8 ltac:(lia)).
  apply wlp_bind, wp_wlp, wp_arith; [lia|]. apply wp_wlp, wp_ret. eexists. unfold ALIGNMENT.
  split_and!; [done|lia|by rewrite Z.mod_mul|lia].
Qed.

Lemma new_allocator_ok heap_base s a s' :
  in_range U32 heap_base -> new_allocator heap_base s = Ok a s' -> fresh_at heap_base a.
Proof.
  unfold in_range. intros Hb. cut (wlp (new_allocator heap_base) (fun a _ => fresh_at heap_base a) (fun _ _ => True) s).
  { unfold wlp. intros Hw E. by rewrite E in Hw. }
  unfold new_allocator, add, arith. apply wlp_bind. case_match eqn:E1.
  - apply andb_prop in E1 as [_ E1]. apply wp_wlp, wp_ret, wlp_bind, wp_wlp, wp_arith; [unfold ALIGNMENT in *; lia|].
    apply fresh_round; unfold ALIGNMENT in *; lia.
  - apply andb_false_iff in E1. case_match; [done|]. apply wp_wlp, wp_ret, wlp_bind, wlp_arith; [done|].
    intros x Hx. apply fresh_round; [done|unfold ALIGNMENT in *; lia].
Qed.

Lemma Coherent_starts heap_base w :
  in_range U32 heap_base -> guest_starts heap_base w ->
  exists base, Coherent base w /\ (heap_base + ALIGNMENT < U32 -> heap_base <= base).
Proof.
  intros Hb [s0 s1 a m Hn Hv Hr Htop]. destruct (new_allocator_ok _ _ _ _ Hb Hn) as (b & -> & H0 & H8 & Hle).
  exists b. split; [|done]. exists ∅. split; [|intros ptr size Hp; simpl in Hp; by rewrite lookup_empty in Hp].
  exists [], (fun _ => []). split; simpl in *; try done.
  - intros h o. split; [by intros Hx%elem_of_nil|]. rewrite lookup_empty. intros [?|[_ Hx%elem_of_nil]]; done.
  - constructor.
  - intros o l Ho Hl. apply (lookup_replicate 23) in Hl as [-> _]. done.
  - pose proof (mem_size_range _ Hv). lia.
Qed.

(** Other bytes of the memory do not matter. *)
Lemma Layout_memory base live chunks frees s m' :
  Layout base live chunks frees s -> valid_memory m' -> room m' -> mem_size (memory s) <= mem_size m' ->
  (forall h o, (h, o) ∈ chunks -> read_le_u64 m' h = read_le_u64 (memory s) h) ->
  Layout base live chunks frees (set_memory m' s).
Proof.
  intros [S1 S2 S3 S4 S5 S6 S7 S8 S9 S10 S11 S12 S13 S14] Hv Hr Hsz Hf. split; simpl; try done.
  - lia.
  - intros h o Hl. rewrite (Hf h o) by (apply S6; by left). by apply S9.
  - intros o l Ho Hl. eapply chain_frame; [|by eapply S11]. intros h Hh. apply (Hf h o), S6. by right.
  - lia.
Qed.

Lemma fits_unique size o q : fits size o -> fits size q -> o = q.
Proof.
  assert (forall o q, order_ok o -> order_ok q -> o < q -> 2 * order_size o <= order_size q) as Hlt.
  { intros a b Ha Hb Hab. rewrite !order_size_eq by done. unfold order_ok in *.
    replace (2 * 2 ^ (a + 3)) with (2 ^ (a + 4)) by (replace (a + 4) with (1 + (a + 3)) by lia; rewrite Z.pow_add_r; lia).
    apply Z.pow_le_mono_r; lia. }
  intros (Ho & Hs & Ho') (Hq & Hsq & Hq'). destruct (Z.lt_trichotomy o q) as [H|[H|H]]; [|done|].
  - specialize (Hlt _ _ Ho Hq H). unfold order_ok in *. lia.
  - specialize (Hlt _ _ Hq Ho H). unfold order_ok in *. lia.
Qed.

Lemma Coherent_step base w w' : Coherent base w -> guest_step w w' -> Coherent base w'.
Proof.
  intros (live & (chunks & frees & Hs) & Hb) Hst.
  destruct Hst as [blocks s size ptr t Hz Ha|blocks s ptr size t Hp Hd|blocks s ptr size m' Hp (Hv & Hm & Hf)|blocks s m' (Hv & Hr & Hm & Hf)];
    simpl in *.
  - pose proof (wp_allocate base live chunks frees size s (fun p t => exists live', AllocInv base live' t /\
      exists h o, p = h + HEADER_SIZE /\ live !! h = None /\ live' = <[h := o]> live /\ fits size o) (fun _ _ => True) Hs) as Hw.
    unfold wp in Hw. rewrite Ha in Hw. destruct Hw as (live' & Hi & h & o & -> & Hn & -> & Ho); [|done|done|].
    { intros o t' chunks' frees' Ho Hn Hl _. eexists. split; [by do 2 eexists|]. by do 2 eexists. }
    exists (<[h := o]> live). split; [done|]. intros p z. simpl. rewrite lookup_insert_Some. intros [[<- <-]|[Hne Hp]].
    + split; [apply Hz|]. exists o. replace (h + HEADER_SIZE - HEADER_SIZE) with h by lia. by rewrite lookup_insert_eq.
    + destruct (Hb _ _ Hp) as (Hz' & q & Hq & Hfq). split; [done|]. exists q. rewrite lookup_insert_ne by congruence. done.
  - destruct (Hb _ _ Hp) as (Hz & o & Ho & Hfo).
    pose proof (wp_deallocate base live chunks frees _ o s (fun _ t => AllocInv base (delete (ptr - HEADER_SIZE) live) t) (fun _ _ => True) Hs Ho) as Hw.
    replace (ptr - HEADER_SIZE + HEADER_SIZE) with ptr in Hw by lia. unfold wp in Hw. rewrite Hd in Hw.
    exists (delete (ptr - HEADER_SIZE) live). split; [apply Hw; intros t' Ht' _; by do 2 eexists|].
    intros p z Hp'. simpl in Hp'. apply lookup_delete_Some in Hp' as [Hne Hp']. destruct (Hb _ _ Hp') as (Hz' & q & Hq & Hfq). split; [done|]. exists q.
    rewrite lookup_delete_ne by lia. done.
  - exists live. split; [|done]. exists chunks, frees. destruct (Hb _ _ Hp) as (Hz & o & Ho & _ & Hle & _).
    apply Layout_memory; [done|done|unfold room; rewrite Hm; apply Hs|lia|]. intros h q Hq.
    pose proof (ly_tiles _ _ _ _ _ Hs) as Ht. destruct (tiles_in _ _ _ _ _ Ht Hq) as (Hqo & Hbase & _).
    pose proof (chunk_size_range q Hqo). destruct (ly_base _ _ _ _ _ Hs) as [H0 _]. apply Hf; [lia|].
    destruct (tiles_apart _ _ _ _ _ (ptr - HEADER_SIZE) o Ht Hq) as [[= -> ->]|[Hd|Hd]];
      [apply (ly_chunks _ _ _ _ _ Hs); by left|unfold HEADER_SIZE in *; lia|unfold chunk_size, HEADER_SIZE in *; lia|unfold chunk_size, HEADER_SIZE in *; lia].
  - exists live. split; [|done]. exists chunks, frees. apply Layout_memory; [done..|]. intros h o Ho.
    destruct (tiles_in _ _ _ _ _ (ly_tiles _ _ _ _ _ Hs) Ho) as (Hok & Hbase & Htop & _).
    pose proof (chunk_size_range o Hok). destruct (ly_base _ _ _ _ _ Hs) as [H0 _]. pose proof (ly_top _ _ _ _ _ Hs). apply Hf; lia.
Qed.

Lemma Coherent_reach heap_base w :
  in_range U32 heap_base -> guest_reaches heap_base w ->
  exists base, Coherent base w /\ (heap_base + ALIGNMENT < U32 -> heap_base <= base).
Proof.
  intros Hb (w0 & Hs & Hr). destruct (Coherent_starts _ _ Hb Hs) as (base & Hc & Hle). exists base. split; [|done].
  clear Hs. induction Hr as [|w0 w1 w2 Hst Hr IH]; [done|]. by eapply IH, Coherent_step.
Qed.

(** A block: aligned, in the memory, its header in front of it. *)
Definition block_ok heap_base s ptr size : Prop :=
  ptr mod 8 = 0 /\ heap_base + HEADER_SIZE <= ptr /\ ptr + size <= mem_size (memory s).

(** Two blocks and their headers lie apart. *)
Definition blocks_apart ptr size ptr' size' : Prop :=
  ptr + size <= ptr' - HEADER_SIZE \/ ptr' + size' <= ptr - HEADER_SIZE.

Lemma live_block base heap_base live s ptr size o :
  AllocInv base live s -> live !! (ptr - HEADER_SIZE) = Some o -> fits size o -> heap_base <= base -> block_ok heap_base s ptr size.
Proof.
  intros (chunks & frees & Hs) Hl (Ho & Hle & _) Hb. unfold block_ok.
  assert ((ptr - HEADER_SIZE, o) ∈ chunks) as Hin by (apply (ly_chunks _ _ _ _ _ Hs); by left).
  destruct (tiles_in _ _ _ _ _ (ly_tiles _ _ _ _ _ Hs) Hin) as (_ & Hbase & Htop & Hm). pose proof (ly_top _ _ _ _ _ Hs).
  destruct (ly_base _ _ _ _ _ Hs) as [_ H8]. unfold chunk_size, HEADER_SIZE in *. split_and!; [|lia|lia].
  replace ptr with (ptr - 8 + 1 * 8) by lia. rewrite Z.mod_add by done. congruence.
Qed.

Lemma live_apart base live s ptr size o ptr' size' o' :
  AllocInv base live s -> live !! (ptr - HEADER_SIZE) = Some o -> live !! (ptr' - HEADER_SIZE) = Some o' ->
  fits size o -> fits size' o' -> ptr <> ptr' -> blocks_apart ptr size ptr' size'.
Proof.
  intros (chunks & frees & Hs) Hl Hl' (_ & Hz & _) (_ & Hz' & _) Hne. unfold blocks_apart.
  assert (forall p q, live !! p = Some q -> (p, q) ∈ chunks) as Hin by (intros; apply (ly_chunks _ _ _ _ _ Hs); by left).
  destruct (tiles_apart _ _ _ _ _ _ _ (ly_tiles _ _ _ _ _ Hs) (Hin _ _ Hl) (Hin _ _ Hl')) as [[= E _]|[Hd|Hd]];
    unfold chunk_size, HEADER_SIZE in *; lia.
Qed.

(** C5: Over every history of a guest, from a new allocator, that allocates,
    frees, writes to its own blocks and grows its memory, as long as the memory
    stays 32 MiB and 8 bytes below 4 GiB, each block it holds
    is aligned to 8 bytes, lies in the memory above the heap base, and does not
    overlap another block or its header. *)
Theorem blocks_never_overlap heap_base blocks s :
  in_range U32 heap_base -> heap_base + ALIGNMENT < U32 -> guest_reaches heap_base (blocks, s) ->
  (forall ptr size, blocks !! ptr = Some size -> block_ok heap_base s ptr size) /\
  (forall ptr size ptr' size', blocks !! ptr = Some size -> blocks !! ptr' = Some size' -> ptr <> ptr' ->
     blocks_apart ptr size ptr' size').
Proof.
  intros Hb Hw Hr. destruct (Coherent_reach _ _ Hb Hr) as (base & (live & Hi & Hl) & Hle). specialize (Hle Hw). simpl in *. split.
  - intros ptr size Hp. destruct (Hl _ _ Hp) as (_ & o & Ho & Hf). by eapply live_block.
  - intros ptr size ptr' size' Hp Hp' Hne. destruct (Hl _ _ Hp) as (_ & o & Ho & Hf). destruct (Hl _ _ Hp') as (_ & o' & Ho' & Hf').
    by eapply live_apart.
Qed.

(** C16: The calls of such a guest, whose memory stays 32 MiB and 8 bytes below
    4 GiB, never go wrong.  Freeing a block it holds
    succeeds.  Allocating [size] bytes gives a new block apart from all it
    holds, or fails and poisons the allocator: because [size] is above the
    maximum, or because the memory above the bumper has no room for a chunk of
    less than twice the size.  No assertion fails and no header is misread. *)
Theorem guest_calls_are_safe heap_base blocks s :
  in_range U32 heap_base -> heap_base + ALIGNMENT < U32 -> guest_reaches heap_base (blocks, s) ->
  (forall ptr size, blocks !! ptr = Some size -> wp (deallocate ptr) (fun _ _ => True) (fun _ _ => False) s) /\
  (forall size, in_range U32 size ->
     wp (allocate size)
       (fun ptr t => blocks !! ptr = None /\ block_ok heap_base t ptr size /\
          forall ptr' size', blocks !! ptr' = Some size' -> blocks_apart ptr size ptr' size')
       (fun e t => poisoned (heap t) = true /\
          match e with
          | RequestedAllocationTooLarge => MAX_POSSIBLE_ALLOCATION < size
          | AllocatorOutOfSpace => mem_size (memory s) < bumper (heap s) + HEADER_SIZE + Z.max MIN_POSSIBLE_ALLOCATION (2 * size)
          | _ => False
          end) s).
Proof.
  intros Hb Hw Hr. destruct (Coherent_reach _ _ Hb Hr) as (base & (live & (chunks & frees & Hi) & Hl) & Hle). specialize (Hle Hw). simpl in *.
  split.
  - intros ptr size Hp. destruct (Hl _ _ Hp) as (_ & o & Ho & Hf). replace ptr with (ptr - HEADER_SIZE + HEADER_SIZE) by lia.
    by eapply wp_deallocate.
  - intros size Hz. apply (wp_allocate base live chunks frees); [done| |done|].
    + intros o t chunks' frees' Hf Hn Ht _. set (h := next_chunk frees s o) in *.
      assert (<[h := o]> live !! (h + HEADER_SIZE - HEADER_SIZE) = Some o) as Hh.
      { replace (h + HEADER_SIZE - HEADER_SIZE) with h by lia. apply lookup_insert_eq. }
      assert (AllocInv base (<[h := o]> live) t) as Hi' by (by do 2 eexists).
      assert (blocks !! (h + HEADER_SIZE) = None) as Hnb.
      { destruct (blocks !! (h + HEADER_SIZE)) as [z|] eqn:E; [|done]. destruct (Hl _ _ E) as (_ & q & Hq & _).
        replace (h + HEADER_SIZE - HEADER_SIZE) with h in Hq by lia. congruence. }
      split_and!; [done|by eapply live_block|]. intros ptr' size' Hp'. destruct (Hl _ _ Hp') as (_ & o' & Ho' & Hf').
      eapply live_apart; [exact Hi'|exact Hh| |done|done|congruence].
      rewrite lookup_insert_ne; [done|]. intros E. rewrite <- E in Ho'. congruence.
    + intros o t Hp (Ho & Hz1 & Hz2) _ Hfull. split; [done|]. unfold chunk_size, MIN_POSSIBLE_ALLOCATION in *.
      pose proof (order_size_range o Ho). destruct Hz2 as [-> |Hz2]; [|lia]. change (order_size 0) with 8 in *. lia.
Qed.

(** A block that is freed is the next one handed out for its size: freeing
    and allocating the same size again gives the same pointer. *)
Theorem free_then_allocate heap_base blocks s ptr size :
  in_range U32 heap_base -> guest_reaches heap_base (blocks, s) -> blocks !! ptr = Some size ->
  wp (deallocate ptr ;; allocate size) (fun ptr' t => ptr' = ptr /\ total_size (heap t) = total_size (heap s)) (fun _ _ => False) s.
Proof.
  intros Hb Hr Hp. destruct (Coherent_reach _ _ Hb Hr) as (base & (live & (chunks & frees & Hi) & Hl) & _). simpl in *.
  destruct (Hl _ _ Hp) as (_ & o & Ho & Hf). apply wp_bind. replace ptr with (ptr - HEADER_SIZE + HEADER_SIZE) at 1 by lia.
  eapply wp_deallocate; [exact Hi|exact Ho|]. intros t Ht _. eapply wp_allocate; [exact Ht|..].
  - intros q t' chunks' frees' Hq _ Ht' _. assert (q = o) as -> by (by eapply fits_unique).
    unfold next_chunk, upd in *. rewrite decide_True in * by done. split; [lia|].
    rewrite (ly_total _ _ _ _ _ Ht'), (ly_total _ _ _ _ _ Hi). by rewrite insert_delete_id.
  - intros t' _ Hbig. destruct Hf as (Hok & Hle & _). pose proof (order_size_range o Hok). lia.
  - intros q t' _ Hq Hnil _. assert (q = o) as -> by (by eapply fits_unique). unfold upd in Hnil. by rewrite decide_True in Hnil.
Qed.
End Guest.

(* ===================================================================== *)
(** ** A guest with 128 bytes *)
Module Demo.

Definition start : Heap bytes :=
  mkHeap (mkAllocator 8 (replicate 23 Nil) 0 false 0 8 0) (replicate 128 Byte.x00).

Definition after {A} (m : M (Heap bytes) AllocError A) (s : Heap bytes) : Heap bytes :=
  match m s with Ok _ t => t | _ => s end.

#[local] Instance demo_profile : Profile := release.

Definition one : Heap bytes := after (allocate 10) start.
Definition two : Heap bytes := after (allocate 1) one.

(** The guest holds ten bytes at 16 and one byte at 40. *)
Lemma demo_reaches : guest_reaches 5 (<[40 := 1]> (<[16 := 10]> ∅), two).
Proof.
  exists (∅, start). split.
  - apply (guest_new 5 start start); [reflexivity|by vm_compute|by vm_compute|by vm_compute].
  - apply (rtc_l _ _ (<[16 := 10]> ∅, one)); [|apply rtc_once]; apply guest_allocates; try done; vm_compute; reflexivity.
Qed.
End Demo.

Lemma blocks_never_overlap_witness : blocks_apart 16 10 40 1.
Proof.
  apply (proj2 (blocks_never_overlap (P := release) 5 (<[40 := 1]> (<[16 := 10]> ∅)) Demo.two ltac:(done) ltac:(done) Demo.demo_reaches));
    [by vm_compute|by vm_compute|lia].
Defined.

Lemma guest_calls_are_safe_witness :
  wp (deallocate (P := release) 16) (fun _ _ => True) (fun _ _ => False) Demo.two.
Proof.
  apply (proj1 (guest_calls_are_safe (P := release) 5 (<[40 := 1]> (<[16 := 10]> ∅)) Demo.two ltac:(done) ltac:(done) Demo.demo_reaches) 16 10).
  by vm_compute.
Defined.

Lemma free_then_allocate_witness :
  wp (deallocate (P := release) 16 ;; allocate (P := release) 10)
    (fun ptr' t => ptr' = 16 /\ total_size (heap t) = total_size (heap Demo.two)) (fun _ _ => False) Demo.two.
Proof.
  apply (free_then_allocate (P := release) 5 (<[40 := 1]> (<[16 := 10]> ∅))); [done|apply Demo.demo_reaches|by vm_compute].
Defined.

(* ===================================================================== *)
(** ** Near the end of the address space *)

(** A memory of 65535 pages, its words in a map. *)
Module Sparse.

Definition size : Z := 65535 * 65536.

#[global] Instance Memory_words : Memory (gmap Z Z) := {|
  read_le_u64 m p := if p + 8 <=? size then Some (default 0 (m !! p)) else None;
  write_le_u64 m p v := if p + 8 <=? size then Some (<[p := v]> m) else None;
  mem_size _ := size
|}.

(** The allocator whose heap is the last page. *)
Definition last_page : Heap (gmap Z Z) :=
  mkHeap (mkAllocator (size - 65536) (replicate 23 Nil) 0 false 0 (size - 65536) 0) ∅.
End Sparse.

(** Without overflow checks, the sum in [bump] wraps where the memory ends
    within a chunk of 4 GiB: with one page of heap left, a request for two pages
    is granted, the block lies past the end of the memory, and the bumper is
    back at the start of it. *)
Theorem bump_wraps_past_the_end :
  (exists s0 : Heap (gmap Z Z), new_allocator (P := release) (Sparse.size - 65536) s0 = Ok (heap Sparse.last_page) s0) /\
  exists ptr t, allocate (P := release) 131072 Sparse.last_page = Ok ptr t /\
    mem_size (memory t) < ptr + 131072 /\ bumper (heap t) = 8.
Proof.
  split; [exists Sparse.last_page; reflexivity|]. do 2 eexists. split; [vm_compute; reflexivity|]. by vm_compute.
Qed.
