(* ===== verification/Overlay.v ===== *)
(** * The transactional overlay: maps with nested transactions

    [primitives/state-machine/src/overlayed_changes/changeset.rs] and the
    [Extrinsics] of [mod.rs]: every version of a value that an open transaction
    wrote, and the keys each transaction wrote to.

    The vectors that are used as stacks ([transactions], [dirty_keys]) are
    lists whose head is the last element. *)

From S2P Require Import Prelude.

(* ===================================================================== *)
(** ** Data *)

Inductive OverlayError := NoOpenTransaction | AlreadyInRuntime | NotInRuntime.

Inductive ExecutionMode := Client | Runtime.

#[export] Instance ExecutionMode_eq_dec : EqDecision ExecutionMode.
Proof. solve_decision. Defined.

(** [Extrinsics(Vec<u32>)] *)
Abbreviation Extrinsics := (list Z).

Definition extrinsics_insert (ext : Z) (l : Extrinsics) : Extrinsics :=
  if bool_decide (last l = Some ext) then l else l ++ [ext].

Definition extrinsics_extend (l other : Extrinsics) : Extrinsics := l ++ other.

Record InnerValue (V : Type) := mkInner { iv_value : V; iv_extrinsics : Extrinsics }.
#[global] Arguments mkInner {V}.
#[global] Arguments iv_value {V}.
#[global] Arguments iv_extrinsics {V}.

(** The versions of a value, the newest first. *)
Abbreviation OverlayedEntry V := (list (InnerValue V)).

Record OverlayedMap (K V : Type) `{Countable K} := mkOverlay {
  changes : gmap K (OverlayedEntry V);
  dirty_keys : list (gset K);
  num_client_transactions : nat;
  execution_mode : ExecutionMode
}.
#[global] Arguments mkOverlay {K V _ _}.
#[global] Arguments changes {K V _ _}.
#[global] Arguments dirty_keys {K V _ _}.
#[global] Arguments num_client_transactions {K V _ _}.
#[global] Arguments execution_mode {K V _ _}.

(* ===================================================================== *)
(** ** Entries *)
Section Entry.
Context {V : Type}.
Implicit Types (e : OverlayedEntry V) (v : V).

(** [value_ref]: [None] where the [expect] fails. *)
Definition value_ref e : option V := iv_value <$> head e.

(** The distinct indices of the extrinsics that wrote the value. *)
Definition entry_extrinsics e : gset Z := ⋃ ((fun t => list_to_set (iv_extrinsics t)) <$> e).

(** A write through [value_mut] and [transaction_extrinsics_mut]. *)
Definition set_value v e : OverlayedEntry V :=
  match e with [] => [] | t :: e' => mkInner v (iv_extrinsics t) :: e' end.

Definition on_extrinsics (f : Extrinsics -> Extrinsics) e : OverlayedEntry V :=
  match e with [] => [] | t :: e' => mkInner (iv_value t) (f (iv_extrinsics t)) :: e' end.

(** [OverlayedEntry::set] *)
Definition entry_set v (first_write_in_tx : bool) (at_extrinsic : option Z) e : OverlayedEntry V :=
  let e := if first_write_in_tx || bool_decide (e = []) then mkInner v [] :: e else set_value v e in
  match at_extrinsic with
  | Some extrinsic => on_extrinsics (extrinsics_insert extrinsic) e
  | None => e
  end.
End Entry.

(* ===================================================================== *)
(** ** Maps *)
Section Map.
Context {K V : Type} `{Countable K}.
Local Abbreviation Map := (OverlayedMap K V).
Local Abbreviation MO := (M Map OverlayError).
Implicit Types (m : Map) (k : K) (v : V).

Definition empty_overlay : Map := mkOverlay ∅ [] 0 Client.

Definition set_changes x m : Map := mkOverlay x (dirty_keys m) (num_client_transactions m) (execution_mode m).
Definition set_dirty_keys x m : Map := mkOverlay (changes m) x (num_client_transactions m) (execution_mode m).
Definition set_client n m : Map := mkOverlay (changes m) (dirty_keys m) n (execution_mode m).
Definition set_mode x m : Map := mkOverlay (changes m) (dirty_keys m) (num_client_transactions m) x.

Definition transaction_depth m : nat := length (dirty_keys m).

(** [insert_dirty]: the sets after it, and whether the key is new to the last. *)
Definition insert_dirty (ds : list (gset K)) k : list (gset K) * bool :=
  match ds with
  | [] => ([], false)
  | d :: ds' => ({[k]} ∪ d :: ds', bool_decide (k ∉ d))
  end.

Definition spawn_child m : Map :=
  mkOverlay ∅ (replicate (transaction_depth m) ∅) (num_client_transactions m) (execution_mode m).

Definition is_empty m : bool := bool_decide (changes m = ∅).

Definition get k m : option (OverlayedEntry V) := changes m !! k.

Definition overlay_set k v (at_extrinsic : option Z) m : Map :=
  let overlayed := default [] (changes m !! k) in
  let (ds, first) := insert_dirty (dirty_keys m) k in
  set_dirty_keys ds (set_changes (<[k := entry_set v first at_extrinsic overlayed]> (changes m)) m).

(** [drain_commited]: the assertion and the value of each entry. *)
Definition drain_commited : MO (gmap K V) :=
  let! m := gets id in
  assert (bool_decide (transaction_depth m = 0%nat)) ;;
  assert (bool_decide (map_Forall (fun _ e => e <> []) (changes m))) ;;
  ret (omap value_ref (changes m)).

Definition has_open_runtime_transactions m : bool := (num_client_transactions m <? transaction_depth m)%nat.

Definition enter_runtime : MO unit :=
  let! mode := gets execution_mode in
  match mode with
  | Runtime => fail AlreadyInRuntime
  | Client => modify (fun m => set_client (transaction_depth m) (set_mode Runtime m))
  end.

Definition start_transaction m : Map := set_dirty_keys (∅ :: dirty_keys m) m.

Definition pop_transaction (e : OverlayedEntry V) : MO (InnerValue V * OverlayedEntry V) :=
  match e with [] => panic | t :: e' => ret (t, e') end.

(** The body of the loop of [close_transaction]. *)
Definition close_key (rollback : bool) k : MO unit :=
  let! overlayed := gets (fun m => changes m !! k) in
  let! overlayed := unwrap overlayed in
  if rollback then
    let! popped := pop_transaction overlayed in
    modify (fun m => set_changes (if bool_decide (popped.2 = []) then delete k (changes m) else <[k := popped.2]> (changes m)) m)
  else
    let! ds := gets dirty_keys in
    let! has_predecessor :=
      match ds with
      | d :: ds' => modify (set_dirty_keys ({[k]} ∪ d :: ds')) ;; ret (bool_decide (k ∈ d))
      | [] => ret (1 <? length overlayed)%nat
      end in
    if has_predecessor then
      let! dropped := pop_transaction overlayed in
      let! _ := pop_transaction dropped.2 in
      modify (fun m => set_changes
        (<[k := on_extrinsics (fun l => extrinsics_extend l (iv_extrinsics dropped.1)) (set_value (iv_value dropped.1) dropped.2)]> (changes m)) m)
    else ret tt.

Definition close_transaction (rollback : bool) : MO unit :=
  let! m := gets id in
  (if bool_decide (execution_mode m = Runtime) && negb (has_open_runtime_transactions m)
   then fail NoOpenTransaction else ret tt) ;;
  match dirty_keys m with
  | [] => fail NoOpenTransaction
  | d :: ds => modify (set_dirty_keys ds) ;; for_each (elements d) (close_key rollback)
  end.

Definition rollback_transaction : MO unit := close_transaction true.
Definition commit_transaction : MO unit := close_transaction false.

(** [m.expect(..)] *)
Definition expect {S E F A} (m : M S E A) : M S F A :=
  fun s => match m s with Ok a s' => Ok a s' | _ => Panic end.

(** The loop of [exit_runtime]; [fuel] is above the number of its iterations
    when it is the depth. *)
Fixpoint rollback_open (fuel : nat) : MO unit :=
  let! m := gets id in
  if has_open_runtime_transactions m then
    match fuel with
    | O => panic
    | S fuel => expect (F := OverlayError) rollback_transaction ;; rollback_open fuel
    end
  else ret tt.

Definition exit_runtime : MO unit :=
  let! m := gets id in
  match execution_mode m with
  | Client => fail NotInRuntime
  | Runtime =>
      modify (set_mode Client) ;;
      let! depth := gets transaction_depth in
      rollback_open depth
  end.
End Map.

(* ===================================================================== *)
(** ** Change sets: values that can be deleted *)
Section ChangeSet.
Context {K W : Type} `{Countable K}.
Local Abbreviation ChangeSet := (OverlayedMap K (option W)).
Implicit Types (m : ChangeSet) (k : K).

(** [OverlayedEntry::value] *)
Definition entry_value (e : OverlayedEntry (option W)) : option W := default None (value_ref e).

(** [modify], and [f] through the reference it returns; [init] is the value of
    the closure, which runs only where the key has no version. *)
Definition overlay_modify k (init : W) (at_extrinsic : option Z) (f : option W -> option W) m : ChangeSet :=
  let overlayed := default [] (changes m !! k) in
  let (ds, first) := insert_dirty (dirty_keys m) k in
  let clone_into_new_tx :=
    match overlayed with
    | tx :: _ => if first then Some (iv_value tx) else None
    | [] => Some (Some init)
    end in
  let overlayed :=
    match clone_into_new_tx with
    | Some cloned => entry_set cloned first at_extrinsic overlayed
    | None => overlayed
    end in
  set_dirty_keys ds (set_changes (<[k := set_value (f (entry_value overlayed)) overlayed]> (changes m)) m).

(** [clear_where]: each entry is visited once and set through its key. *)
Definition clear_where (predicate : K -> OverlayedEntry (option W) -> bool) (at_extrinsic : option Z) m : ChangeSet :=
  foldr (fun k m => overlay_set k None at_extrinsic m) m
    (map_to_list (filter (fun kv => predicate kv.1 kv.2 = true) (changes m))).*1.
End ChangeSet.
