(* ===== verification/OverlayFacts.v ===== *)
(** * The transactional overlay is a stack of snapshots

    The relation between the versions of the values and one full map per
    transaction, and its preservation by every operation. *)

From S2P Require Import Prelude Overlay.

Set Default Proof Using "Type".

(* ===================================================================== *)
(** ** The specification: a stack of maps

    The head is the map as the current transaction sees it, the last one is
    what is committed. *)
Section Stack.
Context {K V : Type} `{Countable K}.
Implicit Types (ss : list (gmap K V)).

Record Stack := mkStack { snapshots : list (gmap K V); protected : nat; in_runtime : bool }.

Definition current (s : Stack) : gmap K V := default ∅ (head (snapshots s)).
Definition depth (s : Stack) : nat := length (snapshots s) - 1.
Definition on_current (f : gmap K V -> gmap K V) (s : Stack) : Stack :=
  mkStack (match snapshots s with [] => [] | m :: ss => f m :: ss end) (protected s) (in_runtime s).

Definition stack_start (s : Stack) : Stack := mkStack (current s :: snapshots s) (protected s) (in_runtime s).

(** A transaction can be closed if one is open that is not protected. *)
Definition can_close (s : Stack) : bool := ((if in_runtime s then protected s else 0) <? depth s)%nat.

Definition stack_rollback (s : Stack) : Stack := mkStack (tail (snapshots s)) (protected s) (in_runtime s).
Definition stack_commit (s : Stack) : Stack := mkStack (current s :: drop 2 (snapshots s)) (protected s) (in_runtime s).
Definition stack_enter (s : Stack) : Stack := mkStack (snapshots s) (depth s) true.

(** Leaving the runtime drops the transactions it has left open. *)
Definition stack_exit (s : Stack) : Stack :=
  mkStack (drop (depth s - protected s) (snapshots s)) (protected s) false.
End Stack.
#[global] Arguments Stack K V {_ _}.

(* ===================================================================== *)
(** ** The relation *)
Section Tracks.
Context {K V : Type} `{Countable K}.
Local Abbreviation Map := (OverlayedMap K V).
Local Abbreviation MO := (M Map OverlayError).
Implicit Types (m : Map) (k : K) (v : V) (e : OverlayedEntry V) (ds : list (gset K)) (vs : list (option V)) (s : Stack K V).

(** The versions [xs] of the value at [k] are those that the transactions with
    [k] in their dirty keys wrote, and [vs] what each transaction sees. *)
Fixpoint tracks ds k (xs : list V) vs : Prop :=
  match ds, vs with
  | [], [v] => head xs = v /\ (length xs <= 1)%nat
  | d :: ds', v :: vs' =>
      head xs = v /\ if decide (k ∈ d) then xs <> [] /\ tracks ds' k (tail xs) vs' else tracks ds' k xs vs'
  | _, _ => False
  end.

Lemma tracks_head ds k xs vs : tracks ds k xs vs -> head vs = Some (head xs).
Proof. destruct ds, vs as [|v [|v' vs]]; simpl; naive_solver. Qed.

Lemma tracks_length ds k xs vs : tracks ds k xs vs -> length vs = S (length ds).
Proof.
  revert xs vs. induction ds as [|d ds IH]; intros xs vs Ht; destruct vs as [|v vs]; simpl in *; try done.
  - by destruct vs.
  - destruct Ht as [_ Ht]. f_equal. case_decide; [destruct Ht as [_ Ht]|]; by eapply IH.
Qed.

Lemma tracks_dirty ds ds' k xs vs :
  Forall2 (fun d d' => k ∈ d <-> k ∈ d') ds ds' -> tracks ds k xs vs -> tracks ds' k xs vs.
Proof.
  intros Hd. revert xs vs. induction Hd as [|d d' ds ds' Hk Hd IH]; intros xs vs; [done|].
  destruct vs as [|v vs]; [done|]. simpl. intros [-> Ht]. split; [done|].
  repeat case_decide; [destruct Ht; auto|tauto|tauto|auto].
Qed.

Lemma dirty_same ds k : Forall2 (fun d d' => k ∈ d <-> k ∈ d') ds ds.
Proof. induction ds; by constructor. Qed.

Lemma dirty_other ds k k' : k <> k' -> Forall2 (fun d d' => k ∈ d <-> k ∈ d') ds (insert_dirty ds k').1.
Proof.
  intros Hne. destruct ds as [|d ds]; simpl; [constructor|]. constructor; [set_solver|apply dirty_same].
Qed.

Definition values e : list V := iv_value <$> e.

Lemma values_nil e : values e = [] <-> e = [].
Proof. by destruct e. Qed.

Lemma values_on_extrinsics f e : values (on_extrinsics f e) = values e.
Proof. by destruct e. Qed.

Lemma values_set_value v e : e <> [] -> values (set_value v e) = v :: tail (values e).
Proof. by destruct e. Qed.

Lemma values_entry_set v first x e :
  values (entry_set v first x e) = v :: if first then values e else tail (values e).
Proof.
  unfold entry_set. destruct first; simpl; [by destruct x|]. case_bool_decide; [subst; by destruct x|].
  destruct x; rewrite ?values_on_extrinsics; by apply values_set_value.
Qed.

Lemma tracks_set ds k xs vs v :
  tracks ds k xs vs ->
  tracks (insert_dirty ds k).1 k (v :: if (insert_dirty ds k).2 then xs else tail xs) (Some v :: tail vs).
Proof.
  intros Ht. destruct ds as [|d ds], vs as [|v0 vs]; simpl in *; try done.
  - destruct vs; [|done]. split; [done|]. destruct Ht as [_ Ht]. simpl. destruct xs as [|x xs]; simpl in *; lia.
  - destruct Ht as [_ Ht]. rewrite decide_True by set_solver. split; [done|]. split; [done|]. simpl.
    case_bool_decide; case_decide; [done|done|by destruct Ht|tauto].
Qed.

(* --------------------------------------------------------------------- *)
(** *** The refinement relation *)

Definition entry_of m k : OverlayedEntry V := default [] (changes m !! k).

Record refines m s : Prop := {
  rf_depth : length (snapshots s) = S (transaction_depth m);
  rf_tracks k : tracks (dirty_keys m) k (values (entry_of m k)) ((fun x => x !! k) <$> snapshots s);
  rf_nonempty k : changes m !! k <> Some [];
  rf_protected : protected s = num_client_transactions m;
  rf_mode : in_runtime s = bool_decide (execution_mode m = Runtime)
}.

Lemma refines_value m s k : refines m s -> (changes m !! k) ≫= value_ref = current s !! k.
Proof.
  intros Hm. pose proof (tracks_head _ _ _ _ (rf_tracks _ _ Hm k)) as Hh. pose proof (rf_nonempty _ _ Hm k).
  unfold current, entry_of, values in *. destruct (snapshots s) as [|x ss]; simpl in *; [done|].
  injection Hh as ->. destruct (changes m !! k) as [e|]; simpl; [|done]. unfold value_ref. by destruct e.
Qed.

Lemma refines_empty : refines empty_overlay (mkStack [∅] 0 false).
Proof. split; try done. intros k. unfold entry_of. simpl. rewrite !lookup_empty. simpl. split; [done|lia]. Qed.

(** A write: a new version if it is the transaction's first, or over the newest. *)
Lemma refines_write m s k v e' :
  refines m s ->
  values e' = v :: (if (insert_dirty (dirty_keys m) k).2 then values (entry_of m k) else tail (values (entry_of m k))) ->
  refines (set_dirty_keys (insert_dirty (dirty_keys m) k).1 (set_changes (<[k := e']> (changes m)) m)) (on_current <[k := v]> s).
Proof.
  intros [R1 R2 R3 R4 R5] Hv. pose proof (tracks_set (dirty_keys m) k _ _ v (R2 k)) as Hk. rewrite <- Hv in Hk.
  assert (length (insert_dirty (dirty_keys m) k).1 = length (dirty_keys m)) as Hl by (by destruct (dirty_keys m)).
  destruct (snapshots s) as [|y ss] eqn:Es; [done|]. split; unfold transaction_depth, on_current in *; simpl; rewrite ?Es; simpl in *; try done.
  - lia.
  - intros k'. unfold entry_of. simpl. destruct (decide (k' = k)) as [->|Hne].
    + by rewrite !lookup_insert_eq.
    + rewrite !lookup_insert_ne by done. eapply tracks_dirty; [by apply dirty_other|apply R2].
  - intros k'. rewrite lookup_insert_Some. intros [[_ He]|[_ He]]; [|by eapply R3]. by rewrite He in Hv.
Qed.

Lemma refines_set m s k v x : refines m s -> refines (overlay_set k v x m) (on_current <[k := v]> s).
Proof.
  intros Hm. unfold overlay_set. pose proof (refines_write m s k v (entry_set v (insert_dirty (dirty_keys m) k).2 x (entry_of m k)) Hm) as Hw.
  rewrite values_entry_set in Hw. specialize (Hw eq_refl). by destruct (insert_dirty (dirty_keys m) k).
Qed.

Lemma refines_start m s : refines m s -> refines (start_transaction m) (stack_start s).
Proof.
  intros [R1 R2 R3 R4 R5]. split; simpl; try done.
  - unfold transaction_depth in *. simpl. lia.
  - intros k. specialize (R2 k). rewrite decide_False by set_solver. split; [|done]. unfold current. destruct (snapshots s) as [|y ss]; [done|].
    pose proof (tracks_head _ _ _ _ R2) as Hh. simpl in *. change (entry_of (start_transaction m) k) with (entry_of m k). congruence.
Qed.


(* --------------------------------------------------------------------- *)
(** *** Closing a transaction *)

(** What a loop over the keys [l] does to each entry. *)
Record closed (f : K -> list V -> list V) (l : list K) m m' : Prop := {
  cl_client : num_client_transactions m' = num_client_transactions m;
  cl_mode : execution_mode m' = execution_mode m;
  cl_in k : k ∈ l -> values (entry_of m' k) = f k (values (entry_of m k));
  cl_out k : k ∉ l -> entry_of m' k = entry_of m k;
  cl_nonempty k : changes m' !! k <> Some []
}.

Lemma entry_Some m k e : changes m !! k = Some e -> entry_of m k = e.
Proof. unfold entry_of. by intros ->. Qed.

(** One key, then the rest. *)
Lemma closed_cons f k l m m1 m' :
  k ∉ l -> closed f [k] m m1 -> closed f l m1 m' -> closed f (k :: l) m m'.
Proof.
  intros Hk [A1 A2 A3 A4 A5] [B1 B2 B3 B4 B5]. split; [congruence|congruence| | |done].
  - intros k' Hk'. apply elem_of_cons in Hk' as [->|Hk'].
    + rewrite B4 by done. apply A3. left.
    + rewrite B3 by done. f_equal. rewrite A4; [done|]. intros ->%list_elem_of_singleton. done.
  - intros k' Hk'. rewrite not_elem_of_cons in Hk'. rewrite B4, A4; [done| |tauto]. rewrite list_elem_of_singleton. tauto.
Qed.

Lemma closed_one f k m m' e' :
  num_client_transactions m' = num_client_transactions m -> execution_mode m' = execution_mode m ->
  (forall k, changes m !! k <> Some []) ->
  changes m' = (if bool_decide (e' = []) then delete k (changes m) else <[k := e']> (changes m)) ->
  values e' = f k (values (entry_of m k)) -> closed f [k] m m'.
Proof.
  intros H1 H2 Hn Hc Hv. split; [done|done|..].
  - intros k' ->%list_elem_of_singleton. rewrite <- Hv. unfold entry_of. rewrite Hc. case_bool_decide; subst.
    + by rewrite lookup_delete_eq.
    + by rewrite lookup_insert_eq.
  - intros k' Hk'. rewrite list_elem_of_singleton in Hk'. unfold entry_of. rewrite Hc.
    case_bool_decide; [by rewrite lookup_delete_ne|by rewrite lookup_insert_ne].
  - intros k'. rewrite Hc. case_bool_decide as He.
    + intros [_ Hk]%lookup_delete_Some. by apply (Hn k').
    + rewrite lookup_insert_Some. intros [[_ Hk]|[_ Hk]]; [done|by apply (Hn k')].
Qed.

Lemma wp_rollback_keys l m (Q : unit -> Map -> Prop) (R : OverlayError -> _) :
  NoDup l -> (forall k, changes m !! k <> Some []) -> (forall k, k ∈ l -> is_Some (changes m !! k)) ->
  (forall m', dirty_keys m' = dirty_keys m -> closed (fun _ => tail) l m m' -> Q tt m') ->
  wp (for_each l (close_key true)) Q R m.
Proof.
  revert m. induction l as [|k l IH]; intros m Hnd Hn Hl HQ; simpl.
  - apply wp_ret, HQ; [done|]. split; try done. by intros k ?%elem_of_nil.
  - apply NoDup_cons in Hnd as [Hk Hnd]. destruct (Hl k) as [e He]; [left|]. unfold close_key. wp_steps.
    rewrite He. apply (wp_unwrap _ _ _ _ e); [done|]. destruct e as [|x e]; [by destruct (Hn k)|]. simpl. wp_steps. simpl.
    assert (closed (fun _ => tail) [k] m (set_changes (if bool_decide (e = []) then delete k (changes m) else <[k := e]> (changes m)) m)) as H1.
    { apply (closed_one _ _ _ _ e); try done. by rewrite (entry_Some _ _ _ He). }
    apply IH; [done|apply H1| |].
    + intros k' Hk'. assert (k' <> k) as Hne by congruence. simpl.
      case_bool_decide; [rewrite lookup_delete_ne by done|rewrite lookup_insert_ne by done]; apply Hl; by right.
    + intros m' Hd Hc. apply HQ; [done|]. by eapply closed_cons.
Qed.

Lemma refines_rollback m s d ds m' :
  refines m s -> dirty_keys m = d :: ds -> dirty_keys m' = ds -> closed (fun _ => tail) (elements d) m m' ->
  refines m' (stack_rollback s).
Proof.
  intros [R1 R2 R3 R4 R5] Hd Hd' [C1 C2 C3 C4 C5]. unfold transaction_depth in *. rewrite Hd in R1.
  destruct (snapshots s) as [|y ss] eqn:Es; [done|]. split; unfold transaction_depth, stack_rollback; simpl; rewrite ?Es, ?Hd', ?C2; simpl in *; try congruence.
  intros k. specialize (R2 k). rewrite Hd in R2. simpl in R2. destruct R2 as [_ R2]. case_decide as Hk.
  - rewrite C3 by (by apply elem_of_elements). apply R2.
  - rewrite C4 by (by rewrite elem_of_elements). done.
Qed.

(** Merging the newest version into the one below it, where there is one. *)
Definition has_predecessor ds k (xs : list V) : bool :=
  match ds with d :: _ => bool_decide (k ∈ d) | [] => (1 <? length xs)%nat end.

Definition merged ds k (xs : list V) : list V :=
  if has_predecessor ds k xs then match xs with x :: _ :: xs' => x :: xs' | _ => xs end else xs.

Definition dirty_union ds (l : list K) : list (gset K) :=
  match ds with [] => [] | d :: ds' => list_to_set l ∪ d :: ds' end.

Lemma merged_other ds k k' xs : k <> k' -> merged (dirty_union ds [k']) k xs = merged ds k xs.
Proof.
  intros Hne. unfold merged, has_predecessor. destruct ds as [|d ds]; [done|]. simpl.
  by rewrite (bool_decide_ext (k ∈ {[k']} ∪ ∅ ∪ d) (k ∈ d)) by set_solver.
Qed.

Lemma wp_commit_key k m e (Q : unit -> Map -> Prop) (R : OverlayError -> _) :
  (forall k, changes m !! k <> Some []) -> changes m !! k = Some e ->
  (has_predecessor (dirty_keys m) k (values e) = true -> (1 < length e)%nat) ->
  (forall m', dirty_keys m' = dirty_union (dirty_keys m) [k] -> dom (changes m') = dom (changes m) ->
     closed (merged (dirty_keys m)) [k] m m' -> Q tt m') ->
  wp (close_key false k) Q R m.
Proof.
  intros Hn He Hp HQ. unfold close_key. wp_steps. rewrite He. apply (wp_unwrap _ _ _ _ e); [done|]. wp_steps.
  assert (forall m1, dirty_keys m1 = dirty_union (dirty_keys m) [k] -> changes m1 = changes m ->
    num_client_transactions m1 = num_client_transactions m -> execution_mode m1 = execution_mode m ->
    wp (if has_predecessor (dirty_keys m) k (values e) then
      let! dropped := pop_transaction e in
      let! _ := pop_transaction dropped.2 in
      modify (fun m => set_changes
        (<[k := on_extrinsics (fun l => extrinsics_extend l (iv_extrinsics dropped.1)) (set_value (iv_value dropped.1) dropped.2)]> (changes m)) m)
      else ret tt) Q R m1) as Hgo.
  { intros m1 Hd Hc H1 H2. destruct (has_predecessor _ _ _) eqn:Hh.
    - specialize (Hp eq_refl). destruct e as [|x [|y e]]; [simpl in Hp; lia..|]. simpl. wp_steps. simpl. wp_steps. simpl.
      apply HQ; [done| |].
      + simpl. rewrite dom_insert_L, Hc. apply elem_of_dom_2 in He. set_solver.
      + eapply (closed_one _ _ _ _ _); [done|done|done|simpl; rewrite Hc; by rewrite bool_decide_eq_false_2|].
        rewrite (entry_Some _ _ _ He). unfold merged. by rewrite Hh.
    - apply wp_ret, HQ; [done|by rewrite Hc|]. eapply (closed_one _ _ _ _ e); [done|done|done| |].
      + rewrite bool_decide_eq_false_2 by (intros ->; by apply (Hn k)). by rewrite insert_id, Hc.
      + rewrite (entry_Some _ _ _ He). unfold merged. by rewrite Hh. }
  unfold has_predecessor in *. destruct (dirty_keys m) as [|d ds] eqn:Hd; wp_steps.
  - replace (length (values e)) with (length e) in * by (unfold values; by rewrite length_fmap). by apply Hgo.
  - apply Hgo; simpl; try done. by rewrite union_empty_r_L.
Qed.

Lemma closed_ext f g l m m' : (forall k xs, k ∈ l -> f k xs = g k xs) -> closed f l m m' -> closed g l m m'.
Proof. intros Hfg [C1 C2 C3 C4 C5]. split; try done. intros k Hk. rewrite C3 by done. by apply Hfg. Qed.

Lemma dirty_union_cons ds k l : dirty_union (dirty_union ds [k]) l = dirty_union ds (k :: l).
Proof. destruct ds as [|d ds]; [done|]. simpl. f_equal. set_solver. Qed.

Lemma wp_commit_keys l m (Q : unit -> Map -> Prop) (R : OverlayError -> _) :
  NoDup l -> (forall k, changes m !! k <> Some []) ->
  (forall k, k ∈ l -> is_Some (changes m !! k) /\
     (has_predecessor (dirty_keys m) k (values (entry_of m k)) = true -> (1 < length (entry_of m k))%nat)) ->
  (forall m', dirty_keys m' = dirty_union (dirty_keys m) l -> closed (merged (dirty_keys m)) l m m' -> Q tt m') ->
  wp (for_each l (close_key false)) Q R m.
Proof.
  revert m. induction l as [|k l IH]; intros m Hnd Hn Hl HQ; simpl.
  - apply wp_ret, HQ; [destruct (dirty_keys m); simpl; [done|by rewrite union_empty_l_L]|]. split; try done. by intros k ?%elem_of_nil.
  - apply NoDup_cons in Hnd as [Hk Hnd]. destruct (Hl k) as [[e He] Hp]; [left|]. rewrite (entry_Some _ _ _ He) in Hp.
    apply wp_bind. apply (wp_commit_key k m e); [done..|]. intros m1 Hd1 Hdom Hc1.
    apply IH; [done|apply Hc1| |].
    + intros k' Hk'. destruct (Hl k') as [Hs Hp']; [by right|]. assert (k' <> k) as Hne by congruence.
      assert (k' ∉ [k]) as Hni by (by rewrite list_elem_of_singleton).
      rewrite (cl_out _ _ _ _ Hc1 k' Hni). split.
      * apply elem_of_dom. rewrite Hdom. by apply elem_of_dom.
      * intros Hh. apply Hp'. rewrite <- Hh, Hd1. unfold has_predecessor. destruct (dirty_keys m); [done|]. simpl.
        apply bool_decide_ext. set_solver.
    + intros m' Hd Hc. apply HQ; [by rewrite Hd, Hd1, dirty_union_cons|]. eapply closed_cons; [done|done|].
      eapply closed_ext; [|exact Hc]. intros k' xs Hk'. rewrite Hd1. apply merged_other. congruence.
Qed.

Lemma tracks_merged d ds k xs vs :
  tracks (d :: ds) k xs vs -> k ∈ d ->
  (has_predecessor ds k xs = true -> (1 < length xs)%nat) /\
  tracks (match ds with [] => [] | d' :: ds' => {[k]} ∪ d' :: ds' end) k (merged ds k xs) (take 1 vs ++ drop 2 vs).
Proof.
  intros Ht Hk. unfold merged. destruct vs as [|v vs]; [done|]. simpl in Ht. destruct Ht as [Hv Ht]. rewrite decide_True in Ht by done.
  destruct Ht as [Hne Ht]. destruct xs as [|x xs]; [done|]. destruct ds as [|d' ds], vs as [|v' vs]; simpl in *; try done.
  - destruct vs; [|done]. destruct Ht as [_ Hl]. destruct xs as [|y [|z xs]]; simpl in *; [by repeat split|split; [lia|by split]|lia].
  - destruct Ht as [_ Ht]. rewrite decide_True by set_solver. case_bool_decide.
    + rewrite decide_True in Ht by done. destruct xs as [|y xs]; [by destruct Ht|]. simpl in *. split; [lia|].
      split; [done|]. split; [done|]. apply Ht.
    + rewrite decide_False in Ht by done. split; [done|]. split; [done|]. by split.
Qed.

Lemma refines_commit m s d ds m' :
  refines m s -> dirty_keys m = d :: ds -> dirty_keys m' = dirty_union ds (elements d) ->
  closed (merged ds) (elements d) m m' -> refines m' (stack_commit s).
Proof.
  intros [R1 R2 R3 R4 R5] Hd Hd' [C1 C2 C3 C4 C5]. unfold transaction_depth in *. rewrite Hd in R1.
  destruct (snapshots s) as [|y ss] eqn:Es; [done|].
  split; unfold transaction_depth, stack_commit, current; simpl; rewrite ?Es, ?Hd', ?C2; simpl in *; try congruence.
  - destruct ss; [done|]. destruct ds; simpl in *; rewrite ?drop_0; lia.
  - intros k. specialize (R2 k). rewrite Hd in R2. destruct (decide (k ∈ d)) as [Hk|Hk].
    + rewrite C3 by (by apply elem_of_elements). destruct (tracks_merged _ _ _ _ _ R2 Hk) as [_ Ht].
      simpl in Ht. rewrite fmap_drop. eapply tracks_dirty; [|exact Ht]. unfold dirty_union. destruct ds as [|d' ds]; constructor.
      * rewrite list_to_set_elements_L. set_solver.
      * apply dirty_same.
    + rewrite C4 by (by rewrite elem_of_elements). simpl in R2. rewrite decide_False in R2 by done. destruct R2 as [Hh R2].
      destruct ss as [|y' ss]; [by destruct ds|]. simpl in *. rewrite drop_0.
      pose proof (tracks_head _ _ _ _ R2) as Hh'. simpl in Hh'. rewrite <- Hh. injection Hh' as <-.
      eapply tracks_dirty; [|exact R2]. unfold dirty_union. destruct ds as [|d' ds]; constructor.
      * rewrite list_to_set_elements_L. set_solver.
      * apply dirty_same.
Qed.

Definition stack_close (rollback : bool) s : Stack K V := if rollback then stack_rollback s else stack_commit s.

Lemma can_close_eq m s : refines m s ->
  can_close s = negb (bool_decide (execution_mode m = Runtime) && negb (has_open_runtime_transactions m)) && bool_decide (dirty_keys m <> []).
Proof.
  intros [R1 _ _ R4 R5]. unfold can_close, has_open_runtime_transactions, depth, transaction_depth in *.
  rewrite R5, R4, R1. replace (S (length (dirty_keys m)) - 1)%nat with (length (dirty_keys m)) by lia.
  destruct (execution_mode m); simpl; destruct (dirty_keys m); simpl; rewrite ?andb_true_r, ?andb_false_r, ?negb_involutive; done.
Qed.

Lemma dirty_entry m s d ds k : refines m s -> dirty_keys m = d :: ds -> k ∈ d -> is_Some (changes m !! k).
Proof.
  intros Hm Hd Hk. pose proof (rf_tracks _ _ Hm k) as Ht. rewrite Hd in Ht. unfold entry_of in Ht.
  destruct (changes m !! k); [done|]. destruct (snapshots s); simpl in Ht; [done|]. rewrite decide_True in Ht by done.
  by destruct Ht as (_ & Ht & _).
Qed.

Lemma wp_close_transaction rollback m s (Q : unit -> Map -> Prop) (R : OverlayError -> _) :
  refines m s ->
  (can_close s = true -> forall m', refines m' (stack_close rollback s) -> Q tt m') ->
  (can_close s = false -> R NoOpenTransaction m) ->
  wp (close_transaction rollback) Q R m.
Proof.
  intros Hm HQ HR. unfold close_transaction. wp_steps. unfold id. rewrite (can_close_eq _ _ Hm) in *.
  destruct (bool_decide (execution_mode m = Runtime) && _); simpl in *; [apply wp_fail; auto|]. wp_steps.
  destruct (dirty_keys m) as [|d ds] eqn:Hd; [apply wp_fail; by apply HR|].
  specialize (HQ eq_refl). wp_steps. destruct rollback.
  - apply wp_rollback_keys; simpl; [apply NoDup_elements|apply Hm|..].
    + intros k Hk%elem_of_elements. by eapply dirty_entry.
    + intros m' Hd' Hc. apply HQ. eapply (refines_rollback m); [done|exact Hd|exact Hd'|].
      destruct Hc as [C1 C2 C3 C4 C5]. by split.
  - apply wp_commit_keys; simpl; [apply NoDup_elements|apply Hm|..].
    + intros k Hk%elem_of_elements. split; [by eapply dirty_entry|]. change (entry_of (set_dirty_keys ds m) k) with (entry_of m k).
      pose proof (rf_tracks _ _ Hm k) as Ht. rewrite Hd in Ht. destruct (tracks_merged _ _ _ _ _ Ht Hk) as [Hp _].
      intros Hh. specialize (Hp Hh). unfold values in Hp. by rewrite length_fmap in Hp.
    + intros m' Hd' Hc. apply HQ. eapply (refines_commit m); [done|exact Hd|exact Hd'|].
      destruct Hc as [C1 C2 C3 C4 C5]. by split.
Qed.

Lemma wp_enter_runtime m s (Q : unit -> Map -> Prop) (R : OverlayError -> _) :
  refines m s -> (in_runtime s = false -> forall m', refines m' (stack_enter s) -> Q tt m') ->
  (in_runtime s = true -> R AlreadyInRuntime m) -> wp enter_runtime Q R m.
Proof.
  intros Hm HQ HR. pose proof Hm as [R1 R2 R3 R4 R5]. unfold enter_runtime. wp_steps. destruct (execution_mode m) eqn:E.
  - wp_steps. apply HQ; [done|]. split; simpl; try done. unfold depth, transaction_depth in *. simpl. lia.
  - apply wp_fail. auto.
Qed.

Lemma wp_expect {S E F A} (x : M S E A) (Q : A -> S -> Prop) (R : F -> S -> Prop) (t : S) :
  wp x Q (fun _ _ => False) t -> wp (expect (F := F) x) Q R t.
Proof. unfold wp, expect. by destruct (x t). Qed.

Lemma wp_rollback_open fuel m s (Q : unit -> Map -> Prop) (R : OverlayError -> _) :
  refines m s -> in_runtime s = false -> (depth s - protected s <= fuel)%nat ->
  (forall m', refines m' (mkStack (drop (depth s - protected s) (snapshots s)) (protected s) false) -> Q tt m') ->
  wp (rollback_open fuel) Q R m.
Proof.
  revert m s. induction fuel as [|fuel IH]; intros m s Hm Hr Hf HQ; simpl; wp_steps; unfold id;
    pose proof Hm as [R1 _ _ R4 R5]; unfold has_open_runtime_transactions; unfold depth in *; rewrite <- R4.
  1, 2: destruct (Nat.ltb_spec (protected s) (transaction_depth m)) as [Hlt|Hge].
  - lia.
  - apply wp_ret, HQ. replace (length (snapshots s) - 1 - protected s)%nat with 0%nat by lia. rewrite drop_0.
    destruct s. simpl in *. by rewrite <- Hr.
  - wp_steps. apply wp_expect. eapply wp_close_transaction; [exact Hm| |].
    + intros _ m' Hm'. destruct (snapshots s) as [|y ss] eqn:Es; [simpl in *; lia|].
      apply (IH _ _ Hm'); simpl; rewrite ?Es; simpl in *; [done|lia|].
      intros m'' Hm''. apply HQ. rewrite Nat.sub_0_r.
      by replace (length ss - protected s)%nat with (S (length ss - 1 - protected s)) by lia.
    + unfold can_close, depth. rewrite Hr. intros Hc%Nat.ltb_ge. lia.
  - apply wp_ret, HQ. replace (length (snapshots s) - 1 - protected s)%nat with 0%nat by lia. rewrite drop_0.
    destruct s. simpl in *. by rewrite <- Hr.
Qed.

Lemma wp_exit_runtime m s (Q : unit -> Map -> Prop) (R : OverlayError -> _) :
  refines m s -> (in_runtime s = true -> forall m', refines m' (stack_exit s) -> Q tt m') ->
  (in_runtime s = false -> R NotInRuntime m) -> wp exit_runtime Q R m.
Proof.
  intros Hm HQ HR. pose proof Hm as [R1 R2 R3 R4 R5]. unfold exit_runtime. wp_steps. unfold id. destruct (execution_mode m) eqn:E.
  - apply wp_fail. auto.
  - wp_steps. apply (wp_rollback_open _ _ (mkStack (snapshots s) (protected s) false)).
    + by split.
    + done.
    + unfold depth, transaction_depth in *. simpl. lia.
    + intros m' Hm'. by apply HQ.
Qed.

(** A child that has seen no write: an empty map in every transaction. *)
Lemma refines_spawn m s :
  refines m s -> refines (spawn_child m) (mkStack (replicate (length (snapshots s)) ∅) (protected s) (in_runtime s)).
Proof.
  intros [R1 R2 R3 R4 R5]. rewrite R1. unfold spawn_child, transaction_depth in *. split; simpl; try done.
  - unfold transaction_depth. simpl. by rewrite !length_replicate.
  - intros k. unfold entry_of. simpl. rewrite lookup_empty. simpl. generalize (dirty_keys m) as l. intros l.
    induction l as [|d l IH]; simpl; rewrite lookup_empty; [by split; [|lia]|]. split; [done|]. rewrite decide_False by set_solver. done.
Qed.

(** A map without changes sees nothing in any transaction. *)
Lemma refines_no_changes m s : refines m s -> changes m = ∅ -> Forall (fun x => x = ∅) (snapshots s).
Proof.
  intros Hm He. apply Forall_forall. intros x (i & Hi)%list_elem_of_lookup_1. apply map_eq. intros k. rewrite lookup_empty.
  pose proof (rf_tracks _ _ Hm k) as Ht. unfold entry_of in Ht. rewrite He, lookup_empty in Ht. simpl in Ht.
  assert (((fun x : gmap K V => x !! k) <$> snapshots s) !! i = Some (x !! k)) as Hx by (by rewrite list_lookup_fmap, Hi).
  revert Ht Hx. generalize ((fun x : gmap K V => x !! k) <$> snapshots s) as vs. generalize (x !! k) as v. clear. intros v vs.
  revert vs i. induction (dirty_keys m) as [|d ds IH]; intros vs i Ht Hx; destruct vs as [|v0 vs]; simpl in *; try done.
  - destruct vs; [|done]. destruct i; simpl in Hx; [|done]. destruct Ht. congruence.
  - destruct Ht as [Hv Ht]. case_decide; [by destruct Ht|]. destruct i as [|i]; simpl in Hx; [congruence|]. by eapply IH.
Qed.
End Tracks.

(* ===================================================================== *)
(** ** Change sets *)
Section ChangeSetFacts.
Context {K W : Type} `{Countable K}.
Local Abbreviation ChangeSet := (OverlayedMap K (option W)).
Implicit Types (m : ChangeSet) (k : K) (s : Stack K (option W)).

(** [modify] sets [f] of the value the transaction sees, or of [init]. *)
Lemma refines_modify m s k init x f :
  refines m s ->
  refines (overlay_modify k init x f m) (on_current (fun y => <[k := f (default (Some init) (y !! k))]> y) s).
Proof.
  intros Hm. unfold overlay_modify. fold (entry_of m k). pose proof (refines_write m s k (f (default (Some init) (current s !! k)))) as Hw.
  assert (head (values (entry_of m k)) = current s !! k) as Hh.
  { pose proof (tracks_head _ _ _ _ (rf_tracks _ _ Hm k)) as Hh. unfold current. destruct (snapshots s); [done|]. simpl in *. congruence. }
  replace (on_current (fun y => <[k := f (default (Some init) (y !! k))]> y) s) with (on_current <[k := f (default (Some init) (current s !! k))]> s)
    by (unfold on_current, current; by destruct (snapshots s)).
  destruct (insert_dirty (dirty_keys m) k) as [ds first] eqn:E. simpl in *. apply Hw; [done|]. rewrite <- Hh.
  destruct (entry_of m k) as [|t e].
  - pose proof (values_entry_set (Some init) first x []) as Hi. destruct (entry_set (Some init) first x []) as [|u l]; [done|].
    unfold entry_value, value_ref. simpl in *. injection Hi as Hu Hl. rewrite Hu. f_equal. by destruct first.
  - destruct first; [|done]. pose proof (values_entry_set (iv_value t) true x (t :: e)) as Hi.
    destruct (entry_set (iv_value t) true x (t :: e)) as [|u l]; [done|]. unfold entry_value, value_ref. simpl in *. injection Hi as Hu Hl. by rewrite Hu, Hl.
Qed.

Lemma current_on_current (f : gmap K (option W) -> gmap K (option W)) s : snapshots s <> [] -> current (on_current f s) = f (current s).
Proof. unfold current, on_current. by destruct (snapshots s). Qed.

Lemma refines_clears m s l x :
  refines m s -> refines (foldr (fun k m => overlay_set k None x m) m l) (on_current (fun y => foldr (fun k y => <[k := None]> y) y l) s).
Proof.
  intros Hm. induction l as [|k l IH]; simpl.
  - replace (on_current (fun y => y) s) with s; [done|]. unfold on_current. destruct s as [[|y ss] n b]; done.
  - pose proof (refines_set _ _ k None x IH) as Hk. replace (on_current (fun y => <[k := None]> (foldr (fun k y => <[k := None]> y) y l)) s)
      with (on_current <[k := None]> (on_current (fun y => foldr (fun k y => <[k := None]> y) y l) s)); [done|].
    unfold on_current. simpl. by destruct (snapshots s).
Qed.

(** [clear_where] by key deletes what the transaction sees under those keys. *)
Definition cleared (p : K -> bool) (y : gmap K (option W)) : gmap K (option W) :=
  map_imap (fun k v => Some (if p k then None else v)) y.

Lemma lookup_foldr_clear l (y : gmap K (option W)) k :
  foldr (fun k y => <[k := None]> y) y l !! k = if decide (k ∈ l) then Some None else y !! k.
Proof.
  induction l as [|k' l IH]; simpl; [done|]. destruct (decide (k = k')) as [->|Hne].
  - rewrite lookup_insert_eq. destruct (decide (k' ∈ k' :: l)) as [|Hk]; [done|]. destruct Hk. left.
  - rewrite lookup_insert_ne, IH by done. apply (decide_ext (k ∈ l) (k ∈ k' :: l)). rewrite elem_of_cons. naive_solver.
Qed.

Lemma refines_clear_where m s (p : K -> bool) x :
  refines m s -> refines (clear_where (fun k _ => p k) x m) (on_current (cleared p) s).
Proof.
  intros Hm. unfold clear_where. set (l := (map_to_list _).*1). pose proof (refines_clears m s l x Hm) as Hr.
  assert (foldr (fun k y => <[k := None]> y) (current s) l = cleared p (current s)) as He.
  { apply map_eq. intros k. rewrite lookup_foldr_clear. unfold cleared. rewrite map_lookup_imap.
    assert (k ∈ l <-> p k = true /\ is_Some (current s !! k)) as Hl.
    { unfold l. rewrite list_elem_of_fmap. rewrite <- (refines_value _ _ k Hm). pose proof (rf_nonempty _ _ Hm k). split.
      - intros ([k' e] & -> & Hin%elem_of_map_to_list). apply map_lookup_filter_Some in Hin as [Hin Hp]. simpl in *. split; [done|].
        rewrite Hin. simpl. unfold value_ref. destruct e; [congruence|done].
      - intros [Hp [v Hv]]. destruct (changes m !! k) as [e|] eqn:Ee; [|done]. exists (k, e). split; [done|].
        apply elem_of_map_to_list, map_lookup_filter_Some. done. }
    case_decide as Hk.
    - apply Hl in Hk as [Hp [v Hv]]. rewrite Hv. simpl. by rewrite Hp.
    - destruct (current s !! k) as [v|] eqn:Hv; simpl; [|done]. destruct (p k) eqn:Hp; [|done]. destruct Hk. apply Hl. done. }
  replace (on_current (cleared p) s) with (on_current (fun y => foldr (fun k y => <[k := None]> y) y l) s); [done|].
  unfold on_current, current in *. destruct (snapshots s) as [|y ss]; [done|]. simpl in He. by rewrite He.
Qed.
End ChangeSetFacts.
