(* ===== verification/OverlayChanges.v ===== *)
(** * The changes over the backend

    [primitives/state-machine/src/overlayed_changes/mod.rs] and [offchain.rs]:
    the change sets of the main storage, of the child storages and of the
    offchain storage, that open and close their transactions in lockstep; and
    what they use of [primitives/storage/src/lib.rs]. *)

From S2P Require Import Prelude Overlay.

(* ===================================================================== *)
(** ** Data *)

Abbreviation StorageKey := bytes.
Abbreviation StorageValue := bytes.
Abbreviation OverlayedValue := (OverlayedEntry (option StorageValue)).
Abbreviation OverlayedChangeSet := (OverlayedMap StorageKey (option StorageValue)).

Inductive ChildInfo := ParentKeyId (data : bytes).

Definition child_storage_key (info : ChildInfo) : bytes := match info with ParentKeyId data => data end.

Definition CHILD_STORAGE_KEY_PREFIX : bytes := bytes_of_string ":child_storage:".
Definition DEFAULT_CHILD_STORAGE_KEY_PREFIX : bytes := bytes_of_string ":child_storage:default:".
Definition EXTRINSIC_INDEX : bytes := bytes_of_string ":extrinsic_index".
Definition STORAGE_PREFIX : bytes := bytes_of_string "storage".

Definition prefixed_storage_key (info : ChildInfo) : bytes := DEFAULT_CHILD_STORAGE_KEY_PREFIX ++ child_storage_key info.

(** [ChildInfo::try_update] *)
Definition try_update (self other : ChildInfo) : bool :=
  bool_decide (child_storage_key self = child_storage_key other).

(** [key.starts_with(prefix)] *)
Definition starts_with (key prefix : bytes) : bool := bool_decide (prefix `prefix_of` key).

Definition is_child_storage_key (key : bytes) : bool := starts_with key CHILD_STORAGE_KEY_PREFIX.

Definition starts_with_child_storage_key (key : bytes) : bool :=
  if (length CHILD_STORAGE_KEY_PREFIX <? length key)%nat then starts_with key CHILD_STORAGE_KEY_PREFIX
  else starts_with CHILD_STORAGE_KEY_PREFIX key.

Inductive OffchainOverlayedChange := Remove | SetValue (value : bytes).

Inductive IndexOperation :=
| IndexInsert (extrinsic : Z) (hash : bytes) (size : Z)
| IndexRenew (extrinsic : Z) (hash : bytes).

Abbreviation OffchainOverlayedChanges := (OverlayedMap (bytes * bytes) OffchainOverlayedChange).

Record OverlayedChanges := mkChanges {
  top : OverlayedChangeSet;
  children : gmap StorageKey (OverlayedChangeSet * ChildInfo);
  offchain : OffchainOverlayedChanges;
  transaction_index_ops : list IndexOperation;
  collect_extrinsics : bool
}.

Definition set_top x o := mkChanges x (children o) (offchain o) (transaction_index_ops o) (collect_extrinsics o).
Definition set_children x o := mkChanges (top o) x (offchain o) (transaction_index_ops o) (collect_extrinsics o).
Definition set_offchain x o := mkChanges (top o) (children o) x (transaction_index_ops o) (collect_extrinsics o).
Definition set_index_ops x o := mkChanges (top o) (children o) (offchain o) x (collect_extrinsics o).
Definition set_collect_extrinsics x o := mkChanges (top o) (children o) (offchain o) (transaction_index_ops o) x.

Definition no_changes : OverlayedChanges := mkChanges empty_overlay ∅ empty_overlay [] false.

Definition NO_EXTRINSIC_INDEX : Z := 0xffffffff.

(* ===================================================================== *)
(** ** Operations

    [decode_u32] is [u32::decode] of the SCALE codec.  The statistics of reads
    and writes are left out. *)
Section OverlayedChanges.
Context {P : Profile} (decode_u32 : bytes -> option Z).
Local Abbreviation MC := (M OverlayedChanges OverlayError).
Implicit Types (o : OverlayedChanges) (key prefix : StorageKey) (val : option StorageValue) (info : ChildInfo).

Definition changes_empty o : bool := is_empty (top o) && bool_decide (children o = ∅).

(** [None] if the key is unknown, [Some None] if it is deleted *)
Definition overlay_storage key o : option (option StorageValue) := entry_value <$> get key (top o).

Definition overlay_child_storage info key o : option (option StorageValue) :=
  map ← children o !! child_storage_key info;
  entry_value <$> get key map.1.

Definition extrinsic_index o : option Z :=
  if collect_extrinsics o then
    Some (default NO_EXTRINSIC_INDEX (idx ← overlay_storage EXTRINSIC_INDEX o; idx ← idx; decode_u32 idx))
  else None.

Definition set_storage key val o : OverlayedChanges := set_top (overlay_set key val (extrinsic_index o) (top o)) o.

(** [value_mut_or_insert_with], and [f] through the reference it returns *)
Definition value_mut_or_insert_with key (init : StorageValue) (f : StorageValue -> StorageValue) o : OverlayedChanges :=
  set_top (overlay_modify key init (extrinsic_index o) (fun v => Some (f (default [] v))) (top o)) o.

(** [children.entry(..).or_insert_with(..)], the check of the child info, and an
    update of the change set *)
Definition with_child info (f : OverlayedChangeSet -> OverlayedChangeSet) : MC unit :=
  let! o := gets id in
  let entry := default (spawn_child (top o), info) (children o !! child_storage_key info) in
  debug_assert (try_update entry.2 info) ;;
  modify (fun o => set_children (<[child_storage_key info := (f entry.1, entry.2)]> (children o)) o).

Definition set_child_storage info key val : MC unit :=
  let! x := gets extrinsic_index in with_child info (overlay_set key val x).

Definition clear_child_storage info : MC unit :=
  let! x := gets extrinsic_index in with_child info (clear_where (fun _ _ => true) x).

Definition overlay_clear_prefix prefix o : OverlayedChanges :=
  set_top (clear_where (fun key _ => starts_with key prefix) (extrinsic_index o) (top o)) o.

Definition overlay_clear_child_prefix info prefix : MC unit :=
  let! x := gets extrinsic_index in with_child info (clear_where (fun key _ => starts_with key prefix) x).

(** [for (_, (changeset, _)) in self.children.iter_mut() { m.expect(..) }] *)
Definition on_child (m : M OverlayedChangeSet OverlayError unit) (c : StorageKey) : MC unit :=
  let! e := gets (fun o => children o !! c) in
  let! e := unwrap e in
  zoom (fun _ => e.1) (fun cs o => set_children (<[c := (cs, e.2)]> (children o)) o) (expect m).

Definition each_child (m : M OverlayedChangeSet OverlayError unit) : MC unit :=
  let! cs := gets (fun o => (map_to_list (children o)).*1) in
  for_each cs (on_child m).

Definition on_top (m : M OverlayedChangeSet OverlayError unit) : MC unit := zoom top set_top m.
Definition on_offchain (m : M OffchainOverlayedChanges OverlayError unit) : MC unit :=
  zoom offchain set_offchain m.

Definition changes_depth o : nat := transaction_depth (top o).

Definition changes_start : MC unit :=
  on_top (modify start_transaction) ;;
  each_child (modify start_transaction) ;;
  on_offchain (modify start_transaction).

Definition changes_rollback : MC unit :=
  on_top rollback_transaction ;;
  each_child rollback_transaction ;;
  modify (fun o => set_children (filter (fun kv => is_empty kv.2.1 = false) (children o)) o) ;;
  on_offchain (expect rollback_transaction).

Definition changes_commit : MC unit :=
  on_top commit_transaction ;;
  each_child commit_transaction ;;
  on_offchain (expect commit_transaction).

Definition changes_enter_runtime : MC unit :=
  on_top enter_runtime ;;
  each_child enter_runtime ;;
  on_offchain (expect enter_runtime).

Definition changes_exit_runtime : MC unit :=
  on_top exit_runtime ;;
  each_child exit_runtime ;;
  on_offchain (expect exit_runtime).

(** [drain_committed]: the changes of the main and of the child storages *)
Definition drain_committed : MC (gmap StorageKey (option StorageValue) * gmap StorageKey (gmap StorageKey (option StorageValue))) :=
  let! main := zoom top set_top (let! m := drain_commited in modify (fun _ => empty_overlay) ;; ret m) in
  let! cs := gets children in
  for_each (map_to_list cs) (fun kv => assert (bool_decide (transaction_depth kv.2.1 = 0%nat)) ;;
    assert (bool_decide (map_Forall (fun _ e => e <> []) (changes kv.2.1)))) ;;
  modify (set_children ∅) ;;
  ret (main, (fun c => omap value_ref (changes c.1)) <$> cs).

(** [OffchainOverlayedChanges]: [remove], [set], [get], [drain] *)
Definition offchain_remove prefix key (m : OffchainOverlayedChanges) := overlay_set (prefix, key) Remove None m.
Definition offchain_set prefix key (value : bytes) (m : OffchainOverlayedChanges) := overlay_set (prefix, key) (SetValue value) None m.
Definition offchain_get prefix key (m : OffchainOverlayedChanges) : option OffchainOverlayedChange :=
  e ← get (prefix, key) m; value_ref e.

Definition offchain_drain : MC (gmap (bytes * bytes) OffchainOverlayedChange) :=
  let! m := gets offchain in
  assert (bool_decide (map_Forall (fun _ e => e <> []) (changes m))) ;;
  modify (set_offchain empty_overlay) ;;
  ret (omap value_ref (changes m)).

Definition set_offchain_storage key val o : OverlayedChanges :=
  match val with
  | Some value => set_offchain (offchain_set STORAGE_PREFIX key value (offchain o)) o
  | None => set_offchain (offchain_remove STORAGE_PREFIX key (offchain o)) o
  end.

Definition add_transaction_index op o : OverlayedChanges := set_index_ops (transaction_index_ops o ++ [op]) o.
End OverlayedChanges.
