(* ===== verification/OverlayTheorems.v ===== *)
(** * The changes over the backend refine stacks of snapshots

    Main storage, child storages and offchain storage as stacks of full maps,
    opened and closed together.  The overlay does the same over every sequence
    of operations, and none of its [expect]s fails. *)

From S2P Require Import Prelude Overlay OverlayFacts OverlayChanges.

Set Default Proof Using "Type".

(* ===================================================================== *)
(** ** Transaction operations, on one map *)
Inductive TxOp := TxStart | TxCommit | TxRollback | TxEnter | TxExit.

Section Tx.
Context {K V : Type} `{Countable K}.
Local Abbreviation Map := (OverlayedMap K V).
Implicit Types (m : Map) (s : Stack K V) (op : TxOp).

Definition tx_run op : M Map OverlayError unit :=
  match op with
  | TxStart => modify start_transaction
  | TxCommit => commit_transaction
  | TxRollback => rollback_transaction
  | TxEnter => enter_runtime
  | TxExit => exit_runtime
  end.

Definition tx_stack op s : Stack K V :=
  match op with
  | TxStart => stack_start s
  | TxCommit => stack_commit s
  | TxRollback => stack_rollback s
  | TxEnter => stack_enter s
  | TxExit => stack_exit s
  end.

Definition tx_ok op s : bool :=
  match op with
  | TxStart => true
  | TxCommit | TxRollback => can_close s
  | TxEnter => negb (in_runtime s)
  | TxExit => in_runtime s
  end.

Lemma wp_tx op m s (Q : unit -> Map -> Prop) (R : OverlayError -> _) :
  refines m s -> (tx_ok op s = true -> forall m', refines m' (tx_stack op s) -> Q tt m') ->
  (tx_ok op s = false -> forall e, R e m) -> wp (tx_run op) Q R m.
Proof.
  intros Hm HQ HR. destruct op; simpl in *.
  - apply wp_modify, HQ; [done|by apply refines_start].
  - eapply (wp_close_transaction false); eauto.
  - eapply (wp_close_transaction true); eauto.
  - eapply wp_enter_runtime; [exact Hm|..]; intros E; rewrite E in *; auto.
  - eapply wp_exit_runtime; [exact Hm|..]; intros E; rewrite E in *; auto.
Qed.

(** A map without entries stays so. *)
Definition blank s : Prop := Forall (fun x => x = ∅) (snapshots s).

Lemma blank_tx op s : blank s -> blank (tx_stack op s).
Proof.
  unfold blank. intros Hs. assert (current s = ∅) as Hc by (unfold current; destruct Hs; simpl; done).
  destruct op; simpl; rewrite ?Hc; [by constructor|constructor; [done|by apply Forall_drop]| |done|by apply Forall_drop].
  by destruct Hs.
Qed.
End Tx.

(** Two stacks that are at the same point of their transactions. *)
Definition lockstep {K V K' V'} `{Countable K} `{Countable K'} (s : Stack K V) (t : Stack K' V') : Prop :=
  length (snapshots s) = length (snapshots t) /\ protected s = protected t /\ in_runtime s = in_runtime t.

Section Lockstep.
Context {K V K' V' : Type} `{Countable K} `{Countable K'}.
Implicit Types (s : Stack K V) (t : Stack K' V').

Lemma lockstep_ok op s t : lockstep s t -> tx_ok op t = tx_ok op s.
Proof. intros (H1 & H2 & H3). destruct op; simpl; unfold can_close, depth; by rewrite ?H1, ?H2, ?H3. Qed.

Lemma lockstep_tx op s t : lockstep s t -> lockstep (tx_stack op s) (tx_stack op t).
Proof.
  intros (H1 & H2 & H3). unfold lockstep. destruct op; simpl; rewrite ?length_drop; unfold depth; rewrite ?H1, ?H2, ?H3; try done.
  destruct (snapshots s), (snapshots t); simpl in *; split_and!; lia || done.
Qed.

Lemma lockstep_current f s t : lockstep s t -> lockstep s (on_current f t).
Proof. unfold lockstep, on_current. simpl. by destruct (snapshots t). Qed.

Lemma lockstep_current_l f s t : lockstep s t -> lockstep (on_current f s) t.
Proof. unfold lockstep, on_current. simpl. by destruct (snapshots s). Qed.
End Lockstep.

(* ===================================================================== *)
(** ** The three storages *)

Record Layers := mkLayers {
  l_main : Stack StorageKey (option StorageValue);
  l_child : StorageKey -> Stack StorageKey (option StorageValue);
  l_offchain : Stack (bytes * bytes) OffchainOverlayedChange
}.

Definition child_ok (e : option (OverlayedChangeSet * ChildInfo)) (c : StorageKey) (s : Stack StorageKey (option StorageValue)) : Prop :=
  match e with
  | Some (cs, info) => refines cs s /\ child_storage_key info = c
  | None => blank s
  end.

Record represents (o : OverlayedChanges) (l : Layers) : Prop := {
  rp_main : refines (top o) (l_main l);
  rp_child c : child_ok (children o !! c) c (l_child l c);
  rp_offchain : refines (offchain o) (l_offchain l);
  rp_lock_child c : lockstep (l_main l) (l_child l c);
  rp_lock_offchain : lockstep (l_main l) (l_offchain l)
}.

Definition on_layers (op : TxOp) (l : Layers) : Layers :=
  mkLayers (tx_stack op (l_main l)) (fun c => tx_stack op (l_child l c)) (tx_stack op (l_offchain l)).

Section Represents.
Local Abbreviation MC := (M OverlayedChanges OverlayError).
Implicit Types (o : OverlayedChanges) (l : Layers) (op : TxOp) (c : StorageKey).

(** What is read is the current map of each stack. *)
Lemma refines_entry_value {K} `{Countable K} (m : OverlayedMap K (option StorageValue)) s k :
  refines m s -> entry_value <$> get k m = current s !! k.
Proof.
  intros Hm. rewrite <- (refines_value _ _ k Hm). unfold get. pose proof (rf_nonempty _ _ Hm k).
  destruct (changes m !! k) as [e|]; simpl; [|done]. unfold entry_value, value_ref. by destruct e.
Qed.

Lemma represents_storage o l key : represents o l -> overlay_storage key o = current (l_main l) !! key.
Proof. intros Ho. apply refines_entry_value, Ho. Qed.

Lemma blank_current {K V} `{Countable K} (s : Stack K V) k : blank s -> current s !! k = None.
Proof. unfold blank, current. intros Hs. destruct Hs as [|x ss ->]; simpl; apply lookup_empty. Qed.

Lemma represents_child_storage o l info key :
  represents o l -> overlay_child_storage info key o = current (l_child l (child_storage_key info)) !! key.
Proof.
  intros Ho. unfold overlay_child_storage. pose proof (rp_child _ _ Ho (child_storage_key info)) as Hc.
  destruct (children o !! child_storage_key info) as [[cs i]|]; [apply (refines_entry_value cs), Hc|].
  by rewrite blank_current.
Qed.

Lemma represents_offchain o l prefix key :
  represents o l -> offchain_get prefix key (offchain o) = current (l_offchain l) !! (prefix, key).
Proof. intros Ho. unfold offchain_get, get. apply refines_value, Ho. Qed.

(* --------------------------------------------------------------------- *)
(** *** Transactions *)

Definition same_rest o o' : Prop :=
  top o' = top o /\ offchain o' = offchain o /\ transaction_index_ops o' = transaction_index_ops o /\ collect_extrinsics o' = collect_extrinsics o.

Lemma wp_each_child op o (L : StorageKey -> Stack StorageKey (option StorageValue)) (Q : unit -> OverlayedChanges -> Prop) (R : OverlayError -> _) :
  (forall c, child_ok (children o !! c) c (L c)) -> (forall c, tx_ok op (L c) = true) ->
  (forall o', same_rest o o' -> (forall c, child_ok (children o' !! c) c (tx_stack op (L c))) -> Q tt o') ->
  wp (each_child (tx_run op)) Q R o.
Proof.
  intros HL Hop HQ. unfold each_child. wp_steps. set (cs := (map_to_list (children o)).*1).
  set (I := fun todo o' => same_rest o o' /\ NoDup todo /\
    forall c, (c ∈ todo -> is_Some (children o' !! c)) /\ child_ok (children o' !! c) c (if decide (c ∈ todo) then L c else tx_stack op (L c))).
  apply wp_mono with (Q := fun _ => I []) (R := R); [|intros [] o' (Hs & _ & Hc); apply HQ; [done|]; intros c; apply (Hc c)|done].
  apply wp_for_each.
  - split; [done|]. split; [apply NoDup_fst_map_to_list|]. intros c. specialize (HL c).
    assert (c ∈ cs <-> is_Some (children o !! c)) as Hcs.
    { unfold cs. rewrite list_elem_of_fmap. split; [intros ([k e] & -> & Hin%elem_of_map_to_list); by exists e|].
      intros [e He]. exists (c, e). split; [done|]. by apply elem_of_map_to_list. }
    split; [apply Hcs|]. destruct (decide (c ∈ cs)) as [Hc|Hc]; [done|]. destruct (children o !! c); [destruct Hc; by apply Hcs|].
    by apply blank_tx.
  - intros c todo o' (Hs & [Hc Hnd]%NoDup_cons & Hall). unfold on_child. wp_steps.
    destruct (Hall c) as [[[m info] Hm] Hok]; [left|]. rewrite Hm in *. apply (wp_unwrap _ _ _ _ (m, info)); [done|]. wp_steps. simpl.
    rewrite decide_True in Hok by left. destruct Hok as [Hr Hi]. apply wp_expect. eapply wp_tx; [exact Hr| |].
    + intros _ m' Hm'. split; [done|]. split; [done|]. intros c'. simpl. destruct (decide (c' = c)) as [->|Hne].
      * rewrite lookup_insert_eq, decide_False by done. split; [done|]. done.
      * rewrite lookup_insert_ne by done. destruct (Hall c') as [H1 H2]. split; [intros Hin; apply H1; by right|].
        rewrite (decide_ext (c' ∈ todo) (c' ∈ c :: todo)); [done|]. rewrite elem_of_cons. naive_solver.
    + by rewrite Hop.
Qed.

Definition changes_tx op : MC unit :=
  match op with
  | TxStart => changes_start
  | TxCommit => changes_commit
  | TxRollback => changes_rollback
  | TxEnter => changes_enter_runtime
  | TxExit => changes_exit_runtime
  end.

(** Dropping the change sets without changes. *)
Lemma child_ok_retain (cs : gmap StorageKey (OverlayedChangeSet * ChildInfo)) c s :
  child_ok (cs !! c) c s -> child_ok (filter (fun kv => is_empty kv.2.1 = false) cs !! c) c s.
Proof.
  intros Hc. destruct (filter _ cs !! c) as [e|] eqn:E.
  - apply map_lookup_filter_Some in E as [E _]. by rewrite E in Hc.
  - apply map_lookup_filter_None in E as [E|E]; [by rewrite E in Hc|]. destruct (cs !! c) as [[m i]|] eqn:Hm; [|done].
    specialize (E _ eq_refl). simpl in *. unfold is_empty in E. case_bool_decide as He; [|done].
    eapply refines_no_changes; [apply Hc|done].
Qed.

(** The main storage and the children, and then the offchain storage. *)
Lemma wp_tx_front op o l (k : MC unit) (Q : unit -> OverlayedChanges -> Prop) (R : OverlayError -> _) :
  represents o l ->
  (tx_ok op (l_main l) = true -> forall o1, refines (top o1) (tx_stack op (l_main l)) ->
     (forall c, child_ok (children o1 !! c) c (tx_stack op (l_child l c))) -> same_rest (set_top (top o1) o) o1 -> wp k Q R o1) ->
  (tx_ok op (l_main l) = false -> forall e, R e o) ->
  wp (on_top (tx_run op) ;; each_child (tx_run op) ;; k) Q R o.
Proof.
  intros [H1 H2 H3 H4 H5] HQ HR. apply wp_bind, wp_zoom. eapply wp_tx; [exact H1| |by destruct o]. intros Hok m Hm. wp_steps.
  eapply (wp_each_child op _ (l_child l)); [done|intros c; by rewrite (lockstep_ok _ _ _ (H4 c))|].
  intros o1 Hs Hc. apply HQ; [done|by rewrite (proj1 Hs)|done|]. destruct Hs as (_ & E2 & E3 & E4). by repeat split.
Qed.

Lemma wp_tx_offchain op o l m o1 (Q : unit -> OverlayedChanges -> Prop) (R : OverlayError -> _) :
  represents o l -> tx_ok op (l_main l) = true -> refines (top o1) (tx_stack op (l_main l)) ->
  (forall c, child_ok (children o1 !! c) c (tx_stack op (l_child l c))) -> same_rest (set_top (top o1) o) o1 ->
  (forall o', represents o' (on_layers op l) ->
     transaction_index_ops o' = transaction_index_ops o -> collect_extrinsics o' = collect_extrinsics o -> Q tt o') ->
  (m = expect (tx_run op) \/ m = tx_run op) -> wp (on_offchain m) Q R o1.
Proof.
  intros [H1 H2 H3 H4 H5] Hok Ht Hc (_ & E2 & E3 & E4) HQ Hm.
  assert (wp (tx_run op) (fun _ m' => Q tt (set_offchain m' o1)) (fun _ _ => False) (offchain o1)) as Hw.
  { rewrite E2. eapply wp_tx; [exact H3| |by rewrite (lockstep_ok op _ _ H5), Hok]. intros _ m' Hm'. apply HQ; [|done|done].
    split; simpl; try done; [intros c|]; by apply lockstep_tx. }
  apply wp_zoom. destruct Hm as [-> | ->]; [apply wp_expect|]; (eapply wp_mono; [exact Hw|by intros []|done]).
Qed.

Lemma wp_changes_tx op o l (Q : unit -> OverlayedChanges -> Prop) (R : OverlayError -> _) :
  represents o l ->
  (tx_ok op (l_main l) = true -> forall o', represents o' (on_layers op l) ->
     transaction_index_ops o' = transaction_index_ops o -> collect_extrinsics o' = collect_extrinsics o -> Q tt o') ->
  (tx_ok op (l_main l) = false -> forall e, R e o) ->
  wp (changes_tx op) Q R o.
Proof.
  intros Ho HQ HR. pose proof (fun k => wp_tx_front op o l k Q R Ho) as Hf.
  destruct op; (eapply Hf; [|exact HR]); intros Hok o1 Ht Hc Hs.
  3: apply wp_bind, wp_modify. 3: set (o2 := set_children _ o1).
  all: eapply (wp_tx_offchain _ o l); [exact Ho|exact Hok|exact Ht| |exact Hs|by apply HQ|simpl; tauto].
  all: intros c; try done. by apply child_ok_retain.
Qed.

(* --------------------------------------------------------------------- *)
(** *** Writes *)

Definition write_main f l : Layers := mkLayers (on_current f (l_main l)) (l_child l) (l_offchain l).
Definition write_child c f l : Layers :=
  mkLayers (l_main l) (fun c' => if decide (c' = c) then on_current f (l_child l c) else l_child l c') (l_offchain l).
Definition write_offchain f l : Layers := mkLayers (l_main l) (l_child l) (on_current f (l_offchain l)).

Lemma represents_main o l m f :
  represents o l -> refines m (on_current f (l_main l)) -> represents (set_top m o) (write_main f l).
Proof.
  intros [H1 H2 H3 H4 H5] Hm. split; simpl; try done; [intros c|]; by apply lockstep_current_l.
Qed.

Lemma represents_write_offchain o l m f :
  represents o l -> refines m (on_current f (l_offchain l)) -> represents (set_offchain m o) (write_offchain f l).
Proof. intros [H1 H2 H3 H4 H5] Hm. split; simpl; try done. by apply lockstep_current. Qed.

Lemma blank_eq {K V} `{Countable K} (s : Stack K V) n :
  blank s -> length (snapshots s) = n -> s = mkStack (replicate n ∅) (protected s) (in_runtime s).
Proof.
  destruct s as [ss p r]. unfold blank. simpl. intros Hs <-. f_equal. induction Hs as [|x ss -> Hs IH]; simpl; [done|]. by f_equal.
Qed.

Lemma wp_with_child {P : Profile} info f g o l (Q : unit -> OverlayedChanges -> Prop) (R : OverlayError -> _) :
  represents o l -> (forall m s, refines m s -> refines (f m) (on_current g s)) ->
  (forall cs, represents (set_children cs o) (write_child (child_storage_key info) g l) -> Q tt (set_children cs o)) ->
  wp (with_child info f) Q R o.
Proof.
  intros [H1 H2 H3 H4 H5] Hf HQ. unfold with_child. set (c := child_storage_key info) in *. wp_steps. unfold id.
  set (e := default (spawn_child (top o), info) (children o !! c)).
  assert (refines e.1 (l_child l c) /\ child_storage_key e.2 = c) as [He Hi].
  { specialize (H2 c). unfold e. destruct (children o !! c) as [[cs i]|]; [done|]. simpl in *. split; [|done].
    pose proof (refines_spawn _ _ H1) as Hs. destruct (H4 c) as (E1 & E2 & E3). rewrite (blank_eq _ _ H2 (eq_sym E1)), <- E2, <- E3. done. }
  apply wp_debug_assert; [unfold try_update; by apply bool_decide_eq_true_2|]. wp_steps. apply HQ. split; simpl; try done.
  - intros c'. case_decide as Hc.
    + subst c'. rewrite lookup_insert_eq. split; [by apply Hf|done].
    + rewrite lookup_insert_ne by done. apply H2.
  - intros c'. case_decide as Hc; [subst c'; by apply lockstep_current|done].
Qed.
End Represents.

(* ===================================================================== *)
(** ** Every sequence of operations *)

Inductive ChangeOp :=
| OpSet (key : StorageKey) (val : option StorageValue)
| OpUpdate (key : StorageKey) (init : StorageValue) (f : StorageValue -> StorageValue)
| OpClearPrefix (prefix : StorageKey)
| OpSetChild (info : ChildInfo) (key : StorageKey) (val : option StorageValue)
| OpClearChild (info : ChildInfo)
| OpClearChildPrefix (info : ChildInfo) (prefix : StorageKey)
| OpOffchain (key : StorageKey) (val : option StorageValue)
| OpTx (op : TxOp).

Section Run.
Context {P : Profile} (decode_u32 : bytes -> option Z).
Local Abbreviation MC := (M OverlayedChanges OverlayError).
Implicit Types (o : OverlayedChanges) (l : Layers) (op : ChangeOp).

Definition run_op op : MC unit :=
  match op with
  | OpSet key val => modify (set_storage decode_u32 key val)
  | OpUpdate key init f => modify (value_mut_or_insert_with decode_u32 key init f)
  | OpClearPrefix prefix => modify (overlay_clear_prefix decode_u32 prefix)
  | OpSetChild info key val => set_child_storage decode_u32 info key val
  | OpClearChild info => clear_child_storage decode_u32 info
  | OpClearChildPrefix info prefix => overlay_clear_child_prefix decode_u32 info prefix
  | OpOffchain key val => modify (set_offchain_storage key val)
  | OpTx op => changes_tx op
  end.

(** The specification: an update of the current map, or of the stack. *)
Definition spec_op op l : bool * Layers :=
  match op with
  | OpSet key val => (true, write_main <[key := val]> l)
  | OpUpdate key init f => (true, write_main (fun y => <[key := Some (f (default [] (default (Some init) (y !! key))))]> y) l)
  | OpClearPrefix prefix => (true, write_main (cleared (fun key => starts_with key prefix)) l)
  | OpSetChild info key val => (true, write_child (child_storage_key info) <[key := val]> l)
  | OpClearChild info => (true, write_child (child_storage_key info) (cleared (fun _ => true)) l)
  | OpClearChildPrefix info prefix => (true, write_child (child_storage_key info) (cleared (fun key => starts_with key prefix)) l)
  | OpOffchain key val =>
      (true, write_offchain <[(STORAGE_PREFIX, key) := match val with Some v => SetValue v | None => Remove end]> l)
  | OpTx op => if tx_ok op (l_main l) then (true, on_layers op l) else (false, l)
  end.

(** The operations in order; an error is noted and changes nothing. *)
Fixpoint run_ops (ops : list ChangeOp) : MC (list bool) :=
  match ops with
  | [] => ret []
  | op :: ops =>
      let! r := result_of (run_op op) in
      let! rs := run_ops ops in
      ret (match r with inl _ => true | inr _ => false end :: rs)
  end.

Fixpoint spec_ops (ops : list ChangeOp) l : list bool * Layers :=
  match ops with
  | [] => ([], l)
  | op :: ops => let '(b, l) := spec_op op l in let '(bs, l) := spec_ops ops l in (b :: bs, l)
  end.

Definition no_layers : Layers := mkLayers (mkStack [∅] 0 false) (fun _ => mkStack [∅] 0 false) (mkStack [∅] 0 false).

Lemma represents_no_changes : represents no_changes no_layers.
Proof.
  split; simpl; try done; try apply refines_empty. intros c. rewrite lookup_empty. by repeat constructor.
Qed.

Lemma wp_run_op op o l :
  represents o l ->
  wp (run_op op) (fun _ o' => (spec_op op l).1 = true /\ represents o' (spec_op op l).2)
    (fun _ o' => (spec_op op l).1 = false /\ represents o' (spec_op op l).2) o.
Proof.
  intros Ho. destruct op as [key val|key init f|prefix|info key val|info|info prefix|key val|op]; simpl.
  - apply wp_modify. split; [done|]. apply represents_main; [done|]. apply refines_set, Ho.
  - apply wp_modify. split; [done|]. apply represents_main; [done|]. apply (refines_modify (top o)), Ho.
  - apply wp_modify. split; [done|]. apply represents_main; [done|]. apply refines_clear_where, Ho.
  - apply wp_bind, wp_gets. eapply wp_with_child; [done|by intros; apply refines_set|by intros; split].
  - apply wp_bind, wp_gets. eapply wp_with_child; [done|by intros; apply (refines_clear_where _ _ (fun _ => true))|by intros; split].
  - apply wp_bind, wp_gets. eapply wp_with_child; [done|by intros; apply refines_clear_where|by intros; split].
  - apply wp_modify. split; [done|]. destruct val; apply represents_write_offchain; (done || apply refines_set, Ho).
  - eapply wp_changes_tx; [exact Ho|..].
    + intros -> o' Ho' _ _. by split.
    + by intros -> e.
Qed.

Lemma wp_run_ops ops o l :
  represents o l ->
  wp (run_ops ops) (fun rs o' => rs = (spec_ops ops l).1 /\ represents o' (spec_ops ops l).2) (fun _ _ => False) o.
Proof.
  revert o l. induction ops as [|op ops IH]; intros o l Ho; simpl; [by apply wp_ret|]. apply wp_bind.
  pose proof (wp_run_op op o l Ho) as Hw. unfold wp, result_of in *.
  destruct (spec_op op l) as [b l1]. destruct (run_op op o) as [[] o1|e o1|]; simpl in Hw; [| |done]; destruct Hw as [-> H1];
    pose proof (IH _ _ H1) as Hi; unfold wp in Hi; unfold bind; destruct (run_ops ops o1) as [rs o2|e' o2|]; try done;
    simpl; destruct (spec_ops ops l1) as [bs l2]; simpl in *; naive_solver.
Qed.

(** C2: Over every sequence of writes, deletions by prefix, transactions and
    changes between client and runtime, the overlay behaves as one stack of full
    maps per storage: it succeeds and fails where they do, no internal
    expectation breaks, and every key of the main, child and offchain storages
    reads as in the map on top. *)
Theorem overlay_refines_snapshots ops :
  wp (run_ops ops) (fun rs o =>
    let '(bs, l) := spec_ops ops no_layers in
    rs = bs /\ changes_depth o = depth (l_main l) /\
    (forall key, overlay_storage key o = current (l_main l) !! key) /\
    (forall info key, overlay_child_storage info key o = current (l_child l (child_storage_key info)) !! key) /\
    (forall prefix key, offchain_get prefix key (offchain o) = current (l_offchain l) !! (prefix, key)))
    (fun _ _ => False) no_changes.
Proof.
  eapply wp_mono; [apply wp_run_ops, represents_no_changes| |done]. intros rs o.
  destruct (spec_ops ops no_layers) as [bs l]. simpl. intros [-> Ho]. split_and!.
  - done.
  - unfold changes_depth, depth. rewrite (rf_depth _ _ (rp_main _ _ Ho)). lia.
  - intros key. by apply represents_storage.
  - intros info key. by apply represents_child_storage.
  - intros prefix key. by apply represents_offchain.
Qed.
End Run.
