(* ===== verification/Ext.v ===== *)
(** * The externalities: the storage as the runtime sees it

    [primitives/state-machine/src/ext.rs]: reads and writes through the overlay
    and over a backend, the next key of the two together, deletion by prefix,
    and the cache of the storage root.

    The backend ([backend.rs], a trait over the trie) is a class; what the
    externalities rely on is stated in ExtTheorems. *)

From S2P Require Import Prelude Overlay OverlayChanges.

(* ===================================================================== *)
(** ** The order of keys *)

(** [Ord] on byte slices *)
Fixpoint bytes_cmp (a b : bytes) : comparison :=
  match a, b with
  | [], [] => Eq
  | [], _ :: _ => Lt
  | _ :: _, [] => Gt
  | x :: a', y :: b' =>
      match (Byte.to_N x ?= Byte.to_N y)%N with
      | Eq => bytes_cmp a' b'
      | c => c
      end
  end.

Definition bytes_lt (a b : bytes) : Prop := bytes_cmp a b = Lt.
Definition bytes_le (a b : bytes) : Prop := bytes_cmp a b <> Gt.

#[export] Instance bytes_lt_dec : RelDecision bytes_lt.
Proof. intros a b. unfold bytes_lt. destruct (bytes_cmp a b); (by left) || (by right). Defined.
#[export] Instance bytes_le_dec : RelDecision bytes_le.
Proof. intros a b. unfold bytes_le. destruct (bytes_cmp a b); (by left) || (right; by intros ?) || (left; done). Defined.

(** The entries of a [BTreeMap] after [key], in its order *)
Definition entry_le {V} (a b : bytes * V) : Prop := bytes_le a.1 b.1.
#[export] Instance entry_le_dec {V} : RelDecision (@entry_le V).
Proof. intros a b. unfold entry_le. apply _. Defined.

(** [changes_after] *)
Definition changes_after (key : StorageKey) (m : OverlayedChangeSet) : list (StorageKey * OverlayedValue) :=
  merge_sort entry_le (map_to_list (filter (fun kv => bytes_lt key kv.1) (changes m))).

Definition iter_after (key : StorageKey) (o : OverlayedChanges) : list (StorageKey * OverlayedValue) := changes_after key (top o).

Definition child_iter_after (storage_key key : StorageKey) (o : OverlayedChanges) : list (StorageKey * OverlayedValue) :=
  match children o !! storage_key with
  | Some c => changes_after key c.1
  | None => []
  end.

(* ===================================================================== *)
(** ** The backend

    A result of [None] is an error.  [be_keys] are the keys that
    [apply_to_keys_while] visits while its closure returns true. *)
Abbreviation Visible := (gmap StorageKey (option StorageValue)).

Class Backend (B : Type) := {
  be_storage : B -> StorageKey -> option (option StorageValue);
  be_child_storage : B -> ChildInfo -> StorageKey -> option (option StorageValue);
  be_next_storage_key : B -> StorageKey -> option (option StorageKey);
  be_next_child_storage_key : B -> ChildInfo -> StorageKey -> option (option StorageKey);
  be_keys : B -> option ChildInfo -> option bytes -> list StorageKey;
  be_full_storage_root : B -> Visible -> gmap StorageKey (Visible * ChildInfo) -> Hash;
  be_child_storage_root : B -> ChildInfo -> Visible -> Hash * bool
}.

(** What the codec, the hasher and the trie provide *)
Class Codec := {
  decode_u32 : bytes -> option Z;
  encode_hash : Hash -> bytes;
  decode_hash : bytes -> option Hash;
  hash_of : bytes -> Hash;
  empty_child_trie_root : Hash;
  append_or_new : bytes -> bytes -> option bytes;
  encode_single : bytes -> bytes
}.

(** [Ext], without the parts that are fixed: the overlay and the cached root *)
Record Ext := mkExt { overlay : OverlayedChanges; transaction_storage_root : option Hash }.

Section Externalities.
Context {P : Profile} {B : Type} {BE : Backend B} {CO : Codec} (backend : B).
Local Abbreviation MX := (M Ext unit).
Implicit Types (key prefix : StorageKey) (info : ChildInfo).

Definition set_overlay o x : Ext := mkExt o (transaction_storage_root x).
Definition on_overlay f : MX unit := modify (fun x => set_overlay (f (overlay x)) x).

(** A call to the overlay; its errors become [()]. *)
Definition in_overlay {A} (m : M OverlayedChanges OverlayError A) : MX A := zoom overlay set_overlay (map_err (fun _ => tt) m).

Definition mark_dirty : MX unit := modify (fun x => mkExt (overlay x) None).

(* --------------------------------------------------------------------- *)
(** *** Reads *)

Definition ext_storage key : MX (option StorageValue) :=
  let! r := gets (fun x => overlay_storage key (overlay x)) in
  match r with Some v => ret v | None => unwrap (be_storage backend key) end.

Definition ext_storage_hash key : MX (option bytes) :=
  let! v := ext_storage key in ret ((fun v => encode_hash (hash_of v)) <$> v).

Definition ext_child_storage info key : MX (option StorageValue) :=
  let! r := gets (fun x => overlay_child_storage info key (overlay x)) in
  match r with Some v => ret v | None => unwrap (be_child_storage backend info key) end.

Definition ext_child_storage_hash info key : MX (option bytes) :=
  let! v := ext_child_storage info key in ret ((fun v => encode_hash (hash_of v)) <$> v).

Definition exists_storage key : MX bool :=
  let! r := gets (fun x => overlay_storage key (overlay x)) in
  match r with
  | Some v => ret (bool_decide (is_Some v))
  | None => let! v := unwrap (be_storage backend key) in ret (bool_decide (is_Some v))
  end.

Definition exists_child_storage info key : MX bool :=
  let! r := gets (fun x => overlay_child_storage info key (overlay x)) in
  match r with
  | Some v => ret (bool_decide (is_Some v))
  | None => let! v := unwrap (be_child_storage backend info key) in ret (bool_decide (is_Some v))
  end.

(** The loop over the changes after the key; [next] asks the backend. *)
Fixpoint next_key_loop (next : StorageKey -> option (option StorageKey)) (l : list (StorageKey * OverlayedValue))
    (next_backend_key : option StorageKey) : MX (option StorageKey) :=
  match l with
  | [] => ret next_backend_key
  | overlay_key :: l' =>
      let cmp := (fun v => bytes_cmp v overlay_key.1) <$> next_backend_key in
      if bool_decide (cmp = Some Lt) then ret next_backend_key
      else if bool_decide (is_Some (entry_value overlay_key.2)) then ret (Some overlay_key.1)
      else if bool_decide (cmp = Some Eq) then
        let! next_backend_key := unwrap (next overlay_key.1) in
        next_key_loop next l' next_backend_key
      else next_key_loop next l' next_backend_key
  end.

(** [find_map(|k| k.1.value().as_ref().map(|_| k.0.to_vec()))] *)
Fixpoint find_valid (l : list (StorageKey * OverlayedValue)) : option StorageKey :=
  match l with
  | [] => None
  | k :: l' => match entry_value k.2 with Some _ => Some k.1 | None => find_valid l' end
  end.

Definition next_key (next : StorageKey -> option (option StorageKey)) key (l : list (StorageKey * OverlayedValue)) : MX (option StorageKey) :=
  let! next_backend_key := unwrap (next key) in
  match next_backend_key, l with
  | _, [] => ret next_backend_key
  | Some _, _ :: _ => next_key_loop next l next_backend_key
  | None, _ :: _ => ret (find_valid l)
  end.

Definition next_storage_key key : MX (option StorageKey) :=
  let! l := gets (fun x => iter_after key (overlay x)) in
  next_key (be_next_storage_key backend) key l.

Definition next_child_storage_key info key : MX (option StorageKey) :=
  let! l := gets (fun x => child_iter_after (child_storage_key info) key (overlay x)) in
  next_key (be_next_child_storage_key backend info) key l.

(* --------------------------------------------------------------------- *)
(** *** Writes *)

Definition ext_set_offchain_storage key (value : option bytes) : MX unit := on_overlay (set_offchain_storage key value).

Definition place_storage key (value : option StorageValue) : MX unit :=
  if is_child_storage_key key then ret tt
  else
    mark_dirty ;;
    on_overlay (set_storage decode_u32 key value).

Definition place_child_storage info key (value : option StorageValue) : MX unit :=
  mark_dirty ;;
  in_overlay (set_child_storage decode_u32 info key value).

(** A deletion through the overlay, of a child or of the main storage *)
Definition delete_key (child_info : option ChildInfo) key : MX unit :=
  match child_info with
  | Some info => in_overlay (set_child_storage decode_u32 info key None)
  | None => on_overlay (set_storage decode_u32 key None)
  end.

(** The two closures of [limit_remove_from_backend] *)
Fixpoint remove_limited (child_info : option ChildInfo) (limit : Z) (keys : list StorageKey) (num_deleted : Z) : MX (bool * Z) :=
  match keys with
  | [] => ret (true, num_deleted)
  | key :: keys =>
      if num_deleted =? limit then ret (false, num_deleted)
      else
        match checked_add U32 num_deleted 1 with
        | Some num => delete_key child_info key ;; remove_limited child_info limit keys num
        | None => ret (false, num_deleted)
        end
  end.

Fixpoint remove_all (child_info : option ChildInfo) (keys : list StorageKey) (num_deleted : Z) : MX (bool * Z) :=
  match keys with
  | [] => ret (true, num_deleted)
  | key :: keys => delete_key child_info key ;; remove_all child_info keys (saturating_add U32 num_deleted 1)
  end.

Definition limit_remove_from_backend (child_info : option ChildInfo) (prefix : option bytes) (limit : option Z) : MX (bool * Z) :=
  let keys := be_keys backend child_info prefix in
  match limit with
  | Some limit => remove_limited child_info limit keys 0
  | None => remove_all child_info keys 0
  end.

Definition kill_child_storage info (limit : option Z) : MX (bool * Z) :=
  mark_dirty ;;
  in_overlay (clear_child_storage decode_u32 info) ;;
  limit_remove_from_backend (Some info) None limit.

Definition ext_clear_prefix prefix (limit : option Z) : MX (bool * Z) :=
  if starts_with_child_storage_key prefix then ret (false, 0)
  else
    mark_dirty ;;
    on_overlay (overlay_clear_prefix decode_u32 prefix) ;;
    limit_remove_from_backend None (Some prefix) limit.

Definition ext_clear_child_prefix info prefix (limit : option Z) : MX (bool * Z) :=
  mark_dirty ;;
  in_overlay (overlay_clear_child_prefix decode_u32 info prefix) ;;
  limit_remove_from_backend (Some info) (Some prefix) limit.

(** [StorageAppend::append] *)
Definition append_item (value item : bytes) : bytes := default (encode_single value) (append_or_new item value).

Definition storage_append key (value : bytes) : MX unit :=
  mark_dirty ;;
  let! known := gets (fun x => get key (top (overlay x))) in
  let! init :=
    match known with
    | Some _ => ret []
    | None => let! v := unwrap (be_storage backend key) in ret (default [] v)
    end in
  on_overlay (value_mut_or_insert_with decode_u32 key init (append_item value)).

(* --------------------------------------------------------------------- *)
(** *** Roots and transactions *)

(** The changes as the current transaction sees them *)
Definition visible (m : OverlayedChangeSet) : Visible := omap value_ref (changes m).
Definition visible_children (o : OverlayedChanges) : gmap StorageKey (Visible * ChildInfo) :=
  (fun c => (visible c.1, c.2)) <$> children o.

(** [OverlayedChanges::storage_root] *)
Definition overlay_root (o : OverlayedChanges) : Hash := be_full_storage_root backend (visible (top o)) (visible_children o).

Definition storage_root : MX bytes :=
  let! cached := gets transaction_storage_root in
  match cached with
  | Some root => ret (encode_hash root)
  | None =>
      let! o := gets overlay in
      modify (fun x => mkExt (overlay x) (Some (overlay_root o))) ;;
      ret (encode_hash (overlay_root o))
  end.

Definition stored_child_root info : MX bytes :=
  let! k := ext_storage (prefixed_storage_key info) in
  ret (encode_hash (default empty_child_trie_root (k ← k; decode_hash k))).

Definition child_storage_root info : MX bytes :=
  let! cached := gets transaction_storage_root in
  match cached with
  | Some _ => stored_child_root info
  | None =>
      let! c := gets (fun x => children (overlay x) !! child_storage_key info) in
      match c with
      | Some (changeset, info') =>
          let '(root, is_empty) := be_child_storage_root backend info' (visible changeset) in
          let root := encode_hash root in
          on_overlay (set_storage decode_u32 (prefixed_storage_key info) (if is_empty then None else Some root)) ;;
          ret root
      | None => stored_child_root info
      end
  end.

Definition storage_index_transaction (index : Z) (hash : bytes) (size : Z) : MX unit :=
  on_overlay (add_transaction_index (IndexInsert index hash size)).

Definition storage_renew_transaction_index (index : Z) (hash : bytes) : MX unit :=
  on_overlay (add_transaction_index (IndexRenew index hash)).

Definition storage_start_transaction : MX unit := in_overlay changes_start.

Definition storage_rollback_transaction : MX unit :=
  mark_dirty ;;
  in_overlay changes_rollback.

Definition storage_commit_transaction : MX unit := in_overlay changes_commit.

(** [StateMachine::execute_aux] with a cache of the caller: a call of the runtime *)
Definition execute_aux {A} (call : MX A) : MX (A + unit) :=
  expect (F := unit) (in_overlay changes_enter_runtime) ;;
  let! result := result_of call in
  expect (F := unit) (in_overlay changes_exit_runtime) ;;
  ret result.
End Externalities.
