(* ===== verification/ExtTheorems.v ===== *)
(** * The externalities: the next key, deletion by prefix, and the root

    Over any backend that answers as a map does, the externalities show the
    backend's map with the changes over it. *)

From S2P Require Import Prelude Overlay OverlayFacts OverlayChanges OverlayTheorems Ext.

Set Default Proof Using "Type".

(* ===================================================================== *)
(** ** The order of keys *)

Lemma bytes_cmp_refl a : bytes_cmp a a = Eq.
Proof. induction a as [|x a IH]; simpl; [done|]. by rewrite N.compare_refl. Qed.

Lemma bytes_cmp_eq a b : bytes_cmp a b = Eq <-> a = b.
Proof.
  split; [|intros ->; apply bytes_cmp_refl]. revert b. induction a as [|x a IH]; intros [|y b]; simpl; try done.
  destruct (N.compare_spec (Byte.to_N x) (Byte.to_N y)) as [E| |]; try done. intros Hb. f_equal; [|by apply IH].
  pose proof (Byte.of_to_N x) as Hx. rewrite E, Byte.of_to_N in Hx. by injection Hx.
Qed.

Lemma bytes_cmp_opp a b : bytes_cmp b a = CompOpp (bytes_cmp a b).
Proof.
  revert b. induction a as [|x a IH]; intros [|y b]; simpl; try done.
  rewrite (N.compare_antisym (Byte.to_N x)). destruct (Byte.to_N x ?= Byte.to_N y)%N; simpl; try done.
Qed.

Lemma bytes_lt_trans a b c : bytes_lt a b -> bytes_lt b c -> bytes_lt a c.
Proof.
  unfold bytes_lt. revert b c. induction a as [|x a IH]; intros [|y b] [|z c]; simpl; try done.
  destruct (N.compare_spec (Byte.to_N x) (Byte.to_N y)) as [E1|L1|G1]; try done;
    destruct (N.compare_spec (Byte.to_N y) (Byte.to_N z)) as [E2|L2|G2]; try done;
    destruct (N.compare_spec (Byte.to_N x) (Byte.to_N z)) as [E3|L3|G3]; try done; try lia.
  apply IH.
Qed.

Lemma bytes_lt_irrefl a : ~ bytes_lt a a.
Proof. unfold bytes_lt. by rewrite bytes_cmp_refl. Qed.

Lemma bytes_le_lt_or_eq a b : bytes_le a b <-> bytes_lt a b \/ a = b.
Proof.
  unfold bytes_le, bytes_lt. rewrite <- bytes_cmp_eq. destruct (bytes_cmp a b); naive_solver.
Qed.

Lemma bytes_lt_le a b : bytes_lt a b -> bytes_le a b.
Proof. rewrite bytes_le_lt_or_eq. auto. Qed.

Lemma bytes_le_refl a : bytes_le a a.
Proof. apply bytes_le_lt_or_eq. by right. Qed.

Lemma bytes_nlt_le a b : ~ bytes_lt a b <-> bytes_le b a.
Proof. unfold bytes_le, bytes_lt. rewrite (bytes_cmp_opp a b). destruct (bytes_cmp a b); simpl; naive_solver. Qed.

Lemma bytes_le_trans a b c : bytes_le a b -> bytes_le b c -> bytes_le a c.
Proof.
  rewrite !bytes_le_lt_or_eq. intros [H1| ->] [H2| ->]; auto. left. by eapply bytes_lt_trans.
Qed.

Lemma bytes_lt_le_trans a b c : bytes_lt a b -> bytes_le b c -> bytes_lt a c.
Proof. intros H1. rewrite bytes_le_lt_or_eq. intros [H2| <-]; [by eapply bytes_lt_trans|done]. Qed.

#[export] Instance entry_le_trans {V} : Transitive (@entry_le V).
Proof. intros a b c. apply bytes_le_trans. Qed.

#[export] Instance entry_le_total {V} : Total (@entry_le V).
Proof.
  intros a b. unfold entry_le. destruct (decide (bytes_lt a.1 b.1)) as [Hl|Hn]; [left; by apply bytes_lt_le|right; by apply bytes_nlt_le].
Qed.

(* ===================================================================== *)
(** ** The next key

    [is_next p key r]: [r] is the first key after [key] of those with [p]. *)
Definition is_next (p : StorageKey -> Prop) (key : StorageKey) (r : option StorageKey) : Prop :=
  match r with
  | Some k => p k /\ bytes_lt key k /\ forall k', p k' -> bytes_lt key k' -> bytes_le k k'
  | None => forall k', p k' -> ~ bytes_lt key k'
  end.

#[export] Instance is_next_proper : Proper (pointwise_relation _ iff ==> eq ==> eq ==> iff) is_next.
Proof.
  intros p q Hpq key _ <- r _ <-. destruct r as [k|]; simpl; unfold pointwise_relation in Hpq.
  - setoid_rewrite Hpq. done.
  - by setoid_rewrite Hpq.
Qed.

(** The map below with the changes over it. *)
Definition over (below : gmap StorageKey StorageValue) (above : Visible) (key : StorageKey) : option StorageValue :=
  match above !! key with Some v => v | None => below !! key end.

Lemma changes_after_spec (key : StorageKey) (m : OverlayedChangeSet) :
  StronglySorted entry_le (changes_after key m) /\ NoDup (changes_after key m).*1 /\
  forall k e, (k, e) ∈ changes_after key m <-> changes m !! k = Some e /\ bytes_lt key k.
Proof.
  split; [apply StronglySorted_merge_sort; apply _|]. unfold changes_after. split.
  { rewrite merge_sort_Permutation. apply NoDup_fst_map_to_list. }
  intros k e.
  rewrite merge_sort_Permutation, elem_of_map_to_list, map_lookup_filter_Some. done.
Qed.

Section NextKey.
Context (next : StorageKey -> option (option StorageKey)) (below : gmap StorageKey StorageValue) (above : Visible).
Hypothesis next_ok : forall key, exists r, next key = Some r /\ is_next (fun k => is_Some (below !! k)) key r.
Implicit Types (key k : StorageKey) (l : list (StorageKey * OverlayedValue)) (nb : option StorageKey).

(** The keys of the view after [key] are all after [pos]: those of the changes
    in [l], and of the backend those from [nb] on. *)
Record pending key pos l nb : Prop := {
  pd_sorted : StronglySorted entry_le l;
  pd_nodup : NoDup l.*1;
  pd_pos : bytes_le key pos;
  pd_change k e : (k, e) ∈ l -> bytes_lt pos k /\ above !! k = Some (entry_value e);
  pd_changes k : is_Some (above !! k) -> bytes_lt pos k -> exists e, (k, e) ∈ l;
  pd_backend k : nb = Some k -> bytes_lt pos k /\ is_Some (below !! k);
  pd_rest k : bytes_lt key k -> is_Some (over below above k) ->
    bytes_lt pos k /\ (above !! k = None -> exists v, nb = Some v /\ bytes_le v k)
}.

Lemma sorted_head k e l k' e' : StronglySorted entry_le ((k, e) :: l) -> (k', e') ∈ (k, e) :: l -> bytes_le k k'.
Proof.
  intros Hs Hin. apply StronglySorted_inv in Hs as [_ Hall]. apply elem_of_cons in Hin as [[= -> ->]|Hin]; [apply bytes_le_refl|].
  rewrite Forall_forall in Hall. apply (Hall _ Hin).
Qed.

(** The backend's key is next. *)
Lemma pending_backend key pos l nb :
  pending key pos l nb -> match nb, l with Some v, (k, _) :: _ => bytes_lt v k | None, _ :: _ => False | _, [] => True end ->
  is_next (fun k => is_Some (over below above k)) key nb.
Proof.
  intros [H1 H2 H3 H4 H5 H6 H7] Hl.
  assert (forall v k e, nb = Some v -> (k, e) ∈ l -> bytes_lt v k) as Hn.
  { intros v k e -> Hin. destruct l as [|[k' e'] l]; [by apply elem_of_nil in Hin|].
    eapply bytes_lt_le_trans; [exact Hl|]. by eapply sorted_head. }
  destruct nb as [v|]; simpl.
  - destruct (H6 v eq_refl) as [Hv Hb]. assert (above !! v = None) as Ha.
    { destruct (above !! v) eqn:E; [|done]. destruct (H5 v) as [e He]; [by eexists|done|]. by apply (Hn v v e eq_refl), bytes_lt_irrefl in He. }
    unfold over at 1. rewrite Ha. split_and!; [done| |].
    + apply bytes_le_lt_or_eq in H3 as [H3| ->]; [by eapply bytes_lt_trans|done].
    + intros k' Hk' Hlt. destruct (H7 k' Hlt Hk') as [Hp Hr]. destruct (above !! k') eqn:E.
      * destruct (H5 k') as [e He]; [by eexists|done|]. by eapply bytes_lt_le, Hn.
      * by destruct (Hr eq_refl) as (v' & [= <-] & Hle).
  - destruct l as [|[k e] l]; [|done]. intros k' Hk' Hlt. destruct (H7 k' Hlt Hk') as [Hp Hr]. destruct (above !! k') eqn:E.
    + destruct (H5 k') as [e He]; [by eexists|done|]. by apply elem_of_nil in He.
    + by destruct (Hr eq_refl) as (v' & [=] & _).
Qed.

(** The first change has a value and is next. *)
Lemma pending_overlay key pos k e l nb :
  pending key pos ((k, e) :: l) nb -> is_Some (entry_value e) -> (forall v, nb = Some v -> bytes_le k v) ->
  is_next (fun k => is_Some (over below above k)) key (Some k).
Proof.
  intros [H1 H2 H3 H4 H5 H6 H7] He Hnb. destruct (H4 k e) as [Hlt Ha]; [left|]. simpl. unfold over at 1. rewrite Ha.
  split_and!; [done| |].
  - apply bytes_le_lt_or_eq in H3 as [H3| ->]; [by eapply bytes_lt_trans|done].
  - intros k' Hk' Hlt'. destruct (H7 k' Hlt' Hk') as [Hp Hr]. destruct (above !! k') eqn:E.
    + destruct (H5 k') as [e' He']; [by eexists|done|]. by eapply sorted_head.
    + destruct (Hr eq_refl) as (v & Hv & Hle). eapply bytes_le_trans; [by apply Hnb|done].
Qed.

(** The first change is a deletion, of the backend's key or of another one. *)
Lemma pending_step key pos k e l nb nb' :
  pending key pos ((k, e) :: l) nb -> entry_value e = None -> (forall v, nb = Some v -> bytes_le k v) ->
  (nb' = nb /\ nb <> Some k \/ nb = Some k /\ is_next (fun k => is_Some (below !! k)) k nb') ->
  pending key k l nb'.
Proof.
  intros [H1 H2 H3 H4 H5 H6 H7] He Hnb Hor. destruct (H4 k e) as [Hlt Ha]; [left|]. rewrite He in Ha.
  apply NoDup_cons in H2 as [Hk Hnd].
  assert (forall k' x, (k', x) ∈ l -> bytes_lt k k') as Hgt.
  { intros k' x Hin. pose proof (sorted_head _ _ _ k' x H1 ltac:(by right)) as Hle. apply bytes_le_lt_or_eq in Hle as [Hle| ->]; [done|].
    destruct Hk. apply list_elem_of_fmap. by exists (k', x). }
  split.
  - by apply StronglySorted_inv in H1 as [H1 _].
  - done.
  - eapply bytes_le_trans; [exact H3|by apply bytes_lt_le].
  - intros k' e' Hin. split; [by eapply Hgt|]. apply H4. by right.
  - intros k' Hab Hp. destruct (H5 k' Hab) as [x Hx]; [by eapply bytes_lt_trans|]. apply elem_of_cons in Hx as [[= -> _]|Hx]; [|by exists x].
    by apply bytes_lt_irrefl in Hp.
  - intros v ->. destruct Hor as [[<- Hne]|[_ Hn]]; [|simpl in Hn; naive_solver]. split; [|by apply H6].
    specialize (Hnb v eq_refl). apply bytes_le_lt_or_eq in Hnb as [|E]; [done|congruence].
  - intros k' Hk' Hs. destruct (H7 k' Hk' Hs) as [Hp Hr]. assert (bytes_lt k k') as Hkk.
    { destruct (above !! k') as [w|] eqn:E.
      - destruct (H5 k') as [x Hx]; [by eexists|done|]. apply elem_of_cons in Hx as [[= -> _]|Hx]; [|by eapply Hgt].
        unfold over in Hs. rewrite Ha in Hs. by destruct Hs.
      - destruct (Hr eq_refl) as (v & Hv & Hle). pose proof (bytes_le_trans _ _ _ (Hnb v Hv) Hle) as Hkk.
        apply bytes_le_lt_or_eq in Hkk as [|E']; [done|congruence]. }
    split; [done|]. intros E. destruct (Hr E) as (v & Hv & Hle). destruct Hor as [[-> Hne]|[-> Hn]]; [by exists v|].
    unfold over in Hs. rewrite E in Hs. destruct nb' as [v'|]; simpl in Hn; [exists v'; split; [done|]; by apply Hn|by destruct (Hn k' Hs)].
Qed.

(** The loop finds the first key of the view. *)
Lemma wp_next_key_loop key pos l nb x (Q : option StorageKey -> Ext -> Prop) (R : unit -> _) :
  pending key pos l nb ->
  (forall r, is_next (fun k => is_Some (over below above k)) key r -> Q r x) -> wp (next_key_loop next l nb) Q R x.
Proof using next_ok.
  intros Hp HQ. revert pos nb Hp. induction l as [|[k e] l IH]; intros pos nb Hp; simpl.
  { apply wp_ret, HQ. eapply pending_backend; [exact Hp|by destruct nb]. }
  case_bool_decide as H1.
  { apply wp_ret, HQ. eapply pending_backend; [exact Hp|]. destruct nb; simpl in H1; [by injection H1|done]. }
  assert (forall v, nb = Some v -> bytes_le k v) as Hle.
  { intros v ->. apply bytes_nlt_le. intros Hlt. apply H1. simpl. by rewrite Hlt. }
  case_bool_decide as H2; [apply wp_ret, HQ; by eapply pending_overlay|].
  assert (entry_value e = None) as He by (by destruct (entry_value e); [destruct H2|]).
  case_bool_decide as H3.
  - destruct nb as [v|]; simpl in H3; [|done]. injection H3 as ->%bytes_cmp_eq. destruct (next_ok k) as (r & Hr & Hn).
    apply wp_bind. rewrite Hr. apply (wp_unwrap _ _ _ _ r); [done|]. eapply IH, pending_step; eauto.
  - eapply IH, pending_step; [exact Hp|done|done|]. left. split; [done|]. intros ->. apply H3. simpl. by rewrite bytes_cmp_refl.
Qed.

(** Without keys of the backend, the loop looks for the first value. *)
Lemma find_valid_loop l (x : Ext) : next_key_loop next l None x = Ok (find_valid l) x.
Proof.
  induction l as [|[k e] l IH]; simpl; [done|]. destruct (entry_value e); simpl; [done|]. exact IH.
Qed.

Lemma wp_next_key key (m : OverlayedChangeSet) x (Q : option StorageKey -> Ext -> Prop) (R : unit -> _) :
  (forall k e, changes m !! k = Some e -> e <> []) -> above = visible m ->
  (forall r, is_next (fun k => is_Some (over below above k)) key r -> Q r x) ->
  wp (next_key next key (changes_after key m)) Q R x.
Proof using next_ok.
  intros Hne Ha HQ. destruct (next_ok key) as (r & Hr & Hn). unfold next_key. apply wp_bind. rewrite Hr.
  apply (wp_unwrap _ _ _ _ r); [done|]. destruct (changes_after_spec key m) as (H1 & H2 & H3).
  assert (forall k e, changes m !! k = Some e -> above !! k = Some (entry_value e)) as Hv.
  { intros k e He. rewrite Ha. unfold visible, entry_value. rewrite lookup_omap, He. simpl. specialize (Hne k e He). by destruct e. }
  assert (pending key key (changes_after key m) r) as Hp.
  { split; [done|done|apply bytes_le_refl|..].
    - intros k e Hin%H3. split; [apply Hin|]. apply Hv, Hin.
    - intros k [v Hk] Hlt. rewrite Ha in Hk. unfold visible in Hk. rewrite lookup_omap in Hk. destruct (changes m !! k) as [e|] eqn:He; [|done].
      exists e. apply H3. done.
    - intros k ->. simpl in Hn. naive_solver.
    - intros k Hk Hs. split; [done|]. intros E. unfold over in Hs. rewrite E in Hs. destruct r as [v|]; simpl in Hn.
      + exists v. split; [done|]. by apply Hn.
      + by destruct (Hn k Hs). }
  pose proof (fun r' => wp_next_key_loop key key (changes_after key m) r' x Q R) as Hloop.
  destruct r as [v|], (changes_after key m) as [|c l] eqn:El; simpl.
  - apply wp_ret, HQ. by eapply pending_backend.
  - by eapply (Hloop (Some v)).
  - apply wp_ret, HQ. by eapply pending_backend.
  - specialize (Hloop None Hp). unfold wp in *. rewrite find_valid_loop in Hloop. simpl. by apply Hloop.
Qed.
End NextKey.

(* ===================================================================== *)
(** ** The view of the runtime *)

(** What the externalities rely on: the backend answers as its maps do. *)
Class BackendOk (B : Type) {BE : Backend B} := {
  be_map : B -> gmap StorageKey StorageValue;
  be_child_map : B -> StorageKey -> gmap StorageKey StorageValue;
  be_storage_ok b key : be_storage b key = Some (be_map b !! key);
  be_child_storage_ok b info key : be_child_storage b info key = Some (be_child_map b (child_storage_key info) !! key);
  be_next_ok b key : exists r, be_next_storage_key b key = Some r /\ is_next (fun k => is_Some (be_map b !! k)) key r;
  be_next_child_ok b info key : exists r, be_next_child_storage_key b info key = Some r /\
    is_next (fun k => is_Some (be_child_map b (child_storage_key info) !! k)) key r;
  be_keys_ok b child_info prefix :
    NoDup (be_keys b child_info prefix) /\
    forall k, k ∈ be_keys b child_info prefix <->
      is_Some (match child_info with None => be_map b | Some info => be_child_map b (child_storage_key info) end !! k) /\
      starts_with k (default [] prefix) = true
}.

Lemma visible_eq (m : OverlayedChangeSet) s : refines m s -> visible m = current s.
Proof. intros Hm. apply map_eq. intros k. unfold visible. rewrite lookup_omap. by apply refines_value. Qed.

(** The child storage, changed or not. *)
Definition visible_child (o : OverlayedChanges) (c : StorageKey) : Visible :=
  match children o !! c with Some e => visible e.1 | None => ∅ end.

Lemma visible_child_eq o l c : represents o l -> visible_child o c = current (l_child l c).
Proof.
  intros Ho. unfold visible_child. pose proof (rp_child _ _ Ho c) as Hc. destruct (children o !! c) as [[m i]|]; simpl in *.
  - apply visible_eq, Hc.
  - apply map_eq. intros k. by rewrite lookup_empty, blank_current.
Qed.

Lemma visible_main_eq o l : represents o l -> visible (top o) = current (l_main l).
Proof. intros Ho. apply visible_eq, Ho. Qed.

Section View.
Context {P : Profile} {B : Type} {BE : Backend B} {CO : Codec} {BO : BackendOk B} (backend : B).
Local Abbreviation MX := (M Ext unit).
Implicit Types (x : Ext) (key prefix : StorageKey) (info : ChildInfo) (o : OverlayedChanges) (c : option ChildInfo) (limit : option Z).

(** The storages as the runtime reads them. *)
Definition view x key : option StorageValue := over (be_map backend) (visible (top (overlay x))) key.
Definition view_child x info key : option StorageValue :=
  over (be_child_map backend (child_storage_key info)) (visible_child (overlay x) (child_storage_key info)) key.

Definition ext_ok x : Prop := exists l, represents (overlay x) l.

Lemma ext_nonempty x k e : ext_ok x -> changes (top (overlay x)) !! k = Some e -> e <> [].
Proof. intros [l Hl] He ->. by apply (rf_nonempty _ _ (rp_main _ _ Hl) k). Qed.

Lemma wp_ext_storage key x (Q : option StorageValue -> Ext -> Prop) (R : unit -> _) :
  ext_ok x -> Q (view x key) x -> wp (ext_storage backend key) Q R x.
Proof.
  intros [l Hl] HQ. unfold ext_storage. wp_steps. unfold view, over in HQ. rewrite (visible_main_eq _ _ Hl) in HQ.
  rewrite (represents_storage _ _ key Hl). destruct (current (l_main l) !! key); [by apply wp_ret|].
  by eapply wp_unwrap; [apply be_storage_ok|].
Qed.

Lemma wp_next_storage_key key x (Q : option StorageKey -> Ext -> Prop) (R : unit -> _) :
  ext_ok x -> (forall r, is_next (fun k => is_Some (view x k)) key r -> Q r x) -> wp (next_storage_key backend key) Q R x.
Proof.
  intros Hx HQ. unfold next_storage_key. wp_steps.
  apply (wp_next_key _ (be_map backend) (visible (top (overlay x))) (be_next_ok backend)); [by intros k e; apply ext_nonempty|done|done].
Qed.

Lemma wp_next_child_storage_key info key x (Q : option StorageKey -> Ext -> Prop) (R : unit -> _) :
  ext_ok x -> (forall r, is_next (fun k => is_Some (view_child x info k)) key r -> Q r x) ->
  wp (next_child_storage_key backend info key) Q R x.
Proof.
  intros [l Hl] HQ. unfold next_child_storage_key. wp_steps. unfold child_iter_after, view_child, visible_child in *.
  pose proof (rp_child _ _ Hl (child_storage_key info)) as Hc.
  destruct (children (overlay x) !! child_storage_key info) as [[m i]|]; simpl in *.
  - apply (wp_next_key _ (be_child_map backend (child_storage_key info)) (visible m) (be_next_child_ok backend info)); [|done|done].
    intros k e He ->. by apply (rf_nonempty _ _ (proj1 Hc) k).
  - destruct (be_next_child_ok backend info key) as (r & Hr & Hn). unfold next_key. apply wp_bind. rewrite Hr.
    apply (wp_unwrap _ _ _ _ r); [done|]. assert (Q r x).
    { apply HQ. eapply is_next_proper; [|done|done|exact Hn]. intros k. unfold over. by rewrite lookup_empty. }
    destruct r; by apply wp_ret.
Qed.

(* --------------------------------------------------------------------- *)
(** *** Deletion *)

(** The main storage, or a child's. *)
Definition view_of (c : option ChildInfo) x key : option StorageValue :=
  match c with None => view x key | Some info => view_child x info key end.
Definition contents (c : option ChildInfo) : gmap StorageKey StorageValue :=
  match c with None => be_map backend | Some info => be_child_map backend (child_storage_key info) end.
Definition changed (c : option ChildInfo) o : Visible :=
  match c with None => visible (top o) | Some info => visible_child o (child_storage_key info) end.
Abbreviation store_id c := (child_storage_key <$> c).

Lemma view_of_eq c x key : view_of c x key = over (contents c) (changed c (overlay x)) key.
Proof. by destruct c. Qed.

(** [x'] is [x] with [f] done to the visible changes of one storage. *)
Record edited c (f : Visible -> Visible) x x' : Prop := {
  ed_ok : ext_ok x';
  ed_here : changed c (overlay x') = f (changed c (overlay x));
  ed_there c' : store_id c' <> store_id c -> changed c' (overlay x') = changed c' (overlay x);
  ed_root : transaction_storage_root x' = transaction_storage_root x
}.

Lemma edited_trans c f g x y z : edited c f x y -> edited c g y z -> edited c (fun m => g (f m)) x z.
Proof.
  intros [A1 A2 A3 A4] [B1 B2 B3 B4]. split; [done|congruence| |congruence]. intros c' Hc. by rewrite B3, A3.
Qed.

Lemma edited_main f m x l :
  represents (overlay x) l -> refines m (on_current f (l_main l)) -> edited None f x (set_overlay (set_top m (overlay x)) x).
Proof.
  intros Hl Hm. pose proof (represents_main _ _ m f Hl Hm) as Hl'. split; [by exists (write_main f l)| | |done].
  - simpl. rewrite (visible_eq _ _ Hm), (visible_main_eq _ _ Hl). unfold current, on_current. simpl.
    pose proof (rf_depth _ _ (rp_main _ _ Hl)). by destruct (snapshots (l_main l)).
  - intros [info|] Hc; done.
Qed.

Lemma edited_child info f g x l cs :
  represents (overlay x) l -> represents (set_children cs (overlay x)) (write_child (child_storage_key info) g l) ->
  (forall m, f m = g m) -> edited (Some info) f x (set_overlay (set_children cs (overlay x)) x).
Proof.
  intros Hl Hl' Hfg. split; [by eexists| | |done].
  - simpl. rewrite Hfg, (visible_child_eq _ _ _ Hl'), (visible_child_eq _ _ _ Hl). simpl. rewrite decide_True by done.
    unfold current, on_current. simpl. pose proof (rp_lock_child _ _ Hl (child_storage_key info)) as (Hlen & _).
    pose proof (rf_depth _ _ (rp_main _ _ Hl)). destruct (snapshots (l_child l (child_storage_key info))); [simpl in *; congruence|done].
  - intros [info'|] Hc; [|done]. simpl. rewrite (visible_child_eq _ _ _ Hl'), (visible_child_eq _ _ _ Hl). simpl.
    rewrite decide_False; [done|]. simpl in Hc. congruence.
Qed.

(** The three operations of the overlay on a child storage. *)
Lemma wp_child_edit info (h : option Z -> OverlayedChangeSet -> OverlayedChangeSet) g x (Q : unit -> Ext -> Prop) (R : unit -> _) :
  ext_ok x -> (forall a m s, refines m s -> refines (h a m) (on_current g s)) ->
  (forall x', edited (Some info) g x x' -> Q tt x') ->
  wp (in_overlay (let! a := gets (extrinsic_index decode_u32) in with_child info (h a))) Q R x.
Proof.
  intros [l Hl] Hh HQ. unfold in_overlay. apply wp_zoom, wp_map_err, wp_bind, wp_gets.
  eapply wp_with_child; [exact Hl|apply Hh|]. intros cs Hl'. by eapply HQ, edited_child.
Qed.

Lemma wp_delete_key c key x (Q : unit -> Ext -> Prop) (R : unit -> _) :
  ext_ok x -> (forall x', edited c <[key := None]> x x' -> Q tt x') -> wp (delete_key c key) Q R x.
Proof.
  intros Hx HQ. destruct c as [info|]; simpl.
  - apply wp_child_edit with (g := <[key := None]>); [done|by intros; apply refines_set|done].
  - destruct Hx as [l Hl]. apply wp_modify, HQ. by eapply edited_main, refines_set, Hl.
Qed.

Abbreviation delete_keys l := (fun m : Visible => foldr (fun k m => <[k := None]> m) m (rev l)).

Lemma wp_remove_all c keys n x (Q : bool * Z -> Ext -> Prop) (R : unit -> _) :
  ext_ok x -> 0 <= n < U32 ->
  (forall x', edited c (delete_keys keys) x x' -> Q (true, Z.min (n + Z.of_nat (length keys)) (U32 - 1)) x') ->
  wp (remove_all c keys n) Q R x.
Proof.
  revert n x. induction keys as [|k keys IH]; intros n x Hx Hn HQ; simpl.
  - apply wp_ret. replace n with (Z.min (n + Z.of_nat (@length StorageKey [])) (U32 - 1)) by (simpl; lia). by apply HQ.
  - apply wp_bind, wp_delete_key; [done|]. intros x1 H1. unfold saturating_add. apply IH; [apply H1|lia|]. intros x2 H2.
    replace (Z.min (Z.min (n + 1) (U32 - 1) + Z.of_nat (length keys)) (U32 - 1))
      with (Z.min (n + Z.of_nat (length (k :: keys))) (U32 - 1)) by (simpl; lia).
    apply HQ. destruct (edited_trans _ _ _ _ _ _ H1 H2) as [E1 E2 E3 E4]. split; try done.
    rewrite E2. simpl. rewrite foldr_app. done.
Qed.

Lemma wp_remove_limited c (limit : Z) keys n x (Q : bool * Z -> Ext -> Prop) (R : unit -> _) :
  ext_ok x -> 0 <= n <= limit -> limit < U32 ->
  (forall x', edited c (delete_keys (take (Z.to_nat (limit - n)) keys)) x x' ->
     Q (n + Z.of_nat (length keys) <=? limit, Z.min (n + Z.of_nat (length keys)) limit) x') ->
  wp (remove_limited c limit keys n) Q R x.
Proof.
  revert n x. induction keys as [|k keys IH]; intros n x Hx Hn Hl HQ; simpl.
  - apply wp_ret. simpl in HQ. rewrite Z.add_0_r, Z.min_l, (proj2 (Z.leb_le n limit)) in HQ by lia. apply HQ.
    by rewrite take_nil.
  - destruct (Z.eqb_spec n limit) as [-> |Hne].
    + apply wp_ret. rewrite Z.sub_diag, Z.min_r, (proj2 (Z.leb_gt _ limit)) in HQ by (simpl; lia). by apply HQ.
    + unfold checked_add. rewrite (proj2 (Z.ltb_lt _ _)) by lia. apply wp_bind, wp_delete_key; [done|]. intros x1 H1.
      apply IH; [apply H1|lia|lia|]. intros x2 H2.
      replace (n + 1 + Z.of_nat (length keys)) with (n + Z.of_nat (length (k :: keys))) by (simpl; lia). apply HQ.
      replace (Z.to_nat (limit - n)) with (S (Z.to_nat (limit - (n + 1)))) by lia.
      destruct (edited_trans _ _ _ _ _ _ H1 H2) as [E1 E2 E3 E4]. split; try done. rewrite E2. simpl. rewrite foldr_app. done.
Qed.

(** The result and the storages after all keys with a prefix were to be
    deleted: those of the changes are gone, and of the backend's as many as the
    limit allows, in the order of the backend. *)
Record prefix_cleared c (prefix : option bytes) (limit : option Z) x (r : bool * Z) x' : Prop := {
  pc_count : let n := Z.of_nat (length (be_keys backend c prefix)) in
    r = match limit with None => (true, Z.min n (U32 - 1)) | Some limit => (n <=? limit, Z.min n limit) end;
  pc_others k : starts_with k (default [] prefix) = false -> view_of c x' k = view_of c x k;
  pc_gone k : starts_with k (default [] prefix) = true ->
    view_of c x' k = None \/ view_of c x' k = contents c !! k /\ changed c (overlay x) !! k = None /\
      exists n, limit = Some n /\ k ∈ drop (Z.to_nat n) (be_keys backend c prefix);
  pc_stores c' : store_id c' <> store_id c -> forall k, view_of c' x' k = view_of c' x k
}.

Lemma lookup_delete_keys (l : list StorageKey) (m : Visible) (k : StorageKey) : delete_keys l m !! k = if decide (k ∈ l) then Some None else m !! k.
Proof.
  cbv beta. rewrite lookup_foldr_clear. apply decide_ext. rewrite !list_elem_of_In. symmetry. apply in_rev.
Qed.

Lemma edited_cleared c (prefix : option bytes) limit x x1 x' r D :
  edited c (cleared (fun k => starts_with k (default [] prefix))) x x1 -> edited c (delete_keys D) x1 x' ->
  (r = match limit with None => (true, Z.min (Z.of_nat (length (be_keys backend c prefix))) (U32 - 1))
   | Some limit => (Z.of_nat (length (be_keys backend c prefix)) <=? limit, Z.min (Z.of_nat (length (be_keys backend c prefix))) limit) end) ->
  D = match limit with None => be_keys backend c prefix | Some limit => take (Z.to_nat limit) (be_keys backend c prefix) end ->
  prefix_cleared c prefix limit x r x'.
Proof.
  intros H1 H2 Hr HD. destruct (edited_trans _ _ _ _ _ _ H1 H2) as [E1 E2 E3 _].
  destruct (be_keys_ok backend c prefix) as [_ Hk]. fold (contents c) in Hk.
  assert (forall k, k ∈ D -> k ∈ be_keys backend c prefix) as Hsub.
  { intros k. rewrite HD. destruct limit; [|done].
    intros Hin. rewrite <- (take_drop (Z.to_nat z) (be_keys backend c prefix)). apply elem_of_app. by left. }
  split; [done| | |].
  - intros k Hp. rewrite !view_of_eq, E2. unfold over. rewrite lookup_delete_keys. case_decide as Hin.
    { apply Hsub, Hk in Hin as [_ Hin]. congruence. }
    unfold cleared. rewrite map_lookup_imap. destruct (changed c (overlay x) !! k); simpl; [by rewrite Hp|done].
  - intros k Hp. rewrite !view_of_eq, E2. unfold over. rewrite lookup_delete_keys. case_decide as Hin; [by left|].
    unfold cleared. rewrite map_lookup_imap. destruct (changed c (overlay x) !! k) eqn:E; simpl; [rewrite Hp; by left|].
    destruct (contents c !! k) as [v|] eqn:Ec; [right|by left]. split; [done|]. split; [done|].
    assert (k ∈ be_keys backend c prefix) as Hkeys by (apply Hk; split; [by eexists|done]). rewrite HD in Hin.
    destruct limit as [n|]; [|done]. exists n. split; [done|]. rewrite <- (take_drop (Z.to_nat n) (be_keys backend c prefix)) in Hkeys.
    apply elem_of_app in Hkeys as [?|?]; done.
  - intros c' Hc k. by rewrite !view_of_eq, E3.
Qed.

Lemma wp_limit_remove c (prefix : option bytes) limit x x1 (Q : bool * Z -> Ext -> Prop) (R : unit -> _) :
  (forall n, limit = Some n -> in_range U32 n) ->
  edited c (cleared (fun k => starts_with k (default [] prefix))) x x1 ->
  (forall r x', prefix_cleared c prefix limit x r x' -> Q r x') ->
  wp (limit_remove_from_backend backend c prefix limit) Q R x1.
Proof.
  intros Hn H1 HQ. unfold limit_remove_from_backend. destruct limit as [n|].
  - specialize (Hn n eq_refl). unfold in_range in Hn. apply wp_remove_limited; [apply H1|lia|lia|]. intros x' H2. apply HQ.
    eapply edited_cleared; [exact H1|exact H2|done|]. by rewrite Z.sub_0_r.
  - apply wp_remove_all; [apply H1|done|]. intros x' H2. apply HQ. by eapply edited_cleared.
Qed.

Definition u32_limit (limit : option Z) : Prop := match limit with Some n => in_range U32 n | None => True end.

Lemma wp_ext_clear_prefix prefix limit x (Q : bool * Z -> Ext -> Prop) (R : unit -> _) :
  ext_ok x -> u32_limit limit -> starts_with_child_storage_key prefix = false ->
  (forall r x', prefix_cleared None (Some prefix) limit x r x' -> Q r x') ->
  wp (ext_clear_prefix backend prefix limit) Q R x.
Proof.
  intros Hx Hn Hc HQ. unfold ext_clear_prefix. rewrite Hc. unfold mark_dirty, on_overlay. wp_steps. simpl.
  destruct Hx as [l Hl]. eapply (wp_limit_remove None (Some prefix) limit (mkExt (overlay x) None)); [intros n ->; exact Hn| |].
  - eapply (edited_main _ _ (mkExt (overlay x) None)); [exact Hl|]. apply refines_clear_where, Hl.
  - intros r x' Hr. apply HQ. destruct Hr as [R1 R2 R3 R4]. by split.
Qed.

Lemma wp_clear_child info (prefix : option bytes) limit (h : option Z -> OverlayedChangeSet -> OverlayedChangeSet) x (Q : bool * Z -> Ext -> Prop) (R : unit -> _) :
  ext_ok x -> u32_limit limit ->
  (forall a m s, refines m s -> refines (h a m) (on_current (cleared (fun k => starts_with k (default [] prefix))) s)) ->
  (forall r x', prefix_cleared (Some info) prefix limit x r x' -> Q r x') ->
  wp (mark_dirty ;; in_overlay (let! a := gets (extrinsic_index decode_u32) in with_child info (h a)) ;;
      limit_remove_from_backend backend (Some info) prefix limit) Q R x.
Proof.
  intros Hx Hn Hh HQ. apply wp_bind, wp_modify, wp_bind. apply wp_child_edit with (g := cleared (fun k => starts_with k (default [] prefix))); [done|done|].
  intros x1 H1. eapply (wp_limit_remove (Some info) prefix limit (mkExt (overlay x) None)); [intros n ->; exact Hn|exact H1|].
  intros r x' Hr. apply HQ. destruct Hr as [R1 R2 R3 R4]. by split.
Qed.

Lemma wp_ext_clear_child_prefix info prefix limit x (Q : bool * Z -> Ext -> Prop) (R : unit -> _) :
  ext_ok x -> u32_limit limit -> (forall r x', prefix_cleared (Some info) (Some prefix) limit x r x' -> Q r x') ->
  wp (ext_clear_child_prefix backend info prefix limit) Q R x.
Proof. intros Hx Hn HQ. eapply wp_clear_child; [done|done|by intros; apply refines_clear_where|done]. Qed.

Lemma wp_kill_child_storage info limit x (Q : bool * Z -> Ext -> Prop) (R : unit -> _) :
  ext_ok x -> u32_limit limit -> (forall r x', prefix_cleared (Some info) None limit x r x' -> Q r x') ->
  wp (kill_child_storage backend info limit) Q R x.
Proof.
  intros Hx Hn HQ. eapply wp_clear_child; [done|done| |done]. intros a m s Hm.
  exact (refines_clear_where m s (fun _ => true) a Hm).
Qed.
End View.

(* ===================================================================== *)
(** ** The calls of a runtime *)

Inductive ExtOp :=
| XPlace (key : StorageKey) (value : option StorageValue)
| XPlaceChild (info : ChildInfo) (key : StorageKey) (value : option StorageValue)
| XKillChild (info : ChildInfo) (limit : option Z)
| XClearPrefix (prefix : StorageKey) (limit : option Z)
| XClearChildPrefix (info : ChildInfo) (prefix : StorageKey) (limit : option Z)
| XAppend (key : StorageKey) (value : bytes)
| XOffchain (key : StorageKey) (value : option bytes)
| XRoot
| XChildRoot (info : ChildInfo)
| XIndex (index : Z) (hash : bytes) (size : Z)
| XRenew (index : Z) (hash : bytes)
| XStart
| XRollback
| XCommit.

Section Calls.
Context {P : Profile} {B : Type} {BE : Backend B} {CO : Codec} (backend : B).
Local Abbreviation MX := (M Ext unit).
Implicit Types (x : Ext) (op : ExtOp).

(** The result of a call is dropped. *)
Abbreviation void m := (bind m (fun _ => ret tt)).

Definition ext_run op : MX unit :=
  match op with
  | XPlace key value => place_storage key value
  | XPlaceChild info key value => place_child_storage info key value
  | XKillChild info limit => void (kill_child_storage backend info limit)
  | XClearPrefix prefix limit => void (ext_clear_prefix backend prefix limit)
  | XClearChildPrefix info prefix limit => void (ext_clear_child_prefix backend info prefix limit)
  | XAppend key value => storage_append backend key value
  | XOffchain key value => ext_set_offchain_storage key value
  | XRoot => void (storage_root backend)
  | XChildRoot info => void (child_storage_root backend info)
  | XIndex index hash size => storage_index_transaction index hash size
  | XRenew index hash => storage_renew_transaction_index index hash
  | XStart => storage_start_transaction
  | XRollback => storage_rollback_transaction
  | XCommit => storage_commit_transaction
  end.

(** From an overlay that the client has worked on, and an empty cache. *)
Inductive ext_reaches : Ext -> Prop :=
| ext_new ops rs o : run_ops decode_u32 ops no_changes = Ok rs o -> ext_reaches (mkExt o None)
| ext_call op x x' : ext_reaches x -> ext_run op x = Ok tt x' -> ext_reaches x'
| ext_error op x x' : ext_reaches x -> ext_run op x = Err tt x' -> ext_reaches x'.

(** The cached root is that of the changes as they are. *)
Definition root_current x : Prop :=
  forall root, transaction_storage_root x = Some root -> root = overlay_root backend (overlay x).

Definition ext_inv x : Prop := ext_ok x /\ root_current x.

(** Operations of the overlay while nothing is cached. *)
Definition uncached x : Prop := ext_ok x /\ transaction_storage_root x = None.

Lemma uncached_inv x : uncached x -> ext_inv x.
Proof. intros [Hx Hc]. split; [done|]. intros root. by rewrite Hc. Qed.

Lemma keeps_overlay_op (cop : ChangeOp) : keeps uncached (in_overlay (run_op decode_u32 cop)).
Proof.
  intros x [[l Hl] Hc]. pose proof (wp_run_op decode_u32 cop _ _ Hl) as Hw. unfold wlp, in_overlay, zoom, map_err, wp in *.
  destruct (run_op decode_u32 cop (overlay x)) as [a o|e o|]; [| |done]; (split; [eexists; apply Hw|done]).
Qed.

Lemma keeps_overlay_write (cop : ChangeOp) f : run_op decode_u32 cop = modify f -> keeps uncached (on_overlay f).
Proof. intros E x Hx. pose proof (keeps_overlay_op cop x Hx) as Hw. rewrite E in Hw. exact Hw. Qed.

Lemma keeps_bind {A C} I (m : MX A) (k : A -> MX C) : keeps I m -> (forall a, keeps I (k a)) -> keeps I (bind m k).
Proof. intros Hm Hk x Hx. apply wlp_bind. eapply wlp_mono; [by apply Hm|by intros a t Ht; apply Hk|done]. Qed.

Lemma keeps_ret {A} I (a : A) : keeps (E := unit) (S := Ext) I (ret a).
Proof. by intros x Hx. Qed.

Lemma keeps_delete_key c key : keeps uncached (delete_key c key).
Proof.
  destruct c as [info|]; [apply (keeps_overlay_op (OpSetChild info key None))|by apply (keeps_overlay_write (OpSet key None))].
Qed.

Lemma keeps_limit_remove c prefix limit : keeps uncached (limit_remove_from_backend backend c prefix limit).
Proof.
  unfold limit_remove_from_backend. destruct limit as [n|].
  - generalize 0 as i. induction (be_keys backend c prefix) as [|k keys IH]; intros i; simpl; [apply keeps_ret|].
    case_match; [apply keeps_ret|]. case_match; [|apply keeps_ret]. apply keeps_bind; [apply keeps_delete_key|done].
  - generalize 0 as i. induction (be_keys backend c prefix) as [|k keys IH]; intros i; simpl; [apply keeps_ret|].
    apply keeps_bind; [apply keeps_delete_key|done].
Qed.

(** After [mark_dirty] the rest runs without a cached root. *)
Lemma keeps_dirty {A} (m : MX A) : keeps uncached m -> keeps ext_inv (mark_dirty ;; m).
Proof.
  intros Hm x [Hx _]. apply wlp_bind, wp_wlp, wp_modify. eapply wlp_mono; [by apply Hm|..]; by intros ???; apply uncached_inv.
Qed.

(** Operations that leave what is visible. *)
Lemma keeps_visible (m : M OverlayedChanges OverlayError unit) :
  (forall o l, represents o l -> wlp m (fun _ o' => (exists l', represents o' l') /\ visible (top o') = visible (top o) /\
     visible_children o' = visible_children o) (fun _ o' => o' = o) o) -> keeps ext_inv (in_overlay m).
Proof.
  intros Hm x [[l Hl] Hc]. specialize (Hm _ _ Hl). unfold wlp, in_overlay, zoom, map_err in *.
  destruct (m (overlay x)) as [a o|e o|]; [| |done].
  - destruct Hm as (Hl' & E1 & E2). split; [done|]. intros root Hr. rewrite (Hc root Hr). unfold overlay_root. simpl. by rewrite E1, E2.
  - subst o. split; [by exists l|]. intros root Hr. by apply Hc.
Qed.

Definition infos (o : OverlayedChanges) : gmap StorageKey ChildInfo := snd <$> children o.

Lemma keeps_each_child_infos m im : keeps (fun o => infos o = im) (each_child m).
Proof.
  intros o Ho. unfold each_child. wlp_steps. generalize ((map_to_list (children o)).*1) as cs. intros cs.
  revert o Ho. induction cs as [|c cs IH]; intros o Ho; simpl; [done|]. apply wlp_bind. unfold on_child. wlp_steps.
  unfold wlp, expect. destruct (m a.1) as [u m'| |]; try done. apply IH. unfold infos in *. simpl. rewrite fmap_insert, Ho.
  apply insert_id. rewrite <- Ho, lookup_fmap, H. done.
Qed.

Lemma current_tx {K V} `{Countable K} (op : TxOp) (s : Stack K V) :
  op = TxStart \/ op = TxCommit -> current (tx_stack op s) = current s.
Proof. by intros [-> | ->]. Qed.

Lemma visible_tx (op : TxOp) o o' l :
  op = TxStart \/ op = TxCommit -> represents o l -> represents o' (on_layers op l) -> infos o' = infos o ->
  visible (top o') = visible (top o) /\ visible_children o' = visible_children o.
Proof.
  intros Hop Ho Ho' Hi. split.
  - rewrite (visible_main_eq _ _ Ho), (visible_main_eq _ _ Ho'). by apply current_tx.
  - apply map_eq. intros c. unfold visible_children. rewrite !lookup_fmap.
    assert (infos o' !! c = infos o !! c) as Hc by (by rewrite Hi). unfold infos in Hc. rewrite !lookup_fmap in Hc.
    pose proof (visible_child_eq _ _ c Ho) as H1. pose proof (visible_child_eq _ _ c Ho') as H2.
    simpl in H2. rewrite (current_tx op) in H2 by done. unfold visible_child in *.
    destruct (children o' !! c) as [[m' i']|], (children o !! c) as [[m i]|]; simpl in *; congruence.
Qed.

Lemma keeps_tx (op : TxOp) : op = TxStart \/ op = TxCommit -> keeps ext_inv (in_overlay (changes_tx op)).
Proof.
  intros Hop. apply keeps_visible. intros o l Ho.
  assert (wlp (changes_tx op) (fun _ o' => infos o' = infos o) (fun _ _ => True) o) as Hi.
  { destruct Hop as [-> | ->]; simpl; unfold changes_start, changes_commit, on_top, on_offchain; apply wlp_bind, wlp_zoom.
    all: eapply wlp_mono with (Q := fun _ _ => True) (R := fun _ _ => True); [unfold wlp; by case_match| |done].
    all: intros [] t _; apply wlp_bind; eapply wlp_mono; [apply (keeps_each_child_infos _ (infos o)); done| |done].
    all: intros [] t' Ht'; apply wlp_zoom; unfold wlp; case_match; done. }
  pose proof (wp_changes_tx op o l (fun _ o' => represents o' (on_layers op l)) (fun _ o' => o' = o) Ho
    (fun _ o' Ho' _ _ => Ho') (fun _ _ => eq_refl)) as Hw.
  unfold wlp, wp in *. destruct (changes_tx op o) as [a o'|e o'|]; [|done|done]. split; [by eexists|]. by eapply visible_tx.
Qed.

Lemma keeps_gets {A} I (f : Ext -> A) : keeps (E := unit) I (gets f).
Proof. by intros x Hx. Qed.

Lemma keeps_unwrap {A} I (a : option A) : keeps (S := Ext) (E := unit) I (unwrap a).
Proof. intros x Hx. by destruct a. Qed.

Lemma keeps_stored_child_root I info : keeps I (stored_child_root backend info).
Proof.
  apply keeps_bind; [|intros; apply keeps_ret]. apply keeps_bind; [apply keeps_gets|]. intros [v|]; [apply keeps_ret|apply keeps_unwrap].
Qed.

Lemma keeps_child_storage_root info : keeps ext_inv (child_storage_root backend info).
Proof using P.
  intros x Hx. unfold child_storage_root. wlp_steps. destruct (transaction_storage_root x) as [root|] eqn:Hc; [by apply keeps_stored_child_root|].
  wlp_steps. destruct (children (overlay x) !! child_storage_key info) as [[cs i]|]; [|by apply keeps_stored_child_root].
  destruct (be_child_storage_root backend i (visible cs)) as [root e]. apply wlp_bind.
  eapply wlp_mono; [eapply (keeps_overlay_write (OpSet _ _)); [done|by split; [apply Hx|]]|..]; by intros ???; apply uncached_inv.
Qed.

Lemma keeps_storage_append key value : keeps ext_inv (storage_append backend key value).
Proof using P.
  apply keeps_dirty. apply keeps_bind; [apply keeps_gets|]. intros known. apply keeps_bind.
  - destruct known; [apply keeps_ret|]. apply keeps_bind; [apply keeps_unwrap|intros; apply keeps_ret].
  - intros init. by apply (keeps_overlay_write (OpUpdate key init (append_item value))).
Qed.

(** Changes of the offchain storage and of the index do not count for the root. *)
Lemma keeps_aside f :
  (forall o l, represents o l -> (exists l', represents (f o) l') /\ top (f o) = top o /\ children (f o) = children o) ->
  keeps ext_inv (on_overlay f).
Proof.
  intros Hf x [[l Hl] Hc]. destruct (Hf _ _ Hl) as (Hl' & E1 & E2). split; [done|]. intros root Hr. rewrite (Hc root Hr).
  unfold overlay_root, visible_children. simpl. by rewrite E1, E2.
Qed.

Lemma keeps_index (iop : IndexOperation) : keeps ext_inv (on_overlay (add_transaction_index iop)).
Proof. apply keeps_aside. intros o l [H1 H2 H3 H4 H5]. split; [|done]. exists l. by split. Qed.

Lemma keeps_ext_run op : keeps ext_inv (ext_run op).
Proof.
  destruct op as [key v|info key v|info n|p n|info p n|key v|key v| |info|i h z|i h| | |]; simpl;
    repeat first [apply keeps_bind; [|by intros; apply keeps_ret]].
  - unfold place_storage. case_match; [apply keeps_ret|]. apply keeps_dirty. by apply (keeps_overlay_write (OpSet key v)).
  - apply keeps_dirty, (keeps_overlay_op (OpSetChild info key v)).
  - apply keeps_dirty, keeps_bind; [apply (keeps_overlay_op (OpClearChild info))|intros; apply keeps_limit_remove].
  - unfold ext_clear_prefix. case_match; [apply keeps_ret|]. apply keeps_dirty, keeps_bind; [|intros; apply keeps_limit_remove].
    by apply (keeps_overlay_write (OpClearPrefix p)).
  - apply keeps_dirty, keeps_bind; [apply (keeps_overlay_op (OpClearChildPrefix info p))|intros; apply keeps_limit_remove].
  - apply keeps_storage_append.
  - apply keeps_aside. intros o l Ho. split; [|by destruct v].
    exists (write_offchain <[(STORAGE_PREFIX, key) := match v with Some v => SetValue v | None => Remove end]> l).
    destruct v; exact (represents_write_offchain o l _ _ Ho (refines_set _ _ _ _ _ (rp_offchain _ _ Ho))).
  - intros x [Hx Hc]. unfold storage_root. wlp_steps. destruct (transaction_storage_root x) as [root|]; wlp_steps; [done|].
    split; [done|]. intros root. by intros [= <-].
  - apply keeps_child_storage_root.
  - apply keeps_index.
  - apply keeps_index.
  - apply (keeps_tx TxStart). by left.
  - apply keeps_dirty, (keeps_overlay_op (OpTx TxRollback)).
  - apply (keeps_tx TxCommit). by right.
Qed.

Lemma ext_reaches_inv x : ext_reaches x -> ext_inv x.
Proof.
  induction 1 as [ops rs o Hr|op x x' _ IH Hr|op x x' _ IH Hr].
  - apply uncached_inv. split; [|done]. pose proof (wp_run_ops decode_u32 ops _ _ represents_no_changes) as Hw. unfold wp in Hw.
    rewrite Hr in Hw. eexists. apply Hw.
  - pose proof (keeps_ext_run op x IH) as Hw. unfold wlp in Hw. by rewrite Hr in Hw.
  - pose proof (keeps_ext_run op x IH) as Hw. unfold wlp in Hw. by rewrite Hr in Hw.
Qed.

(** C34: Whatever the runtime does - writes, deletions by prefix, appends,
    transactions, child roots - a root that is cached is the root of the changes
    as its current transaction sees them, and [storage_root] returns that root. *)
Theorem cached_root_is_current x :
  ext_reaches x -> root_current x /\
  wp (storage_root backend) (fun r x' => r = encode_hash (overlay_root backend (overlay x)) /\ overlay x' = overlay x) (fun _ _ => False) x.
Proof using P.
  intros Hx%ext_reaches_inv. split; [apply Hx|]. destruct Hx as [_ Hc]. unfold storage_root. wp_steps. unfold root_current in Hc.
  destruct (transaction_storage_root x) as [root|]; wp_steps; [by rewrite (Hc root)|done].
Qed.
End Calls.

Section Claims.
Context {P : Profile} {B : Type} {BE : Backend B} {CO : Codec} {BO : BackendOk B} (backend : B).
Implicit Types (x : Ext).

(** C19: Over every history of the runtime, asking for the next key of the main
    or of a child storage gives the first key after the given one, in the order
    of byte strings, that has a value where the changes lie over the backend;
    the search ends and changes nothing. *)
Theorem next_key_is_exact x key info :
  ext_reaches backend x ->
  wp (next_storage_key backend key) (fun r x' => x' = x /\ is_next (fun k => is_Some (view backend x k)) key r) (fun _ _ => False) x /\
  wp (next_child_storage_key backend info key)
    (fun r x' => x' = x /\ is_next (fun k => is_Some (view_child backend x info k)) key r) (fun _ _ => False) x.
Proof.
  intros [Hx _]%ext_reaches_inv. split; [by apply wp_next_storage_key|by apply wp_next_child_storage_key].
Qed.

(** Deletion by prefix, of the main storage or of a child, and of a whole
    child: what the changes hold under the prefix is gone, and of the backend's
    keys the first as many as the limit; the result says how many of these there
    were and whether all are gone; other keys and other storages stay. *)
Theorem prefix_deletion_is_exact x prefix info limit :
  ext_reaches backend x -> u32_limit limit ->
  (starts_with_child_storage_key prefix = false ->
   wp (ext_clear_prefix backend prefix limit) (prefix_cleared backend None (Some prefix) limit x) (fun _ _ => False) x) /\
  wp (ext_clear_child_prefix backend info prefix limit) (prefix_cleared backend (Some info) (Some prefix) limit x) (fun _ _ => False) x /\
  wp (kill_child_storage backend info limit) (prefix_cleared backend (Some info) None limit x) (fun _ _ => False) x.
Proof.
  intros [Hx _]%ext_reaches_inv Hn. split_and!.
  - intros Hc. by apply wp_ext_clear_prefix.
  - by apply wp_ext_clear_child_prefix.
  - by apply wp_kill_child_storage.
Qed.
End Claims.
