(* ===== verification/ExtBackend.v ===== *)
(** * A backend in memory

    Maps as a backend, which has the laws the externalities rely on, and the
    externalities at work over it. *)

From S2P Require Import Prelude Overlay OverlayFacts OverlayChanges OverlayTheorems Ext ExtTheorems.

Set Default Proof Using "Type".

Definition MapBackend : Type := gmap StorageKey StorageValue * gmap StorageKey (gmap StorageKey StorageValue).

Definition map_of (b : MapBackend) (c : option ChildInfo) : gmap StorageKey StorageValue :=
  match c with None => b.1 | Some info => default ∅ (b.2 !! child_storage_key info) end.

(** The keys of a map in order. *)
Definition sorted_keys (m : gmap StorageKey StorageValue) : list StorageKey := merge_sort bytes_le (map_to_list m).*1.

Definition next_in (m : gmap StorageKey StorageValue) (key : StorageKey) : option StorageKey :=
  head (merge_sort bytes_le (filter (bytes_lt key) (sorted_keys m))).

#[export] Instance Backend_map : Backend MapBackend := {|
  be_storage b key := Some (map_of b None !! key);
  be_child_storage b info key := Some (map_of b (Some info) !! key);
  be_next_storage_key b key := Some (next_in (map_of b None) key);
  be_next_child_storage_key b info key := Some (next_in (map_of b (Some info)) key);
  be_keys b c prefix := filter (fun k => starts_with k (default [] prefix) = true) (sorted_keys (map_of b c));
  be_full_storage_root b main cs := (N.of_nat (size b.1) + 100 * N.of_nat (size main) + 10000 * N.of_nat (size cs))%N;
  be_child_storage_root b info m := ((N.of_nat (size (map_of b (Some info))) + 100 * N.of_nat (size m))%N, bool_decide (m = ∅))
|}.

#[export] Instance bytes_le_transitive : Transitive bytes_le.
Proof. intros a b c. apply bytes_le_trans. Qed.

#[export] Instance bytes_le_total : Total bytes_le.
Proof.
  intros a b. destruct (decide (bytes_lt a b)) as [Hl|Hn]; [left; by apply bytes_lt_le|right; by apply bytes_nlt_le].
Qed.

Lemma elem_of_sorted_keys m k : k ∈ sorted_keys m <-> is_Some (m !! k).
Proof.
  unfold sorted_keys. rewrite merge_sort_Permutation, list_elem_of_fmap. split.
  - intros ([k' v] & -> & Hin%elem_of_map_to_list). by exists v.
  - intros [v Hv]. exists (k, v). split; [done|]. by apply elem_of_map_to_list.
Qed.

Lemma next_in_spec m key : is_next (fun k => is_Some (m !! k)) key (next_in m key).
Proof.
  unfold next_in. set (ks := merge_sort bytes_le _).
  assert (StronglySorted bytes_le ks) as Hs by (apply StronglySorted_merge_sort; apply _).
  assert (forall k, k ∈ ks <-> bytes_lt key k /\ is_Some (m !! k)) as He.
  { intros k. unfold ks. by rewrite merge_sort_Permutation, list_elem_of_filter, elem_of_sorted_keys. }
  destruct ks as [|k l]; simpl.
  - intros k' Hk' Hlt. assert (k' ∈ []) as Hn by (by apply He). by apply elem_of_nil in Hn.
  - destruct (proj1 (He k)) as [Hlt Hk]; [left|]. split_and!; [done|done|]. intros k' Hk' Hlt'.
    apply StronglySorted_inv in Hs as [_ Hall]. assert (k' ∈ k :: l) as Hin by (by apply He).
    apply elem_of_cons in Hin as [->|Hin]; [apply bytes_le_refl|]. rewrite Forall_forall in Hall. by apply Hall.
Qed.

#[export] Program Instance BackendOk_map : BackendOk MapBackend := {|
  be_map b := map_of b None;
  be_child_map b c := default ∅ (b.2 !! c)
|}.
Next Obligation. done. Qed.
Next Obligation. done. Qed.
Next Obligation. intros b key. eexists. split; [done|]. apply next_in_spec. Qed.
Next Obligation. intros b info key. eexists. split; [done|]. apply next_in_spec. Qed.
Next Obligation.
  intros b c prefix. split.
  - apply NoDup_filter. unfold sorted_keys. rewrite merge_sort_Permutation. apply NoDup_fst_map_to_list.
  - intros k. simpl. rewrite list_elem_of_filter, elem_of_sorted_keys. destruct c; simpl; tauto.
Qed.

(** A codec in which a hash is the number its bytes spell. *)
#[export] Instance Codec_demo : Codec := {|
  decode_u32 _ := None;
  encode_hash h := [default Byte.x00 (Byte.of_N (h mod 256))];
  decode_hash l := Byte.to_N <$> head l;
  hash_of l := N.of_nat (length l);
  empty_child_trie_root := 0%N;
  append_or_new item value := Some (item ++ value);
  encode_single value := value
|}.

(* ===================================================================== *)
(** ** An example *)
Module Example.

Definition key (n : N) : StorageKey := [default Byte.x00 (Byte.of_N n)].
Definition child : ChildInfo := ParentKeyId (key 7).

(** Keys 1, 2 and 3 below; key 2 is deleted, key 5 written, in a transaction. *)
Definition backend : MapBackend :=
  (<[key 1 := key 10]> (<[key 2 := key 20]> (<[key 3 := key 30]> ∅)), <[key 7 := <[key 1 := key 70]> ∅]> ∅).

Definition ops : list ChangeOp := [OpSet (key 5) (Some (key 50)); OpTx TxStart; OpSet (key 2) None].

#[local] Instance example_profile : Profile := release.

Definition state : OverlayedChanges := match run_ops decode_u32 ops no_changes with Ok _ o => o | _ => no_changes end.

Lemma example_reaches : ext_reaches backend (mkExt state None).
Proof.
  pose proof (wp_run_ops decode_u32 ops _ _ represents_no_changes) as Hw. unfold wp in Hw. unfold state.
  destruct (run_ops decode_u32 ops no_changes) as [rs o|e o|] eqn:E; [by apply (ext_new backend ops rs)|done|done].
Qed.

(** The same after the runtime has asked for the root and committed. *)
Definition after (op : ExtOp) (x : Ext) : Ext := match ext_run backend op x with Ok _ x' | Err _ x' => x' | Panic => x end.

Lemma after_reaches op x : ext_reaches backend x -> ext_reaches backend (after op x).
Proof.
  intros Hx. unfold after. destruct (ext_run backend op x) as [[] x'|[] x'|] eqn:E; [by eapply ext_call|by eapply ext_error|done].
Qed.

Definition committed : Ext := after XCommit (after XRoot (mkExt state None)).

Lemma committed_reaches : ext_reaches backend committed.
Proof. apply after_reaches, after_reaches, example_reaches. Qed.
End Example.

Lemma next_key_is_exact_witness :
  let x := mkExt Example.state None in
  wp (next_storage_key Example.backend (Example.key 1))
    (fun r x' => x' = x /\ is_next (fun k => is_Some (view Example.backend x k)) (Example.key 1) r) (fun _ _ => False) x /\
  match next_storage_key Example.backend (Example.key 1) x with Ok r _ => r = Some (Example.key 3) | _ => False end.
Proof.
  split; [|vm_compute; reflexivity].
  apply (proj1 (next_key_is_exact (P := release) Example.backend _ (Example.key 1) Example.child Example.example_reaches)).
Defined.

Lemma prefix_deletion_is_exact_witness :
  let x := mkExt Example.state None in
  wp (ext_clear_prefix (P := release) Example.backend (Example.key 3) (Some 1)) (prefix_cleared Example.backend None (Some (Example.key 3)) (Some 1) x)
    (fun _ _ => False) x.
Proof.
  apply (proj1 (prefix_deletion_is_exact (P := release) Example.backend _ (Example.key 3) Example.child (Some 1)
    Example.example_reaches ltac:(by vm_compute))). vm_compute. reflexivity.
Defined.

Lemma cached_root_is_current_witness :
  transaction_storage_root Example.committed = Some (overlay_root Example.backend (overlay Example.committed)).
Proof.
  pose proof (proj1 (cached_root_is_current (P := release) Example.backend _ Example.committed_reaches)) as Hc.
  destruct (transaction_storage_root Example.committed) as [root|] eqn:E; [by rewrite <- (Hc root E)|vm_compute in E; discriminate].
Defined.

(** A runtime that asks for the root within a transaction and leaves it open
    when it returns: the transaction is rolled back, and the cached root, which
    the caller goes on to use, is still the one with its changes. *)
Theorem open_transaction_leaves_stale_root :
  match execute_aux (storage_start_transaction ;; place_storage (Example.key 1) None ;; storage_root Example.backend) (mkExt no_changes None) with
  | Ok _ x => visible (top (overlay x)) = ∅ /\ transaction_storage_root x <> None /\ ~ root_current Example.backend x
  | _ => False
  end.
Proof.
  destruct (execute_aux _ _) as [r x|e x|] eqn:E; [|by vm_compute in E..].
  assert (match execute_aux (storage_start_transaction ;; place_storage (Example.key 1) None ;; storage_root Example.backend) (mkExt no_changes None) with
    | Ok _ x => (bool_decide (size (visible (top (overlay x))) = 0%nat), transaction_storage_root x, overlay_root Example.backend (overlay x))
    | _ => (false, None, 0%N) end = (true, Some 103%N, 3%N)) as Hv by (vm_compute; reflexivity).
  rewrite E in Hv. apply pair_equal_spec in Hv as [[Hs Hr]%pair_equal_spec Ho]. apply bool_decide_eq_true in Hs. split_and!.
  - by apply map_size_empty_inv.
  - congruence.
  - intros Hc. specialize (Hc _ Hr). rewrite Ho in Hc. discriminate.
Qed.
