(* ===== verification/IpfsNode.v ===== *)
(** * Requests to the IPFS node

    [client/offchain/src/api/ipfs.rs]: the API that the offchain worker calls,
    the worker that runs its requests on the IPFS node, and the two channels
    between them; [primitives/runtime/src/offchain/ipfs.rs]: the requests of the
    runtime; the types of [primitives/core/src/offchain/mod.rs].

    The node (the crate [ipfs]) is a parameter: its types with their printers
    and parsers are a class, and what it answers comes with the event that it
    answers.  Which request is ready when, and when the deadline fires, is a
    schedule of events. *)

From S2P Require Import Prelude.

(* ===================================================================== *)
(** ** UTF-8

    [str::from_utf8]: whether the bytes are valid. *)
Definition between (lo hi : N) (b : Byte.byte) : bool := (lo <=? Byte.to_N b)%N && (Byte.to_N b <=? hi)%N.

Fixpoint from_utf8 (l : bytes) : bool :=
  match l with
  | [] => true
  | a :: l1 =>
      if between 0x00 0x7f a then from_utf8 l1
      else
        match l1 with
        | [] => false
        | b :: l2 =>
            if between 0xc2 0xdf a then between 0x80 0xbf b && from_utf8 l2
            else
              match l2 with
              | [] => false
              | c :: l3 =>
                  if between 0xe0 0xef a then
                    between (if between 0xe0 0xe0 a then 0xa0 else 0x80) (if between 0xed 0xed a then 0x9f else 0xbf) b
                    && between 0x80 0xbf c && from_utf8 l3
                  else
                    match l3 with
                    | [] => false
                    | d :: l4 =>
                        between 0xf0 0xf4 a
                        && between (if between 0xf0 0xf0 a then 0x90 else 0x80) (if between 0xf4 0xf4 a then 0x8f else 0xbf) b
                        && between 0x80 0xbf c && between 0x80 0xbf d && from_utf8 l4
                    end
              end
        end
  end.

(* ===================================================================== *)
(** ** Requests and responses *)
Module Req.
Inductive IpfsRequest :=
| Addrs
| AddBytes (data : bytes)
| AddListeningAddr (addr : bytes)
| BitswapStats
| CatBytes (cid : bytes)
| Connect (addr : bytes)
| Disconnect (addr : bytes)
| GetBlock (cid : bytes)
| FindPeer (peer_id : bytes)
| GetClosestPeers (peer_id : bytes)
| GetProviders (cid : bytes)
| Identity
| InsertPin (cid : bytes) (recursive : bool)
| LocalAddrs
| LocalRefs
| Peers
| Publish (topic message : bytes)
| RemoveBlock (cid : bytes)
| RemoveListeningAddr (addr : bytes)
| RemovePin (cid : bytes) (recursive : bool)
| Subscribe (topic : bytes)
| SubscriptionList
| Unsubscribe (topic : bytes).
End Req.
Abbreviation IpfsRequest := Req.IpfsRequest.

Record Stats (Peer Want : Type) := mkStats {
  blocks_sent : Z; data_sent : Z; blocks_received : Z; data_received : Z; dup_blks_received : Z; dup_data_received : Z;
  stats_peers : list Peer; wantlist : list (Want * Z)
}.
#[global] Arguments mkStats {Peer Want}.
#[global] Arguments blocks_sent {Peer Want}.
#[global] Arguments data_sent {Peer Want}.
#[global] Arguments blocks_received {Peer Want}.
#[global] Arguments data_received {Peer Want}.
#[global] Arguments dup_blks_received {Peer Want}.
#[global] Arguments dup_data_received {Peer Want}.
#[global] Arguments stats_peers {Peer Want}.
#[global] Arguments wantlist {Peer Want}.

Module Resp.
Inductive IpfsResponse :=
| Addrs (l : list (bytes * list bytes))
| AddBytes (cid : bytes)
| BitswapStats (stats : Stats bytes bytes)
| CatBytes (data : bytes)
| FindPeer (addrs : list bytes)
| GetClosestPeers (ids : list bytes)
| GetProviders (ids : list bytes)
| Identity (pk : bytes) (addrs : list bytes)
| LocalAddrs (addrs : list bytes)
| LocalRefs (cids : list bytes)
| Peers (addrs : list bytes)
| RemoveBlock (cid : bytes)
| Success.
End Resp.
Abbreviation IpfsResponse := Resp.IpfsResponse.

Inductive IpfsRequestStatus := DeadlineReached | IoError (e : bytes) | Invalid | Finished (r : IpfsResponse).

(** [IpfsRequestId(u16)] *)
Abbreviation IpfsRequestId := Z.

(* ===================================================================== *)
(** ** The node *)

Class IpfsTypes := {
  Cid : Type; PeerId : Type; Multiaddr : Type; PeerAddr : Type; IpfsPath : Type;
  Block : Type; Connection : Type; PublicKey : Type; NodeError : Type;
  cid_to_string : Cid -> bytes; cid_to_bytes : Cid -> bytes;
  peer_to_bytes : PeerId -> bytes; peer_to_string : PeerId -> bytes;
  addr_to_string : Multiaddr -> bytes; conn_addr : Connection -> Multiaddr;
  into_peer_id : PublicKey -> PeerId; err_to_string : NodeError -> bytes;
  parse_cid : bytes -> Cid + NodeError; cid_try_from : bytes -> Cid + NodeError;
  parse_peer : bytes -> PeerId + NodeError; parse_addr : bytes -> Multiaddr + NodeError;
  parse_peer_addr : bytes -> PeerAddr + NodeError; parse_path : bytes -> IpfsPath + NodeError;
  utf8_error : NodeError
}.

(** What the printers of strings promise: a [String] is valid UTF-8. *)
Class IpfsTypesOk {T : IpfsTypes} := {
  cid_to_string_utf8 c : from_utf8 (cid_to_string c) = true;
  err_to_string_utf8 e : from_utf8 (err_to_string e) = true
}.

(** The answers of the node at one time *)
Record IpfsNode {T : IpfsTypes} := {
  node_addrs : list (PeerId * list Multiaddr) + NodeError;
  node_add : bytes -> Cid + NodeError;
  node_add_listening_address : Multiaddr -> Multiaddr + NodeError;
  node_bitswap_stats : Stats PeerId Cid + NodeError;
  node_get : IpfsPath -> bytes + NodeError;
  node_connect : PeerAddr -> unit + NodeError;
  node_disconnect : PeerAddr -> unit + NodeError;
  node_find_peer : PeerId -> list Multiaddr + NodeError;
  node_get_block : Cid -> Block + NodeError;
  node_get_closest_peers : PeerId -> list PeerId + NodeError;
  node_get_providers : Cid -> list PeerId + NodeError;
  node_identity : PublicKey * list Multiaddr + NodeError;
  node_insert_pin : Cid -> bool -> unit + NodeError;
  node_addrs_local : list Multiaddr + NodeError;
  node_refs_local : list Cid + NodeError;
  node_peers : list Connection + NodeError;
  node_pubsub_publish : bytes -> bytes -> unit + NodeError;
  node_remove_listening_address : Multiaddr -> unit + NodeError;
  node_remove_block : Cid -> Cid + NodeError;
  node_remove_pin : Cid -> bool -> unit + NodeError;
  node_pubsub_subscribe : bytes -> unit + NodeError;
  node_pubsub_subscribed : list bytes + NodeError;
  node_pubsub_unsubscribe : bytes -> bool + NodeError
}.
#[global] Arguments IpfsNode T : clear implicits.

Module Native.
Inductive IpfsNativeResponse {T : IpfsTypes} :=
| Addrs (l : list (PeerId * list Multiaddr))
| AddBytes (cid : Cid)
| AddListeningAddr (addr : Multiaddr)
| BitswapStats (stats : Stats PeerId Cid)
| CatBytes (data : bytes)
| Connect
| Disconnect
| FindPeer (addrs : list Multiaddr)
| GetBlock (block : Block)
| GetClosestPeers (ids : list PeerId)
| GetProviders (ids : list PeerId)
| Identity (pk : PublicKey) (addrs : list Multiaddr)
| InsertPin
| LocalAddrs (addrs : list Multiaddr)
| LocalRefs (cids : list Cid)
| Peers (conns : list Connection)
| Publish
| RemoveListeningAddr
| RemoveBlock (cid : Cid)
| RemovePin
| Subscribe
| SubscriptionList (topics : list bytes)
| Unsubscribe (b : bool)
| Success.
#[global] Arguments IpfsNativeResponse T : clear implicits.
End Native.
Abbreviation IpfsNativeResponse := Native.IpfsNativeResponse.

(** [e?] on a [Result] *)
Definition and_then {A B E} (r : A + E) (k : A -> B + E) : B + E := match r with inl a => k a | inr e => inr e end.
Notation "'let?' x := m 'in' k" := (and_then m (fun x => k)) (at level 10, x binder, m at level 100, k at level 200) : frame_scope.

Section Node.
Context {T : IpfsTypes}.

(** [From<IpfsNativeResponse> for IpfsResponse] *)
Definition response_from (resp : IpfsNativeResponse T) : IpfsResponse :=
  match resp with
  | Native.Addrs l => Resp.Addrs ((fun p : PeerId * list Multiaddr => (peer_to_bytes p.1, addr_to_string <$> p.2)) <$> l)
  | Native.AddBytes cid => Resp.AddBytes (cid_to_string cid)
  | Native.BitswapStats s =>
      Resp.BitswapStats (mkStats (blocks_sent s) (data_sent s) (blocks_received s) (data_received s)
        (dup_blks_received s) (dup_data_received s) (peer_to_bytes <$> stats_peers s) ((fun w : Cid * Z => (cid_to_bytes w.1, w.2)) <$> wantlist s))
  | Native.CatBytes data => Resp.CatBytes data
  | Native.GetClosestPeers ids => Resp.GetClosestPeers (peer_to_string <$> ids)
  | Native.GetProviders ids => Resp.GetProviders (peer_to_string <$> ids)
  | Native.FindPeer addrs => Resp.FindPeer (addr_to_string <$> addrs)
  | Native.Identity pk addrs => Resp.Identity (peer_to_bytes (into_peer_id pk)) (addr_to_string <$> addrs)
  | Native.LocalAddrs addrs => Resp.LocalAddrs (addr_to_string <$> addrs)
  | Native.LocalRefs cids => Resp.LocalRefs (cid_to_bytes <$> cids)
  | Native.Peers conns => Resp.Peers ((fun c => addr_to_string (conn_addr c)) <$> conns)
  | Native.RemoveBlock cid => Resp.RemoveBlock (cid_to_string cid)
  | _ => Resp.Success
  end.

(** [str::from_utf8(&l)?] *)
Definition utf8 (l : bytes) : bytes + NodeError := if from_utf8 l then inl l else inr utf8_error.

(** [ipfs_request] *)
Definition node_request (ipfs : IpfsNode T) (request : IpfsRequest) : IpfsNativeResponse T + NodeError :=
  match request with
  | Req.Addrs => let? l := node_addrs ipfs in inl (Native.Addrs l)
  | Req.AddBytes data => let? c := node_add ipfs data in inl (Native.AddBytes c)
  | Req.AddListeningAddr addr =>
      let? s := utf8 addr in let? a := parse_addr s in
      let? r := node_add_listening_address ipfs a in inl (Native.AddListeningAddr r)
  | Req.BitswapStats => let? s := node_bitswap_stats ipfs in inl (Native.BitswapStats s)
  | Req.CatBytes cid =>
      let? s := utf8 cid in let? p := parse_path s in
      let? data := node_get ipfs p in inl (Native.CatBytes data)
  | Req.Connect addr =>
      let? s := utf8 addr in let? a := parse_peer_addr s in
      let? _ := node_connect ipfs a in inl Native.Connect
  | Req.Disconnect addr =>
      let? s := utf8 addr in let? a := parse_peer_addr s in
      let? _ := node_disconnect ipfs a in inl Native.Disconnect
  | Req.FindPeer peer_id =>
      let? s := utf8 peer_id in let? p := parse_peer s in
      let? l := node_find_peer ipfs p in inl (Native.FindPeer l)
  | Req.GetBlock cid => let? c := cid_try_from cid in let? b := node_get_block ipfs c in inl (Native.GetBlock b)
  | Req.GetClosestPeers peer_id =>
      let? s := utf8 peer_id in let? p := parse_peer s in
      let? l := node_get_closest_peers ipfs p in inl (Native.GetClosestPeers l)
  | Req.GetProviders cid =>
      let? s := utf8 cid in let? c := parse_cid s in
      let? l := node_get_providers ipfs c in inl (Native.GetProviders l)
  | Req.Identity => let? r := node_identity ipfs in inl (Native.Identity r.1 r.2)
  | Req.InsertPin cid recursive =>
      let? s := utf8 cid in let? c := parse_cid s in
      let? _ := node_insert_pin ipfs c recursive in inl Native.InsertPin
  | Req.LocalAddrs => let? l := node_addrs_local ipfs in inl (Native.LocalAddrs l)
  | Req.LocalRefs => let? l := node_refs_local ipfs in inl (Native.LocalRefs l)
  | Req.Peers => let? l := node_peers ipfs in inl (Native.Peers l)
  | Req.Publish topic message =>
      let? s := utf8 topic in let? _ := node_pubsub_publish ipfs s message in inl Native.Publish
  | Req.RemoveListeningAddr addr =>
      let? s := utf8 addr in let? a := parse_addr s in
      let? _ := node_remove_listening_address ipfs a in inl Native.RemoveListeningAddr
  | Req.RemoveBlock cid =>
      let? s := utf8 cid in let? c := parse_cid s in
      let? r := node_remove_block ipfs c in inl (Native.RemoveBlock r)
  | Req.RemovePin cid recursive =>
      let? s := utf8 cid in let? c := parse_cid s in
      let? _ := node_remove_pin ipfs c recursive in inl Native.RemovePin
  | Req.Subscribe topic => let? s := utf8 topic in let? _ := node_pubsub_subscribe ipfs s in inl Native.Subscribe
  | Req.SubscriptionList => let? l := node_pubsub_subscribed ipfs in inl (Native.SubscriptionList l)
  | Req.Unsubscribe topic => let? s := utf8 topic in let? b := node_pubsub_unsubscribe ipfs s in inl (Native.Unsubscribe b)
  end.
End Node.

(* ===================================================================== *)
(** ** The API and its worker *)

Inductive IpfsApiRequest {T : IpfsTypes} := Dispatched | Response (r : IpfsNativeResponse T) | Failed (e : NodeError).
#[global] Arguments IpfsApiRequest T : clear implicits.

(** [WorkerToApi] *)
Inductive WorkerToApi {T : IpfsTypes} :=
| WResponse (id : IpfsRequestId) (value : IpfsNativeResponse T)
| WFail (id : IpfsRequestId) (error : NodeError).
#[global] Arguments WorkerToApi T : clear implicits.

(** What happens outside: the worker is polled, with the answers of the node to
    the requests that are ready; the deadline passes; the worker is gone. *)
Inductive Event {T : IpfsTypes} := EvPoll (ready : IpfsRequestId -> option (IpfsNode T)) | EvDeadline | EvCrash.
#[global] Arguments Event T : clear implicits.

(** [IpfsApi], [IpfsWorker], the channels between them, and the events to come *)
Record Offchain {T : IpfsTypes} := mkOffchain {
  next_id : IpfsRequestId;
  requests : gmap IpfsRequestId (IpfsApiRequest T);
  to_worker : list (IpfsRequestId * IpfsRequest);
  working : list (IpfsRequestId * IpfsRequest);
  from_worker : list (WorkerToApi T);
  events : list (Event T)
}.
#[global] Arguments Offchain T : clear implicits.

Section Api.
Context {P : Profile} {T : IpfsTypes}.
Local Abbreviation MF := (M (Offchain T) unit).
Implicit Types (s : Offchain T) (id : IpfsRequestId).

Definition set_next_id x s := mkOffchain _ x (requests s) (to_worker s) (working s) (from_worker s) (events s).
Definition set_requests x s := mkOffchain _ (next_id s) x (to_worker s) (working s) (from_worker s) (events s).
Definition set_to_worker x s := mkOffchain _ (next_id s) (requests s) x (working s) (from_worker s) (events s).
Definition set_working x s := mkOffchain _ (next_id s) (requests s) (to_worker s) x (from_worker s) (events s).
Definition set_from_worker x s := mkOffchain _ (next_id s) (requests s) (to_worker s) (working s) x (events s).
Definition set_events x s := mkOffchain _ (next_id s) (requests s) (to_worker s) (working s) (from_worker s) x.

Definition request_start (request : IpfsRequest) : MF IpfsRequestId :=
  let! id := gets next_id in
  let! rs := gets requests in
  debug_assert (bool_decide (rs !! id = None)) ;;
  let! id' := ok_or (checked_add U16 id 1) tt in
  modify (set_next_id id') ;;
  modify (fun s => set_to_worker (to_worker s ++ [(id, request)]) s) ;;
  modify (fun s => set_requests (<[id := Dispatched]> (requests s)) s) ;;
  ret id.

(** The loop of [IpfsWorker::poll] over the requests, the last first *)
Fixpoint poll_requests (ready : IpfsRequestId -> option (IpfsNode T)) (n : nat) : MF unit :=
  match n with
  | O => ret tt
  | S n =>
      let! rs := gets working in
      let! '(id, request) := unwrap (rs !! n) in
      let! rest := unwrap (swap_remove n rs) in
      (match ready id with
       | None => modify (set_working (rest ++ [(id, request)]))
       | Some node =>
           modify (set_working rest) ;;
           modify (fun s => set_from_worker (from_worker s ++
             [match node_request node request with inl value => WResponse id value | inr error => WFail id error end]) s)
       end) ;;
      poll_requests ready n
  end.

(** [IpfsWorker::poll] *)
Definition worker_poll (ready : IpfsRequestId -> option (IpfsNode T)) : MF unit :=
  let! rs := gets working in
  poll_requests ready (length rs) ;;
  let! q := gets to_worker in
  match q with
  | [] => ret tt
  | (id, request) :: q' =>
      modify (set_to_worker q') ;;
      let! rs := gets working in
      debug_assert (bool_decide (id ∉ rs.*1)) ;;
      modify (set_working (rs ++ [(id, request)]))
  end.

(** The scan of the ids in [response_wait]: the statuses, and whether to wait. *)
Fixpoint scan (ids : list IpfsRequestId) (output : list IpfsRequestStatus) : MF (list IpfsRequestStatus * bool) :=
  match ids, output with
  | id :: ids, out :: output =>
      let! rs := gets requests in
      let! '(out, waiting) :=
        match rs !! id with
        | None => ret (Invalid, false)
        | Some Dispatched => ret (out, true)
        | Some (Failed e) => ret (IoError (err_to_string e), false)
        | Some (Response Native.Success) => ret (out, false)
        | Some (Response resp) =>
            modify (set_requests (<[id := Response Native.Success]> rs)) ;;
            ret (Finished (response_from resp), false)
        end in
      let! '(output, must_wait_more) := scan ids output in
      ret (out :: output, waiting || must_wait_more)
  | _, _ => ret ([], false)
  end.

(** Requests in fail mode are purged before returning. *)
Fixpoint purge (ids : list IpfsRequestId) (output : list IpfsRequestStatus) s : Offchain T :=
  match ids, output with
  | id :: ids, IoError _ :: output => purge ids output (set_requests (delete id (requests s)) s)
  | _ :: ids, _ :: output => purge ids output s
  | _, _ => s
  end.

(** The update on a message of the worker *)
Definition receive (msg : WorkerToApi T) s : Offchain T :=
  let '(id, new) := match msg with WResponse id value => (id, Response value) | WFail id error => (id, Failed error) end in
  match requests s !! id with
  | Some Dispatched => set_requests (<[id := new]> (requests s)) s
  | _ => set_requests (delete id (requests s)) s
  end.

Definition crashed : bytes := bytes_of_string "The IPFS worker has crashed!".

(** [response_wait] with a deadline: where no message waits the next event
    happens, and the deadline passes after the last. *)
Fixpoint wait_loop (fuel : nat) (ids : list IpfsRequestId) (output : list IpfsRequestStatus) (deadline : bool) : MF (list IpfsRequestStatus) :=
  match fuel with
  | O => panic
  | S fuel =>
      let! '(output, must_wait_more) := scan ids output in
      if deadline || negb must_wait_more then
        modify (purge ids output) ;; ret output
      else
        let! msgs := gets from_worker in
        match msgs with
        | msg :: msgs =>
            modify (set_from_worker msgs) ;; modify (receive msg) ;;
            wait_loop fuel ids output deadline
        | [] =>
            let! evs := gets events in
            match evs with
            | [] => wait_loop fuel ids output true
            | EvDeadline :: evs => modify (set_events evs) ;; wait_loop fuel ids output true
            | EvCrash :: evs => ret ((fun _ => IoError crashed) <$> ids)
            | EvPoll ready :: evs => modify (set_events evs) ;; worker_poll ready ;; wait_loop fuel ids output deadline
            end
        end
  end.

(** What is still to come: events, and messages for the requests in progress *)
Definition wait_bound s : nat := 2 + length (events s) + length (to_worker s) + length (working s) + length (from_worker s).

Definition response_wait (ids : list IpfsRequestId) : MF (list IpfsRequestStatus) :=
  let! fuel := gets wait_bound in
  wait_loop fuel ids (replicate (length ids) DeadlineReached) false.
End Api.
