(* ===== verification/IpfsNodeFacts.v ===== *)
(** * Requests to the IPFS node: every reply is to its request

    The invariant of the API, its worker and the channels over every
    interleaving; the types of the responses; and that waiting ends. *)

From S2P Require Import Prelude IpfsNode.

Set Default Proof Using "Type".

(* ===================================================================== *)
(** ** The response to each request *)

Definition answers (req : IpfsRequest) (resp : IpfsResponse) : Prop :=
  match req with
  | Req.Addrs => exists l, resp = Resp.Addrs l
  | Req.AddBytes _ => exists c, resp = Resp.AddBytes c /\ from_utf8 c = true
  | Req.BitswapStats => exists s, resp = Resp.BitswapStats s
  | Req.CatBytes c => from_utf8 c = true /\ exists data, resp = Resp.CatBytes data
  | Req.Connect l | Req.Disconnect l | Req.AddListeningAddr l | Req.RemoveListeningAddr l
  | Req.InsertPin l _ | Req.RemovePin l _ | Req.Publish l _ | Req.Subscribe l | Req.Unsubscribe l =>
      from_utf8 l = true /\ resp = Resp.Success
  | Req.GetBlock _ | Req.SubscriptionList => resp = Resp.Success
  | Req.FindPeer p => from_utf8 p = true /\ exists l, resp = Resp.FindPeer l
  | Req.GetClosestPeers p => from_utf8 p = true /\ exists l, resp = Resp.GetClosestPeers l
  | Req.GetProviders c => from_utf8 c = true /\ exists l, resp = Resp.GetProviders l
  | Req.Identity => exists pk l, resp = Resp.Identity pk l
  | Req.LocalAddrs => exists l, resp = Resp.LocalAddrs l
  | Req.LocalRefs => exists l, resp = Resp.LocalRefs l
  | Req.Peers => exists l, resp = Resp.Peers l
  | Req.RemoveBlock c => from_utf8 c = true /\ exists c', resp = Resp.RemoveBlock c' /\ from_utf8 c' = true
  end.

Section Answers.
Context {T : IpfsTypes} {TO : IpfsTypesOk}.

(** Text that a parser takes. *)
Definition reads {A} (parse : bytes -> A + NodeError) (l : bytes) (a : A) : Prop := from_utf8 l = true /\ parse l = inl a.

(** The response that the node has for a request: its arguments are read, and
    what the node gives back is printed. *)
Definition answers_at (node : IpfsNode T) (req : IpfsRequest) (resp : IpfsResponse) : Prop :=
  match req with
  | Req.Addrs => exists l, node_addrs node = inl l /\
      resp = Resp.Addrs ((fun p : PeerId * list Multiaddr => (peer_to_bytes p.1, addr_to_string <$> p.2)) <$> l)
  | Req.AddBytes data => exists c, node_add node data = inl c /\ resp = Resp.AddBytes (cid_to_string c)
  | Req.AddListeningAddr addr => exists a b, reads parse_addr addr a /\ node_add_listening_address node a = inl b /\ resp = Resp.Success
  | Req.BitswapStats => exists s, node_bitswap_stats node = inl s /\
      resp = Resp.BitswapStats {|
        blocks_sent := blocks_sent s; data_sent := data_sent s; blocks_received := blocks_received s;
        data_received := data_received s; dup_blks_received := dup_blks_received s; dup_data_received := dup_data_received s;
        stats_peers := peer_to_bytes <$> stats_peers s; wantlist := (fun w : Cid * Z => (cid_to_bytes w.1, w.2)) <$> wantlist s |}
  | Req.CatBytes cid => exists p data, reads parse_path cid p /\ node_get node p = inl data /\ resp = Resp.CatBytes data
  | Req.Connect addr => exists a, reads parse_peer_addr addr a /\ node_connect node a = inl tt /\ resp = Resp.Success
  | Req.Disconnect addr => exists a, reads parse_peer_addr addr a /\ node_disconnect node a = inl tt /\ resp = Resp.Success
  | Req.GetBlock cid => exists c b, cid_try_from cid = inl c /\ node_get_block node c = inl b /\ resp = Resp.Success
  | Req.FindPeer id => exists p l, reads parse_peer id p /\ node_find_peer node p = inl l /\ resp = Resp.FindPeer (addr_to_string <$> l)
  | Req.GetClosestPeers id =>
      exists p l, reads parse_peer id p /\ node_get_closest_peers node p = inl l /\ resp = Resp.GetClosestPeers (peer_to_string <$> l)
  | Req.GetProviders cid =>
      exists c l, reads parse_cid cid c /\ node_get_providers node c = inl l /\ resp = Resp.GetProviders (peer_to_string <$> l)
  | Req.Identity =>
      exists pk l, node_identity node = inl (pk, l) /\ resp = Resp.Identity (peer_to_bytes (into_peer_id pk)) (addr_to_string <$> l)
  | Req.InsertPin cid r => exists c, reads parse_cid cid c /\ node_insert_pin node c r = inl tt /\ resp = Resp.Success
  | Req.LocalAddrs => exists l, node_addrs_local node = inl l /\ resp = Resp.LocalAddrs (addr_to_string <$> l)
  | Req.LocalRefs => exists l, node_refs_local node = inl l /\ resp = Resp.LocalRefs (cid_to_bytes <$> l)
  | Req.Peers => exists l, node_peers node = inl l /\ resp = Resp.Peers ((fun c => addr_to_string (conn_addr c)) <$> l)
  | Req.Publish topic message => from_utf8 topic = true /\ node_pubsub_publish node topic message = inl tt /\ resp = Resp.Success
  | Req.RemoveBlock cid => exists c d, reads parse_cid cid c /\ node_remove_block node c = inl d /\ resp = Resp.RemoveBlock (cid_to_string d)
  | Req.RemoveListeningAddr addr => exists a, reads parse_addr addr a /\ node_remove_listening_address node a = inl tt /\ resp = Resp.Success
  | Req.RemovePin cid r => exists c, reads parse_cid cid c /\ node_remove_pin node c r = inl tt /\ resp = Resp.Success
  | Req.Subscribe topic => from_utf8 topic = true /\ node_pubsub_subscribe node topic = inl tt /\ resp = Resp.Success
  | Req.SubscriptionList => exists l, node_pubsub_subscribed node = inl l /\ resp = Resp.Success
  | Req.Unsubscribe topic => from_utf8 topic = true /\ exists b, node_pubsub_unsubscribe node topic = inl b /\ resp = Resp.Success
  end.

Lemma and_then_inl {A B E} (r : A + E) (k : A -> B + E) b : and_then r k = inl b -> exists a, r = inl a /\ k a = inl b.
Proof. destruct r; simpl; [eauto|done]. Qed.

Lemma utf8_inl l s : utf8 l = inl s -> s = l /\ from_utf8 l = true.
Proof. unfold utf8. destruct (from_utf8 l); naive_solver. Qed.

Lemma node_request_not_placeholder node req : node_request node req <> inl Native.Success.
Proof.
  destruct req; simpl; intros E; repeat (apply and_then_inl in E as (? & _ & E)); discriminate.
Qed.

(** The node is asked for just this. *)
Lemma node_request_ok node req v : node_request node req = inl v -> answers_at node req (response_from v).
Proof.
  destruct req; simpl; intros E; repeat (apply and_then_inl in E as (? & ?Hk & E)); injection E as <-; simpl;
    repeat match goal with
    | Hu : utf8 _ = inl _ |- _ => apply utf8_inl in Hu as [-> Hu]
    | u : unit |- _ => destruct u
    | p : PublicKey * _ |- _ => destruct p
    end; unfold reads; eauto 10.
Qed.

Lemma node_request_exact node req resp :
  answers_at node req resp -> exists v, node_request node req = inl v /\ resp = response_from v.
Proof.
  destruct req; simpl; unfold reads, utf8; intros Ha;
    repeat match goal with Hx : _ /\ _ |- _ => destruct Hx | Hx : exists _, _ |- _ => destruct Hx end; subst resp;
    repeat match goal with Hx : from_utf8 _ = true |- _ => rewrite Hx; clear Hx | Hx : _ = inl _ |- _ => rewrite Hx; clear Hx end;
    simpl; repeat match goal with Hx : _ = inl _ |- _ => rewrite Hx; simpl; clear Hx end; eauto.
Qed.

Lemma node_request_refused node req e : node_request node req = inr e -> ~ exists resp, answers_at node req resp.
Proof. intros He (resp & (v & Hv & _)%node_request_exact). congruence. Qed.

Lemma node_request_answers node req v : node_request node req = inl v -> answers req (response_from v).
Proof using TO.
  pose proof cid_to_string_utf8.
  destruct req; simpl; intros E; repeat (apply and_then_inl in E as (? & ?Hk & E)); injection E as <-; simpl;
    repeat match goal with Hu : utf8 _ = inl _ |- _ => apply utf8_inl in Hu as [-> Hu] end; eauto 6.
Qed.
End Answers.

(* ===================================================================== *)
(** ** The invariant *)
Section Inv.
Context {P : Profile} {T : IpfsTypes} {TO : IpfsTypesOk}.
Implicit Types (s : Offchain T) (id : IpfsRequestId) (started : gmap IpfsRequestId IpfsRequest) (msg : WorkerToApi T).
Implicit Types (made : list (IpfsRequestId -> option (IpfsNode T))).

Definition msg_id msg : IpfsRequestId := match msg with WResponse id _ | WFail id _ => id end.

(** The requests on their way: to the worker, in it, and back. *)
Definition underway s : list IpfsRequestId := (to_worker s).*1 ++ (working s).*1 ++ (msg_id <$> from_worker s).

(** The node had an answer for the id, at one of the polls that were made, and
    the request was started under the id. *)
Definition asked started made id (req : IpfsRequest) (node : IpfsNode T) : Prop :=
  started !! id = Some req /\ exists ready, ready ∈ made /\ ready id = Some node.

Definition replies started made id (r : IpfsNativeResponse T + NodeError) : Prop :=
  exists req node, asked started made id req node /\ node_request node req = r.

Definition msg_reply msg : IpfsNativeResponse T + NodeError := match msg with WResponse _ v => inl v | WFail _ e => inr e end.

(** The polls among events. *)
Definition polls_of (evs : list (Event T)) : list (IpfsRequestId -> option (IpfsNode T)) :=
  omap (fun ev => match ev with EvPoll ready => Some ready | _ => None end) evs.

Lemma asked_mono started made made' id req node : made ⊆ made' -> asked started made id req node -> asked started made' id req node.
Proof. intros Hm (? & ready & ? & ?). split; [done|]. exists ready. split; [by apply Hm|done]. Qed.

Lemma replies_mono started made made' id r : made ⊆ made' -> replies started made id r -> replies started made' id r.
Proof. intros Hm (req & node & ? & ?). exists req, node. split; [by eapply asked_mono|done]. Qed.

Record api_inv started made s : Prop := {
  ai_next : in_range U16 (next_id s);
  ai_started id : is_Some (started !! id) -> id < next_id s;
  ai_known id : is_Some (requests s !! id) -> is_Some (started !! id);
  ai_once : NoDup (underway s);
  ai_underway id : requests s !! id = Some Dispatched <-> id ∈ underway s;
  ai_requests id req : (id, req) ∈ to_worker s ++ working s -> started !! id = Some req;
  ai_messages msg : msg ∈ from_worker s -> replies started made (msg_id msg) (msg_reply msg);
  ai_responses id v : requests s !! id = Some (Response v) -> v = Native.Success \/ replies started made id (inl v);
  ai_failures id e : requests s !! id = Some (Failed e) -> replies started made id (inr e)
}.

Lemma api_inv_mono started made made' s : made ⊆ made' -> api_inv started made s -> api_inv started made' s.
Proof.
  intros Hm [H1 H2 H3 H4 H5 H6 H7 H8 H9]. split; try done.
  - intros msg Hin. eapply replies_mono; eauto.
  - intros id v Hv. destruct (H8 id v Hv); [by left|right]. by eapply replies_mono.
  - intros id e He. eapply replies_mono; eauto.
Qed.

(** The invariant depends on the requests underway up to their order. *)
Lemma api_inv_moved started made s s' :
  api_inv started made s -> next_id s' = next_id s -> requests s' = requests s -> underway s' ≡ₚ underway s ->
  (forall id req, (id, req) ∈ to_worker s' ++ working s' -> started !! id = Some req) ->
  (forall msg, msg ∈ from_worker s' -> replies started made (msg_id msg) (msg_reply msg)) -> api_inv started made s'.
Proof.
  intros [H1 H2 H3 H4 H5 H6 H7 H8 H9] E1 E2 Hp Hr Hm. split; rewrite ?E1, ?E2; try done.
  - by rewrite Hp.
  - intros id. by rewrite Hp.
Qed.

Lemma wp_request_start started made req s (Q : IpfsRequestId -> Offchain T -> Prop) R :
  api_inv started made s ->
  (forall s', api_inv (<[next_id s := req]> started) made s' -> requests s' !! next_id s = Some Dispatched ->
     started !! next_id s = None -> Q (next_id s) s') ->
  (next_id s = U16 - 1 -> R tt s) ->
  wp (request_start req) Q R s.
Proof using TO.
  intros [H1 H2 H3 H4 H5 H6 H7 H8 H9] HQ HR. unfold request_start. wp_steps. unfold in_range in H1.
  assert (started !! next_id s = None) as Hn by (destruct (started !! next_id s) eqn:E; [specialize (H2 (next_id s) ltac:(by eexists)); lia|done]).
  assert (requests s !! next_id s = None) as Hr.
  { destruct (requests s !! next_id s) eqn:E; [|done]. destruct (H3 (next_id s)) as [? Hs]; [by eexists|congruence]. }
  apply wp_debug_assert; [by apply bool_decide_eq_true_2|]. wp_steps; unfold checked_add in *; case_match eqn:Hlt; try done; [|apply HR; lia].
  simplify_eq. apply HQ; [|simpl; by rewrite lookup_insert_eq|done].
  assert (next_id s ∉ underway s) as Hnu by (rewrite <- H5, Hr; done).
  assert (forall id r, replies started made id r -> replies (<[next_id s := req]> started) made id r) as Hrep.
  { intros id r (rq & node & [Hs Hrd] & Hv). exists rq, node. split; [|done]. split; [|done]. rewrite lookup_insert_ne; [done|congruence]. }
  assert (underway (set_requests (<[next_id s := Dispatched]> (requests s)) (set_to_worker (to_worker s ++ [(next_id s, req)]) s)) ≡ₚ next_id s :: underway s) as Hu.
  { unfold underway. simpl. rewrite fmap_app. simpl. solve_Permutation. }
  split; simpl.
  - unfold in_range. lia.
  - intros id. rewrite lookup_insert_is_Some. intros [->|[_ Hs]]; [lia|]. specialize (H2 id Hs). lia.
  - intros id. rewrite !lookup_insert_is_Some. intros [->|[? Hs]]; [by left|right; auto].
  - rewrite Hu. by constructor.
  - intros id. rewrite Hu, elem_of_cons. destruct (decide (id = next_id s)) as [->|Hne].
    + rewrite lookup_insert_eq. naive_solver.
    + rewrite lookup_insert_ne, H5 by done. naive_solver.
  - intros id r. rewrite <- app_assoc, elem_of_app. intros Hin.
    assert ((id, r) = (next_id s, req) \/ (id, r) ∈ to_worker s ++ working s) as [[= -> ->]|Hin'] by set_solver.
    + apply lookup_insert_eq.
    + specialize (H6 _ _ Hin'). rewrite lookup_insert_ne; [done|]. intros E. congruence.
  - intros msg Hin. by apply Hrep, H7.
  - intros id v. rewrite lookup_insert_Some. intros [[_ [=]]|[_ Hv]]. destruct (H8 _ _ Hv) as [->|Hv']; [by left|right]. by apply Hrep.
  - intros id e. rewrite lookup_insert_Some. intros [[_ [=]]|[_ He]]. by apply Hrep, H9.
Qed.

(** The parts that the worker does not touch, and the number of requests underway. *)
Definition polled s s' : Prop :=
  next_id s' = next_id s /\ requests s' = requests s /\ events s' = events s /\ length (underway s') = length (underway s).

Lemma swap_remove_Some {A} (v : list A) n x : v !! n = Some x -> exists v', swap_remove n v = Some v' /\ v ≡ₚ x :: v'.
Proof.
  intros Hx. destruct (swap_remove n v) as [v'|] eqn:E; [exists v'; split; [done|by eapply swap_remove_perm]|].
  unfold swap_remove in E. rewrite Hx in E. destruct (last v) eqn:El; [done|]. apply last_None in El. by subst.
Qed.

Lemma wp_poll_requests started made ready n s (Q : unit -> Offchain T -> Prop) R :
  ready ∈ made -> api_inv started made s -> (n <= length (working s))%nat ->
  (forall s', api_inv started made s' -> polled s s' -> to_worker s' = to_worker s -> Q tt s') ->
  wp (poll_requests ready n) Q R s.
Proof using TO.
  intros Hmade. revert s. induction n as [|n IH]; intros s Hs Hn HQ; simpl; [by apply wp_ret, HQ|]. wp_steps.
  destruct (lookup_lt_is_Some_2 (working s) n) as [[id req] Hx]; [lia|]. apply (wp_unwrap _ _ _ _ (id, req)); [done|].
  destruct (swap_remove_Some _ _ _ Hx) as (rest & Hr & Hp). wp_steps. rewrite Hr. apply (wp_unwrap _ _ _ _ rest); [done|].
  pose proof (Permutation_length Hp) as Hlen. simpl in Hlen.
  assert (forall s1, api_inv started made s1 -> polled s s1 -> to_worker s1 = to_worker s -> (n <= length (working s1))%nat ->
    wp (poll_requests ready n) Q R s1) as Hgo.
  { intros s1 H1 H2 H3 H4. apply IH; [done|done|]. intros s' H5 H6 H7. apply HQ; [done| |congruence].
    destruct H2 as (? & ? & ? & ?), H6 as (? & ? & ? & ?). unfold polled. split_and!; congruence. }
  pose proof Hs as [H1 H2 H3 H4 H5 H6 H7 H8 H9].
  assert (forall id' r, (id', r) ∈ working s -> started !! id' = Some r) as Hwk by (intros; apply H6, elem_of_app; by right).
  destruct (ready id) as [node|] eqn:Hrd; wp_steps.
  - set (m := match node_request node req with inl value => WResponse id value | inr error => WFail id error end).
    assert (msg_id m = id) as Hm by (unfold m; by destruct (node_request node req)).
    assert (underway (set_from_worker (from_worker s ++ [m]) (set_working rest s)) ≡ₚ underway s) as Hu.
    { unfold underway. simpl. rewrite Hp, fmap_app. simpl. rewrite Hm. solve_Permutation. }
    apply Hgo; [|by repeat split; rewrite ?Hu|done|simpl; lia]. eapply api_inv_moved; [exact Hs|done|done|exact Hu| |]; simpl.
    + intros id' r Hin. apply H6. rewrite Hp. set_solver.
    + intros msg. rewrite elem_of_app, list_elem_of_singleton. intros [Hin| ->]; [by apply H7|]. rewrite Hm.
      exists req, node. split; [|unfold m; by destruct (node_request node req)]. split; [apply Hwk; by eapply list_elem_of_lookup_2|by exists ready].
  - assert (underway (set_working (rest ++ [(id, req)]) s) ≡ₚ underway s) as Hu.
    { unfold underway. simpl. rewrite Hp, fmap_app. simpl. solve_Permutation. }
    apply Hgo; [|by repeat split; rewrite ?Hu|done|simpl; rewrite length_app; simpl; lia].
    eapply api_inv_moved; [exact Hs|done|done|exact Hu| |done]. simpl. intros id' r Hin. apply H6. rewrite Hp. set_solver.
Qed.

Lemma wp_worker_poll started made ready s (Q : unit -> Offchain T -> Prop) R :
  ready ∈ made -> api_inv started made s -> (forall s', api_inv started made s' -> polled s s' -> Q tt s') -> wp (worker_poll ready) Q R s.
Proof using TO.
  intros Hmade Hs HQ. unfold worker_poll. wp_steps. apply (wp_poll_requests started made); [done..|]. intros s1 H1 Hp1 Ht. wp_steps.
  destruct (to_worker s1) as [|[id req] q] eqn:Eq; [by apply wp_ret, HQ|]. wp_steps.
  assert (underway s1 ≡ₚ id :: q.*1 ++ (working s1).*1 ++ (msg_id <$> from_worker s1)) as Hu by (unfold underway; rewrite Eq; done).
  apply wp_debug_assert.
  { apply bool_decide_eq_true_2. simpl. pose proof (ai_once _ _ _ H1) as Hnd. rewrite Hu in Hnd. apply NoDup_cons in Hnd as [Hnd _]. set_solver. }
  wp_steps. simpl.
  assert (underway (set_working (working s1 ++ [(id, req)]) (set_to_worker q s1)) ≡ₚ underway s1) as Hu'.
  { rewrite Hu. unfold underway. simpl. rewrite fmap_app. simpl. solve_Permutation. }
  apply HQ.
  - eapply api_inv_moved; [exact H1|done|done|exact Hu'| |apply (ai_messages _ _ _ H1)]. simpl. intros id' r Hin.
    apply (ai_requests _ _ _ H1). rewrite Eq. set_solver.
  - destruct Hp1 as (? & ? & ? & ?). unfold polled. rewrite Hu'. done.
Qed.

(* --------------------------------------------------------------------- *)
(** *** Waiting *)

(** The table changes; nothing moves. *)
Lemma api_inv_table started made s rs :
  api_inv started made s -> (forall id, rs !! id = Some Dispatched <-> requests s !! id = Some Dispatched) ->
  (forall id, is_Some (rs !! id) -> is_Some (started !! id)) ->
  (forall id v, rs !! id = Some (Response v) -> v = Native.Success \/ replies started made id (inl v)) ->
  (forall id e, rs !! id = Some (Failed e) -> requests s !! id = Some (Failed e)) ->
  api_inv started made (set_requests rs s).
Proof.
  intros [H1 H2 H3 H4 H5 H6 H7 H8 H9] Hd Hk Hr Hfl. split; simpl; try done; [intros id; by rewrite Hd|]. intros id e He. by apply H9, Hfl.
Qed.

(** What a status says of the request that was started under the id, for a wait
    that began in [s0]: the response is that of the node at a poll that was made,
    an error is that of the node or that the worker is gone, and the id is
    invalid if it was not in the table. *)
Definition status_ok started made s0 id (st : IpfsRequestStatus) : Prop :=
  match st with
  | Finished r => exists req node, asked started made id req node /\ answers_at node req r
  | IoError e =>
      (exists req node err, asked started made id req node /\ ~ (exists r, answers_at node req r) /\
         node_request node req = inr err /\ e = err_to_string err) \/
      (e = crashed /\ EvCrash ∈ events s0)
  | Invalid => requests s0 !! id = None
  | DeadlineReached => True
  end.

Lemma status_of_reply started made s0 id v : replies started made id (inl v) -> status_ok started made s0 id (Finished (response_from v)).
Proof. intros (req & node & Ha & Hv%node_request_ok). by exists req, node. Qed.

Lemma status_ok_mono started made made' s0 id st : made ⊆ made' -> status_ok started made s0 id st -> status_ok started made' s0 id st.
Proof.
  intros Hm. destruct st as [|e| |r]; simpl; [done| |done|].
  - intros [(req & node & err & Ha & Hrest)|Hc]; [left|by right]. exists req, node, err. split; [by eapply asked_mono|done].
  - intros (req & node & Ha & Hr). exists req, node. split; [by eapply asked_mono|done].
Qed.

(** An error is reported only of a request that failed. *)
Definition purgeable s id (st : IpfsRequestStatus) : Prop :=
  match st with IoError _ => exists e, requests s !! id = Some (Failed e) | _ => True end.

Definition outputs_ok started made s0 s (ids : list IpfsRequestId) (output : list IpfsRequestStatus) : Prop :=
  Forall2 (fun id st => status_ok started made s0 id st /\ purgeable s id st) ids output.

(** Failures stay, and so do the reports of them; no request is forgotten. *)
Definition failures_stay s s' : Prop :=
  (forall id e, requests s !! id = Some (Failed e) -> requests s' !! id = Some (Failed e)) /\
  forall id, requests s' !! id = None -> requests s !! id = None.

Lemma failures_stay_refl s s' : requests s' = requests s -> failures_stay s s'.
Proof. intros E. split; by rewrite E. Qed.

Lemma failures_stay_trans s1 s2 s3 : failures_stay s1 s2 -> failures_stay s2 s3 -> failures_stay s1 s3.
Proof. intros [H1 H2] [H3 H4]. split; auto. Qed.

Lemma failures_stay_insert s s' id new :
  requests s' = <[id := new]> (requests s) -> (forall e, requests s !! id <> Some (Failed e)) -> failures_stay s s'.
Proof.
  intros E Hd. split; intros i; rewrite E.
  - intros e He. rewrite lookup_insert_ne; [done|]. intros ->. by apply (Hd e).
  - by intros [Hi _]%lookup_insert_None.
Qed.

Lemma outputs_stay started made made' s0 s s' ids output :
  made ⊆ made' -> failures_stay s s' -> outputs_ok started made s0 s ids output -> outputs_ok started made' s0 s' ids output.
Proof.
  intros Hm [Hf _] Ho. eapply Forall2_impl; [exact Ho|]. intros id st [H1 H2]. split; [by eapply status_ok_mono|].
  destruct st; try done. destruct H2 as [e' He]. exists e'. by apply Hf.
Qed.

Definition same_traffic s s' : Prop :=
  to_worker s' = to_worker s /\ working s' = working s /\ from_worker s' = from_worker s /\ events s' = events s.

(** A response that is fetched leaves its placeholder. *)
Lemma fetched_inv started made s id v :
  api_inv started made s -> requests s !! id = Some (Response v) ->
  api_inv started made (set_requests (<[id := Response Native.Success]> (requests s)) s).
Proof.
  intros Hs E. apply api_inv_table; [done|..].
  - intros i. rewrite lookup_insert_Some. split; [intros [[_ [=]]|[_ Hi]]; done|intros Hi; right; split; [congruence|done]].
  - intros i. rewrite lookup_insert_is_Some. intros [<-|[_ Hi]]; apply (ai_known _ _ _ Hs); [by rewrite E|done].
  - intros i v'. rewrite lookup_insert_Some. intros [[_ [= <-]]|[_ Hi]]; [by left|by apply (ai_responses _ _ _ Hs)].
  - intros i e. rewrite lookup_insert_Some. by intros [[_ [=]]|[_ Hi]].
Qed.

Lemma wp_scan started made s0 ids output s (Q : list IpfsRequestStatus * bool -> Offchain T -> Prop) R :
  api_inv started made s -> outputs_ok started made s0 s ids output -> (forall id, requests s !! id = None -> requests s0 !! id = None) ->
  (forall output' b s', api_inv started made s' -> outputs_ok started made s0 s' ids output' -> same_traffic s s' -> failures_stay s s' ->
     Q (output', b) s') ->
  wp (scan ids output) Q R s.
Proof using TO.
  revert output s Q. induction ids as [|id ids IH]; intros output s Q Hs Ho Hun HQ; destruct output as [|out output]; simpl;
    try (by inversion Ho); [apply wp_ret, HQ; [done|done|by repeat split|by apply failures_stay_refl]|]. apply Forall2_cons in Ho as [Hout Ho]. wp_steps.
  assert (forall (out' : IpfsRequestStatus) b s1, api_inv started made s1 -> status_ok started made s0 id out' /\ purgeable s1 id out' ->
    same_traffic s s1 -> failures_stay s s1 ->
    wp (scan ids output) (fun a => wp (let '(output, must_wait_more) := a in ret (out' :: output, b || must_wait_more)) Q R) R s1) as Hgo.
  { intros out' b s1 H1 Hst Ht Hf. apply IH; [done|by eapply outputs_stay|intros i Hi; by apply Hun, Hf|]. intros output' b' s' H' Ho' Ht' Hf'. apply wp_ret.
    apply HQ; [done| | |].
    - constructor; [|done]. split; [apply Hst|]. destruct out'; try done. destruct Hst as [_ [e' He]]. eexists. by apply Hf'.
    - destruct Ht as (? & ? & ? & ?), Ht' as (? & ? & ? & ?). unfold same_traffic. split_and!; congruence.
    - by eapply failures_stay_trans. }
  assert (same_traffic s s /\ failures_stay s s) as [Ht0 Hf0] by (split; [by repeat split|by apply failures_stay_refl]).
  destruct (requests s !! id) as [[|v|e]|] eqn:E.
  - wp_steps. by apply (Hgo out true).
  - assert (v = Native.Success \/ replies started made id (inl v)) as Hv by (by apply (ai_responses _ _ _ Hs)).
    destruct v; wp_steps; try (by apply (Hgo out false)). all: apply (Hgo _ false); [| | done|].
    all: try (split; [|done]; destruct Hv as [|Hv]; [done|]; exact (status_of_reply _ _ s0 _ _ Hv)).
    all: try (by eapply failures_stay_insert; [done|]; intros e; rewrite E).
    all: by eapply fetched_inv.
  - wp_steps. apply (Hgo _ false); [done| |done|done]. split; [|by exists e]. left.
    destruct (ai_failures _ _ _ Hs id e E) as (req & node & Ha & Hr). exists req, node, e. split_and!; [done|by eapply node_request_refused|done..].
  - wp_steps. apply (Hgo Invalid false); [done| |done|done]. split; [by apply Hun|done].
Qed.

Lemma receive_inv started made s msg msgs :
  api_inv started made s -> from_worker s = msg :: msgs ->
  api_inv started made (receive msg (set_from_worker msgs s)) /\ failures_stay s (receive msg (set_from_worker msgs s)) /\
  events (receive msg (set_from_worker msgs s)) = events s /\
  length (underway s) = S (length (underway (receive msg (set_from_worker msgs s)))).
Proof.
  intros [H1 H2 H3 H4 H5 H6 H7 H8 H9] Em.
  assert (requests s !! msg_id msg = Some Dispatched) as Hd.
  { apply H5. unfold underway. rewrite Em. simpl. rewrite !elem_of_app, elem_of_cons. auto. }
  set (new := match msg with WResponse _ value => Response value | WFail _ error => Failed error end).
  assert (receive msg (set_from_worker msgs s) = set_requests (<[msg_id msg := new]> (requests s)) (set_from_worker msgs s)) as ->.
  { unfold receive, new. simpl. destruct msg; simpl in *; by rewrite Hd. }
  assert (underway s ≡ₚ msg_id msg :: (to_worker s).*1 ++ (working s).*1 ++ (msg_id <$> msgs)) as Hu.
  { unfold underway. rewrite Em. simpl. solve_Permutation. }
  pose proof H4 as Hnd. rewrite Hu in Hnd. apply NoDup_cons in Hnd as [Hni Hnd].
  assert (new <> Dispatched) as Hne by (unfold new; by destruct msg).
  split_and!.
  - split; simpl; try done.
    + intros id. rewrite lookup_insert_is_Some. intros [<-|[_ Hi]]; apply H3; [by rewrite Hd|done].
    + intros id. unfold underway. simpl. destruct (decide (id = msg_id msg)) as [->|Hi].
      * rewrite lookup_insert_eq. split; [intros [= ?]; done|]. intros Hin. by apply Hni in Hin.
      * rewrite lookup_insert_ne, H5, Hu, elem_of_cons by done. naive_solver.
    + intros m Hin. apply H7. rewrite Em. by right.
    + intros id v. rewrite lookup_insert_Some. intros [[<- Hv]|[_ Hv]]; [|by apply H8]. right. unfold new in Hv.
      destruct msg as [i v'|i e]; simplify_eq. apply (H7 (WResponse i v)). rewrite Em. left.
    + intros id e. rewrite lookup_insert_Some. intros [[<- Hv]|[_ Hv]]; [|by apply H9]. unfold new in Hv.
      destruct msg as [i v'|i e']; simplify_eq. apply (H7 (WFail i e)). rewrite Em. left.
  - eapply failures_stay_insert; [done|]. simpl. intros e. by rewrite Hd.
  - done.
  - rewrite Hu. done.
Qed.

Lemma purge_inv started made ids output s :
  api_inv started made s -> Forall2 (fun id st => purgeable s id st \/ requests s !! id = None) ids output ->
  api_inv started made (purge ids output s).
Proof.
  revert output s. induction ids as [|id ids IH]; intros output s Hs Ho; destruct output as [|out output]; simpl; try (by inversion Ho).
  apply Forall2_cons in Ho as [Hp Ho]. destruct out as [|e| |r]; try (by apply IH). apply IH.
  - assert (requests s !! id <> Some Dispatched) as Hnd by (destruct Hp as [[e' He]|He]; congruence).
    apply api_inv_table; [done|..].
    + intros i. rewrite lookup_delete_Some. split; [tauto|]. intros Hi. split; [congruence|done].
    + intros i [v [_ Hi]%lookup_delete_Some]. apply (ai_known _ _ _ Hs). by eexists.
    + intros i v [_ Hi]%lookup_delete_Some. by apply (ai_responses _ _ _ Hs).
    + by intros i v [_ Hi]%lookup_delete_Some.
  - eapply Forall2_impl; [exact Ho|]. simpl. intros i st Hi. destruct (decide (i = id)) as [->|Hne]; [right; by rewrite lookup_delete_eq|].
    destruct Hi as [Hi|Hi]; [left|right; by rewrite lookup_delete_ne]. destruct st; try done. destruct Hi as [e' He]. exists e'. simpl.
    by rewrite lookup_delete_ne.
Qed.

Lemma underway_traffic s s' : same_traffic s s' -> underway s' = underway s /\ events s' = events s.
Proof. intros (E1 & E2 & E3 & E4). unfold underway. by rewrite E1, E2, E3. Qed.

(** The iterations left: one per event and per request underway, and the last. *)
Definition left_to_wait (deadline : bool) s : nat :=
  if deadline then 1 else 2 + length (events s) + length (underway s).

(** The statuses of a wait that began in [s0], the events it took, and the
    polls made by then. *)
Definition waited started made s0 s ids (output : list IpfsRequestStatus) s' : Prop :=
  exists taken, events s = taken ++ events s' /\ api_inv started (made ++ polls_of taken) s' /\
    Forall2 (status_ok started (made ++ polls_of taken) s0) ids output.

Lemma waited_step started made evs s0 s1 s2 ids output s' :
  events s1 = evs ++ events s2 -> waited started (made ++ polls_of evs) s0 s2 ids output s' -> waited started made s0 s1 ids output s'.
Proof.
  intros E (taken & Et & Hs & Ho). exists (evs ++ taken). unfold polls_of in *. rewrite omap_app, E, Et, !app_assoc in *. done.
Qed.

Lemma purge_events ids output s : events (purge ids output s) = events s.
Proof. revert output s. induction ids as [|id ids IH]; intros [|[] output] s; simpl; try done; by rewrite IH. Qed.

Lemma wp_wait_loop started made s0 fuel ids output deadline s (Q : list IpfsRequestStatus -> Offchain T -> Prop) R :
  api_inv started made s -> outputs_ok started made s0 s ids output -> (forall id, requests s !! id = None -> requests s0 !! id = None) ->
  (EvCrash ∈ events s -> EvCrash ∈ events s0) -> (left_to_wait deadline s <= fuel)%nat ->
  (forall output' s', waited started made s0 s ids output' s' -> Q output' s') ->
  wp (wait_loop fuel ids output deadline) Q R s.
Proof using TO.
  revert made output deadline s. induction fuel as [|fuel IH]; intros made output deadline s Hs Ho Hun Hcr Hf HQ; simpl.
  { destruct deadline; simpl in Hf; lia. }
  apply wp_bind, (wp_scan started made s0); [done..|]. clear output Ho. intros output waiting s1 H1 Ho Ht Hst.
  destruct (underway_traffic _ _ Ht) as [Eu Ee]. assert (left_to_wait deadline s1 = left_to_wait deadline s) as El by (unfold left_to_wait; by rewrite Eu, Ee).
  rewrite <- El in Hf. rewrite <- Ee in Hcr.
  assert (forall output' s', waited started made s0 s1 ids output' s' -> Q output' s') as HQ1.
  { intros o s' Hw. apply HQ, (waited_step _ _ [] _ s s1); [done|]. by rewrite app_nil_r. }
  assert (forall id, requests s1 !! id = None -> requests s0 !! id = None) as Hun1 by (intros id Hid; by apply Hun, Hst).
  assert (wp (modify (purge ids output) ;; ret output) Q R s1) as Hdone.
  { wp_steps. apply HQ1. exists []. rewrite purge_events, app_nil_r.
    split_and!; [done|apply purge_inv; [done|]|]; (eapply Forall2_impl; [exact Ho|]); naive_solver. }
  clear s Hs Ht Eu Ee El Hst Hun HQ. destruct deadline; simpl in Hf; [exact Hdone|]. destruct waiting; [simpl|exact Hdone].
  wp_steps. destruct (from_worker s1) as [|msg msgs] eqn:Em; wp_steps.
  - destruct (events s1) as [|[ready| |] evs] eqn:Ee; wp_steps; simpl in Hf.
    + apply (IH made); [done..|by rewrite Ee|simpl; lia|done].
    + assert (api_inv started (made ++ [ready]) (set_events evs s1)) as H1'.
      { apply (api_inv_mono _ made); [set_solver|]. by destruct H1; split. }
      apply (wp_worker_poll started (made ++ [ready])); [set_solver|done|]. intros s2 H2 (E1 & E2 & E3 & E4). simpl in E2.
      apply (IH (made ++ [ready])); [done|..].
      * eapply outputs_stay; [|by apply failures_stay_refl|exact Ho]. set_solver.
      * intros id. rewrite E2. apply Hun1.
      * rewrite E3. simpl. intros Hc. apply Hcr. by right.
      * unfold left_to_wait. rewrite E3, E4. simpl. unfold underway. simpl. unfold underway in Hf. lia.
      * intros o s' Hw. apply HQ1, (waited_step _ _ [EvPoll ready] _ s1 s2); [by rewrite Ee, E3|done].
    + apply (IH made); [by destruct H1; split|done|done|intros Hc; apply Hcr; by right|simpl; lia|].
      intros o s' Hw. apply HQ1, (waited_step _ _ [EvDeadline] _ s1 (set_events evs s1)); [by rewrite Ee|by rewrite app_nil_r].
    + apply HQ1. exists []. rewrite app_nil_r, Ee. split_and!; [done..|]. apply Forall2_same_length_lookup_2; [by rewrite length_fmap|].
      intros i id st Hi Hst. rewrite list_lookup_fmap, Hi in Hst. injection Hst as <-. right. split; [done|]. apply Hcr. by left.
  - destruct (receive_inv started made s1 msg msgs H1 Em) as (H2 & Hfs & Eev & Elen). apply (IH made); [done|by eapply outputs_stay|..].
    + intros id Hid. by apply Hun1, Hfs.
    + by rewrite Eev.
    + unfold left_to_wait. rewrite Eev. lia.
    + intros o s' Hw. apply HQ1. eapply (waited_step _ _ [] _ s1); [by rewrite Eev|]. by rewrite app_nil_r.
Qed.

Lemma wp_response_wait started made ids s (Q : list IpfsRequestStatus -> Offchain T -> Prop) R :
  api_inv started made s -> (forall output s', waited started made s s ids output s' -> Q output s') ->
  wp (response_wait ids) Q R s.
Proof using TO.
  intros Hs HQ. unfold response_wait. wp_steps. apply (wp_wait_loop started made s); [done| |done|done| |done].
  - apply Forall2_same_length_lookup_2; [by rewrite length_replicate|]. intros i id st _ [-> _]%lookup_replicate. done.
  - unfold left_to_wait, wait_bound, underway. rewrite !length_app, !length_fmap. lia.
Qed.
End Inv.

(* ===================================================================== *)
(** ** Every interleaving *)
Section Reach.
Context {P : Profile} {T : IpfsTypes} {TO : IpfsTypesOk}.

(** The requests started and the polls made so far, and the API with its
    worker; a wait makes the polls among the events that it takes. *)
Inductive api_reaches : gmap IpfsRequestId IpfsRequest -> list (IpfsRequestId -> option (IpfsNode T)) -> Offchain T -> Prop :=
| api_new id evs : 0 <= id < 2000 -> api_reaches ∅ [] (mkOffchain _ id ∅ [] [] [] evs)
| api_start started made s req id s' :
    api_reaches started made s -> request_start req s = Ok id s' -> api_reaches (<[id := req]> started) made s'
| api_wait started made s ids output taken s' :
    api_reaches started made s -> response_wait ids s = Ok output s' -> events s = taken ++ events s' ->
    api_reaches started (made ++ polls_of taken) s'
| api_poll started made s ready s' :
    api_reaches started made s -> worker_poll ready s = Ok tt s' -> api_reaches started (made ++ [ready]) s'
| api_events started made s evs : api_reaches started made s -> api_reaches started made (set_events evs s).

Lemma api_reaches_inv started made s : api_reaches started made s -> api_inv started made s.
Proof using TO.
  induction 1 as [id evs Hid|started made s req id s' _ IH Hr|started made s ids out taken s' _ IH Hr Et|started made s ready s' _ IH Hr|started made s evs _ IH].
  - split; simpl; try (by intros ?? Hin%elem_of_nil); try (by intros ? Hin%elem_of_nil); try (intros i; rewrite lookup_empty).
    + unfold in_range, U16. lia.
    + by intros [].
    + by intros [].
    + constructor.
    + split; [done|]. by intros Hin%elem_of_nil.
    + done.
    + done.
  - pose proof (wp_request_start started made req s (fun id s' => api_inv (<[id := req]> started) made s') (fun _ _ => True) IH) as Hw.
    unfold wp in Hw. rewrite Hr in Hw. apply Hw; [by intros|done].
  - pose proof (wp_response_wait started made ids s (waited started made s s ids) (fun _ _ => False) IH (fun _ _ H => H)) as Hw.
    unfold wp in Hw. rewrite Hr in Hw. destruct Hw as (taken' & Et' & Hs & _). rewrite Et in Et'. by apply app_inv_tail in Et' as ->.
  - pose proof (wp_worker_poll started (made ++ [ready]) ready s (fun _ => api_inv started (made ++ [ready])) (fun _ _ => False)) as Hw.
    unfold wp in Hw. rewrite Hr in Hw. apply Hw; [set_solver| |by intros]. apply (api_inv_mono _ made); [set_solver|done].
  - by destruct IH; split.
Qed.

(** C29: Over every interleaving of the API, its worker and the node, with
    requests that time out and come back later: a new request gets an id that no
    request had, or fails when the ids are used up; each request is underway
    once; and what is reported for an id is about the request that was started
    under it: a response is the one that the node gave to it at a poll that was
    made, where the node had an answer for this id; an error is the text of the
    error that the node gave to it at such a poll, or that the worker has crashed
    during the wait; and only an id that is not in the table is invalid. *)
Theorem replies_match_requests started made s ids req :
  api_reaches started made s ->
  NoDup (underway s) /\
  wp (request_start req) (fun id _ => started !! id = None) (fun _ s' => s' = s /\ next_id s = U16 - 1) s /\
  wp (response_wait ids)
    (fun output s' => exists taken, events s = taken ++ events s' /\
       Forall2 (status_ok started (made ++ polls_of taken) s) ids output)
    (fun _ _ => False) s.
Proof using TO.
  intros Hs%api_reaches_inv. split_and!.
  - apply Hs.
  - by apply (wp_request_start started made).
  - apply (wp_response_wait started made); [done|]. intros output s' (taken & Et & _ & Ho). by exists taken.
Qed.

(** Waiting ends: with as many iterations as there are events to come and
    requests underway, and two more, the loop has returned one status per id. *)
Theorem response_wait_ends started made s ids fuel :
  api_reaches started made s -> (wait_bound s <= fuel)%nat ->
  exists output s', wait_loop fuel ids (replicate (length ids) DeadlineReached) false s = Ok output s' /\ length output = length ids.
Proof using TO.
  intros Hs%api_reaches_inv Hf.
  assert (wp (wait_loop fuel ids (replicate (length ids) DeadlineReached) false) (fun output _ => length output = length ids) (fun _ _ => False) s) as Hw.
  { apply (wp_wait_loop started made s); [done| |done|done| |].
    - apply Forall2_same_length_lookup_2; [by rewrite length_replicate|]. intros i id st _ [-> _]%lookup_replicate. done.
    - unfold left_to_wait, wait_bound, underway in *. rewrite !length_app, !length_fmap. lia.
    - intros o t (taken & _ & _ & Ho). by apply Forall2_length in Ho. }
  unfold wp in Hw. destruct (wait_loop _ _ _ _ s) as [output s'| |]; [|done|done]. by exists output, s'.
Qed.

(** The response to each request has the constructor that belongs to the
    request, and what was parsed or printed as a string is valid UTF-8. *)
Theorem responses_are_typed node req v :
  node_request node req = inl v -> answers req (response_from v).
Proof using TO. apply node_request_answers. Qed.
End Reach.
