(* ===== verification/IpfsLive.v ===== *)
(** * Requests to the IPFS node: every request is answered

    A request is served in its turn: with one poll of the worker for each
    request before it and two more, the node answering at the last, waiting for
    it returns this answer and not the deadline. *)

From S2P Require Import Prelude System Ipfs IpfsNode IpfsNodeFacts.

Set Default Proof Using "Type".

Section Live.
Context {P : Profile} {T : IpfsTypes} {TO : IpfsTypesOk}.
Implicit Types (s : Offchain T) (id : IpfsRequestId) (started : gmap IpfsRequestId IpfsRequest).

(** The polls of the worker until the reply [r] to a request is back. *)
Inductive due id (req : IpfsRequest) (r : IpfsNativeResponse T + NodeError) s : nat -> Prop :=
| due_back msg : msg ∈ from_worker s -> msg_id msg = id -> msg_reply msg = r -> due id req r s 0
| due_working : (id, req) ∈ working s -> due id req r s 1
| due_queued p : to_worker s !! p = Some (id, req) -> due id req r s (p + 2).

Lemma wp_and {S E A} (m : M S E A) (Q Q' : A -> S -> Prop) (R R' : E -> S -> Prop) x :
  wp m Q R x -> wp m Q' R' x -> wp m (fun a t => Q a t /\ Q' a t) (fun e t => R e t /\ R' e t) x.
Proof. unfold wp. destruct (m x); tauto. Qed.

Lemma swap_remove_below {A} (v v' : list A) n i : swap_remove n v = Some v' -> (i < n)%nat -> v' !! i = v !! i.
Proof.
  unfold swap_remove. intros Hr Hi. destruct (v !! n) as [x|] eqn:Hn; [|done]. destruct (last v) as [y|]; [|done]. simplify_eq/=.
  apply lookup_lt_Some in Hn. rewrite lookup_take_lt by lia. apply list_lookup_insert_ne. lia.
Qed.

(** What the worker sends back for a request. *)
Definition reply_msg id (r : IpfsNativeResponse T + NodeError) : WorkerToApi T :=
  match r with inl value => WResponse id value | inr error => WFail id error end.

Lemma reply_msg_ok id r : msg_id (reply_msg id r) = id /\ msg_reply (reply_msg id r) = r.
Proof. by destruct r. Qed.

(** The replies of the node to the requests that are ready come back, and
    messages stay. *)
Definition comes_back (ready : IpfsRequestId -> option (IpfsNode T)) n s s' : Prop :=
  to_worker s' = to_worker s /\ from_worker s ⊆ from_worker s' /\
  forall i id req node, (i < n)%nat -> working s !! i = Some (id, req) -> ready id = Some node ->
    reply_msg id (node_request node req) ∈ from_worker s'.

Lemma comes_back_trans ready n s s1 s' :
  comes_back ready n s1 s' -> to_worker s1 = to_worker s -> from_worker s ⊆ from_worker s1 ->
  (forall i, (i < n)%nat -> working s1 !! i = working s !! i) ->
  (forall id req node, working s !! n = Some (id, req) -> ready id = Some node -> reply_msg id (node_request node req) ∈ from_worker s1) ->
  comes_back ready (S n) s s'.
Proof.
  intros (E & Hm & Hw) Et Hmm Hwk Hn. split_and!; [congruence|intros m Hin; by apply Hm, Hmm|]. intros i id req node Hi Hx Hr.
  destruct (decide (i = n)) as [->|Hne]; [by eapply Hm, Hn|]. apply (Hw i id req); [lia| |done]. by rewrite Hwk by lia.
Qed.

Lemma wp_poll_moves ready n s R :
  (n <= length (working s))%nat -> wp (poll_requests ready n) (fun _ => comes_back ready n s) R s.
Proof.
  revert s. induction n as [|n IH]; intros s Hn; simpl; [apply wp_ret; split_and!; [done|done|lia]|]. wp_steps.
  destruct (lookup_lt_is_Some_2 (working s) n) as [[id req] Hx]; [lia|]. apply (wp_unwrap _ _ _ _ (id, req)); [done|].
  destruct (swap_remove_Some _ _ _ Hx) as (rest & Hr & Hp). wp_steps. rewrite Hr. apply (wp_unwrap _ _ _ _ rest); [done|].
  pose proof (Permutation_length Hp) as Hlen. simpl in Hlen.
  pose proof (fun i => swap_remove_below (working s) rest n i Hr) as Hb.
  destruct (ready id) as [node|] eqn:Hrd; wp_steps; (eapply wp_mono; [apply IH; simpl; rewrite ?length_app; simpl; lia| |done]);
    intros [] s' Hc; eapply (comes_back_trans _ _ _ _ _ Hc); simpl; try done.
  - intros m Hin. apply elem_of_app. by left.
  - intros i r nd Hi Hs. simplify_eq. apply elem_of_app. right. by apply list_elem_of_singleton.
  - intros i Hi. rewrite lookup_app_l by lia. by apply Hb.
  - intros i r nd Hi Hs. simplify_eq.
Qed.

(** One poll brings a request one step nearer. *)
Lemma wp_poll_due started made ready id req node n s :
  api_inv started made s -> due id req (node_request node req) s (S n) -> (n = 0%nat -> ready id = Some node) ->
  wp (worker_poll ready) (fun _ s' => due id req (node_request node req) s' n) (fun _ _ => False) s.
Proof using TO.
  intros Hs Hd Hr. unfold worker_poll. wp_steps. assert (api_inv started (made ++ [ready]) s) as Hs' by (eapply api_inv_mono; [|done]; set_solver).
  eapply wp_mono; [apply wp_and; [apply (wp_poll_requests started (made ++ [ready]) _ _ _ (fun _ => api_inv started (made ++ [ready])) (fun _ _ => False)); [set_solver|done..|by intros]|
    by apply (wp_poll_moves ready _ s (fun _ _ => False))]| |by intros ? ? [[] _]].
  intros [] s1 [H1 (Et & Hm & Hw)]. wp_steps.
  assert (forall i r q, to_worker s1 = (i, r) :: q -> bool_decide (i ∉ (working s1).*1) = true) as Hnd.
  { intros i r q Eq. apply bool_decide_eq_true_2. pose proof (ai_once _ _ _ H1) as Hn. unfold underway in Hn. rewrite Eq in Hn.
    simpl in Hn. apply NoDup_cons in Hn as [Hn _]. set_solver. }
  inversion Hd as [|Hin Hn|p Hp Hn]; subst.
  - apply list_elem_of_lookup_1 in Hin as [k Hk]. destruct (reply_msg_ok id (node_request node req)) as [Hi Hrep].
    pose proof (Hw k _ _ node (lookup_lt_Some _ _ _ Hk) Hk (Hr eq_refl)) as Hback.
    destruct (to_worker s1) as [|[i' req'] q] eqn:Eq; wp_steps; [by eapply due_back|]. apply wp_debug_assert; [by eapply Hnd|]. wp_steps. by eapply due_back.
  - rewrite <- Et in Hp. destruct (to_worker s1) as [|[i' req'] q] eqn:Eq; [done|]. wp_steps. apply wp_debug_assert; [by eapply Hnd|]. wp_steps.
    destruct p as [|p]; simpl in Hp, Hn; simplify_eq.
    + apply due_working. simpl. apply elem_of_app. right. by apply list_elem_of_singleton.
    + by apply due_queued.
Qed.

Lemma node_never_placeholder node req : node_request (T := T) node req <> inl Native.Success.
Proof. destruct req; simpl; intros He; repeat (apply and_then_inl in He as (? & _ & He)); done. Qed.

(** The reply is in the table. *)
Definition answered s id (r : IpfsNativeResponse T + NodeError) : Prop :=
  requests s !! id = Some (match r with inl v => Response v | inr e => Failed e end) /\ r <> inl Native.Success.

Definition status_of (r : IpfsNativeResponse T + NodeError) : IpfsRequestStatus :=
  match r with inl v => Finished (response_from v) | inr e => IoError (err_to_string e) end.

Lemma wp_answered id r fuel out s (Q : list IpfsRequestStatus -> Offchain T -> Prop) R :
  answered s id r -> (forall s', Q [status_of r] s') -> wp (wait_loop (S fuel) [id] [out] false) Q R s.
Proof.
  intros [Hr Hne] HQ. simpl. wp_steps. rewrite Hr. destruct r as [v|e].
  - destruct v; try done; wp_steps; by apply HQ.
  - wp_steps. by apply HQ.
Qed.

Lemma same_message (l : list (WorkerToApi T)) x y : NoDup (msg_id <$> l) -> x ∈ l -> y ∈ l -> msg_id x = msg_id y -> x = y.
Proof.
  intros Hnd [i Hi]%list_elem_of_lookup_1 [j Hj]%list_elem_of_lookup_1 He.
  assert (i = j) as -> by (apply (NoDup_lookup _ i j (msg_id x) Hnd); rewrite list_lookup_fmap, ?Hi, ?Hj; simpl; congruence). congruence.
Qed.

(** A message that is received: the reply, or the turn of another. *)
Lemma receive_due started made id req node n s msg msgs :
  api_inv started made s -> from_worker s = msg :: msgs -> requests s !! id = Some Dispatched -> due id req (node_request node req) s n ->
  let s' := receive msg (set_from_worker msgs s) in
  answered s' id (node_request node req) \/ (requests s' !! id = Some Dispatched /\ due id req (node_request node req) s' n).
Proof using TO.
  intros Hs Em Hd Hdue s'. pose proof (ai_once _ _ _ Hs) as Hnd. unfold underway in Hnd.
  assert (requests s !! msg_id msg = Some Dispatched) as Hmd.
  { apply (ai_underway _ _ _ Hs). unfold underway. rewrite Em. simpl. rewrite !elem_of_app, elem_of_cons. auto. }
  destruct (decide (msg_id msg = id)) as [Hid|Hne].
  - left. assert (msg_reply msg = node_request node req) as Hr.
    { apply NoDup_app in Hnd as (_ & Hq & [_ [Hw Hb]]%NoDup_app). assert (msg_id msg ∈ (msg_id <$> from_worker s)) as Hin by (rewrite Em; left).
      destruct Hdue as [msg' Hin' Hid' Hr'|Hin'|p Hp].
      - rewrite <- Hr'. f_equal. apply (same_message (from_worker s)); [done|rewrite Em; by left|done|congruence].
      - destruct (Hw id); [by apply (list_elem_of_fmap_2 fst) in Hin'|by rewrite <- Hid].
      - destruct (Hq id); [apply list_elem_of_lookup_2 in Hp; by apply (list_elem_of_fmap_2 fst) in Hp|rewrite <- Hid; set_solver]. }
    split; [|apply node_never_placeholder]. rewrite <- Hr. unfold s', receive. subst id. destruct msg; simpl in *; rewrite Hd; simpl; apply lookup_insert_eq.
  - right. assert (requests s' = <[msg_id msg := match msg with WResponse _ v => Response v | WFail _ e => Failed e end]> (requests s) /\
      to_worker s' = to_worker s /\ working s' = working s /\ from_worker s' = msgs) as (E1 & E2 & E3 & E4).
    { unfold s', receive. destruct msg; simpl in *; rewrite Hmd; done. }
    rewrite E1, lookup_insert_ne by done. split; [done|]. destruct Hdue as [msg' Hin Hi Hr|Hin|p Hp].
    + apply (due_back _ _ _ _ msg'); [|done..]. rewrite E4. rewrite Em in Hin. by apply elem_of_cons in Hin as [->|].
    + apply due_working. by rewrite E3.
    + apply due_queued. by rewrite E2.
Qed.

(** Enough polls are to come, and the node has an answer at the last of them. *)
Definition polls_to_come id (node : IpfsNode T) n s : Prop :=
  exists polls rest, events s = (EvPoll <$> polls) ++ rest /\
    forall k, n = S k -> exists ready, polls !! k = Some ready /\ ready id = Some node.

Lemma wp_wait_live started made fuel id req node n s (Q : list IpfsRequestStatus -> Offchain T -> Prop) R :
  api_inv started made s -> requests s !! id = Some Dispatched -> due id req (node_request node req) s n -> polls_to_come id node n s ->
  (left_to_wait false s <= fuel)%nat -> (forall s', Q [status_of (node_request node req)] s') ->
  wp (wait_loop fuel [id] [DeadlineReached] false) Q R s.
Proof using TO.
  revert made n s. induction fuel as [|fuel IH]; intros made n s Hs Hd Hdue Hpolls Hf HQ; [simpl in Hf; lia|]. simpl. wp_steps. rewrite Hd. wp_steps.
  simpl. wp_steps. destruct (from_worker s) as [|msg msgs] eqn:Em; wp_steps.
  - destruct n as [|n]; [inversion Hdue as [? Hin| |]; [by rewrite Em in Hin; apply elem_of_nil in Hin|lia]|].
    destruct Hpolls as ([|ready polls] & rest & He & Hr); [by destruct (Hr n eq_refl) as (? & ? & _)|]. rewrite He. simpl. wp_steps.
    set (s0 := set_events ((EvPoll <$> polls) ++ rest) s).
    assert (api_inv started (made ++ [ready]) s0) as Hs0 by (eapply api_inv_mono; [|by destruct Hs; split]; set_solver).
    eapply wp_mono; [apply wp_and; [apply (wp_worker_poll started (made ++ [ready]) _ _ (fun _ s' => api_inv started (made ++ [ready]) s' /\ polled s0 s') (fun _ _ => False)); [set_solver|done|by intros]|
      apply (wp_poll_due started (made ++ [ready]) _ id req node n); [done|by inversion Hdue; econstructor|]]| |by intros ? ? [[] _]].
    { intros ->. destruct (Hr 0%nat eq_refl) as (? & Heq & ?). simpl in Heq. by simplify_eq. }
    intros [] s' [[H1 (E1 & E2 & E3 & E4)] H2]. apply (IH (made ++ [ready]) n); [done|by rewrite E2|done| | |done].
    + exists polls, rest. rewrite E3. split; [done|]. intros k ->. destruct (Hr (S k) eq_refl) as (rd & Hk & Hn). by exists rd.
    + unfold left_to_wait in *. rewrite E3, E4, He in *. change (underway s0) with (underway s). change (events s0) with ((EvPoll <$> polls) ++ rest). rewrite !length_app, !length_fmap in *. simpl length in Hf. lia.
  - destruct (receive_inv started made s msg msgs Hs Em) as (H2 & _ & Eev & Elen).
    destruct fuel as [|fuel]; [unfold left_to_wait in Hf; lia|].
    destruct (receive_due started made id req node n s msg msgs Hs Em Hd Hdue) as [Ha|[Hd' Hdue']]; [by eapply wp_answered|].
    apply (IH made n); [done..| | |done].
    + destruct Hpolls as (polls & rest & He & Hr). exists polls, rest. by rewrite Eev.
    + unfold left_to_wait in *. rewrite Eev. lia.
Qed.

Lemma start_effect req s : wlp (request_start req) (fun id s1 => events s1 = events s /\ to_worker s1 = to_worker s ++ [(id, req)]) (fun _ _ => True) s.
Proof. unfold request_start. wlp_steps. unfold debug_assert. destruct (_ && _); [done|]. wlp_steps; done. Qed.

(** A request that was started, and the answer to it. *)
Lemma started_is_answered started made s req id s1 polls rest ready node :
  api_inv started made s -> request_start req s = Ok id s1 -> events s = (EvPoll <$> polls) ++ rest ->
  polls !! (length (to_worker s) + 1)%nat = Some ready -> ready id = Some node ->
  exists s2, response_wait [id] s1 = Ok [status_of (node_request node req)] s2.
Proof using TO.
  intros Hs Hstart Hev Hpoll Hrd.
  pose proof (wp_request_start started made req s (fun id' s' => api_inv (<[id' := req]> started) made s' /\ requests s' !! id' = Some Dispatched) (fun _ _ => True) Hs) as Hw.
  unfold wp in Hw. rewrite Hstart in Hw. destruct Hw as [H1 Hd]; [by intros|done|].
  assert (events s1 = events s /\ to_worker s1 = to_worker s ++ [(id, req)]) as [Ee Et].
  { pose proof (start_effect req s) as He. unfold wlp in He. by rewrite Hstart in He. }
  assert (due id req (node_request node req) s1 (length (to_worker s) + 2)) as Hdue.
  { apply due_queued. by rewrite Et, lookup_app_r, Nat.sub_diag by lia. }
  assert (wp (response_wait [id]) (fun output _ => output = [status_of (node_request node req)]) (fun _ _ => False) s1) as Hrep.
  { unfold response_wait. wp_steps. apply (wp_wait_live (<[id := req]> started) made _ id req node (length (to_worker s) + 2)); [done..| | |done].
    - exists polls, rest. split; [by rewrite Ee|]. intros k Hk. exists ready. by replace k with (length (to_worker s) + 1)%nat by lia.
    - unfold left_to_wait, wait_bound, underway. rewrite !length_app, !length_fmap. lia. }
  unfold wp in Hrep. destruct (response_wait [id] s1) as [output s2| |]; [|done..]. exists s2. by rewrite Hrep.
Qed.

(** C30: A request that was started is answered: if the worker is polled once for
    each request that waits before it and twice more, and at the last of these
    polls the node has an answer for it, then waiting for it returns, whatever
    happens to the other requests, and not with the deadline: it returns the
    response that the node has for the request at that poll, with its content,
    and the text of the node's error just if the node has no response. *)
Theorem request_is_answered started made s req id s1 polls rest ready node :
  api_reaches started made s -> request_start req s = Ok id s1 -> events s = (EvPoll <$> polls) ++ rest ->
  polls !! (length (to_worker s) + 1)%nat = Some ready -> ready id = Some node ->
  exists st s2, response_wait [id] s1 = Ok [st] s2 /\
    match st with
    | Finished r => answers_at node req r /\ answers req r
    | IoError e => ~ (exists r, answers_at node req r) /\ exists err, node_request node req = inr err /\ e = err_to_string err
    | _ => False
    end.
Proof using TO.
  intros Hs%api_reaches_inv Hstart Hev Hpoll Hrd. destruct (started_is_answered _ _ _ _ _ _ _ _ _ _ Hs Hstart Hev Hpoll Hrd) as [s2 Hw].
  eexists _, s2. split; [exact Hw|]. destruct (node_request node req) as [v|e] eqn:Hn; simpl.
  - split; [by apply node_request_ok|by eapply node_request_answers].
  - split; [by eapply node_request_refused|by exists e].
Qed.
End Live.
