(* ===== verification/IpfsWorker.v ===== *)
(** * The offchain worker of pallet-ipfs

    [bin/node/pallets/pallet-ipfs/src/functions.rs] and the [offchain_worker]
    hook of [lib.rs]: the commands of the queue become requests to the IPFS
    node, and their success becomes transactions back to the chain.

    The worker sees the node through the requests of
    [primitives/runtime/src/offchain/ipfs.rs]; these are a class, whose instance
    is the API of IpfsNode.  A string that is only logged is taken to be
    evaluated. *)

From S2P Require Import Prelude System Ipfs IpfsNode.

(* ===================================================================== *)
(** ** Requests of the runtime *)

Record PendingRequest := mkPending { pending_id : IpfsRequestId; pending_request : IpfsRequest }.

Inductive RequestError := ReqDeadlineReached | ReqIoError (e : bytes) | ReqUnknown.

(** [IpfsResult], and the request back where the deadline was reached *)
Abbreviation WaitResult := ((IpfsResponse + RequestError) + PendingRequest)%type.

Class IpfsHost (S : Type) := {
  ipfs_request_start : IpfsRequest -> M S unit IpfsRequestId;
  ipfs_response_wait : list IpfsRequestId -> M S unit (list IpfsRequestStatus)
}.

#[export] Instance IpfsHost_offchain {P : Profile} {T : IpfsTypes} : IpfsHost (Offchain T) := {|
  ipfs_request_start := request_start;
  ipfs_response_wait := response_wait
|}.

Section Requests.
Context {S : Type} {H : IpfsHost S}.

(** [PendingRequest::new] *)
Definition pending_new (request : IpfsRequest) : M S unit PendingRequest :=
  let! id := ipfs_request_start request in ret (mkPending id request).

Definition status_result (status : IpfsRequestStatus) (req : PendingRequest) : WaitResult :=
  match status with
  | DeadlineReached => inr req
  | IoError e => inl (inr (ReqIoError e))
  | Invalid => inl (inr ReqUnknown)
  | Finished resp => inl (inl resp)
  end.

Definition try_wait_all (reqs : list PendingRequest) : M S unit (list WaitResult) :=
  let! statuses := ipfs_response_wait (pending_id <$> reqs) in
  ret (zip_with status_result statuses reqs).

Definition try_wait (req : PendingRequest) : M S unit WaitResult :=
  let! rs := try_wait_all [req] in unwrap (last rs).
End Requests.

(* ===================================================================== *)
(** ** The worker *)

(** The node, and the transactions sent: the signing account and the call *)
Record Worker (S : Type) := mkWorker { host : S; submitted : list (AccountId * Call) }.
#[global] Arguments mkWorker {S}.
#[global] Arguments host {S}.
#[global] Arguments submitted {S}.

Section Worker.
Context {S : Type} {H : IpfsHost S} (local_accounts : list AccountId).
Local Abbreviation MW := (M (Worker S) IpfsError).
Implicit Types (w : Worker S).

Definition in_host {A} (e : IpfsError) (m : M S unit A) : MW A :=
  zoom host (fun h w => mkWorker h (submitted w)) (map_err (fun _ => e) m).

Definition ipfs_request (req : IpfsRequest) : MW IpfsResponse :=
  let! pending := in_host CantCreateRequest (pending_new req) in
  let! r := in_host RequestFailed (try_wait pending) in
  match r with
  | inr _ => fail RequestTimeout
  | inl (inl response) => ret response
  | inl (inr (ReqIoError err)) => assert (from_utf8 err) ;; fail RequestFailed
  | inl (inr _) => fail RequestFailed
  end.

(** [Signer::all_accounts().send_signed_transaction(..)]; the results are logged. *)
Definition send_signed_transaction (call : Call) : MW unit :=
  modify (fun w => mkWorker (host w) (submitted w ++ ((fun a => (a, call)) <$> local_accounts))).

(** A request whose only response is [Success]; an error is logged. *)
Definition expect_success (req : IpfsRequest) (k : MW unit) : MW unit :=
  let! r := result_of (ipfs_request req) in
  match r with
  | inl Resp.Success => k
  | inl _ => panic
  | inr _ => ret tt
  end.

Definition handle_add_bytes (m_addr cid : bytes) (size : Z) (admin : AccountId) (is_recursive : bool) : MW unit :=
  expect_success (Req.Connect m_addr) (
    let! r := result_of (ipfs_request (Req.CatBytes cid)) in
    match r with
    | inl (Resp.CatBytes data) =>
        let! _ := ipfs_request (Req.Disconnect m_addr) in
        assert (from_utf8 m_addr) ;;
        let! r := result_of (ipfs_request (Req.AddBytes data)) in
        match r with
        | inl (Resp.AddBytes new_cid) =>
            assert (from_utf8 new_cid) ;;
            send_signed_transaction (submit_ipfs_add_results_call admin cid size) ;;
            expect_success (Req.InsertPin cid is_recursive) (assert (from_utf8 cid)) ;;
            expect_success (Req.Disconnect m_addr) (ret tt)
        | inl _ => panic
        | inr _ => ret tt
        end
    | inl _ => panic
    | inr _ => ret tt
    end).

Definition handle_add_bytes_raw (m_addr data : bytes) (admin : AccountId) (is_recursive : bool) : MW unit :=
  expect_success (Req.Connect m_addr) (
    let! r := result_of (ipfs_request (Req.AddBytes data)) in
    match r with
    | inl (Resp.AddBytes cid) =>
        let! _ := ipfs_request (Req.Disconnect m_addr) in
        send_signed_transaction (submit_ipfs_add_results_call admin cid (cast U64 (Z.of_nat (length data)))) ;;
        expect_success (Req.InsertPin cid is_recursive) (assert (from_utf8 cid)) ;;
        expect_success (Req.Disconnect m_addr) (ret tt)
    | inl _ => panic
    | inr _ => ret tt
    end).

Definition handle_cat_bytes (m_addr cid : bytes) : MW unit :=
  let! r := result_of (ipfs_request (Req.CatBytes cid)) in
  match r with
  | inl (Resp.CatBytes _) =>
      let! _ := ipfs_request (Req.Disconnect m_addr) in
      assert (from_utf8 m_addr)
  | inl _ => panic
  | inr _ => ret tt
  end.

Definition handle_insert_pin (cid : bytes) (is_recursive : bool) : MW unit :=
  expect_success (Req.InsertPin cid is_recursive) (
    assert (from_utf8 cid) ;;
    send_signed_transaction (submit_ipfs_pin_results_call cid)).

Definition handle_remove_pin (cid : bytes) (is_recursive : bool) : MW unit :=
  expect_success (Req.RemovePin cid is_recursive) (
    assert (from_utf8 cid) ;;
    send_signed_transaction (submit_ipfs_unpin_results_call cid)).

Definition handle_remove_block (cid : bytes) : MW unit :=
  let! r := result_of (ipfs_request (Req.RemoveBlock cid)) in
  match r with
  | inl (Resp.RemoveBlock cid) =>
      assert (from_utf8 cid) ;;
      send_signed_transaction (submit_ipfs_delete_results_call cid)
  | inl _ => panic
  | inr _ => ret tt
  end.

Definition handle_command (cmd : DataCommand) : MW unit :=
  match cmd with
  | AddBytes m_addr cid size admin is_recursive => handle_add_bytes m_addr cid size admin is_recursive
  | AddBytesRaw m_addr data admin is_recursive => handle_add_bytes_raw m_addr data admin is_recursive
  | CatBytes m_addr cid _ => handle_cat_bytes m_addr cid
  | InsertPin _ cid _ is_recursive => handle_insert_pin cid is_recursive
  | RemovePin _ cid _ is_recursive => handle_remove_pin cid is_recursive
  | RemoveBlock _ cid _ => handle_remove_block cid
  end.

(** The queue is the chain's; the worker does not change it. *)
Definition handle_data_requests (data_queue : list DataCommand) : MW unit := for_each data_queue handle_command.

Definition print_metadata : MW unit :=
  let! r := ipfs_request Req.Peers in
  match r with
  | Resp.Peers _ => ret tt
  | _ => panic
  end.

(** The hook: errors are logged. *)
Definition offchain_worker (block_no : Z) (data_queue : list DataCommand) : MW unit :=
  let! _ := result_of (handle_data_requests data_queue) in
  if block_no mod 5 =? 0 then let! _ := result_of print_metadata in ret tt else ret tt.
End Worker.
