(* ===== verification/IpfsWorkerFacts.v ===== *)
(** * The offchain worker of pallet-ipfs: what it does with any queue

    Against the promises of the requests ([IpfsHostOk]), which the API of
    IpfsNode keeps: the worker never panics, whatever the users put into the
    queue and whatever the node answers, and it reports in the order of the
    queue and only what succeeded. *)

From S2P Require Import Prelude System Ipfs IpfsNode IpfsNodeFacts IpfsLive IpfsWorker.

Set Default Proof Using "Type".

(* ===================================================================== *)
(** ** The promises of the requests *)

Definition status_answers (req : IpfsRequest) (st : IpfsRequestStatus) : Prop :=
  match st with Finished r => answers req r | IoError e => from_utf8 e = true | _ => True end.

Definition finished (st : IpfsRequestStatus) : Prop := exists r, st = Finished r.

(** [host_live]: the requests that are always answered in time. *)
Class IpfsHostOk (S : Type) {H : IpfsHost S} := {
  host_live : IpfsRequest -> Prop;
  host_inv : S -> Prop;
  host_pending : S -> IpfsRequestId -> IpfsRequest -> Prop;
  host_start req s : host_inv s ->
    wp (ipfs_request_start req) (fun id s' => host_inv s' /\ host_pending s' id req) (fun _ s' => host_inv s' /\ ~ host_live req) s;
  host_wait id req s : host_inv s -> host_pending s id req ->
    wp (ipfs_response_wait [id]) (fun output s' => host_inv s' /\ exists st, output = [st] /\ status_answers req st /\ (host_live req -> finished st)) (fun _ _ => False) s
}.

Lemma status_utf8 {T : IpfsTypes} {TO : IpfsTypesOk} started made (s0 : Offchain T) id e :
  status_ok started made s0 id (IoError e) -> from_utf8 e = true.
Proof. intros [(req & node & err & _ & _ & _ & ->)|[-> _]]; [apply err_to_string_utf8|done]. Qed.

#[export] Program Instance IpfsHostOk_offchain {P : Profile} {T : IpfsTypes} {TO : IpfsTypesOk} : IpfsHostOk (Offchain T) := {|
  host_live _ := False;
  host_inv s := exists started made, api_inv started made s;
  host_pending s id req := exists started made, api_inv started made s /\ started !! id = Some req
|}.
Next Obligation.
  intros P T TO req s (started & made & Hs). apply (wp_request_start started made); [done| |intros; split; [by do 2 eexists|tauto]].
  intros s' Hs' _ _. split; [by do 2 eexists|]. do 2 eexists. split; [done|]. apply lookup_insert_eq.
Qed.
Next Obligation.
  intros P T TO id req s _ (started & made & Hs & Hid). apply (wp_response_wait started made); [done|].
  intros output s' (taken & _ & Hs' & Ho). split; [by do 2 eexists|]. apply Forall2_cons_inv_l in Ho as (st & l & Hst & Hl & ->).
  apply Forall2_nil_inv_l in Hl as ->. exists st. split_and!; [done| |done]. destruct st as [|e| |r]; simpl in *; try done.
  - by eapply status_utf8.
  - destruct Hst as (req' & node & [Hr _] & (v & Hv & ->)%node_request_exact). simplify_eq. by eapply node_request_answers.
Qed.

(* ===================================================================== *)
(** ** The worker *)
Section Facts.
Context {S : Type} {H : IpfsHost S} {HO : IpfsHostOk S} (local_accounts : list AccountId).
Local Abbreviation MW := (M (Worker S) IpfsError).
Implicit Types (w : Worker S) (calls : list Call).

Definition worker_inv w : Prop := host_inv (host w).

Lemma wp_ipfs_request req w (Q : IpfsResponse -> Worker S -> Prop) (R : IpfsError -> Worker S -> Prop) :
  worker_inv w ->
  (forall r h, host_inv h -> answers req r -> Q r (mkWorker h (submitted w))) ->
  (forall e h, host_inv h -> ~ host_live req -> R e (mkWorker h (submitted w))) ->
  wp (ipfs_request req) Q R w.
Proof.
  intros Hw HQ HR. unfold ipfs_request, in_host, pending_new, try_wait, try_wait_all. wp_steps.
  eapply wp_mono; [by apply host_start| |intros u h [Hh Hl]; by apply HR].
  intros id h [Hh Hp]. wp_steps. simpl. eapply wp_mono; [by apply (host_wait id req)| |done].
  intros output h' (Hh' & st & -> & Hst & Hl). wp_steps. simpl.
  assert (~ finished st -> ~ host_live req) as Hf by tauto. unfold finished in Hf.
  destruct st as [|e| |r]; simpl in *; wp_steps; [..|by apply HQ].
  - apply HR; naive_solver.
  - apply wp_assert; [done|]. apply wp_fail, HR; naive_solver.
  - apply HR; naive_solver.
Qed.

(** The calls that are sent for one command. *)
Definition sent calls : list (AccountId * Call) := c ← calls; (fun a => (a, c)) <$> local_accounts.

(** What a command that succeeded is reported as. *)
Definition reported (cmd : DataCommand) calls : Prop :=
  match cmd with
  | AddBytes _ cid size admin _ => calls = [submit_ipfs_add_results_call admin cid size]
  | AddBytesRaw _ data admin _ => exists cid, calls = [submit_ipfs_add_results_call admin cid (cast U64 (Z.of_nat (length data)))]
  | CatBytes _ _ _ => calls = []
  | InsertPin _ cid _ _ => calls = [submit_ipfs_pin_results_call cid]
  | RemovePin _ cid _ _ => calls = [submit_ipfs_unpin_results_call cid]
  | RemoveBlock _ _ _ => exists cid, calls = [submit_ipfs_delete_results_call cid]
  end.

(** The requests that a command needs are always answered. *)
Definition cmd_live (cmd : DataCommand) : Prop :=
  match cmd with
  | AddBytes m_addr cid _ _ _ =>
      host_live (Req.Connect m_addr) /\ host_live (Req.CatBytes cid) /\ host_live (Req.Disconnect m_addr) /\ forall data, host_live (Req.AddBytes data)
  | AddBytesRaw m_addr data _ _ => host_live (Req.Connect m_addr) /\ host_live (Req.AddBytes data) /\ host_live (Req.Disconnect m_addr)
  | CatBytes m_addr cid _ => host_live (Req.CatBytes cid) /\ host_live (Req.Disconnect m_addr)
  | InsertPin _ cid _ is_recursive => host_live (Req.InsertPin cid is_recursive)
  | RemovePin _ cid _ is_recursive => host_live (Req.RemovePin cid is_recursive)
  | RemoveBlock _ cid _ => host_live (Req.RemoveBlock cid)
  end.

(** A command that failed is not reported. *)
Definition reports (cmd : DataCommand) calls : Prop := reported cmd calls \/ (calls = [] /\ ~ cmd_live cmd).

(** The transactions of [w'] are those of [w] and [calls]. *)
Definition adds w calls w' : Prop := worker_inv w' /\ submitted w' = submitted w ++ sent calls.

Lemma wp_result_of {A E' S'} (m : M S' E' A) (Q : A + E' -> S' -> Prop) (R : E' -> S' -> Prop) s :
  wp m (fun a => Q (inl a)) (fun e => Q (inr e)) s -> wp (result_of m) Q R s.
Proof. unfold wp, result_of. by destruct (m s). Qed.

Lemma wp_expect_success req k w (Q : unit -> Worker S -> Prop) R :
  worker_inv w -> (forall r, answers req r -> r = Resp.Success) ->
  (forall h, host_inv h -> answers req Resp.Success -> wp k Q R (mkWorker h (submitted w))) ->
  (forall h, host_inv h -> ~ host_live req -> Q tt (mkWorker h (submitted w))) ->
  wp (expect_success req k) Q R w.
Proof.
  intros Hw Hr Hk Hf. unfold expect_success. wp_steps. apply wp_result_of, wp_ipfs_request; [done| |].
  - intros r h Hh Ha. pose proof (Hr r Ha) as ->. by apply Hk.
  - intros e h Hh Hl. by apply wp_ret, Hf.
Qed.

Lemma wp_send call w (Q : unit -> Worker S -> Prop) (R : IpfsError -> Worker S -> Prop) :
  Q tt (mkWorker (host w) (submitted w ++ sent [call])) -> wp (send_signed_transaction local_accounts call) Q R w.
Proof. intros HQ. unfold send_signed_transaction. wp_steps. revert HQ. unfold sent. simpl. by rewrite app_nil_r. Qed.

(** Pinning and hanging up at the end of both ways of adding. *)
Lemma wp_pin_and_disconnect cid m_addr is_recursive w (Q : unit -> Worker S -> Prop) R :
  worker_inv w -> (forall h, host_inv h -> Q tt (mkWorker h (submitted w))) ->
  wp (expect_success (Req.InsertPin cid is_recursive) (assert (from_utf8 cid)) ;;
      expect_success (Req.Disconnect m_addr) (ret tt)) Q R w.
Proof.
  intros Hw HQ. wp_steps.
  assert (forall h, host_inv h -> wp (expect_success (Req.Disconnect m_addr) (ret tt)) Q R (mkWorker h (submitted w))) as Hd.
  { intros h Hh. apply wp_expect_success; [done|by intros r []| |]; intros h' Hh' _; [apply wp_ret|]; by apply HQ. }
  apply wp_expect_success; [done|by intros r []| |]; intros h Hh Ha; [|by apply Hd].
  apply wp_assert; [apply Ha|]. by apply Hd.
Qed.

Definition handles (cmd : DataCommand) (m : MW unit) : Prop :=
  forall w, worker_inv w ->
  wp m (fun _ w' => exists calls, adds w calls w' /\ reports cmd calls) (fun _ w' => adds w [] w' /\ ~ cmd_live cmd) w.

Lemma adds_nil w h : host_inv h -> adds w [] (mkWorker h (submitted w)).
Proof. intros Hh. split; [done|]. simpl. by rewrite app_nil_r. Qed.

Lemma is_reported cmd w h call :
  host_inv h -> reported cmd [call] -> exists calls, adds w calls (mkWorker h (submitted w ++ sent [call])) /\ reports cmd calls.
Proof. intros Hh Hc. exists [call]. split; [done|]. by left. Qed.

Lemma not_reported cmd w h :
  host_inv h -> ~ cmd_live cmd -> exists calls, adds w calls (mkWorker h (submitted w)) /\ reports cmd calls.
Proof. intros Hh Hl. exists []. split; [by apply adds_nil|]. by right. Qed.

Local Ltac unreported w := intros; wp_steps; first [apply (not_reported _ w) | split; [apply (adds_nil w)|]]; [done|simpl; naive_solver].

Create HintDb worker.

Lemma handles_add_bytes m_addr cid size admin is_recursive :
  handles (AddBytes m_addr cid size admin is_recursive) (handle_add_bytes local_accounts m_addr cid size admin is_recursive).
Proof.
  intros w Hw. unfold handle_add_bytes. apply wp_expect_success; [done|by intros r []| |unreported w].
  intros h1 Hh1 _. wp_steps. apply wp_result_of, wp_ipfs_request; [done| |unreported w].
  intros r h2 Hh2 [_ [data ->]]. simpl. wp_steps. apply wp_ipfs_request; [done| |unreported w].
  intros r h3 Hh3 [Hu ->]. wp_steps. apply wp_assert; [done|]. wp_steps. apply wp_result_of, wp_ipfs_request; [done| |unreported w].
  intros r h4 Hh4 (c & -> & Hc). simpl. wp_steps. apply wp_assert; [done|]. wp_steps. apply wp_send.
  apply wp_pin_and_disconnect; [done|]. intros h5 Hh5. by apply (is_reported _ w).
Qed.

Lemma handles_add_bytes_raw m_addr data admin is_recursive :
  handles (AddBytesRaw m_addr data admin is_recursive) (handle_add_bytes_raw local_accounts m_addr data admin is_recursive).
Proof.
  intros w Hw. unfold handle_add_bytes_raw. apply wp_expect_success; [done|by intros r []| |unreported w].
  intros h1 Hh1 _. wp_steps. apply wp_result_of, wp_ipfs_request; [done| |unreported w].
  intros r h2 Hh2 (cid & -> & Hc). simpl. wp_steps. apply wp_ipfs_request; [done| |unreported w].
  intros r h3 Hh3 [Hu ->]. wp_steps. apply wp_send.
  apply wp_pin_and_disconnect; [done|]. intros h5 Hh5. apply (is_reported _ w); [done|]. by exists cid.
Qed.

Lemma handles_cat_bytes m_addr cid admin : handles (CatBytes m_addr cid admin) (handle_cat_bytes m_addr cid).
Proof.
  intros w Hw. unfold handle_cat_bytes. wp_steps. apply wp_result_of, wp_ipfs_request; [done| |unreported w].
  intros r h1 Hh1 [_ [data ->]]. simpl. wp_steps. apply wp_ipfs_request; [done| |unreported w].
  intros r h2 Hh2 [Hu ->]. apply wp_assert; [done|]. exists []. split; [by apply (adds_nil w)|]. by left.
Qed.

Lemma handles_insert_pin m_addr cid admin is_recursive :
  handles (InsertPin m_addr cid admin is_recursive) (handle_insert_pin local_accounts cid is_recursive).
Proof.
  intros w Hw. unfold handle_insert_pin. apply wp_expect_success; [done|by intros r []| |unreported w].
  intros h1 Hh1 [Hu _]. wp_steps. apply wp_assert; [done|]. by apply wp_send, (is_reported _ w).
Qed.

Lemma handles_remove_pin m_addr cid admin is_recursive :
  handles (RemovePin m_addr cid admin is_recursive) (handle_remove_pin local_accounts cid is_recursive).
Proof.
  intros w Hw. unfold handle_remove_pin. apply wp_expect_success; [done|by intros r []| |unreported w].
  intros h1 Hh1 [Hu _]. wp_steps. apply wp_assert; [done|]. by apply wp_send, (is_reported _ w).
Qed.

Lemma handles_remove_block m_addr cid admin : handles (RemoveBlock m_addr cid admin) (handle_remove_block local_accounts cid).
Proof.
  intros w Hw. unfold handle_remove_block. wp_steps. apply wp_result_of, wp_ipfs_request; [done| |unreported w].
  intros r h1 Hh1 (_ & c & -> & Hc). simpl. wp_steps. apply wp_assert; [done|]. apply wp_send, (is_reported _ w); [done|]. by exists c.
Qed.

Hint Resolve handles_add_bytes handles_add_bytes_raw handles_cat_bytes handles_insert_pin handles_remove_pin handles_remove_block : worker.

Lemma handles_command cmd : handles cmd (handle_command local_accounts cmd).
Proof. destruct cmd; simpl; auto with worker. Qed.

(** What is not done begins with a command that was not answered. *)
Definition stopped_at (rest : list DataCommand) : Prop := match rest with [] => True | cmd :: _ => ~ cmd_live cmd end.

(** The commands of a prefix of the queue are done. *)
Definition worked w (data_queue : list DataCommand) w' : Prop :=
  exists done rest callss, data_queue = done ++ rest /\ Forall2 reports done callss /\ adds w (concat callss) w' /\ stopped_at rest.

Lemma sent_app calls calls' : sent (calls ++ calls') = sent calls ++ sent calls'.
Proof. apply bind_app. Qed.

Lemma adds_trans w1 w2 w3 calls calls' : adds w1 calls w2 -> adds w2 calls' w3 -> adds w1 (calls ++ calls') w3.
Proof. intros [_ H1] [H2 H3]. split; [done|]. by rewrite H3, H1, sent_app, app_assoc. Qed.

Lemma adds_refl w : worker_inv w -> adds w [] w.
Proof. intros Hw. split; [done|]. unfold sent. by rewrite app_nil_r. Qed.

Lemma wp_handle_data_requests data_queue w :
  worker_inv w -> wp (handle_data_requests local_accounts data_queue) (fun _ => worked w data_queue) (fun _ => worked w data_queue) w.
Proof.
  unfold handle_data_requests. revert w. induction data_queue as [|cmd q IH]; intros w Hw; simpl.
  { wp_steps. exists [], [], []. split_and!; [done..|by apply adds_refl|done]. }
  apply wp_bind. eapply wp_mono; [by apply handles_command| |].
  - intros _ w1 (calls & Ha & Hr). assert (forall w', worked w1 q w' -> worked w (cmd :: q) w') as Hc.
    { intros w' (d & rest & callss & -> & Hd & Ha' & Hl). exists (cmd :: d), rest, (calls :: callss).
      split_and!; [done|by constructor|by eapply adds_trans|done]. }
    eapply wp_mono; [apply IH, Ha| |]; auto.
  - intros _ w1 [Ha Hl]. exists [], (cmd :: q), []. by split_and!.
Qed.

Lemma wp_offchain_worker block_no data_queue w :
  worker_inv w -> wp (offchain_worker local_accounts block_no data_queue) (fun _ => worked w data_queue) (fun _ _ => False) w.
Proof.
  intros Hw. unfold offchain_worker. wp_steps. apply wp_result_of.
  assert (forall w', worked w data_queue w' ->
    wp (if block_no mod 5 =? 0 then let! _ := result_of print_metadata in ret tt else ret tt) (fun _ => worked w data_queue) (fun _ _ => False) w') as Hm.
  { intros w' Hd. destruct (_ =? _); wp_steps; [|done]. apply wp_result_of. unfold print_metadata. wp_steps.
    assert (forall h, host_inv h -> worked w data_queue (mkWorker h (submitted w'))) as Hh.
    { destruct Hd as (d & rest & callss & Hq & Hd & [_ Ha] & Hl). by exists d, rest, callss. }
    apply wp_ipfs_request; [by destruct Hd as (?&?&?&?&?&[]&?)| |intros e h Hi _; by apply Hh]. intros r h Hi [l ->]. by apply Hh. }
  eapply wp_mono; [by apply wp_handle_data_requests| |]; auto.
Qed.

(** For any queue, and any node that keeps the promises of the requests: the
    worker does not panic and does not fail. What it sends is, for a prefix of
    the queue and in the order of the queue, the report of each command that
    succeeded, signed by every local account; nothing is reported for one that
    failed. A command whose requests are always answered is reported, and the
    worker stops only at one for which this is not so. *)
Theorem worker_reports_the_queue block_no data_queue w :
  host_inv (host w) ->
  exists done rest callss w', offchain_worker local_accounts block_no data_queue w = Ok tt w' /\
    host_inv (host w') /\ data_queue = done ++ rest /\
    Forall2 (fun cmd calls => reported cmd calls \/ (calls = [] /\ ~ cmd_live cmd)) done callss /\
    submitted w' = submitted w ++ (c ← concat callss; (fun a => (a, c)) <$> local_accounts) /\
    stopped_at rest.
Proof.
  intros Hw. pose proof (wp_offchain_worker block_no data_queue w Hw) as Hp. unfold wp in Hp.
  destruct (offchain_worker _ _ _ w) as [[] w'| |]; [|done|done].
  destruct Hp as (d & rest & callss & Hq & Hd & [Hi Ha] & Hl). by exists d, rest, callss, w'.
Qed.
End Facts.

(** C14: With the API of the node, in any state it reaches, whatever the node
    answers and whatever the users queued: the worker never panics, so neither
    the [unreachable!]s nor the [expect]s on the bytes that users sent are hit. *)
Theorem worker_never_panics {P : Profile} {T : IpfsTypes} {TO : IpfsTypesOk} started made (s : Offchain T) local_accounts block_no data_queue txs :
  api_reaches started made s ->
  exists w', offchain_worker local_accounts block_no data_queue (mkWorker s txs) = Ok tt w'.
Proof.
  intros Hs%api_reaches_inv. assert (worker_inv (mkWorker s txs)) as Hw by by exists started, made.
  pose proof (wp_offchain_worker local_accounts block_no data_queue _ Hw) as Hp. unfold wp in Hp.
  destruct (offchain_worker _ _ _ _) as [[] w'| |]; [by exists w'|done|done].
Qed.

(* ===================================================================== *)
(** ** A queue that is dropped *)
Section Dropped.
Context {P : Profile} {T : IpfsTypes} {TO : IpfsTypesOk} (local_accounts : list AccountId).
Local Abbreviation Wk := (Worker (Offchain T)).
Implicit Types (w : Wk) (s : Offchain T).

(** A request that no node carries out fails. *)
Lemma wp_refused_request req w (R : IpfsError -> Wk -> Prop) :
  host_inv (host w) -> (forall node, ~ exists r, answers_at node req r) ->
  (forall e h, host_inv h -> R e (mkWorker h (submitted w))) ->
  wp (ipfs_request req) (fun _ _ => False) R w.
Proof using TO.
  intros (started & made & Hs) Hno HR. unfold ipfs_request, in_host, pending_new, try_wait, try_wait_all. wp_steps. simpl.
  apply (wp_request_start started made); [done| |intros _; apply HR; by exists started, made].
  intros s1 H1 _ _. wp_steps. simpl. apply (wp_response_wait (<[next_id (host w) := req]> started) made); [done|].
  intros output s2 (taken & _ & H2 & Ho). apply Forall2_cons_inv_l in Ho as (st & l & Hst & Hl & ->). apply Forall2_nil_inv_l in Hl as ->.
  wp_steps. simpl. assert (host_inv s2) as Hi by (by do 2 eexists). destruct st as [|e| |r]; simpl; wp_steps.
  - by apply HR.
  - apply wp_assert; [exact (status_utf8 _ _ _ _ _ Hst)|]. by apply wp_fail, HR.
  - by apply HR.
  - destruct Hst as (req' & node & [Hreq _] & Ha). rewrite lookup_insert_eq in Hreq. simplify_eq. apply (Hno node). by exists r.
Qed.

(** A request that the node answers at the last poll before its turn ends. *)
Lemma wp_answered_request req w polls rest ready node r (Q : IpfsResponse -> Wk -> Prop) (R : IpfsError -> Wk -> Prop) :
  host_inv (host w) -> next_id (host w) <> U16 - 1 -> events (host w) = (EvPoll <$> polls) ++ rest ->
  polls !! (length (to_worker (host w)) + 1)%nat = Some ready -> ready (next_id (host w)) = Some node -> answers_at node req r ->
  (forall h, host_inv h -> Q r (mkWorker h (submitted w))) -> wp (ipfs_request req) Q R w.
Proof using TO.
  intros (started & made & Hs) Hid Hev Hpoll Hrd (v & Hv & ->)%node_request_exact HQ.
  unfold ipfs_request, in_host, pending_new, try_wait, try_wait_all. wp_steps. simpl. unfold wp at 1.
  destruct (request_start req (host w)) as [id s1|u s1|] eqn:Hstart.
  2,3: pose proof (wp_request_start started made req (host w) (fun _ _ => True) (fun _ _ => next_id (host w) = U16 - 1) Hs) as Hw;
    unfold wp in Hw; rewrite Hstart in Hw; naive_solver.
  pose proof (wp_request_start started made req (host w) (fun id' s' => id' = next_id (host w) /\ api_inv (<[id' := req]> started) made s') (fun _ _ => True) Hs) as Hw.
  unfold wp in Hw. rewrite Hstart in Hw. destruct Hw as [-> H1]; [by intros|done|]. wp_steps. simpl.
  destruct (started_is_answered _ _ _ _ _ _ _ _ _ _ Hs Hstart Hev Hpoll Hrd) as [s2 Hans].
  pose proof (wp_response_wait _ made [next_id (host w)] s1 (fun _ => host_inv) (fun _ _ => False) H1) as Hinv.
  unfold wp in Hinv. rewrite Hans in Hinv. unfold wp at 1. rewrite Hans, Hv. simpl. wp_steps. simpl. apply HQ, Hinv.
  intros output s' (taken & _ & H' & _). by do 2 eexists.
Qed.

(** The request for the peers changes nothing. *)
Lemma wp_print_metadata w (Q : unit -> Wk -> Prop) (R : IpfsError -> Wk -> Prop) :
  host_inv (host w) -> (forall h, host_inv h -> Q tt (mkWorker h (submitted w))) ->
  (forall e h, host_inv h -> R e (mkWorker h (submitted w))) -> wp print_metadata Q R w.
Proof using TO.
  intros Hw HQ HR. unfold print_metadata. wp_steps. apply wp_ipfs_request; [done| |by intros; apply HR].
  intros r h Hh [l ->]. wp_steps. by apply HQ.
Qed.

(** C40: A request to read a file, first in the queue, with an address of the
    peer that the node cannot parse, makes the worker drop the rest of the queue,
    if the node has the file: for every state of the API that has an id left and
    is polled until the node answers, every block, all local accounts and all
    commands of other users after it, the worker sends nothing, however the node
    would answer them. *)
Theorem bad_address_drops_the_queue started made s txs block_no m_addr cid admin queue polls rest ready node data :
  api_reaches started made s -> next_id s <> U16 - 1 -> events s = (EvPoll <$> polls) ++ rest ->
  polls !! (length (to_worker s) + 1)%nat = Some ready -> ready (next_id s) = Some node ->
  answers_at node (Req.CatBytes cid) (Resp.CatBytes data) -> (forall a, ~ reads parse_peer_addr m_addr a) ->
  exists h, offchain_worker local_accounts block_no (CatBytes m_addr cid admin :: queue) (mkWorker s txs) = Ok tt (mkWorker h txs).
Proof using TO.
  intros Hs%api_reaches_inv Hid Hev Hpoll Hrd Hcat Hbad. set (w := mkWorker s txs).
  assert (host_inv (host w)) as Hw by by exists started, made.
  assert (forall nd, ~ exists r, answers_at nd (Req.Disconnect m_addr) r) as Hno by (intros nd (r & a & Ha & _); by apply (Hbad a)).
  assert (wp (offchain_worker local_accounts block_no (CatBytes m_addr cid admin :: queue))
    (fun _ w' => submitted w' = txs) (fun _ _ => False) w) as Hp.
  { unfold offchain_worker. wp_steps. apply wp_result_of. unfold handle_data_requests. simpl. unfold handle_cat_bytes. wp_steps.
    apply wp_result_of. eapply (wp_answered_request _ w); [done..|]. intros h1 Hh1. simpl. wp_steps.
    eapply wp_mono; [apply (wp_refused_request _ _ (fun _ w' => host_inv (host w') /\ submitted w' = txs)); [done..|]|done|].
    - done.
    - intros e w' [Hh Hsub]. destruct (_ =? _); wp_steps; [|done]. apply wp_result_of, wp_print_metadata; [done|..]; intros; by wp_steps. }
  unfold wp in Hp. destruct (offchain_worker _ _ _ w) as [[] [h l]| |]; [|done..]. simpl in Hp. subst l. by exists h.
Qed.
End Dropped.
