(* ===== verification/IpfsDemo.v ===== *)
(** * The offchain worker at work

    A node whose identifiers are their texts, two hosts that keep the promises
    of the requests (the API, and one that answers everything), and the theorems
    of the API and the worker at concrete queues. *)

From S2P Require Import Prelude System Ipfs IpfsNode IpfsNodeFacts IpfsLive IpfsWorker IpfsWorkerFacts.

Set Default Proof Using "Type".

Module Demo.
(** Errors have no text, and an address is taken where it is not empty. *)
#[global] Instance demo_types : IpfsTypes := {|
  Cid := unit; PeerId := unit; Multiaddr := unit; PeerAddr := unit; IpfsPath := unit;
  Block := bytes; Connection := unit; PublicKey := unit; NodeError := unit;
  cid_to_string _ := bytes_of_string "Qm"; cid_to_bytes _ := []; peer_to_bytes _ := []; peer_to_string _ := [];
  addr_to_string _ := []; conn_addr _ := tt; into_peer_id _ := tt; err_to_string _ := [];
  parse_cid _ := inl tt; cid_try_from _ := inl tt; parse_peer _ := inl tt; parse_addr _ := inl tt;
  parse_peer_addr b := match b with [] => inr tt | _ => inl tt end; parse_path _ := inl tt; utf8_error := tt
|}.

#[global] Instance demo_types_ok : IpfsTypesOk.
Proof. by split. Qed.

(** A node that does all it is asked for. *)
Definition node : IpfsNode demo_types := {|
  node_addrs := inl []; node_add _ := inl tt; node_add_listening_address _ := inl tt; node_bitswap_stats := inr tt;
  node_get _ := inl (bytes_of_string "data"); node_connect _ := inl tt; node_disconnect _ := inl tt; node_find_peer _ := inl [];
  node_get_block _ := inl []; node_get_closest_peers _ := inl []; node_get_providers _ := inl [];
  node_identity := inl (tt, []); node_insert_pin _ _ := inl tt; node_addrs_local := inl []; node_refs_local := inl [];
  node_peers := inl []; node_pubsub_publish _ _ := inl tt; node_remove_listening_address _ := inl tt;
  node_remove_block _ := inl tt; node_remove_pin _ _ := inl tt; node_pubsub_subscribe _ := inl tt;
  node_pubsub_subscribed := inl []; node_pubsub_unsubscribe _ := inl true
|}.

(** The worker of the API is polled often enough. *)
Definition polls : list (Event demo_types) := replicate 12 (EvPoll (fun _ => Some node)).
Definition api : Offchain demo_types := mkOffchain _ 7 ∅ [] [] [] polls.
Definition api_busy : Offchain demo_types :=
  mkOffchain _ 8 {[7 := Dispatched]} [(7, Req.Peers)] [] [] polls.

Definition peer : bytes := bytes_of_string "/ip4/127.0.0.1".
Definition file : bytes := bytes_of_string "QmFile".

#[local] Existing Instance release.

Lemma api_busy_reached : api_reaches {[7 := Req.Peers]} [] api_busy.
Proof. apply (api_start ∅ [] api Req.Peers 7); [by constructor|]. reflexivity. Qed.

Lemma replies_match_requests_witness :
  NoDup (underway api_busy) /\
  wp (request_start Req.Identity) (fun id _ => ({[7 := Req.Peers]} : gmap Z IpfsRequest) !! id = None)
    (fun _ s' => s' = api_busy /\ next_id api_busy = U16 - 1) api_busy /\
  wp (response_wait [7])
    (fun output s' => exists taken, events api_busy = taken ++ events s' /\
       Forall2 (status_ok {[7 := Req.Peers]} ([] ++ polls_of taken) api_busy) [7] output)
    (fun _ _ => False) api_busy.
Proof. apply (replies_match_requests {[7 := Req.Peers]} [] api_busy [7] Req.Identity). exact api_busy_reached. Defined.

Lemma response_wait_ends_witness :
  exists output s', wait_loop 20 [7] [DeadlineReached] false api_busy = Ok output s' /\ length output = 1%nat.
Proof.
  apply (response_wait_ends {[7 := Req.Peers]} [] api_busy [7] 20); [exact api_busy_reached|].
  vm_compute. lia.
Defined.

Lemma request_is_answered_witness :
  exists st s2, response_wait [7] api_busy = Ok [st] s2 /\
    match st with
    | Finished r => answers_at node Req.Peers r /\ answers Req.Peers r
    | IoError e => ~ (exists r, answers_at node Req.Peers r) /\ exists err, node_request node Req.Peers = inr err /\ e = err_to_string err
    | _ => False
    end.
Proof.
  apply (request_is_answered ∅ [] api Req.Peers 7 api_busy (replicate 12 (fun _ => Some node)) [] (fun _ => Some node) node);
    [by constructor|reflexivity..].
Defined.

Lemma responses_are_typed_witness :
  answers (Req.InsertPin file true) (response_from (T := demo_types) Native.InsertPin).
Proof. apply (responses_are_typed node). reflexivity. Defined.

Lemma worker_never_panics_witness :
  exists w', offchain_worker [1%N; 2%N] 10 [CatBytes peer file 5%N; RemoveBlock peer [Byte.xff] 5%N] (mkWorker api_busy []) = Ok tt w'.
Proof. apply (worker_never_panics {[7 := Req.Peers]} []). exact api_busy_reached. Defined.

(** A host that answers each request whose argument is text. *)
Definition text (req : IpfsRequest) : bool :=
  match req with
  | Req.Connect l | Req.Disconnect l | Req.AddListeningAddr l | Req.RemoveListeningAddr l | Req.InsertPin l _ | Req.RemovePin l _
  | Req.Publish l _ | Req.Subscribe l | Req.Unsubscribe l | Req.FindPeer l | Req.GetClosestPeers l | Req.GetProviders l
  | Req.CatBytes l | Req.RemoveBlock l => from_utf8 l
  | _ => true
  end.

Definition answer (req : IpfsRequest) : IpfsResponse :=
  match req with
  | Req.Addrs => Resp.Addrs [] | Req.AddBytes _ => Resp.AddBytes file | Req.BitswapStats => Resp.BitswapStats (mkStats 0 0 0 0 0 0 [] [])
  | Req.CatBytes _ => Resp.CatBytes file | Req.FindPeer _ => Resp.FindPeer [] | Req.GetClosestPeers _ => Resp.GetClosestPeers []
  | Req.GetProviders _ => Resp.GetProviders [] | Req.Identity => Resp.Identity [] [] | Req.LocalAddrs => Resp.LocalAddrs []
  | Req.LocalRefs => Resp.LocalRefs [] | Req.Peers => Resp.Peers [] | Req.RemoveBlock c => Resp.RemoveBlock c
  | _ => Resp.Success
  end.

Definition status (req : IpfsRequest) : IpfsRequestStatus := if text req then Finished (answer req) else Invalid.

(** Its state is the list of the requests. *)
#[local] Instance host_ideal : IpfsHost (list IpfsRequest) := {|
  ipfs_request_start req s := Ok (Z.of_nat (length s)) (s ++ [req]);
  ipfs_response_wait ids s := Ok ((fun id => from_option status Invalid (s !! Z.to_nat id)) <$> ids) s
|}.

Lemma answer_ok req : status_answers req (status req) /\ (text req = true -> finished (status req)).
Proof.
  unfold status. destruct (text req) eqn:Ht; [|done]. split; [|intros _; by eexists].
  destruct req; simpl in *; naive_solver.
Qed.

#[local] Program Instance host_ideal_ok : IpfsHostOk (list IpfsRequest) := {|
  host_live req := text req = true;
  host_inv _ := True;
  host_pending s id req := s !! Z.to_nat id = Some req
|}.
Next Obligation.
  intros req s _. split; [done|]. by rewrite Nat2Z.id, lookup_app_r, Nat.sub_diag.
Qed.
Next Obligation.
  intros id req s _ Hs. split; [done|]. exists (status req). simpl. rewrite Hs. split; [done|]. apply answer_ok.
Qed.

Definition queue : list DataCommand := [AddBytes peer file 4 5%N true; RemovePin peer file 5%N true].

Lemma worker_reports_the_queue_witness :
  Forall cmd_live queue /\
  exists done rest callss w', offchain_worker [1%N; 2%N] 1 queue (mkWorker ([] : list IpfsRequest) []) = Ok tt w' /\
    host_inv (host w') /\ queue = done ++ rest /\
    Forall2 (fun cmd calls => reported cmd calls \/ (calls = [] /\ ~ cmd_live cmd)) done callss /\
    submitted w' = [] ++ (c ← concat callss; (fun a => (a, c)) <$> [1%N; 2%N]) /\ stopped_at rest.
Proof.
  split; [repeat constructor|].
  apply (worker_reports_the_queue [1%N; 2%N] 1 queue (mkWorker ([] : list IpfsRequest) [])). exact I.
Defined.

(** What the worker sent, in a state of the API. *)
Definition sent_by (q : list DataCommand) : list (AccountId * Call) :=
  match offchain_worker [1%N] 1 q (mkWorker api []) with Ok _ w => submitted w | _ => [] end.

Lemma bad_address_drops_the_queue_witness :
  exists h, offchain_worker [1%N] 1 [CatBytes [] file 6%N; InsertPin peer file 5%N true] (mkWorker api []) = Ok tt (mkWorker h []).
Proof.
  apply (bad_address_drops_the_queue [1%N] ∅ [] api [] 1 [] file 6%N [InsertPin peer file 5%N true]
    (replicate 12 (fun _ => Some node)) [] (fun _ => Some node) node (bytes_of_string "data"));
    [by constructor|discriminate|reflexivity..| |].
  - exists tt, (bytes_of_string "data"). split_and!; [split; reflexivity|reflexivity..].
  - intros a [_ Ha]. discriminate Ha.
Defined.

(** The command that is dropped there is carried out alone, and after a request
    with a good address. *)
Lemma other_queues_are_served :
  sent_by [InsertPin peer file 5%N true] = [(1%N, submit_ipfs_pin_results_call file)] /\
  sent_by [CatBytes peer file 6%N; InsertPin peer file 5%N true] = [(1%N, submit_ipfs_pin_results_call file)] /\
  sent_by [CatBytes [] file 6%N; InsertPin peer file 5%N true] = [].
Proof. split_and!; vm_compute; reflexivity. Qed.
End Demo.
