(* ===== verification/BigUint.v ===== *)
(** * Big integers and rationals

    [primitives/arithmetic/src/biguint.rs], [helpers_128bit.rs] and
    [rational.rs]: unsigned integers of any length over 32-bit limbs with the
    schoolbook operations and Knuth's division, the greatest common divisor, the
    multiplication by a rational through 256 bits, and the rationals.

    The functions have no state of their own, and are given at any state.  A
    length is a natural number, without the bound of [usize]. *)

From S2P Require Import Prelude.

(* ===================================================================== *)
(** ** Loops over an accumulator *)
Fixpoint for_fold {S E A X} (l : list X) (a : A) (body : A -> X -> M S E A) : M S E A :=
  match l with
  | [] => ret a
  | x :: l' => let! a' := body a x in for_fold l' a' body
  end.

(* ===================================================================== *)
(** ** Limbs *)

Definition SHIFT : Z := 32.
Definition B : Z := U32.

Definition split (a : Z) : Z * Z := (cast U32 (Z.shiftr a SHIFT), cast U32 a).

(** The digits, the most significant limb first *)
Abbreviation BigUint := (list Z).

Definition with_capacity (size : nat) : BigUint := replicate (Nat.max size 1) 0.
Definition big_zero : BigUint := [0].
Definition big_one : BigUint := [1].
Definition from_limbs (limbs : list Z) : BigUint := match limbs with [] => big_zero | _ => limbs end.
Definition is_zero (u : BigUint) : bool := forallb (fun d => d =? 0) u.
Definition from_u32 (a : Z) : BigUint := [a].
Definition from_u64 (a : Z) : BigUint := let '(ah, al) := split a in [ah; al].

(** The limb at [index], the least significant first *)
Definition checked_get (u : BigUint) (index : nat) : option Z :=
  if (1 <=? length u)%nat && (index <=? length u - 1)%nat then u !! (length u - 1 - index)%nat else None.

(** [iter().position(|&e| e != 0)] *)
Definition first_nonzero (u : BigUint) : option nat := fst <$> list_find (fun d => d <> 0) u.

Definition lstrip (u : BigUint) : BigUint :=
  if (length u =? 0)%nat then u
  else drop (default (length u - 1)%nat (first_nonzero u)) u.

Definition lpad (u : BigUint) (size : nat) : BigUint :=
  if (size <=? length u)%nat then u else replicate (size - length u) 0 ++ u.

Fixpoint digits_cmp (l l' : list Z) : comparison :=
  match l, l' with
  | [], [] => Eq
  | [], _ => Lt
  | _, [] => Gt
  | d :: l, d' :: l' => match d ?= d' with Eq => digits_cmp l l' | c => c end
  end.

Definition big_cmp (u v : BigUint) : comparison :=
  match first_nonzero u, first_nonzero v with
  | None, None => Eq
  | Some _, None => Gt
  | None, Some _ => Lt
  | Some i, Some j =>
      let lhs := drop i u in
      let rhs := drop j v in
      match (length lhs ?= length rhs)%nat with
      | Eq => digits_cmp lhs rhs
      | c => c
      end
  end.

Definition big_eq (u v : BigUint) : bool := match big_cmp u v with Eq => true | _ => false end.

Section Arithmetic.
Context {P : Profile} {S E : Type}.
Local Abbreviation MB := (M S E).
Implicit Types (u v w : BigUint).

Definition mul_single (a b : Z) : MB Z := mul U64 a b.
Definition add_single (a b : Z) : MB (Z * Z) := let! q := add U64 a b in let '(carry, r) := split q in ret (r, carry).
Definition div_single (a b : Z) : MB (Z * Z) := if b =? 0 then panic else ret (a / b, cast U32 (a mod b)).

(** Indexing out of range panics, and so does the index that wraps below zero. *)
Definition get u (index : nat) : MB Z := unwrap (checked_get u index).
Definition set u (index : nat) (value : Z) : MB BigUint :=
  if (index <? length u)%nat then ret (<[(length u - 1 - index)%nat := value]> u) else panic.
Definition lsb u : MB Z := unwrap (last u).
Definition msb u : MB Z := unwrap (head u).

Definition big_add u v : MB BigUint :=
  let n := Nat.max (length u) (length v) in
  let! '(w, k) :=
    for_fold (seq 0 n) (with_capacity (n + 1), 0) (fun '(w, k) j =>
      let! t := add U64 (default 0 (checked_get u j)) (default 0 (checked_get v j)) in
      let! s := add U64 t k in
      let! w := set w j (cast U32 (s mod B)) in
      ret (w, s / B)) in
  set w n (cast U32 k).

(** [Ok] and [Err] of the source are [inl] and [inr]. *)
Definition big_sub u v : MB (BigUint + BigUint) :=
  let n := Nat.max (length u) (length v) in
  let! '(w, k) :=
    for_fold (seq 0 n) (with_capacity n, 0) (fun '(w, k) j =>
      let u := default 0 (checked_get u j) in
      let v := default 0 (checked_get v j) in
      let! '(s, k) :=
        match (v1 ← checked_sub u v; checked_sub v1 k) with
        | Some v2 => ret (v2, 0)
        | None =>
            let! t := add U64 u B in
            let! t := sub U64 t v in
            let! t := sub U64 t k in
            ret (t, 1)
        end in
      let! w := set w j (cast U32 s) in
      ret (w, k)) in
  ret (if k =? 0 then inl w else inr w).

Definition big_mul u v : MB BigUint :=
  let n := length u in
  let m := length v in
  for_fold (seq 0 n) (with_capacity (m + n)) (fun w j =>
    let! uj := get u j in
    if uj =? 0 then ret w
    else
      let! '(w, k) :=
        for_fold (seq 0 m) (w, 0) (fun '(w, k) i =>
          let! vi := get v i in
          let! p := mul_single uj vi in
          let! wi := get w (i + j)%nat in
          let! t := add U64 p wi in
          let! t := add U64 t k in
          let! w := set w (i + j)%nat (cast U32 (t mod B)) in
          ret (w, cast U32 (t / B))) in
      set w (j + m)%nat k).

Definition div_unit u (other : Z) : MB BigUint :=
  let other := Z.max other 1 in
  let n := length u in
  let! '(out, _) :=
    for_fold (rev (seq 0 n)) (with_capacity n, 0) (fun '(out, r) d =>
      let! x := get u d in
      let! a := mul U64 r B in
      let! a := add U64 a x in
      let! '(q, rr) := div_single a other in
      let! out := set out d (cast U32 q) in
      ret (out, rr)) in
  ret out.

(** [(lo..=lo + n).rev().map(|d| u.get(d)).collect()] *)
Definition window u (lo n : nat) : MB (list Z) :=
  for_fold (rev (seq lo (n + 1))) [] (fun l d => let! x := get u d in ret (l ++ [x])).

(** [leading_zeros] of a [u32] *)
Definition leading_zeros (x : Z) : Z := if x =? 0 then 32 else 31 - Z.log2 x.

(** The closure [test]: whether the estimate was too large, and the next one *)
Definition div_test other_norm self_norm (n j : nat) '(qhat, rhat) : MB (bool * (Z * Z)) :=
  let! vb := get other_norm (n - 2)%nat in
  let! lhs := mul U64 qhat vb in
  let! t := mul U64 B rhat in
  let! ub := get self_norm (j + n - 2)%nat in
  let! rhs := add U64 t ub in
  if (B <=? qhat) || (rhs <? lhs) then
    let! qhat := sub U64 qhat 1 in
    let! va := get other_norm (n - 1)%nat in
    let! rhat := add U64 rhat va in
    ret (true, (qhat, rhat))
  else ret (false, (qhat, rhat)).

(** [while *rhat < B { if !test() { break } }] *)
Fixpoint test_loop (fuel : nat) other_norm self_norm (n j : nat) (qr : Z * Z) : MB Z :=
  match fuel with
  | O => panic
  | Datatypes.S fuel =>
      let '(qhat, rhat) := qr in
      if rhat <? B then
        let! '(again, qr) := div_test other_norm self_norm n j (qhat, rhat) in
        if again then test_loop fuel other_norm self_norm n j qr else ret qr.1
      else ret qhat
  end.

(** The estimate of one digit is corrected at most twice. *)
Definition estimate other_norm self_norm (n j : nat) : MB Z :=
  let! ua := get self_norm (j + n)%nat in
  let! t := mul U64 ua B in
  let! ul := get self_norm (j + n - 1)%nat in
  let! dividend := add U64 t ul in
  let! divisor := get other_norm (n - 1)%nat in
  let! qr := div_single dividend divisor in
  let! '(_, qr) := div_test other_norm self_norm n j qr in
  test_loop 3 other_norm self_norm n j qr.

(** Steps D3 to D6 for the digit [j] *)
Definition div_step other_norm (n : nat) '(self_norm, q) (j : nat) : MB (BigUint * BigUint) :=
  let! qhat := estimate other_norm self_norm n j in
  let! lhs := window self_norm j n in
  let! rhs := big_mul other_norm (from_u64 qhat) in
  let! maybe_sub := big_sub lhs rhs in
  let '(negative, t) := match maybe_sub with inl t => (false, t) | inr t => (true, t) end in
  let! self_norm := for_fold (seq j (n + 1)) self_norm (fun s d => let! x := get t (d - j)%nat in set s d x) in
  let! q := set q j (cast U32 qhat) in
  if negative then
    let! qj := get q j in
    let! qj := sub U32 qj 1 in
    let! q := set q j qj in
    let! u := window self_norm j n in
    let! r := big_add other_norm u in
    let! self_norm := for_fold (rev (seq j (n + 1))) self_norm (fun s d => let! x := get r (d - j)%nat in set s d x) in
    ret (self_norm, q)
  else ret (self_norm, q).

(** The normalization is undone. *)
Definition denormalize self_norm r (n : nat) (nb : Z) : MB BigUint :=
  if 0 <? nb then
    let! r := for_fold (seq 0 (n - 1)) r (fun r d =>
      let! lo := get self_norm d in
      let! hi := get self_norm (d + 1)%nat in
      let! sh := sub U32 SHIFT nb in
      set r d (Z.lor (Z.shiftr lo nb) (cast U32 (Z.shiftl hi (Z.land sh 31))))) in
    let! hi := get self_norm (n - 1)%nat in
    set r (n - 1)%nat (Z.shiftr hi nb)
  else ret self_norm.

(** [a || b || ..], where a test may panic *)
Definition div_refused u v : MB bool :=
  if (length v <=? 1)%nat then ret true
  else
    let! vt := msb v in
    if vt =? 0 then ret true
    else
      let! ut := msb u in
      ret ((ut =? 0) || (length u <=? length v)%nat).

Definition big_div u v (rem : bool) : MB (option (BigUint * BigUint)) :=
  let! refused := div_refused u v in
  if refused then ret None
  else
    let n := length v in
    let m := (length u - n)%nat in
    let! vt := msb v in
    let normalizer_bits := leading_zeros vt in
    let! normalizer := arith U32 (2 ^ normalizer_bits) in
    let! self_norm := big_mul u (from_u32 normalizer) in
    let! other_norm := big_mul v (from_u32 normalizer) in
    let self_norm := lpad self_norm (n + m + 1) in
    let other_norm := lstrip other_norm in
    let! '(self_norm, q) :=
      for_fold (rev (seq 0 (m + 1))) (self_norm, with_capacity (m + 1)) (div_step other_norm n) in
    let! r := if rem then denormalize self_norm (with_capacity n) n normalizer_bits else ret (with_capacity n) in
    ret (Some (q, r)).

(** [TryFrom<BigUint>] for a type of [w] bits: [value.digits] from the least
    significant on *)
Definition big_try_into (bits : Z) (value : BigUint) : MB (option Z) :=
  let value := lstrip value in
  if bits <? Z.of_nat (length value) * SHIFT then ret None
  else
    let! acc := for_fold (imap pair (rev value)) 0 (fun acc '(i, d) =>
      add (2 ^ bits) acc (cast (2 ^ bits) (Z.shiftl d (SHIFT * Z.of_nat i)))) in
    ret (Some acc).
End Arithmetic.

(* ===================================================================== *)
(** ** 128 bits *)

Definition split_128 (a : Z) : Z * Z := (cast U64 (Z.shiftr a 64), cast U64 a).

Definition to_big_uint (x : Z) : BigUint :=
  let '(xh, xl) := split_128 x in
  let '(xhh, xhl) := split xh in
  let '(xlh, xll) := split xl in
  lstrip (from_limbs [xhh; xhl; xlh; xll]).

Section Helpers.
Context {P : Profile} {S E : Type}.
Local Abbreviation MB := (M S E).

Fixpoint gcd_loop (fuel : nat) (a b : Z) : MB Z :=
  match fuel with
  | O => panic
  | Datatypes.S fuel =>
      if a =? b then ret b
      else if a =? 0 then ret b
      else if b =? 0 then ret a
      else
        match Z.odd a, Z.odd b with
        | false, true => gcd_loop fuel (Z.shiftr a 1) b
        | true, false => gcd_loop fuel (Z.shiftr b 1) a
        | false, false => let! g := gcd_loop fuel (Z.shiftr a 1) (Z.shiftr b 1) in ret (cast U128 (Z.shiftl g 1))
        | true, true =>
            let x := Z.min a b in
            let y := Z.max a b in
            let! d := sub U128 y x in
            gcd_loop fuel (Z.shiftr d 1) x
        end
  end.

(** Each call drops at least one of the at most 256 bits. *)
Definition gcd (a b : Z) : MB Z := gcd_loop 258 a b.

(** The product does not fit: the division of big numbers. *)
Definition divide_wide (a b c : Z) : MB (option Z) :=
  let! ab := big_mul (to_big_uint a) (to_big_uint b) in
  let ab := lstrip ab in
  let c_num := to_big_uint c in
  let! q :=
    if (length c_num =? 1)%nat then div_unit ab (cast U32 c)
    else
      let! d := big_div ab c_num true in
      let '(q, r) := default (big_zero, big_zero) d in
      let! r := big_try_into 128 r in
      let! r := unwrap r in
      if c / 2 <? r then big_add q (to_big_uint 1) else ret q in
  big_try_into 128 (lstrip q).

Definition divide_product (a b c : Z) : MB (option Z) :=
  if a * b <? U128 then ret (Some (a * b / c)) else divide_wide a b c.

(** [Err] of the source is [None]: the result does not fit. *)
Definition multiply_by_rational (a b c : Z) : MB (option Z) :=
  if (a =? 0) || (b =? 0) then ret (Some 0)
  else
    let c := Z.max c 1 in
    let '(a, b) := if a <? b then (b, a) else (a, b) in
    let '(a, b, c) :=
      if a mod c =? 0 then (a / c, b, 1)
      else if b mod c =? 0 then (a, b / c, 1)
      else (a, b, c) in
    divide_product a b c.
End Helpers.

(* ===================================================================== *)
(** ** Rationals of 128 bits *)

(** [Rational128(n, d)] *)
Record Rational128 := mkRational { rn : Z; rd : Z }.

Definition rational_zero : Rational128 := mkRational 0 1.
Definition rational_one : Rational128 := mkRational 1 1.
Definition rational_is_zero (r : Rational128) : bool := rn r =? 0.
Definition rational_from (n d : Z) : Rational128 := mkRational n (Z.max d 1).
Definition from_unchecked (n d : Z) : Rational128 := mkRational n d.

Definition lazy_saturating_add (a b : Rational128) : Rational128 :=
  if rational_is_zero b then a else mkRational (saturating_add U128 (rn a) (rn b)) (rd a).
Definition lazy_saturating_sub (a b : Rational128) : Rational128 :=
  if rational_is_zero b then a else mkRational (saturating_sub (rn a) (rn b)) (rd a).

(** The messages of the source *)
Inductive RationalError := FailedToScale | OverflowAdding | OverflowSubtracting.

Section Rationals.
Context {P : Profile} {S E : Type}.
Local Abbreviation MB := (M S E).
Implicit Types (a b : Rational128).

Definition to_den a (den : Z) : MB (option Rational128) :=
  if den =? rd a then ret (Some a)
  else
    let! n := multiply_by_rational (rn a) den (rd a) in
    ret ((fun n => mkRational n den) <$> n).

Definition lcm a b : MB (option Z) :=
  if rd a =? rd b then ret (Some (rd a))
  else
    let! g := gcd (rd a) (rd b) in
    multiply_by_rational (rd a) (rd b) g.

(** Both numbers over their common denominator, in [checked_add] and
    [checked_sub]. *)
Definition scaled a b : MB (option (Rational128 * Rational128)) :=
  let! l := lcm a b in
  match l with
  | None => ret None
  | Some l =>
      let! self_scaled := to_den a l in
      match self_scaled with
      | None => ret None
      | Some self_scaled =>
          let! other_scaled := to_den b l in
          ret ((fun other_scaled => (self_scaled, other_scaled)) <$> other_scaled)
      end
  end.

Definition rational_checked_add a b : MB (Rational128 + RationalError) :=
  let! s := scaled a b in
  ret match s with
  | None => inr FailedToScale
  | Some (a, b) =>
      match checked_add U128 (rn a) (rn b) with
      | Some n => inl (mkRational n (rd a))
      | None => inr OverflowAdding
      end
  end.

Definition rational_checked_sub a b : MB (Rational128 + RationalError) :=
  let! s := scaled a b in
  ret match s with
  | None => inr FailedToScale
  | Some (a, b) =>
      match checked_sub (rn a) (rn b) with
      | Some n => inl (mkRational n (rd a))
      | None => inr OverflowSubtracting
      end
  end.

(** The cross products of numerators and denominators *)
Definition cross a b : MB (BigUint * BigUint) :=
  let! x := big_mul (to_big_uint (rn a)) (to_big_uint (rd b)) in
  let! y := big_mul (to_big_uint (rn b)) (to_big_uint (rd a)) in
  ret (x, y).

Definition rational_cmp a b : MB comparison :=
  if rd a =? rd b then ret (rn a ?= rn b)
  else if rd a =? 0 then ret Gt
  else if rd b =? 0 then ret Lt
  else let! '(x, y) := cross a b in ret (big_cmp x y).

Definition rational_eq a b : MB bool :=
  if rd a =? rd b then ret (rn a =? rn b)
  else let! '(x, y) := cross a b in ret (big_eq x y).
End Rationals.

(* ===================================================================== *)
(** ** Rationals of any size *)

(** [RationalInfinite(n, d)] *)
Record RationalInfinite := mkInfinite { inf_n : BigUint; inf_d : BigUint }.

(** [d.max(BigUint::one())] *)
Definition infinite_from (n d : BigUint) : RationalInfinite :=
  mkInfinite n (match big_cmp d big_one with Gt => d | _ => big_one end).
Definition infinite_zero : RationalInfinite := mkInfinite big_zero big_one.
Definition infinite_one : RationalInfinite := mkInfinite big_one big_one.
Definition infinite_of (t : Rational128) : RationalInfinite := mkInfinite (to_big_uint (rn t)) (to_big_uint (rd t)).

Definition infinite_cmp {P : Profile} {S E} (a b : RationalInfinite) : M S E comparison :=
  if big_eq (inf_d a) (inf_d b) then ret (big_cmp (inf_n a) (inf_n b))
  else if is_zero (inf_d a) then ret Gt
  else if is_zero (inf_d b) then ret Lt
  else
    let! x := big_mul (inf_n a) (inf_d b) in
    let! y := big_mul (inf_n b) (inf_d a) in
    ret (big_cmp x y).
