(* ===== verification/BigUintFacts.v ===== *)
(** * Big integers: the operations are exact

    The value of a list of limbs; addition, subtraction, multiplication and the
    division by one limb compute it, without overflow. *)

From S2P Require Import Prelude BigUint.

Set Default Proof Using "Type".

(* ===================================================================== *)
(** ** Functions that return, at any state *)
Definition returns {S E A} (m : M S E A) (Q : A -> Prop) : Prop := forall s, exists a, m s = Ok a s /\ Q a.

Section Returns.
Context {S E : Type}.

Lemma returns_ret {A} (a : A) (Q : A -> Prop) : Q a -> returns (S := S) (E := E) (ret a) Q.
Proof. intros HQ s. by exists a. Qed.

Lemma returns_bind {A C} (m : M S E A) (k : A -> M S E C) Q :
  returns m (fun a => returns (k a) Q) -> returns (bind m k) Q.
Proof. intros Hm s. destruct (Hm s) as (a & Ha & Hk). unfold bind. rewrite Ha. apply Hk. Qed.

Lemma returns_mono {A} (m : M S E A) (Q Q' : A -> Prop) : returns m Q -> (forall a, Q a -> Q' a) -> returns m Q'.
Proof. intros Hm HQ s. destruct (Hm s) as (a & Ha & Hk). eauto. Qed.

Lemma returns_unwrap {A} (o : option A) a (Q : A -> Prop) : o = Some a -> Q a -> returns (S := S) (E := E) (unwrap o) Q.
Proof. intros -> HQ s. by exists a. Qed.

Lemma returns_arith {P : Profile} w r (Q : Z -> Prop) : 0 <= r < w -> Q r -> returns (S := S) (E := E) (arith w r) Q.
Proof.
  intros Hr HQ s. exists r. split; [|done]. unfold arith.
  replace ((0 <=? r) && (r <? w)) with true; [done|]. symmetry. apply andb_true_intro. split; lia.
Qed.

Lemma returns_wp {A} (m : M S E A) (Q : A -> Prop) R s : returns m Q -> wp m (fun a s' => Q a /\ s' = s) R s.
Proof. intros Hm. destruct (Hm s) as (a & Ha & HQ). unfold wp. by rewrite Ha. Qed.

(** Loops over a range, upwards and downwards. *)
Lemma returns_for_seq {A} (I : nat -> A -> Prop) lo n a (body : A -> nat -> M S E A) :
  I lo a -> (forall j a, (lo <= j < lo + n)%nat -> I j a -> returns (body a j) (I (Datatypes.S j))) ->
  returns (for_fold (seq lo n) a body) (I (lo + n)%nat).
Proof.
  revert lo a. induction n as [|n IH]; intros lo a Ha Hb; simpl.
  - rewrite Nat.add_0_r. by apply returns_ret.
  - apply returns_bind. eapply returns_mono; [apply Hb; [lia|done]|]. intros a' Ha'.
    replace (lo + Datatypes.S n)%nat with (Datatypes.S lo + n)%nat by lia. apply IH; [done|]. intros j a'' Hj. apply Hb. lia.
Qed.

Lemma returns_for_rev {A} (I : nat -> A -> Prop) lo n a (body : A -> nat -> M S E A) :
  I (lo + n)%nat a -> (forall j a, (lo <= j < lo + n)%nat -> I (Datatypes.S j) a -> returns (body a j) (I j)) ->
  returns (for_fold (rev (seq lo n)) a body) (I lo).
Proof.
  revert a. induction n as [|n IH]; intros a Ha Hb.
  - rewrite Nat.add_0_r in Ha. by apply returns_ret.
  - rewrite seq_S, rev_app_distr. simpl. apply returns_bind. eapply returns_mono.
    + apply Hb; [lia|]. by replace (Datatypes.S (lo + n)) with (lo + Datatypes.S n)%nat by lia.
    + intros a' Ha'. apply IH; [done|]. intros j a'' Hj. apply Hb. lia.
Qed.
End Returns.

Ltac ret_step :=
  match goal with
  | |- returns (bind _ _) _ => apply returns_bind
  | |- returns (ret _) _ => apply returns_ret
  end.
Ltac ret_steps := repeat (ret_step; cbv beta).

(* ===================================================================== *)
(** ** The value of limbs, the least significant first *)
Definition limb (d : Z) : Prop := 0 <= d < B.

Fixpoint lval (l : list Z) : Z := match l with [] => 0 | d :: l => d + B * lval l end.

(** The limbs of a number, and its value. *)
Definition limbs (u : BigUint) : list Z := reverse u.
Definition val (u : BigUint) : Z := lval (limbs u).

Definition big_ok (u : BigUint) : Prop := Forall limb u.

Lemma B_pos : 0 < B.
Proof. unfold B, U32. lia. Qed.

Lemma Bpow_pos (n : nat) : 0 < B ^ Z.of_nat n.
Proof. apply Z.pow_pos_nonneg; [apply B_pos|lia]. Qed.

Lemma Bpow_S (n : nat) : B ^ Z.of_nat (S n) = B * B ^ Z.of_nat n.
Proof. rewrite Nat2Z.inj_succ, Z.pow_succ_r by lia. done. Qed.

Lemma Bpow_add (n m : nat) : B ^ Z.of_nat (n + m) = B ^ Z.of_nat n * B ^ Z.of_nat m.
Proof. rewrite Nat2Z.inj_add, Z.pow_add_r by lia. done. Qed.

Lemma lval_app l l' : lval (l ++ l') = lval l + B ^ Z.of_nat (length l) * lval l'.
Proof.
  induction l as [|d l IH]; [simpl; lia|]. simpl length. simpl app. simpl lval. rewrite IH, Bpow_S. ring.
Qed.

Lemma lval_insert l i x y : l !! i = Some y -> lval (<[i := x]> l) = lval l + (x - y) * B ^ Z.of_nat i.
Proof.
  revert i. induction l as [|d l IH]; intros [|i] Hi; [done..| |].
  - injection Hi as ->. change (x + B * lval l = y + B * lval l + (x - y) * B ^ 0). rewrite Z.pow_0_r. ring.
  - change (d + B * lval (<[i := x]> l) = d + B * lval l + (x - y) * B ^ Z.of_nat (S i)). rewrite (IH i) by done. rewrite Bpow_S. ring.
Qed.

Lemma lval_bounds l : Forall limb l -> 0 <= lval l < B ^ Z.of_nat (length l).
Proof.
  induction 1 as [|d l [H0 H1] _ IH]; [simpl; lia|]. simpl length. simpl lval. rewrite Bpow_S. pose proof B_pos. nia.
Qed.

Lemma lval_zeros n : lval (replicate n 0) = 0.
Proof. induction n as [|n IH]; [done|]. simpl. rewrite IH. ring. Qed.

Lemma lval_take_S l i : lval (take (S i) l) = lval (take i l) + default 0 (l !! i) * B ^ Z.of_nat i.
Proof.
  destruct (l !! i) as [d|] eqn:Hd; simpl.
  - rewrite (take_S_r _ _ d) by done. rewrite lval_app. simpl. rewrite length_take_le; [ring|]. apply lookup_lt_Some in Hd. lia.
  - apply lookup_ge_None in Hd. rewrite !take_ge by lia. lia.
Qed.

Lemma lval_take_insert l i x : (i < length l)%nat -> lval (take (S i) (<[i := x]> l)) = lval (take i l) + x * B ^ Z.of_nat i.
Proof.
  intros Hi. rewrite lval_take_S, list_lookup_insert_eq by done. simpl. by rewrite take_insert_ge by lia.
Qed.

Lemma lval_take_drop l i : lval l = lval (take i l) + B ^ Z.of_nat (Nat.min i (length l)) * lval (drop i l).
Proof. rewrite <- (take_drop i l) at 1. rewrite lval_app, length_take. done. Qed.

(** Reading and writing a limb. *)
Lemma checked_get_limbs u i : checked_get u i = limbs u !! i.
Proof.
  unfold checked_get, limbs. destruct (decide (i < length u)%nat) as [Hi|Hi].
  - rewrite reverse_lookup by done. replace (_ && _) with true; [f_equal; lia|].
    symmetry. apply andb_true_intro. split; apply Nat.leb_le; lia.
  - rewrite (lookup_ge_None_2 (reverse u)) by (rewrite length_reverse; lia).
    destruct (_ && _) eqn:Hb; [|done]. apply andb_true_iff in Hb as [?%Nat.leb_le ?%Nat.leb_le]. lia.
Qed.

Lemma length_limbs u : length (limbs u) = length u.
Proof. apply length_reverse. Qed.

Lemma big_ok_limbs u : big_ok u <-> Forall limb (limbs u).
Proof. unfold big_ok, limbs. by rewrite Forall_reverse. Qed.

Lemma limb_lookup u i : big_ok u -> limb (default 0 (limbs u !! i)).
Proof.
  intros Hu%big_ok_limbs. destruct (limbs u !! i) as [d|] eqn:Hd; simpl.
  - by apply (Forall_lookup_1 limb (limbs u) i).
  - unfold limb. pose proof B_pos. lia.
Qed.

Lemma val_bounds u : big_ok u -> 0 <= val u < B ^ Z.of_nat (length u).
Proof. intros Hu%big_ok_limbs. unfold val. rewrite <- length_limbs. by apply lval_bounds. Qed.

Lemma take_limbs_all u n : (length u <= n)%nat -> lval (take n (limbs u)) = val u.
Proof. intros Hn. unfold val. rewrite take_ge; [done|]. by rewrite length_limbs. Qed.

Lemma cast_limb x : limb (cast U32 x).
Proof. apply Z.mod_pos_bound, B_pos. Qed.

Lemma cast_small x : limb x -> cast U32 x = x.
Proof. apply Z.mod_small. Qed.

Section Ops.
Context {P : Profile} {S E : Type}.
Local Abbreviation returns := (returns (S := S) (E := E)).
Implicit Types (u v w : BigUint).

Lemma returns_get u i x (Q : Z -> Prop) : limbs u !! i = Some x -> Q x -> returns (get u i) Q.
Proof. intros Hx HQ. unfold get. eapply returns_unwrap; [|done]. by rewrite checked_get_limbs. Qed.

Lemma get_in_range u i (Q : Z -> Prop) :
  big_ok u -> (i < length u)%nat -> (forall x, limbs u !! i = Some x -> limb x -> Q x) -> returns (get u i) Q.
Proof.
  intros Hu Hi HQ. rewrite <- length_limbs in Hi. apply lookup_lt_is_Some in Hi as [x Hx].
  apply (returns_get u i x); [done|]. apply HQ; [done|]. apply big_ok_limbs in Hu. by eapply Forall_lookup_1.
Qed.

Lemma limbs_insert u i x : (i < length u)%nat -> limbs (<[(length u - 1 - i)%nat := x]> u) = <[i := x]> (limbs u).
Proof.
  intros Hi. apply list_eq. intros k. unfold limbs.
  destruct (decide (k < length u)%nat) as [Hk|Hk].
  - rewrite reverse_lookup, length_insert by (rewrite length_insert; done).
    destruct (decide (i = k)) as [->|Hne].
    + rewrite list_lookup_insert_eq by (rewrite length_reverse; done).
      replace (length u - Datatypes.S k)%nat with (length u - 1 - k)%nat by lia. apply list_lookup_insert_eq. lia.
    + rewrite !list_lookup_insert_ne by lia. by rewrite reverse_lookup.
  - rewrite !lookup_ge_None_2; [done| |]; rewrite ?length_insert, ?length_reverse, ?length_insert; lia.
Qed.

Lemma returns_set u i x (Q : BigUint -> Prop) :
  big_ok u -> limb x -> (i < length u)%nat ->
  (forall w, big_ok w -> length w = length u -> limbs w = <[i := x]> (limbs u) -> Q w) -> returns (set u i x) Q.
Proof.
  intros Hu Hx Hi HQ. unfold set. destruct (Nat.ltb_spec i (length u)); [|lia]. apply returns_ret, HQ.
  - by apply Forall_insert.
  - by rewrite length_insert.
  - by apply limbs_insert.
Qed.

Lemma with_capacity_ok n : (0 < n)%nat -> big_ok (with_capacity n) /\ length (with_capacity n) = n /\ limbs (with_capacity n) = replicate n 0.
Proof.
  intros Hn. unfold with_capacity, limbs. replace (Nat.max n 1) with n by lia. split_and!.
  - apply Forall_replicate. unfold limb. pose proof B_pos. lia.
  - apply length_replicate.
  - apply reverse_replicate.
Qed.

Lemma U64_B : U64 = B * B.
Proof. reflexivity. Qed.

Lemma U64_room : 3 * B <= U64.
Proof. vm_compute. done. Qed.

(** The loop of the addition, up to the limb [j]. *)
Definition adding u v (n j : nat) '(w, k) : Prop :=
  big_ok w /\ length w = (n + 1)%nat /\ 0 <= k <= 1 /\
  lval (take j (limbs w)) + k * B ^ Z.of_nat j = lval (take j (limbs u)) + lval (take j (limbs v)).

Lemma big_add_exact u v :
  big_ok u -> big_ok v ->
  returns (big_add u v) (fun w => big_ok w /\ length w = (Nat.max (length u) (length v) + 1)%nat /\ val w = val u + val v).
Proof.
  intros Hu Hv. unfold big_add. set (n := Nat.max (length u) (length v)). ret_steps. pose proof B_pos as HB. pose proof U64_room as HR.
  eapply returns_mono; [apply (returns_for_seq (adding u v n) 0 n)|].
  - destruct (with_capacity_ok (n + 1)) as (Hok & Hl & _); [lia|]. split_and!; [done..|lia|lia|]. simpl. lia.
  - intros j [w k] Hj (Hw & Hl & Hk & He). rewrite !checked_get_limbs.
    pose proof (limb_lookup u j Hu) as [? ?]. pose proof (limb_lookup v j Hv) as [? ?].
    ret_steps. apply returns_arith; [lia|]. apply returns_bind. apply returns_arith; [lia|].
    set (s := _ + _ + k). apply returns_bind. apply returns_set; [done|apply cast_limb|lia|].
    intros w' Hw' Hl' Hli. apply returns_ret. pose proof (Z.mod_pos_bound s B HB). pose proof (Z.div_mod s B ltac:(lia)) as Hdm. split_and!; [done|lia|apply Z.div_pos; lia| |].
    + cut (s / B < 2); [lia|]. apply Z.div_lt_upper_bound; lia.
    + rewrite Hli, lval_take_insert by (rewrite length_limbs; lia). rewrite (cast_small (s mod B)) by done.
      rewrite !lval_take_S, Bpow_S. nia.
  - intros [w k] (Hw & Hl & Hk & He). simpl in He. assert (limb k) by (unfold limb, B, U32; lia). rewrite cast_small by done.
    apply returns_set; [done|done|lia|]. intros w' Hw' Hl' Hli. split_and!; [done|lia|].
    rewrite <- (take_limbs_all w' (Datatypes.S n)) by lia. rewrite Hli, lval_take_insert by (rewrite length_limbs; lia).
    rewrite He. by rewrite !take_limbs_all by lia.
Qed.
(** The loop of the subtraction: [k] is the borrow. *)
Definition subtracting u v (n j : nat) '(w, k) : Prop :=
  big_ok w /\ length w = n /\ 0 <= k <= 1 /\
  lval (take j (limbs w)) - k * B ^ Z.of_nat j = lval (take j (limbs u)) - lval (take j (limbs v)).

Lemma sub_limb a b k (Q : Z * Z -> Prop) :
  limb a -> limb b -> 0 <= k <= 1 ->
  (forall s k', limb s -> 0 <= k' <= 1 -> s - k' * B = a - b - k -> Q (s, k')) ->
  returns
    (match (v1 ← checked_sub a b; checked_sub v1 k) with
     | Some v2 => ret (v2, 0)
     | None => let! t := add U64 a B in let! t := sub U64 t b in let! t := sub U64 t k in ret (t, 1)
     end) Q.
Proof.
  intros [Ha Ha'] [Hb Hb'] Hk HQ. pose proof U64_room as HR.
  assert (0 <= a - b - k -> returns (ret (a - b - k, 0)) Q) as H0.
  { intros H. apply returns_ret, HQ; [|lia..]. unfold limb. lia. }
  assert (a - b - k < 0 -> returns (let! t := add U64 a B in let! t := sub U64 t b in let! t := sub U64 t k in ret (t, 1)) Q) as H1.
  { intros H. apply returns_bind, returns_arith; [lia|]. apply returns_bind, returns_arith; [lia|]. apply returns_bind, returns_arith; [lia|].
    apply returns_ret, HQ; [|lia..]. unfold limb. lia. }
  unfold checked_sub. destruct (Z.leb_spec b a); simpl; [|apply H1; lia].
  destruct (Z.leb_spec k (a - b)); [apply H0|apply H1]; lia.
Qed.

Lemma big_sub_exact u v :
  big_ok u -> big_ok v -> (0 < length u)%nat ->
  returns (big_sub u v) (fun r => let n := Nat.max (length u) (length v) in
    match r with
    | inl w => big_ok w /\ length w = n /\ val w = val u - val v
    | inr w => big_ok w /\ length w = n /\ val w = val u - val v + B ^ Z.of_nat n /\ val u < val v
    end).
Proof.
  intros Hu Hv Hlen. unfold big_sub. set (n := Nat.max (length u) (length v)). ret_steps.
  eapply returns_mono; [apply (returns_for_seq (subtracting u v n) 0 n)|].
  - destruct (with_capacity_ok n) as (Hok & Hl & _); [lia|]. split_and!; [done..|lia|lia|]. by rewrite !take_0.
  - intros j [w k] Hj (Hw & Hl & Hk & He). rewrite !checked_get_limbs.
    pose proof (limb_lookup u j Hu). pose proof (limb_lookup v j Hv).
    apply returns_bind, sub_limb; [done..|]. intros s k' Hs Hk' Hsk. rewrite cast_small by done.
    apply returns_bind, returns_set; [done..|lia|]. intros w' Hw' Hl' Hli. apply returns_ret. split_and!; [done|lia..|].
    rewrite Hli, lval_take_insert by (rewrite length_limbs; lia). rewrite !lval_take_S, Bpow_S. nia.
  - intros [w k] (Hw & Hl & Hk & He). simpl in He. rewrite !take_limbs_all in He by lia. apply returns_ret.
    pose proof (val_bounds w Hw) as [Hw0 Hw1]. rewrite Hl in Hw1.
    destruct (Z.eqb_spec k 0) as [->|Hk0]; split_and!; [done..|lia|done|done| |]; assert (k = 1) as -> by lia; lia.
Qed.
(** The loops of the multiplication: all limbs from [z] on are still zero. *)
Definition zero_from w (z : nat) : Prop := forall i, (z <= i < length w)%nat -> limbs w !! i = Some 0.

Definition multiplying u v (j : nat) w : Prop :=
  big_ok w /\ length w = (length v + length u)%nat /\ zero_from w (j + length v) /\
  val w = lval (take j (limbs u)) * val v.

Definition multiplying_row v (len j : nat) (uj base : Z) (i : nat) '(w, k) : Prop :=
  big_ok w /\ length w = len /\ zero_from w (j + length v) /\ limb k /\
  val w + k * B ^ Z.of_nat (i + j) = base + uj * B ^ Z.of_nat j * lval (take i (limbs v)).

Lemma mul_row_step v len j uj base i w k :
  big_ok v -> limb uj -> (j + length v < len)%nat -> (i < length v)%nat -> multiplying_row v len j uj base i (w, k) ->
  returns
    (let! vi := get v i in
     let! p := mul_single uj vi in
     let! wi := get w (i + j)%nat in
     let! t := add U64 p wi in
     let! t := add U64 t k in
     let! w := set w (i + j)%nat (cast U32 (t mod B)) in
     ret (w, cast U32 (t / B))) (multiplying_row v len j uj base (Datatypes.S i)).
Proof.
  intros Hv [Hu0 Hu1] Hj Hi (Hw & Hl & Hz & [Hk0 Hk1] & He). pose proof B_pos as HB.
  apply returns_bind, get_in_range; [done..|]. intros vi Hvi [Hv0 Hv1].
  apply returns_bind, returns_arith; [rewrite U64_B; nia|].
  apply returns_bind, get_in_range; [done|lia|]. intros wi Hwi [Hw0 Hw1].
  assert (0 <= uj * vi <= (B - 1) * (B - 1)) as Hp by nia.
  apply returns_bind, returns_arith; [rewrite U64_B; nia|]. apply returns_bind, returns_arith; [rewrite U64_B; nia|].
  set (t := uj * vi + wi + k). pose proof (Z.mod_pos_bound t B HB) as Hm. pose proof (Z.div_mod t B ltac:(lia)) as Hdm.
  assert (limb (t / B)) as Hq.
  { split; [apply Z.div_pos; lia|]. apply Z.div_lt_upper_bound; [lia|]. unfold t. nia. }
  apply returns_bind, returns_set; [done|apply cast_limb|lia|]. intros w' Hw' Hl' Hli. apply returns_ret.
  rewrite !cast_small in * by done. split_and!; [done|lia| |done|].
  - intros x Hx. rewrite Hli, list_lookup_insert_ne by lia. apply Hz. lia.
  - unfold val in *. rewrite Hli, (lval_insert _ _ _ wi) by done. rewrite lval_take_S, Hvi. simpl default.
    change (Datatypes.S i + j)%nat with (Datatypes.S (i + j)). rewrite Bpow_S, Bpow_add in *. nia.
Qed.

Lemma big_mul_exact u v :
  big_ok u -> big_ok v -> (0 < length u)%nat -> (0 < length v)%nat ->
  returns (big_mul u v) (fun w => big_ok w /\ length w = (length v + length u)%nat /\ val w = val u * val v).
Proof.
  intros Hu Hv Hlu Hlv. unfold big_mul. eapply returns_mono; [apply (returns_for_seq (multiplying u v) 0 (length u))|].
  - destruct (with_capacity_ok (length v + length u)) as (Hok & Hl & Hz); [lia|]. split_and!; [done..| |].
    + intros i Hi. rewrite Hz. apply lookup_replicate. lia.
    + unfold val at 1. by rewrite Hz, lval_zeros, take_0.
  - intros j w Hj (Hw & Hl & Hz & He). apply returns_bind, get_in_range; [done|lia|]. intros uj Huj Hlim.
    destruct (Z.eqb_spec uj 0) as [->|Hne].
    { apply returns_ret. split_and!; [done..|intros i Hi; apply Hz; lia|]. rewrite lval_take_S, Huj. simpl default. lia. }
    apply returns_bind. eapply returns_mono; [apply (returns_for_seq (multiplying_row v (length w) j uj (val w)) 0 (length v))|].
    + split_and!; [done..|unfold limb; pose proof B_pos; lia|]. rewrite take_0. simpl lval. lia.
    + intros i [w' k] Hi HI. apply mul_row_step; [done..|lia|lia|done].
    + intros [w' k] (Hw' & Hl' & Hz' & Hk & He'). simpl in He'. rewrite take_limbs_all in He' by lia.
      apply returns_set; [done..|lia|]. intros w'' Hw'' Hl'' Hli. split_and!; [done|lia| |].
      * intros x Hx. rewrite Hli, list_lookup_insert_ne by lia. apply Hz'. lia.
      * unfold val at 1. rewrite Hli, (lval_insert _ _ _ 0) by (apply Hz'; lia). rewrite lval_take_S, Huj. simpl default.
        unfold val in *. replace (length v + j)%nat with (j + length v)%nat in He' by lia. nia.
  - intros w (Hw & Hl & Hz & He). split_and!; [done..|]. rewrite He. simpl. by rewrite take_limbs_all.
Qed.
Lemma lval_drop l i d : l !! i = Some d -> lval (drop i l) = d + B * lval (drop (Datatypes.S i) l).
Proof. intros Hd. by rewrite (drop_S _ d). Qed.

Lemma returns_div_single a b (Q : Z * Z -> Prop) :
  0 < b <= B -> Q (a / b, a mod b) -> returns (div_single a b) Q.
Proof.
  intros Hb HQ. unfold div_single. destruct (Z.eqb_spec b 0); [lia|]. apply returns_ret.
  rewrite cast_small; [done|]. pose proof (Z.mod_pos_bound a b). unfold limb. lia.
Qed.

(** The long division by one limb, from the top down to the limb [d]. *)
Definition dividing u (other : Z) (d : nat) '(out, r) : Prop :=
  big_ok out /\ length out = length u /\ 0 <= r < other /\
  lval (drop d (limbs u)) = lval (drop d (limbs out)) * other + r.

Lemma div_unit_exact u other :
  big_ok u -> (0 < length u)%nat -> limb other ->
  returns (div_unit u other) (fun q => big_ok q /\ length q = length u /\ val q = val u / Z.max other 1).
Proof.
  intros Hu Hlu [Ho0 Ho1]. unfold div_unit. set (o := Z.max other 1). assert (0 < o <= B) as Ho by lia.
  pose proof B_pos as HB. ret_steps. eapply returns_mono; [apply (returns_for_rev (dividing u o) 0 (length u))|].
  - destruct (with_capacity_ok (length u)) as (Hok & Hl & _); [lia|]. split_and!; [done..|lia|lia|].
    rewrite !drop_ge by (rewrite length_limbs; lia). simpl. lia.
  - intros d [out r] Hd (Hok & Hl & Hr & He). apply returns_bind, get_in_range; [done|lia|]. intros x Hx [Hx0 Hx1].
    assert (r * B + x < o * B) as Hfit by nia.
    apply returns_bind, returns_arith; [rewrite U64_B; nia|]. apply returns_bind, returns_arith; [rewrite U64_B; nia|].
    set (a := r * B + x) in *. apply returns_bind, returns_div_single; [lia|].
    pose proof (Z.mod_pos_bound a o ltac:(lia)). pose proof (Z.div_mod a o ltac:(lia)) as Hdm.
    assert (limb (a / o)) as Hq by (split; [apply Z.div_pos; lia|apply Z.div_lt_upper_bound; lia]).
    rewrite cast_small by done. apply returns_bind, returns_set; [done|done|lia|]. intros w Hw Hlw Hli. apply returns_ret.
    split_and!; [done|lia|lia|lia|]. rewrite (lval_drop _ _ x) by done.
    rewrite (lval_drop (limbs w) _ (a / o)), Hli, drop_insert_lt by (rewrite ?Hli, ?list_lookup_insert_eq; rewrite ?length_limbs; auto; lia). nia.
  - intros [out r] (Hok & Hl & Hr & He). apply returns_ret. split_and!; [done..|]. rewrite !drop_0 in He.
    unfold val. rewrite He. rewrite Z.div_add_l by lia. rewrite (Z.div_small r) by lia. lia.
Qed.
End Ops.
