(* ===== verification/BigUintNum.v ===== *)
(** * Big integers: stripping, conversions and the order

    Leading zeros do not count, the conversions keep the value, and the
    comparison of the limbs is the order of the values. *)

From S2P Require Import Prelude BigUint BigUintFacts.

Set Default Proof Using "Type".

Implicit Types (u v w : BigUint) (d : Z).

Lemma val_app u v : val (u ++ v) = val v + B ^ Z.of_nat (length v) * val u.
Proof. unfold val, limbs. by rewrite reverse_app, lval_app, length_reverse. Qed.

Lemma val_cons d u : val (d :: u) = d * B ^ Z.of_nat (length u) + val u.
Proof. change (d :: u) with ([d] ++ u). rewrite val_app. unfold val at 2. simpl. lia. Qed.

Lemma val_zeros n : val (replicate n 0) = 0.
Proof. unfold val, limbs. by rewrite reverse_replicate, lval_zeros. Qed.

(** The most significant limb is not zero. *)
Definition stripped u : Prop := match u with [] => False | d :: _ => d <> 0 end.

Lemma stripped_bound u : big_ok u -> stripped u -> B ^ Z.of_nat (length u - 1) <= val u < B ^ Z.of_nat (length u).
Proof.
  intros Hu Hs. split; [|by apply val_bounds]. destruct u as [|d u]; [done|]. simpl in Hs.
  inversion_clear Hu as [|?? [Hd0 Hd1] Hu']. rewrite val_cons. simpl length. replace (S (length u) - 1)%nat with (length u) by lia.
  pose proof (val_bounds u Hu'). pose proof (Bpow_pos (length u)). nia.
Qed.

Lemma lstrip_cases u :
  u <> [] -> big_ok u ->
  (stripped (lstrip u) \/ lstrip u = [0]) /\ exists n, u = replicate n 0 ++ lstrip u.
Proof.
  intros Hne Hu. unfold lstrip, first_nonzero. destruct (Nat.eqb_spec (length u) 0) as [H0|H0]; [by destruct u|].
  destruct (list_find _ u) as [[i d]|] eqn:Hf; simpl.
  - apply list_find_Some in Hf as (Hi & Hd & Hz). split.
    + left. rewrite (drop_S _ d) by done. done.
    + exists i. rewrite <- (take_drop i u) at 1. f_equal. symmetry; apply replicate_as_elem_of; split.
      * apply length_take_le. apply lookup_lt_Some in Hi. lia.
      * intros y [k Hk]%list_elem_of_lookup_1. apply lookup_take_Some in Hk as [Hk Hlt]. apply Hz in Hk; [|done]. by apply dec_stable in Hk.
  - apply list_find_None in Hf. assert (u = replicate (length u) 0) as Hr.
    { symmetry; apply replicate_as_elem_of; split; [done|]. intros y Hy. rewrite Forall_forall in Hf. apply dec_stable, Hf, Hy. }
    assert (drop (length u - 1) u = [0]) as He.
    { rewrite Hr at 2. rewrite drop_replicate. by replace (length u - (length u - 1))%nat with 1%nat by lia. }
    rewrite He. split; [by right|]. exists (length u - 1)%nat. rewrite Hr at 1.
    change [0] with (replicate 1 0). rewrite <- replicate_add. f_equal. lia.
Qed.

Lemma lstrip_exact u :
  u <> [] -> big_ok u ->
  big_ok (lstrip u) /\ val (lstrip u) = val u /\ lstrip u <> [] /\ (length (lstrip u) <= length u)%nat /\ (0 < val u -> stripped (lstrip u)).
Proof.
  intros Hne Hu. destruct (lstrip_cases u Hne Hu) as [Hs [n Hn]]. set (w := lstrip u) in *. clearbody w.
  assert (val w = val u) as Hv by (rewrite Hn, val_app, val_zeros; lia).
  split_and!; [|done| | |].
  - subst u. by apply Forall_app in Hu as [_ Hu].
  - intros ->. by destruct Hs.
  - subst u. rewrite length_app. lia.
  - intros Hp. destruct Hs as [Hs| ->]; [done|]. rewrite <- Hv in Hp. done.
Qed.

(* ===================================================================== *)
(** ** Conversions *)

Lemma split_exact x : 0 <= x < B * B -> let '(h, l) := split x in limb h /\ limb l /\ h * B + l = x.
Proof.
  intros Hx. unfold split, cast, SHIFT. rewrite Z.shiftr_div_pow2 by lia. change (2 ^ 32) with B. change U32 with B. pose proof B_pos.
  assert (0 <= x / B < B) as Hd by (split; [apply Z.div_pos; lia|apply Z.div_lt_upper_bound; lia]).
  rewrite (Z.mod_small (x / B)) by done. split_and!; [done|apply Z.mod_pos_bound; lia|].
  rewrite (Z.div_mod x B) at 3 by lia. ring.
Qed.

Lemma from_u64_exact x : 0 <= x < U64 -> big_ok (from_u64 x) /\ length (from_u64 x) = 2%nat /\ val (from_u64 x) = x.
Proof.
  intros Hx. rewrite U64_B in Hx. pose proof (split_exact x Hx) as Hs. unfold from_u64. destruct (split x) as [h l].
  destruct Hs as (Hh & Hl & He). split_and!; [by repeat first [apply Forall_cons_2 | apply Forall_nil_2]|done|]. unfold val. simpl. lia.
Qed.

Lemma to_big_uint_exact x :
  0 <= x < U128 ->
  let u := to_big_uint x in big_ok u /\ val u = x /\ u <> [] /\ (length u <= 4)%nat /\ (0 < x -> stripped u).
Proof.
  intros Hx. unfold to_big_uint, split_128, cast. rewrite Z.shiftr_div_pow2 by lia. change (2 ^ 64) with U64.
  assert (0 < U64) as H64 by done. change U128 with (U64 * U64) in Hx.
  assert (0 <= x / U64 < U64) as Hd by (split; [apply Z.div_pos; lia|apply Z.div_lt_upper_bound; lia]).
  rewrite (Z.mod_small (x / U64)) by done. pose proof (Z.mod_pos_bound x U64 H64) as Hm. rewrite U64_B in Hd, Hm.
  pose proof (split_exact (x / U64)) as H1. pose proof (split_exact (x mod U64)) as H2.
  destruct (split (x / U64)) as [a b], (split (x mod U64)) as [c d]. destruct H1 as (? & ? & E1), H2 as (? & ? & E2); [rewrite U64_B; lia..|].
  set (l := from_limbs [a; b; c; d]). assert (val l = x) as Hv.
  { unfold l, val. simpl. rewrite (Z.div_mod x U64) by lia. rewrite <- E1, <- E2, U64_B. ring. }
  destruct (lstrip_exact l) as (G1 & G2 & G3 & G4 & G5); [done|by repeat first [apply Forall_cons_2 | apply Forall_nil_2]|]. rewrite Hv in *. by split_and!.
Qed.

Section Ops.
Context {P : Profile} {S E : Type}.
Local Abbreviation returns := (returns (S := S) (E := E)).

Lemma returns_for_imap {A X} (I : nat -> A -> Prop) (l : list X) a (body : A -> nat * X -> M S E A) :
  I 0%nat a -> (forall i x a, l !! i = Some x -> I i a -> returns (body a (i, x)) (I (Datatypes.S i))) ->
  returns (for_fold (imap pair l) a body) (I (length l)).
Proof.
  intros Ha Hb. cut (forall k l' a, drop k l = l' -> (k <= length l)%nat -> I k a ->
    returns (for_fold (imap (fun i x => ((k + i)%nat, x)) l') a body) (I (length l))).
  { intros Hc. specialize (Hc 0%nat l a (drop_0 l)). rewrite (imap_ext _ pair) in Hc by done. apply Hc; [lia|done]. }
  intros k l'. revert k. induction l' as [|x l' IH]; intros k a' Hd Hk Hi; simpl.
  - apply returns_ret. apply (f_equal length) in Hd. rewrite length_drop in Hd. simpl in Hd. by replace (length l) with k by lia.
  - apply returns_bind. assert (l !! k = Some x) as Hx by (rewrite <- (Nat.add_0_r k), <- lookup_drop, Hd; done).
    rewrite Nat.add_0_r. eapply returns_mono; [by apply Hb|]. intros a'' Ha''.
    rewrite (imap_ext _ (fun i x => ((Datatypes.S k + i)%nat, x))) by (intros; simpl; f_equal; lia).
    apply IH; [|apply lookup_lt_Some in Hx; lia|done]. by rewrite <- Nat.add_1_r, <- drop_drop, Hd.
Qed.

Lemma pow_limbs (n : nat) : 2 ^ (32 * Z.of_nat n) = B ^ Z.of_nat n.
Proof. by rewrite Z.pow_mul_r by lia. Qed.

(** The conversion succeeds exactly when the value fits. *)
Lemma big_try_into_exact (k : nat) u :
  (0 < k)%nat -> u <> [] -> big_ok u ->
  returns (big_try_into (32 * Z.of_nat k) u) (fun r => r = if val u <? 2 ^ (32 * Z.of_nat k) then Some (val u) else None).
Proof.
  intros Hk Hne Hu. destruct (lstrip_exact u Hne Hu) as (Hw & Hv & Hwne & _ & _). destruct (lstrip_cases u Hne Hu) as [Hs _].
  unfold big_try_into. set (w := lstrip u) in *. clearbody w. rewrite pow_limbs, <- Hv. unfold SHIFT.
  destruct (Z.ltb_spec (32 * Z.of_nat k) (Z.of_nat (length w) * 32)) as [Hl|Hl].
  - apply returns_ret. destruct Hs as [Hs| ->]; [|simpl in Hl; lia]. apply stripped_bound in Hs as [Hb _]; [|done].
    assert (B ^ Z.of_nat k <= B ^ Z.of_nat (length w - 1)) by (apply Z.pow_le_mono_r; [apply B_pos|lia]).
    destruct (Z.ltb_spec (val w) (B ^ Z.of_nat k)); [lia|done].
  - assert (B ^ Z.of_nat (length w) <= B ^ Z.of_nat k) as Hle by (apply Z.pow_le_mono_r; [apply B_pos|lia]).
    pose proof (val_bounds w Hw) as Hb. destruct (Z.ltb_spec (val w) (B ^ Z.of_nat k)) as [_|]; [|lia].
    apply returns_bind. rewrite rev_alt. change (rev_append w []) with (limbs w).
    eapply returns_mono; [apply (returns_for_imap (fun i acc => acc = lval (take i (limbs w))))|].
    + by rewrite take_0.
    + intros i d acc Hd ->. assert (i < length w)%nat as Hi by (rewrite <- length_limbs; by eapply lookup_lt_Some).
      rewrite Z.shiftl_mul_pow2 by lia. rewrite Z.mul_comm in Hl. rewrite pow_limbs.
      pose proof (lval_take_S (limbs w) i) as HS. rewrite Hd in HS. simpl default in HS.
      apply big_ok_limbs in Hw. pose proof (lval_bounds _ (Forall_take _ i _ Hw)) as [H0 _].
      pose proof (lval_bounds _ (Forall_take _ (Datatypes.S i) _ Hw)) as [_ H1]. rewrite length_take_le in H1 by (rewrite length_limbs; lia).
      assert (B ^ Z.of_nat (Datatypes.S i) <= B ^ Z.of_nat k) by (apply Z.pow_le_mono_r; [apply B_pos|lia]).
      assert (limb d) as [Hd0 _] by (by eapply Forall_lookup_1). pose proof (Bpow_pos i).
      unfold cast. rewrite Z.mod_small by nia. apply returns_arith; lia.
    + intros acc ->. apply returns_ret. by rewrite take_ge.
Qed.
End Ops.

(* ===================================================================== *)
(** ** The order *)

Lemma digits_cmp_exact u v : big_ok u -> big_ok v -> length u = length v -> digits_cmp u v = (val u ?= val v).
Proof.
  revert v. induction u as [|d u IH]; intros [|d' v] Hu Hv Hl; simplify_eq/=; [done|].
  inversion_clear Hu as [|?? [Hd0 Hd1] Hu']. inversion_clear Hv as [|?? [He0 He1] Hv'].
  rewrite !val_cons, Hl. pose proof (val_bounds u Hu') as Hbu. pose proof (val_bounds v Hv') as Hbv. rewrite Hl in Hbu.
  pose proof (Bpow_pos (length v)). destruct (Z.compare_spec d d') as [->|Hlt|Hgt].
  - rewrite IH by done. symmetry. apply Zcompare_plus_compat.
  - symmetry. apply Z.compare_lt_iff. nia.
  - symmetry. apply Z.compare_gt_iff. nia.
Qed.

Lemma first_nonzero_exact u :
  big_ok u ->
  match first_nonzero u with
  | None => val u = 0
  | Some i => big_ok (drop i u) /\ stripped (drop i u) /\ val (drop i u) = val u
  end.
Proof.
  intros Hu. destruct (decide (u = [])) as [->|Hne]; [done|]. pose proof (lstrip_exact u Hne Hu) as (Hok & Hv & _ & _ & _).
  unfold lstrip, first_nonzero in *. destruct (Nat.eqb_spec (length u) 0) as [H0|H0]; [by destruct u|].
  destruct (list_find _ u) as [[i d]|] eqn:Hf; simpl in *.
  - apply list_find_Some in Hf as (Hi & Hd & _). split_and!; [done| |done]. by rewrite (drop_S _ d).
  - apply list_find_None in Hf. replace u with (replicate (length u) 0); [apply val_zeros|].
    apply replicate_as_elem_of. split; [done|]. intros y Hy. rewrite Forall_forall in Hf. apply dec_stable, Hf, Hy.
Qed.

Lemma big_cmp_exact u v : big_ok u -> big_ok v -> big_cmp u v = (val u ?= val v).
Proof.
  intros Hu Hv. pose proof (first_nonzero_exact u Hu) as H1. pose proof (first_nonzero_exact v Hv) as H2. unfold big_cmp.
  assert (forall w, big_ok w -> stripped w -> 0 < val w) as Hp.
  { intros w Hw Hs%stripped_bound; [|done]. pose proof (Bpow_pos (length w - 1)). lia. }
  destruct (first_nonzero u) as [i|], (first_nonzero v) as [j|].
  - destruct H1 as (Hu' & Hs & <-), H2 as (Hv' & Hs' & <-). set (u' := drop i u) in *. set (v' := drop j v) in *. clearbody u' v'.
    apply stripped_bound in Hs as [Hb1 Hb2]; [|done]. apply stripped_bound in Hs' as [Hb3 Hb4]; [|done].
    destruct (Nat.compare_spec (length u') (length v')) as [He|Hlt|Hgt]; [by apply digits_cmp_exact| |]; symmetry.
    + assert (B ^ Z.of_nat (length u') <= B ^ Z.of_nat (length v' - 1)) by (apply Z.pow_le_mono_r; [apply B_pos|lia]). apply Z.compare_lt_iff. lia.
    + assert (B ^ Z.of_nat (length v') <= B ^ Z.of_nat (length u' - 1)) by (apply Z.pow_le_mono_r; [apply B_pos|lia]). apply Z.compare_gt_iff. lia.
  - destruct H1 as (Hu' & Hs & <-). rewrite H2. symmetry. apply Z.compare_gt_iff. auto.
  - destruct H2 as (Hv' & Hs & <-). rewrite H1. symmetry. apply Z.compare_lt_iff. auto.
  - by rewrite H1, H2.
Qed.

Lemma big_eq_exact u v : big_ok u -> big_ok v -> big_eq u v = (val u =? val v).
Proof.
  intros Hu Hv. unfold big_eq. rewrite big_cmp_exact by done. destruct (Z.compare_spec (val u) (val v)), (Z.eqb_spec (val u) (val v)); lia || done.
Qed.

Lemma is_zero_exact u : big_ok u -> is_zero u = (val u =? 0).
Proof.
  induction 1 as [|d u [Hd0 Hd1] Hu IH]; [done|]. simpl. rewrite val_cons, IH.
  pose proof (val_bounds u Hu). pose proof (Bpow_pos (length u)).
  destruct (Z.eqb_spec d 0) as [->|]; simpl; [done|]. symmetry. apply Z.eqb_neq. nia.
Qed.
