(* ===== verification/BigUintDiv.v ===== *)
(** * Big integers: the long division

    Knuth's algorithm D: the estimate of a digit from the leading limbs is the
    digit or one more, the loop that corrects it ends, no operation overflows,
    and the quotient and the remainder are those of the integers. *)

From S2P Require Import Prelude BigUint BigUintFacts BigUintNum.

Set Default Proof Using "Type".

(* ===================================================================== *)
(** ** The estimate of a digit

    [X] is the weight of the third limb: the divisor [V] has the leading limbs
    [va] and [vb], the dividend [U] has [ua], [ul] and [ub]. *)
Section Knuth.
Context (X va vb vr ua ul ub ur : Z).
Local Abbreviation V := ((va * B + vb) * X + vr).
Local Abbreviation T := (ua * B + ul).
Local Abbreviation U := ((T * B + ub) * X + ur).

Record leading : Prop := {
  lead_X : 0 < X;
  lead_va : limb va; lead_vb : limb vb; lead_ub : limb ub; lead_ua : limb ua; lead_ul : limb ul;
  lead_vr : 0 <= vr < X; lead_ur : 0 <= ur < X;
  lead_normal : B <= 2 * va;
  lead_small : U < B * V
}.

(** The digit is at most [q], and [r] is what the leading limbs leave. *)
Definition estimates (q r : Z) : Prop := q * va + r = T /\ 0 <= q /\ 0 <= r /\ U < (q + 1) * V.

Context (HL : leading).

Local Ltac unpack :=
  destruct HL as [HX [Hva0 Hva1] [Hvb0 Hvb1] [Hub0 Hub1] [Hua0 Hua1] [Hul0 Hul1] [Hvr0 Hvr1] [Hur0 Hur1] Hn Hs]; pose proof B_pos as HB.

Lemma V_bounds : 0 < B * X /\ va * (B * X) <= V < (va + 1) * (B * X).
Proof using ur ul ub ua HL.
  unpack. assert (0 < B * X) by (apply Z.mul_pos_pos; lia). assert (0 <= vb * X) by (apply Z.mul_nonneg_nonneg; lia).
  assert ((vb + 1) * X <= B * X) by (apply Z.mul_le_mono_nonneg_r; lia). lia.
Qed.

Lemma U_bounds : T * (B * X) <= U < (T + 1) * (B * X).
Proof using vr vb va HL.
  unpack. assert (0 <= ub * X) by (apply Z.mul_nonneg_nonneg; lia).
  assert ((ub + 1) * X <= B * X) by (apply Z.mul_le_mono_nonneg_r; lia). lia.
Qed.

Lemma T_bound : 0 <= T < B * va + B.
Proof using vr vb ur ub X HL.
  unpack. destruct V_bounds as (HP & _ & HV), U_bounds as [HU _]. split; [assert (0 <= ua * B) by (apply Z.mul_nonneg_nonneg; lia); lia|].
  apply (Z.mul_lt_mono_pos_r (B * X)); [done|]. apply (Z.mul_lt_mono_pos_l B) in HV; [lia|done].
Qed.

Lemma estimates_first : estimates (T / va) (T mod va).
Proof using HL.
  unpack. destruct V_bounds as (HP & HV & _), U_bounds as [_ HU], T_bound as [HT _]. assert (0 < va) as Hva by lia.
  pose proof (Z.div_mod T va ltac:(lia)) as Hdm. pose proof (Z.mod_pos_bound T va Hva) as Hm. pose proof (Z.div_pos T va HT Hva) as Hq.
  set (q := T / va) in *. set (r := T mod va) in *. clearbody q r. split_and!; [lia|lia|lia|].
  assert ((T + 1) * (B * X) <= (q + 1) * va * (B * X)) by (apply Z.mul_le_mono_nonneg_r; lia).
  apply (Z.mul_le_mono_nonneg_l _ _ (q + 1)) in HV; lia.
Qed.

Lemma estimates_next q r : estimates q r -> B <= q \/ B * r + ub < q * vb -> 1 <= q /\ estimates (q - 1) (r + va).
Proof using HL.
  unpack. intros (Ht & Hq & Hr & Hu) Hor. assert (0 <= B * r) by (apply Z.mul_nonneg_nonneg; lia).
  assert (1 <= q) as Hq1 by (destruct (decide (q = 0)) as [->|]; lia). split; [done|]. split_and!; [lia..|].
  replace (q - 1 + 1) with q by lia. destruct V_bounds as (HP & HV & _). destruct Hor as [Hb|Hb].
  - assert (0 <= va * (B * X)) by (apply Z.mul_nonneg_nonneg; lia). apply (Z.mul_le_mono_nonneg_r B q V) in Hb; lia.
  - assert (T * B + ub + 1 <= q * (va * B + vb)) as Hk by (rewrite <- Ht; lia).
    apply (Z.mul_le_mono_nonneg_r _ _ X) in Hk; [|lia]. assert (0 <= q * vr) by (apply Z.mul_nonneg_nonneg; lia). lia.
Qed.

Lemma estimates_last q r : estimates q r -> q < B -> q * vb <= B * r + ub -> (q - 1) * V <= U.
Proof using HL.
  unpack. intros (Ht & Hq & Hr & Hu) Hb Hle. destruct V_bounds as (HP & HV & _).
  assert (q * (va * B + vb) <= T * B + ub) as Hk by (rewrite <- Ht; lia).
  apply (Z.mul_le_mono_nonneg_r _ _ X) in Hk; [|lia]. assert (q * vr <= B * X) by (apply Z.mul_le_mono_nonneg; lia).
  assert (1 * (B * X) <= va * (B * X)) by (apply Z.mul_le_mono_nonneg_r; lia). lia.
Qed.

(** A remainder that left the range of a limb: nothing is left to correct. *)
Lemma estimates_large q r : estimates q r -> B <= r -> q < B /\ q * vb <= B * r + ub.
Proof using HL.
  unpack. intros (Ht & Hq & Hr & Hu) Hb. destruct T_bound as [_ HT].
  assert (q < B) by (apply (Z.mul_lt_mono_pos_r va); lia). split; [done|].
  assert (q * vb <= B * B) by (apply Z.mul_le_mono_nonneg; lia). apply (Z.mul_le_mono_nonneg_l _ _ B) in Hb; lia.
Qed.

Lemma estimates_bound q r : estimates q r -> q <= B + 1.
Proof using HL.
  unpack. intros (Ht & Hq & Hr & Hu). destruct T_bound as [_ HT]. cut (q < B + 2); [lia|]. apply (Z.mul_lt_mono_pos_r va); lia.
Qed.
End Knuth.

(* ===================================================================== *)
(** ** The leading limbs of lists *)

Lemma lval_take_mod l (k : nat) : Forall limb l -> (k <= length l)%nat -> lval (take k l) = lval l mod B ^ Z.of_nat k.
Proof.
  intros Hl Hk. rewrite (lval_take_drop l k). replace (Nat.min k (length l)) with k by lia.
  rewrite Z.mul_comm, Z.mod_add by (pose proof (Bpow_pos k); lia). symmetry. apply Z.mod_small.
  pose proof (lval_bounds (take k l) (Forall_take _ _ _ Hl)) as Hb. by rewrite length_take_le in Hb.
Qed.

Lemma leading_two l k : Forall limb l -> length l = S (S k) ->
  exists a b, l !! S k = Some a /\ l !! k = Some b /\ limb a /\ limb b /\
    0 <= lval (take k l) < B ^ Z.of_nat k /\ lval l = (a * B + b) * B ^ Z.of_nat k + lval (take k l).
Proof.
  intros Hl Hk. destruct (lookup_lt_is_Some_2 l (S k)) as [a Ha]; [lia|]. destruct (lookup_lt_is_Some_2 l k) as [b Hb]; [lia|].
  exists a, b. split_and!; [done|done|by eapply Forall_lookup_1|by eapply Forall_lookup_1| | |].
  - apply lval_bounds. by apply Forall_take.
  - pose proof (lval_bounds (take k l) (Forall_take _ _ _ Hl)) as Hx. rewrite length_take_le in Hx by lia. lia.
  - rewrite <- (take_ge l (S (S k))) at 1 by lia. rewrite !lval_take_S, Ha, Hb. simpl default. rewrite Bpow_S. ring.
Qed.

Lemma leading_three l k : Forall limb l -> length l = S (S (S k)) ->
  exists a b c, l !! S (S k) = Some a /\ l !! S k = Some b /\ l !! k = Some c /\ limb a /\ limb b /\ limb c /\
    0 <= lval (take k l) < B ^ Z.of_nat k /\ lval l = ((a * B + b) * B + c) * B ^ Z.of_nat k + lval (take k l).
Proof.
  intros Hl Hk. destruct (leading_two l (S k)) as (a & b & Ha & Hb & Hla & Hlb & Hr & He); [done|done|].
  destruct (lookup_lt_is_Some_2 l k) as [c Hc]; [lia|]. assert (limb c) by (by eapply Forall_lookup_1).
  exists a, b, c. pose proof (lval_bounds (take k l) (Forall_take _ _ _ Hl)) as Hx. rewrite length_take_le in Hx by lia.
  split_and!; [done..|apply Hx|apply Hx|]. rewrite He, lval_take_S, Hc. simpl default. rewrite Bpow_S. ring.
Qed.

(** The window of the dividend at the digit [j]. *)
Definition window_at (s : BigUint) (j n : nat) : list Z := take (n + 1) (drop j (limbs s)).

Lemma window_lookup s j n i : (i <= n)%nat -> window_at s j n !! i = limbs s !! (j + i)%nat.
Proof. intros Hi. unfold window_at. rewrite lookup_take_lt by lia. by rewrite lookup_drop. Qed.

Lemma window_ok s j n : big_ok s -> (j + n < length s)%nat -> Forall limb (window_at s j n) /\ length (window_at s j n) = (n + 1)%nat.
Proof.
  intros Hs%big_ok_limbs Hj. split; [by apply Forall_take, Forall_drop|]. unfold window_at. rewrite length_take_le; [done|].
  rewrite length_drop, length_limbs. lia.
Qed.

Section Division.
Context {P : Profile} {S E : Type}.
Local Abbreviation returns := (returns (S := S) (E := E)).
Implicit Types (u v w s : BigUint) (n m j : nat).

(** A normalized divisor of [n] limbs. *)
Definition normalized v n : Prop :=
  big_ok v /\ length v = n /\ (2 <= n)%nat /\ exists va, limbs v !! (n - 1)%nat = Some va /\ B <= 2 * va.

(** The digit of [U] by [V], or one more. *)
Definition nearly (U V qhat : Z) : Prop := 0 <= qhat < B /\ (qhat - 1) * V <= U < (qhat + 1) * V.

Lemma returns_window s j n (Q : list Z -> Prop) :
  big_ok s -> (j + n < length s)%nat ->
  (forall l, big_ok l -> length l = (n + 1)%nat -> limbs l = window_at s j n -> Q l) -> returns (window s j n) Q.
Proof.
  intros Hs Hj HQ. unfold window.
  eapply returns_mono; [apply (returns_for_rev (fun d l => (d <= j + n + 1)%nat /\ reverse l = take (j + n + 1 - d) (drop d (limbs s))) j (n + 1))|].
  - split; [lia|]. by replace (j + n + 1 - (j + (n + 1)))%nat with 0%nat by lia.
  - intros d l Hd [_ Hl]. apply returns_bind, get_in_range; [done|lia|]. intros x Hx _. apply returns_ret. split; [lia|].
    rewrite reverse_snoc, Hl. rewrite (drop_S _ x d) by done. replace (j + n + 1 - d)%nat with (Datatypes.S (j + n + 1 - Datatypes.S d)) by lia. done.
  - intros l [_ Hl]. replace (j + n + 1 - j)%nat with (n + 1)%nat in Hl by lia. destruct (window_ok s j n Hs Hj) as [Ho Hlen].
    apply HQ; [|rewrite <- length_limbs; unfold limbs; by rewrite Hl|done]. apply big_ok_limbs. unfold limbs. by rewrite Hl.
Qed.

Section Estimate.
Context (v s : BigUint) (n j : nat) (X va vb vr ua ul ub ur : Z).
Context (HL : leading X va vb vr ua ul ub ur).
Context (Hva : limbs v !! (n - 1)%nat = Some va) (Hvb : limbs v !! (n - 2)%nat = Some vb).
Context (Hua : limbs s !! (j + n)%nat = Some ua) (Hul : limbs s !! (j + n - 1)%nat = Some ul) (Hub : limbs s !! (j + n - 2)%nat = Some ub).
Local Abbreviation est := (estimates X va vb vr ua ul ub ur).

Lemma returns_div_test (q r : Z) (Q : bool * (Z * Z) -> Prop) :
  est q r -> r < B ->
  (est (q - 1) (r + va) -> Q (true, (q - 1, r + va))) ->
  (q < B -> q * vb <= B * r + ub -> Q (false, (q, r))) ->
  returns (div_test v s n j (q, r)) Q.
Proof using Hvb Hva Hub HL.
  intros He Hr Ht Hf. unfold div_test. pose proof (estimates_bound _ _ _ _ _ _ _ _ HL q r He) as Hqb. pose proof He as (_ & Hq & Hr0 & _).
  destruct (lead_va _ _ _ _ _ _ _ _ HL), (lead_vb _ _ _ _ _ _ _ _ HL), (lead_ub _ _ _ _ _ _ _ _ HL). pose proof B_pos as HB.
  apply returns_bind, (returns_get _ _ vb); [done|].
  assert (0 <= q * vb <= (B + 1) * (B - 1)) by (split; [apply Z.mul_nonneg_nonneg|apply Z.mul_le_mono_nonneg]; lia).
  apply returns_bind, returns_arith; [rewrite U64_B; lia|].
  assert (0 <= B * r <= B * (B - 1)) by (split; [apply Z.mul_nonneg_nonneg|apply Z.mul_le_mono_nonneg_l]; lia).
  apply returns_bind, returns_arith; [rewrite U64_B; lia|]. apply returns_bind, (returns_get _ _ ub); [done|].
  apply returns_bind, returns_arith; [rewrite U64_B; lia|].
  destruct ((B <=? q) || (B * r + ub <? q * vb)) eqn:Hc.
  - apply orb_true_iff in Hc as Hor. rewrite Z.leb_le, Z.ltb_lt in Hor.
    destruct (estimates_next _ _ _ _ _ _ _ _ HL q r He Hor) as [Hq1 Hn]. pose proof U64_room.
    apply returns_bind, returns_arith; [lia|]. apply returns_bind, (returns_get _ _ va); [done|].
    apply returns_bind, returns_arith; [lia|]. by apply returns_ret, Ht.
  - apply orb_false_iff in Hc as [Hc1%Z.leb_gt Hc2%Z.ltb_ge]. by apply returns_ret, Hf.
Qed.

Local Abbreviation VV := ((va * B + vb) * X + vr).
Local Abbreviation UU := (((ua * B + ul) * B + ub) * X + ur).

Lemma returns_test_loop fuel (q r : Z) :
  est q r -> (0 < fuel)%nat -> B <= r + Z.of_nat (fuel - 1) * va ->
  returns (test_loop fuel v s n j (q, r)) (nearly UU VV).
Proof using Hvb Hva Hub HL.
  revert q r. induction fuel as [|fuel IH]; intros q r He Hf Hm; [lia|]. simpl. pose proof He as (_ & Hq & _ & Hu).
  destruct (Z.ltb_spec r B) as [Hr|Hr].
  - apply returns_bind, returns_div_test; [done|done| |].
    + intros He'. destruct fuel as [|fuel]; [simpl in Hm; lia|]. apply IH; [done|lia|].
      replace (Datatypes.S (Datatypes.S fuel) - 1)%nat with (Datatypes.S fuel) in Hm by lia.
      replace (Datatypes.S fuel - 1)%nat with fuel by lia. rewrite Nat2Z.inj_succ in Hm. lia.
    + intros Hb Hle. apply returns_ret. split; [simpl; lia|]. split; [|done]. by apply (estimates_last _ _ _ _ _ _ _ _ HL q r).
  - destruct (estimates_large _ _ _ _ _ _ _ _ HL q r He Hr) as [Hb Hle]. apply returns_ret. split; [lia|]. split; [|done].
    by apply (estimates_last _ _ _ _ _ _ _ _ HL q r).
Qed.

Lemma returns_estimate_leading : returns (estimate v s n j) (nearly UU VV).
Proof using Hvb Hva Hul Hub Hua HL.
  unfold estimate. destruct (T_bound _ _ _ _ _ _ _ _ HL) as [HT0 HT1]. pose proof (estimates_first _ _ _ _ _ _ _ _ HL) as He.
  destruct (lead_va _ _ _ _ _ _ _ _ HL), (lead_ua _ _ _ _ _ _ _ _ HL), (lead_ul _ _ _ _ _ _ _ _ HL). pose proof (lead_normal _ _ _ _ _ _ _ _ HL).
  pose proof B_pos as HB. assert (0 <= ua * B <= (B - 1) * B) by (split; [apply Z.mul_nonneg_nonneg|apply Z.mul_le_mono_nonneg_r]; lia).
  apply returns_bind, (returns_get _ _ ua); [done|]. apply returns_bind, returns_arith; [rewrite U64_B; lia|].
  apply returns_bind, (returns_get _ _ ul); [done|]. apply returns_bind, returns_arith; [rewrite U64_B; lia|].
  apply returns_bind, (returns_get _ _ va); [done|]. apply returns_bind, returns_div_single; [lia|].
  pose proof (Z.mod_pos_bound (ua * B + ul) va ltac:(lia)) as Hm. set (q := (ua * B + ul) / va) in *. set (r := (ua * B + ul) mod va) in *. clearbody q r.
  apply returns_bind, returns_div_test; [done|lia| |].
  - intros He'. apply returns_test_loop; [done|lia|]. simpl. lia.
  - intros _ _. apply returns_test_loop; [done|lia|]. simpl. lia.
Qed.
End Estimate.

Lemma returns_estimate v s n j :
  normalized v n -> big_ok s -> (j + n < length s)%nat -> lval (window_at s j n) < B * val v ->
  returns (estimate v s n j) (nearly (lval (window_at s j n)) (val v)).
Proof.
  intros (Hv & Hn & H2 & va & Hva & Hnorm) Hs Hj HU. destruct (window_ok s j n Hs Hj) as [Hw Hwl].
  apply big_ok_limbs in Hv. destruct n as [|[|k]]; [lia..|].
  destruct (leading_two (limbs v) k) as (va' & vb & Ha & Hb & Hla & Hlb & Hr & HV); [done|by rewrite length_limbs|].
  replace (Datatypes.S (Datatypes.S k) - 1)%nat with (Datatypes.S k) in Hva by lia. simplify_eq.
  destruct (leading_three (window_at s j (Datatypes.S (Datatypes.S k))) k) as (ua & ul & ub & Hua & Hul & Hub & Hlua & Hlul & Hlub & Hur & HUe); [done|lia|].
  rewrite !window_lookup in Hua, Hul, Hub by lia. unfold val in *. rewrite HV, HUe in HU. rewrite HV, HUe.
  apply returns_estimate_leading; [|done|by replace (Datatypes.S (Datatypes.S k) - 2)%nat with k by lia|done| |].
  - split; [apply Bpow_pos|done..].
  - rewrite <- Hul. f_equal. lia.
  - rewrite <- Hub. f_equal. lia.
Qed.

(** Limbs [lo] to [hi] of [s] replaced by those of [t] from [lo - j] on. *)
Definition patched s t (j lo hi : nat) s' : Prop :=
  big_ok s' /\ length s' = length s /\
  forall i, limbs s' !! i = if decide (lo <= i < hi)%nat then limbs t !! (i - j)%nat else limbs s !! i.

Lemma patch_limb s t (j d : nat) s' (Q : BigUint -> Prop) :
  big_ok t -> big_ok s' -> (j <= d < length s')%nat -> (d - j < length t)%nat ->
  (forall w, big_ok w -> length w = length s' -> (forall i, limbs w !! i = if decide (i = d) then limbs t !! (d - j)%nat else limbs s' !! i) -> Q w) ->
  returns (let! x := get t (d - j)%nat in set s' d x) Q.
Proof.
  intros Ht Hs' Hd Hdt HQ. apply returns_bind, get_in_range; [done..|]. intros x Hx Hlx.
  apply returns_set; [done|done|lia|]. intros w Hw Hlw Hli. apply HQ; [done..|]. intros i. rewrite Hli, Hx.
  destruct (decide (i = d)) as [->|Hne]; [apply list_lookup_insert_eq; rewrite length_limbs; lia|by apply list_lookup_insert_ne].
Qed.

Lemma returns_patch s t j n :
  big_ok s -> big_ok t -> (j + n < length s)%nat -> (n < length t)%nat ->
  returns (for_fold (seq j (n + 1)) s (fun s d => let! x := get t (d - j)%nat in set s d x)) (patched s t j j (j + n + 1)).
Proof.
  intros Hs Ht Hj Hn. replace (j + n + 1)%nat with (j + (n + 1))%nat by lia. apply (returns_for_seq (patched s t j j)).
  - split_and!; [done..|]. intros i. by rewrite decide_False by lia.
  - intros d s' Hd (Hok & Hl & Hi). apply (patch_limb s); [done..|lia|lia|]. intros w Hw Hlw Hwi. split_and!; [done|lia|].
    intros i. rewrite Hwi, Hi. repeat destruct (decide _); subst; done || lia.
Qed.

Lemma returns_patch_rev s t j n :
  big_ok s -> big_ok t -> (j + n < length s)%nat -> (n < length t)%nat ->
  returns (for_fold (rev (seq j (n + 1))) s (fun s d => let! x := get t (d - j)%nat in set s d x)) (patched s t j j (j + n + 1)).
Proof.
  intros Hs Ht Hj Hn. apply (returns_for_rev (fun lo => patched s t j lo (j + n + 1))).
  - split_and!; [done..|]. intros i. by rewrite decide_False by lia.
  - intros d s' Hd (Hok & Hl & Hi). apply (patch_limb s); [done..|lia|lia|]. intros w Hw Hlw Hwi. split_and!; [done|lia|].
    intros i. rewrite Hwi, Hi. repeat destruct (decide _); subst; done || lia.
Qed.

(** What a patch of the window does to the value. *)
Lemma patched_window s t j n s' :
  big_ok t -> (n < length t)%nat -> (j + n < length s)%nat -> patched s t j j (j + n + 1) s' ->
  lval (window_at s' j n) = val t mod B ^ Z.of_nat (n + 1) /\
  take j (limbs s') = take j (limbs s) /\ drop (j + n + 1) (limbs s') = drop (j + n + 1) (limbs s).
Proof.
  intros Ht Hn Hj (_ & Hl & Hi). split_and!.
  - assert (window_at s' j n = take (n + 1) (limbs t)) as ->.
    { apply list_eq. intros i. destruct (decide (i <= n)%nat) as [Hin|Hin].
      - rewrite window_lookup, Hi, decide_True, lookup_take_lt by lia. f_equal. lia.
      - unfold window_at. by rewrite !lookup_take_ge by lia. }
    apply lval_take_mod; [by rewrite <- big_ok_limbs|]. rewrite length_limbs. lia.
  - apply list_eq. intros i. destruct (decide (i < j)%nat) as [Hij|Hij]; [|by rewrite !lookup_take_ge by lia].
    by rewrite !lookup_take_lt, Hi, decide_False by lia.
  - apply list_eq. intros i. by rewrite !lookup_drop, Hi, decide_False by lia.
Qed.

Lemma val_at s j : (j <= length s)%nat -> val s = lval (take j (limbs s)) + B ^ Z.of_nat j * lval (drop j (limbs s)).
Proof. intros Hj. unfold val. rewrite (lval_take_drop (limbs s) j). rewrite length_limbs. by replace (Nat.min j (length s)) with j by lia. Qed.

Lemma drop_window s j n : (j + n < length s)%nat ->
  lval (drop j (limbs s)) = lval (window_at s j n) + B ^ Z.of_nat (n + 1) * lval (drop (j + n + 1) (limbs s)).
Proof.
  intros Hj. rewrite (lval_take_drop (drop j (limbs s)) (n + 1)), length_drop, length_limbs, drop_drop.
  replace (Nat.min (n + 1) (length s - j)) with (n + 1)%nat by lia. by replace (j + n + 1)%nat with (j + (n + 1))%nat by lia.
Qed.

(** The rest of the dividend fits into the window. *)
Lemma window_all s j n :
  big_ok s -> (j + n < length s)%nat -> lval (drop j (limbs s)) < B ^ Z.of_nat (n + 1) ->
  lval (drop (j + n + 1) (limbs s)) = 0 /\ lval (window_at s j n) = lval (drop j (limbs s)).
Proof.
  intros Hs%big_ok_limbs Hj Hb. pose proof (drop_window s j n Hj) as He. pose proof (lval_bounds _ (Forall_drop _ (j + n + 1) _ Hs)) as [H0 _].
  assert (0 <= lval (window_at s j n)) as H1 by (apply lval_bounds; by apply Forall_take, Forall_drop).
  pose proof (Bpow_pos (n + 1)). assert (lval (drop (j + n + 1) (limbs s)) = 0) as Hz.
  { destruct (decide (lval (drop (j + n + 1) (limbs s)) = 0)) as [|Hne]; [done|].
    assert (B ^ Z.of_nat (n + 1) * 1 <= B ^ Z.of_nat (n + 1) * lval (drop (j + n + 1) (limbs s))) by (apply Z.mul_le_mono_nonneg_l; lia). lia. }
  split; [done|]. rewrite Hz in He. lia.
Qed.

Lemma patched_value s t j n s' :
  big_ok t -> (n < length t)%nat -> (j + n < length s)%nat -> lval (drop (j + n + 1) (limbs s)) = 0 -> patched s t j j (j + n + 1) s' ->
  let y := val t mod B ^ Z.of_nat (n + 1) in
  lval (window_at s' j n) = y /\ lval (drop j (limbs s')) = y /\ lval (drop (j + n + 1) (limbs s')) = 0 /\
  val s' = val s + B ^ Z.of_nat j * (y - lval (drop j (limbs s))).
Proof.
  intros Ht Hn Hj Hz Hp y. destruct (patched_window s t j n s' Ht Hn Hj Hp) as (Hw & Htk & Hdr). destruct Hp as (_ & Hl & _).
  assert (lval (drop j (limbs s')) = y) as Hd by (rewrite (drop_window s' j n) by lia; rewrite Hdr, Hz, Hw; lia).
  split_and!; [done|done|by rewrite Hdr|]. rewrite (val_at s' j), (val_at s j) by lia. rewrite Htk, Hd. ring.
Qed.

(** The loop of the division, with the digits from [j] on computed. *)
Definition dividing_digits v (orig : Z) n m j '(s, q) : Prop :=
  big_ok s /\ length s = (n + m + 1)%nat /\ big_ok q /\ length q = (m + 1)%nat /\
  (forall i, (i < j)%nat -> limbs q !! i = Some 0) /\
  lval (drop j (limbs s)) < val v /\ orig = val s + val v * val q.

Lemma set_digit (q : BigUint) j x y (Q : BigUint -> Prop) :
  big_ok q -> limb x -> (j < length q)%nat -> limbs q !! j = Some y -> (forall i, (i < j)%nat -> limbs q !! i = Some 0) ->
  (forall q', big_ok q' -> length q' = length q -> limbs q' !! j = Some x -> (forall i, (i < j)%nat -> limbs q' !! i = Some 0) ->
    val q' = val q + (x - y) * B ^ Z.of_nat j -> Q q') ->
  returns (set q j x) Q.
Proof.
  intros Hq Hx Hj Hy Hz HQ. apply returns_set; [done..|]. intros q' Hq' Hl Hli. apply HQ; [done..| | |].
  - rewrite Hli. apply list_lookup_insert_eq. by rewrite length_limbs.
  - intros i Hi. rewrite Hli, list_lookup_insert_ne by lia. by apply Hz.
  - unfold val. rewrite Hli. by apply lval_insert.
Qed.

(** Subtracting the estimated multiple: what is left, or one multiple less. *)
Lemma returns_subtract {A} v n l qhat (k : BigUint + BigUint -> M S E A) (Q : A -> Prop) :
  normalized v n -> big_ok l -> length l = (n + 1)%nat -> nearly (val l) (val v) qhat ->
  (forall t, big_ok t -> (n < length t)%nat -> 0 <= val l - val v * qhat ->
    val t mod B ^ Z.of_nat (n + 1) = val l - val v * qhat -> returns (k (inl t)) Q) ->
  (forall t, big_ok t -> (n < length t)%nat -> 1 <= qhat -> val l < val v * qhat ->
    val t mod B ^ Z.of_nat (n + 1) = val l - val v * qhat + B ^ Z.of_nat (n + 1) -> returns (k (inr t)) Q) ->
  returns (big_mul v (from_u64 qhat)) (fun rhs => returns (bind (big_sub l rhs) k) Q).
Proof.
  intros (Hv & Hn & H2 & _) Hl Hll [[Hq0 Hq1] [Hlo Hhi]] HQl HQr. pose proof U64_room. pose proof B_pos as HB.
  destruct (from_u64_exact qhat) as (Hf & Hfl & Hfv); [lia|].
  eapply returns_mono; [apply big_mul_exact; [done|done|lia|lia]|]. intros rhs (Hr & Hrl & Hrv). rewrite Hfv in Hrv.
  apply returns_bind. eapply returns_mono; [apply big_sub_exact; [done|done|lia]|]. cbv zeta. rewrite Hll, Hrl, Hn, Hfl, Hrv.
  replace (Nat.max (n + 1) (2 + n)) with (Datatypes.S (n + 1)) by lia. rewrite Bpow_S.
  pose proof (val_bounds l Hl) as Hlb. rewrite Hll in Hlb. pose proof (val_bounds v Hv) as Hvb. rewrite Hn in Hvb.
  assert (B ^ Z.of_nat n <= B ^ Z.of_nat (n + 1)) as Hmono by (apply Z.pow_le_mono_r; lia).
  assert (0 <= val v * qhat) as Hp by (apply Z.mul_nonneg_nonneg; lia).
  intros [t|t].
  - intros (Ht & Htl & Htv). pose proof (val_bounds t Ht) as Htb. apply HQl; [done|lia|lia|]. rewrite Htv. apply Z.mod_small. lia.
  - intros (Ht & Htl & Htv & Hlt). apply HQr; [done|lia| |done|].
    + destruct (decide (qhat = 0)) as [->|]; lia.
    + symmetry. apply (Z.mod_unique _ _ (B - 1)); [|rewrite Htv; ring]. left. lia.
Qed.

(** The digit [d] in place: what is left is below the divisor. *)
Lemma digit_done v orig n m j s (q : BigUint) s' (q' : BigUint) y (dg : Z) :
  big_ok s' -> length s' = (n + m + 1)%nat -> big_ok q' -> length q' = (m + 1)%nat ->
  (forall i, (i < j)%nat -> limbs q' !! i = Some 0) -> orig = val s + val v * val q ->
  lval (drop j (limbs s')) = y -> y = lval (drop j (limbs s)) - val v * dg -> y < val v ->
  val s' = val s + B ^ Z.of_nat j * (y - lval (drop j (limbs s))) -> val q' = val q + dg * B ^ Z.of_nat j ->
  dividing_digits v orig n m j (s', q').
Proof.
  intros Hs Hsl Hq Hql Hz Horig Hy Hyv Hlt Hv' Hq'. split_and!; [done..|lia|]. rewrite Hv', Hq', Horig, Hyv. ring.
Qed.

Section Digit.
Context (v : BigUint) (orig : Z) (n m j : nat) (s q : BigUint) (qhat : Z).
Local Abbreviation D := (lval (drop j (limbs s))).
Context (Hnv : normalized v n) (Hj : (j <= m)%nat) (HI : dividing_digits v orig n m (Datatypes.S j) (s, q)).
Context (Hup : lval (drop (j + n + 1) (limbs s)) = 0) (Hnear : nearly D (val v) qhat).

Lemma digit_fits t :
  big_ok t -> (n < length t)%nat -> 0 <= D - val v * qhat -> val t mod B ^ Z.of_nat (n + 1) = D - val v * qhat ->
  returns
    (let! self_norm := for_fold (seq j (n + 1)) s (fun s d => let! x := get t (d - j)%nat in set s d x) in
     let! q := set q j (cast U32 qhat) in
     ret (self_norm, q)) (dividing_digits v orig n m j).
Proof using Hup Hnear Hj HI.
  intros Ht Htl Hge Hmod. destruct HI as (Hs & Hsl & Hq & Hql & Hz & Hrest & Horig), Hnear as [Hlim [_ Hhi]].
  apply returns_bind. eapply returns_mono; [apply returns_patch; [done|done|lia|lia]|]. intros s' Hp.
  destruct (patched_value s t j n s' Ht Htl ltac:(lia) Hup Hp) as (_ & Hd & _ & Hv'). destruct Hp as (Hs' & Hsl' & _).
  rewrite cast_small by done. apply returns_bind, (set_digit q j qhat 0); [done|done|lia|apply Hz; lia|intros; apply Hz; lia|].
  intros q' Hq' Hql' _ Hz' Hqv. apply returns_ret. rewrite Hmod in *.
  eapply (digit_done v orig n m j s q s' q' _ qhat); [done|lia|done|lia|done|done|done|done|lia|done|lia].
Qed.

Lemma digit_corrected t :
  big_ok t -> (n < length t)%nat -> 1 <= qhat -> D < val v * qhat ->
  val t mod B ^ Z.of_nat (n + 1) = D - val v * qhat + B ^ Z.of_nat (n + 1) ->
  returns
    (let! self_norm := for_fold (seq j (n + 1)) s (fun s d => let! x := get t (d - j)%nat in set s d x) in
     let! q := set q j (cast U32 qhat) in
     let! qj := get q j in
     let! qj := sub U32 qj 1 in
     let! q := set q j qj in
     let! u := window self_norm j n in
     let! r := big_add v u in
     let! self_norm := for_fold (rev (seq j (n + 1))) self_norm (fun s d => let! x := get r (d - j)%nat in set s d x) in
     ret (self_norm, q)) (dividing_digits v orig n m j).
Proof using Hup Hnv Hnear Hj HI.
  intros Ht Htl Hge Hneg Hmod. destruct HI as (Hs & Hsl & Hq & Hql & Hz & Hrest & Horig), Hnear as [[Hlim0 Hlim1] [Hlo Hhi]].
  destruct Hnv as (Hv & Hn & _).
  apply returns_bind. eapply returns_mono; [apply returns_patch; [done|done|lia|lia]|]. intros s' Hp.
  destruct (patched_value s t j n s' Ht Htl ltac:(lia) Hup Hp) as (Hw & Hd & Hup' & Hv'). destruct Hp as (Hs' & Hsl' & _).
  rewrite cast_small by done. apply returns_bind, (set_digit q j qhat 0); [done|done|lia|apply Hz; lia|intros; apply Hz; lia|].
  intros q1 Hq1 Hql1 Hqj Hz1 Hqv1. apply returns_bind, (returns_get _ _ qhat); [done|].
  apply returns_bind, returns_arith; [change U32 with B; lia|].
  apply returns_bind, (set_digit q1 j (qhat - 1) qhat); [done|split; lia|lia|done|done|]. intros q2 Hq2 Hql2 _ Hz2 Hqv2.
  apply returns_bind, returns_window; [done|lia|]. intros l Hl Hll Hlw.
  apply returns_bind. eapply returns_mono; [by apply big_add_exact|]. intros r (Hr & Hrl & Hrv). unfold val in Hrv at 3. rewrite Hlw, Hw, Hmod in Hrv.
  apply returns_bind. eapply returns_mono; [apply returns_patch_rev; [done|done|lia|lia]|]. intros s2 Hp2.
  destruct (patched_value s' r j n s2 Hr ltac:(lia) ltac:(lia) Hup' Hp2) as (_ & Hd2 & _ & Hv2). destruct Hp2 as (Hs2 & Hsl2 & _).
  assert (val r mod B ^ Z.of_nat (n + 1) = D - val v * (qhat - 1)) as Hmod2.
  { pose proof (val_bounds v Hv) as Hvb. rewrite Hn in Hvb. assert (B ^ Z.of_nat n <= B ^ Z.of_nat (n + 1)) by (apply Z.pow_le_mono_r; [apply B_pos|lia]).
    symmetry. apply (Z.mod_unique _ _ 1); [left; lia|]. rewrite Hrv. ring. }
  apply returns_ret. rewrite Hmod2 in *.
  eapply (digit_done v orig n m j s q s2 q2 _ (qhat - 1)); [done|lia|done|lia|done|done|done|done|lia| |lia].
  rewrite Hv2, Hv', Hd. ring.
Qed.
End Digit.

Lemma returns_div_step v n m orig j s (q : BigUint) :
  normalized v n -> (j <= m)%nat -> dividing_digits v orig n m (Datatypes.S j) (s, q) ->
  returns (div_step v n (s, q) j) (dividing_digits v orig n m j).
Proof.
  intros Hnv Hj (Hs & Hsl & Hq & Hql & Hz & Hrest & Horig). pose proof Hnv as (Hv & Hn & H2 & _). unfold div_step.
  destruct (lookup_lt_is_Some_2 (limbs s) j) as [x Hx]; [rewrite length_limbs; lia|].
  pose proof (Forall_lookup_1 _ _ _ _ (proj1 (big_ok_limbs s) Hs) Hx) as [Hx0 Hx1]. pose proof (lval_drop _ _ _ Hx) as HdU.
  pose proof (val_bounds v Hv) as Hvb. rewrite Hn in Hvb. pose proof B_pos as HB. pose proof (Bpow_S n) as HBS.
  rewrite <- Nat.add_1_r in HBS. assert (lval (drop j (limbs s)) < B * val v) as HU.
  { rewrite HdU. assert (B * (lval (drop (Datatypes.S j) (limbs s)) + 1) <= B * val v) by (apply Z.mul_le_mono_nonneg_l; lia). lia. }
  assert (B * val v <= B * B ^ Z.of_nat n) as HVB by (apply Z.mul_le_mono_nonneg_l; lia).
  destruct (window_all s j n Hs) as [Hup Hwin]; [lia|lia|]. rewrite <- Hwin in HU.
  apply returns_bind. eapply returns_mono; [apply returns_estimate; [done|done|lia|done]|]. intros qhat Hnear.
  apply returns_bind, returns_window; [done|lia|]. intros l Hl Hll Hlw. assert (val l = lval (window_at s j n)) as Hlv by (unfold val; by rewrite Hlw).
  rewrite <- Hlv in Hnear. apply returns_bind. pose proof Hnear as [[Hq0 Hq1] [Hlo Hhi]].
  assert (dividing_digits v orig n m (Datatypes.S j) (s, q)) as HI by by split_and!.
  apply (returns_subtract v n l); [done..| |]; intros t Ht Htl; rewrite Hlv, Hwin in *; intros.
  - by apply digit_fits.
  - by apply digit_corrected.
Qed.
End Division.
