(* ===== verification/BigUintExact.v ===== *)
(** * Big integers: quotients, remainders and the multiplication by a rational

    The division is that of the integers, the greatest common divisor is, and
    what the multiplication by a rational returns. *)

From S2P Require Import Prelude BigUint BigUintFacts BigUintNum BigUintDiv.

Set Default Proof Using "Type".

(* ===================================================================== *)
(** ** Normalization *)

Lemma leading_zeros_spec x : 0 < x < B ->
  let nb := leading_zeros x in 0 <= nb <= 31 /\ B <= 2 * (x * 2 ^ nb) /\ (x + 1) * 2 ^ nb <= B.
Proof.
  intros Hx. unfold leading_zeros. destruct (Z.eqb_spec x 0); [lia|]. pose proof (Z.log2_spec x ltac:(lia)) as [Hlo Hhi].
  pose proof (Z.log2_nonneg x). assert (Z.log2 x < 32) by (apply Z.log2_lt_pow2; [lia|apply Hx]).
  set (k := Z.log2 x) in *. cbv zeta. assert (0 < 2 ^ (31 - k)) by (apply Z.pow_pos_nonneg; lia). split_and!; [lia|lia| |].
  - assert (B = 2 * (2 ^ k * 2 ^ (31 - k))) as -> by (rewrite <- Z.pow_add_r by lia; replace (k + (31 - k)) with 31 by lia; reflexivity).
    apply Z.mul_le_mono_nonneg_l; [lia|]. apply Z.mul_le_mono_nonneg_r; lia.
  - assert (B = 2 ^ Z.succ k * 2 ^ (31 - k)) as -> by (rewrite <- Z.pow_add_r by lia; replace (Z.succ k + (31 - k)) with 32 by lia; reflexivity).
    apply Z.mul_le_mono_nonneg_r; lia.
Qed.

Lemma B_even : B = 2 * 2 ^ 31.
Proof. reflexivity. Qed.

(** The product of the divisor and the normalizer, stripped. *)
Lemma normalized_lstrip d v w nb (n := S (length v)) :
  big_ok (d :: v) -> (1 <= length v)%nat -> B <= 2 * (d * 2 ^ nb) -> (d + 1) * 2 ^ nb <= B -> 0 < 2 ^ nb ->
  big_ok w -> length w = S n -> val w = val (d :: v) * 2 ^ nb ->
  normalized (lstrip w) n /\ val (lstrip w) = val w.
Proof.
  intros Hv Hl Hlo Hhi Hp Hw Hwl Hwv. destruct (lstrip_exact w) as (Ho & Hval & Hne & Hle & Hst); [by destruct w|done|].
  inversion_clear Hv as [|?? [Hd0 Hd1] Hv']. pose proof (val_bounds v Hv') as Hvb. rewrite val_cons in Hwv.
  set (X := B ^ Z.of_nat (length v)) in *. pose proof (Bpow_pos (length v)) as HX. fold X in HX. pose proof B_pos as HB.
  assert (d * X * 2 ^ nb <= val w < B * X) as [Hv1 Hv2].
  { rewrite Hwv. assert (0 <= val v * 2 ^ nb) by (apply Z.mul_nonneg_nonneg; lia).
    assert ((val v + 1) * 2 ^ nb <= X * 2 ^ nb) by (apply Z.mul_le_mono_nonneg_r; lia).
    assert ((d + 1) * 2 ^ nb * X <= B * X) by (apply Z.mul_le_mono_nonneg_r; lia). lia. }
  assert (B * X <= 2 * (d * 2 ^ nb) * X) as Hhalf by (apply Z.mul_le_mono_nonneg_r; lia).
  assert (1 <= d * 2 ^ nb) as Hd by lia. assert (0 < B * X) as HBX by (apply Z.mul_pos_pos; lia).
  assert (stripped (lstrip w)) as Hs by (apply Hst; lia). pose proof (stripped_bound _ Ho Hs) as [Hb1 Hb2]. rewrite Hval in Hb1, Hb2.
  assert (length (lstrip w) = n) as Hlen.
  { unfold n in *. pose proof (Bpow_S (length v)) as HS. fold X in HS. apply Nat.le_antisymm.
    - apply Nat.nlt_ge. intros Hgt. replace (length (lstrip w) - 1)%nat with (S (length v)) in Hb1 by lia. lia.
    - apply Nat.nlt_ge. intros Hlt. assert (B ^ Z.of_nat (length (lstrip w)) <= X) by (apply Z.pow_le_mono_r; lia).
      assert (1 * X <= d * 2 ^ nb * X) by (apply Z.mul_le_mono_nonneg_r; lia). lia. }
  split; [|done]. split_and!; [done|done|unfold n; lia|].
  destruct (lstrip w) as [|a r]; [done|]. exists a. simpl in Hlen. replace (n - 1)%nat with (length r) by lia. split.
  - unfold limbs. rewrite reverse_cons, lookup_app_r by (rewrite length_reverse; lia). by rewrite length_reverse, Nat.sub_diag.
  - inversion_clear Ho as [|?? [Ha0 Ha1] Hr]. pose proof (val_bounds r Hr) as Hrb. rewrite val_cons in Hval.
    replace (length r) with (length v) in * by lia. fold X in Hrb, Hval.
    assert (B * X < 2 * (a + 1) * X) as Hc by lia. apply Z.mul_lt_mono_pos_r in Hc; [|done]. rewrite B_even in *. lia.
Qed.

(* ===================================================================== *)
(** ** Undoing the normalization *)

Lemma lor_disjoint a x k : 0 <= k -> 0 <= a < 2 ^ k -> Z.lor a (x * 2 ^ k) = a + x * 2 ^ k.
Proof.
  intros Hk Ha. pose proof (Z.add_lor_land a (x * 2 ^ k)) as He.
  assert (Z.land a (x * 2 ^ k) = 0) as Hz; [|lia]. apply Z.bits_inj'. intros i Hi. rewrite Z.land_spec, Z.bits_0.
  destruct (Z.lt_ge_cases i k) as [Hlt|Hge].
  - rewrite (Z.mul_pow2_bits_low x) by lia. apply andb_false_r.
  - destruct (decide (a = 0)) as [->|Hne]; [by rewrite Z.bits_0|]. rewrite (Z.bits_above_log2 a); [done|lia|].
    assert (Z.log2 a < k) by (apply Z.log2_lt_pow2; lia). lia.
Qed.

(** One limb of the quotient by a power of two, from two. *)
Lemma shifted_limb lo hi nb : limb lo -> limb hi -> 1 <= nb <= 31 ->
  let x := Z.lor (Z.shiftr lo nb) (cast U32 (Z.shiftl hi (Z.land (32 - nb) 31))) in
  limb x /\ 2 ^ nb * x = lo - lo mod 2 ^ nb + B * (hi mod 2 ^ nb).
Proof.
  intros [Hlo0 Hlo1] [Hhi0 Hhi1] Hnb. cbv zeta.
  assert (Z.land (32 - nb) 31 = 32 - nb) as ->.
  { change 31 with (Z.ones 5). rewrite Z.land_ones by lia. apply Z.mod_small. change (2 ^ 5) with 32. lia. }
  rewrite Z.shiftr_div_pow2, Z.shiftl_mul_pow2 by lia. set (p := 2 ^ nb). set (p' := 2 ^ (32 - nb)).
  assert (0 < p) as Hp by (apply Z.pow_pos_nonneg; lia). assert (0 < p') as Hp' by (apply Z.pow_pos_nonneg; lia).
  assert (B = p * p') as HB by (unfold p, p'; rewrite <- Z.pow_add_r by lia; replace (nb + (32 - nb)) with 32 by lia; done).
  unfold cast. change U32 with B. rewrite HB, Z.mul_mod_distr_r by lia.
  pose proof (Z.div_mod lo p ltac:(lia)) as Hdm. pose proof (Z.mod_pos_bound lo p Hp). pose proof (Z.mod_pos_bound hi p Hp).
  assert (0 <= lo / p < p') as Hq by (split; [apply Z.div_pos; lia|apply Z.div_lt_upper_bound; lia]).
  pose proof (lor_disjoint (lo / p) (hi mod p) (32 - nb) ltac:(lia) Hq) as Hor. fold p' in Hor. rewrite Hor. split; [|lia]. unfold limb. rewrite HB.
  assert ((hi mod p + 1) * p' <= p * p') by (apply Z.mul_le_mono_nonneg_r; lia). assert (0 <= hi mod p * p') by (apply Z.mul_nonneg_nonneg; lia). lia.
Qed.

Lemma nonempty_pos (u : BigUint) : u <> [] <-> (0 < length u)%nat.
Proof. destruct u; simpl; [|naive_solver lia]. split; [done|lia]. Qed.

Section Division.
Context {P : Profile} {S E : Type}.
Local Abbreviation returns := (returns (S := S) (E := E)).
Implicit Types (u v w s : BigUint) (n m : nat).

(** The limbs below [d] are shifted. *)
Definition shifting s n nb (d : nat) (r : BigUint) : Prop :=
  big_ok r /\ length r = n /\
  2 ^ nb * lval (take d (limbs r)) =
    lval (take d (limbs s)) - default 0 (limbs s !! 0%nat) mod 2 ^ nb + B ^ Z.of_nat d * (default 0 (limbs s !! d) mod 2 ^ nb).

Lemma returns_denormalize s n nb R :
  big_ok s -> (1 <= n <= length s)%nat -> 0 <= nb <= 31 -> val s = 2 ^ nb * R -> val s < B ^ Z.of_nat n ->
  returns (denormalize s (with_capacity n) n nb) (fun r => big_ok r /\ val r = R /\ r <> []).
Proof.
  intros Hs Hn Hnb HR Hfit. unfold denormalize. destruct (Z.ltb_spec 0 nb) as [Hpos|].
  2: { apply returns_ret. replace nb with 0 in HR by lia. split_and!; [done|lia|apply nonempty_pos; lia]. }
  destruct (with_capacity_ok n) as (Hok & Hl & _); [lia|]. assert (0 < 2 ^ nb) as Hp by (apply Z.pow_pos_nonneg; lia).
  apply returns_bind. eapply returns_mono; [apply (returns_for_seq (shifting s n nb) 0 (n - 1))|].
  - split_and!; [done..|]. rewrite !take_0. simpl. lia.
  - intros d r Hd (Hr & Hrl & He). apply returns_bind, get_in_range; [done|lia|]. intros lo Hlo Hll.
    apply returns_bind, get_in_range; [done|lia|]. intros hi Hhi Hlh. unfold SHIFT.
    apply returns_bind, returns_arith; [change U32 with B; unfold B, U32; lia|].
    destruct (shifted_limb lo hi nb Hll Hlh) as [Hx Hxe]; [lia|]. set (x := Z.lor _ _) in *. clearbody x.
    apply returns_set; [done|done|lia|]. intros w Hw Hwl Hli. split_and!; [done|lia|].
    rewrite Hli, lval_take_insert by (rewrite length_limbs; lia). rewrite lval_take_S. replace (Datatypes.S d) with (d + 1)%nat by lia.
    rewrite Hhi, Hlo in *. simpl default in *. rewrite Bpow_add, Z.mul_add_distr_l, He. change (B ^ Z.of_nat 1) with B.
    replace (2 ^ nb * (x * B ^ Z.of_nat d)) with (2 ^ nb * x * B ^ Z.of_nat d) by ring. rewrite Hxe. ring.
  - intros r (Hr & Hrl & He). apply returns_bind, get_in_range; [done|lia|]. intros hi Hhi [Hh0 Hh1]. simpl in He. rewrite Hhi in He. simpl default in He.
    assert (limb (Z.shiftr hi nb)) as Hx.
    { rewrite Z.shiftr_div_pow2 by lia. split; [apply Z.div_pos; lia|]. apply Z.div_lt_upper_bound; [lia|]. assert (1 * B <= 2 ^ nb * B) by (apply Z.mul_le_mono_nonneg_r; lia). lia. }
    apply returns_set; [done|done|lia|]. intros w Hw Hwl Hli. split_and!; [done| |apply nonempty_pos; lia].
    assert (2 ^ nb * val w = lval (take n (limbs s)) - default 0 (limbs s !! 0%nat) mod 2 ^ nb) as Hval.
    { rewrite <- (take_limbs_all w n) by lia. replace n with (Datatypes.S (n - 1)) at 1 by lia. rewrite Hli, lval_take_insert by (rewrite length_limbs; lia).
      rewrite Z.mul_add_distr_l, He, Z.shiftr_div_pow2 by lia.
      assert (lval (take n (limbs s)) = lval (take (n - 1) (limbs s)) + hi * B ^ Z.of_nat (n - 1)) as ->.
      { replace n with (Datatypes.S (n - 1)) at 1 by lia. by rewrite lval_take_S, Hhi. }
      rewrite (Z.div_mod hi (2 ^ nb)) at 3 by lia. ring. }
    apply big_ok_limbs in Hs. rewrite lval_take_mod in Hval by (rewrite ?length_limbs; (done || lia)). fold (val s) in Hval. rewrite Z.mod_small in Hval by (split; [apply lval_bounds in Hs; unfold val; lia|done]).
    pose proof (Z.mod_pos_bound (default 0 (limbs s !! 0%nat)) (2 ^ nb) Hp) as He0. rewrite HR in Hval.
    destruct (Z.lt_trichotomy (val w) R) as [Hc|[Hc|Hc]]; [|done|].
    + assert (2 ^ nb * (val w + 1) <= 2 ^ nb * R) by (apply Z.mul_le_mono_nonneg_l; lia). lia.
    + assert (2 ^ nb * (R + 1) <= 2 ^ nb * val w) by (apply Z.mul_le_mono_nonneg_l; lia). lia.
Qed.

(** Which arguments the division refuses. *)
Definition undivided u v : Prop := (length v <= 1)%nat \/ head v = Some 0 \/ head u = Some 0 \/ (length u <= length v)%nat.

Lemma returns_div_refused u v : u <> [] ->
  returns (div_refused u v) (fun b => if b then undivided u v
    else stripped v /\ stripped u /\ (2 <= length v < length u)%nat).
Proof.
  intros Hu. unfold div_refused, undivided. destruct (Nat.leb_spec (length v) 1); [apply returns_ret; by left|].
  destruct v as [|d v]; [simpl in *; lia|]. destruct u as [|d' u]; [done|].
  apply returns_bind, (returns_unwrap _ d); [done|]. destruct (Z.eqb_spec d 0) as [->|Hd]; [apply returns_ret; right; by left|].
  apply returns_bind, (returns_unwrap _ d'); [done|]. apply returns_ret.
  destruct (Z.eqb_spec d' 0) as [->|Hd']; [right; right; by left|].
  cbn [orb]. destruct (Nat.leb_spec (length (d' :: u)) (length (d :: v))); [by do 3 right|]. split_and!; [done..|lia|lia].
Qed.

(** The normalized division: the digits and what is left. *)
Lemma returns_digits s v n m orig :
  normalized v n -> big_ok s -> length s = (n + m + 1)%nat -> val s = orig -> lval (drop (m + 1) (limbs s)) < val v ->
  returns (for_fold (rev (seq 0 (m + 1))) (s, with_capacity (m + 1)) (div_step v n))
    (fun '(s', q) => big_ok s' /\ length s' = (n + m + 1)%nat /\ big_ok q /\ length q = (m + 1)%nat /\
      0 <= val s' < val v /\ orig = val s' + val v * val q).
Proof.
  intros Hv Hs Hsl Ho Hlt. eapply returns_mono; [apply (returns_for_rev (dividing_digits v orig n m) 0 (m + 1))|].
  - destruct (with_capacity_ok (m + 1)) as (Hok & Hl & Hz); [lia|]. split_and!; [done..| |done|].
    + intros i Hi. rewrite Hz. apply lookup_replicate. simpl in Hi. done.
    + unfold val at 3. rewrite Hz, lval_zeros. lia.
  - intros j [s' q] Hj HI. by apply returns_div_step; [|lia|].
  - intros [s' q] (Hs' & Hsl' & Hq & Hql & _ & Hr & He). rewrite drop_0 in Hr. pose proof (val_bounds s' Hs'). split_and!; [done..|lia|done|done].
Qed.

(** The leading limbs of the normalized dividend are below the divisor. *)
Lemma leading_below u v s nb n m :
  big_ok u -> length u = (n + m)%nat -> (1 <= n)%nat -> big_ok s -> length s = (n + m + 1)%nat -> 0 < 2 ^ nb ->
  val s = val u * 2 ^ nb -> B ^ Z.of_nat (n - 1) <= val v -> lval (drop (m + 1) (limbs s)) < val v * 2 ^ nb.
Proof.
  intros Hu Hul Hn Hs Hsl Hp Hsv Hv. pose proof (val_bounds u Hu) as [_ Hub]. rewrite Hul in Hub.
  replace (n + m)%nat with (m + 1 + (n - 1))%nat in Hub by lia. rewrite Bpow_add in Hub.
  pose proof (val_at s (m + 1) ltac:(lia)) as Hat. apply big_ok_limbs in Hs. pose proof (lval_bounds _ (Forall_take _ (m + 1) _ Hs)) as [Ht _].
  pose proof (Bpow_pos (m + 1)) as HX. set (X := B ^ Z.of_nat (m + 1)) in *. set (Y := B ^ Z.of_nat (n - 1)) in *.
  apply (Z.mul_lt_mono_pos_l X); [done|]. assert (X * (Y * 2 ^ nb) <= X * (val v * 2 ^ nb)).
  { apply Z.mul_le_mono_nonneg_l; [lia|]. apply Z.mul_le_mono_nonneg_r; lia. }
  apply (Z.mul_lt_mono_pos_r (2 ^ nb)) in Hub; [|done]. lia.
Qed.

(** Scaling dividend and divisor does not change the quotient. *)
Lemma unscale (p U V s q : Z) : 0 < p -> U * p = s + V * p * q -> 0 <= s < V * p -> s = p * (U mod V) /\ q = U / V.
Proof.
  intros Hp He Hs. assert (s = p * (U - V * q)) as Hr by lia. assert (0 <= U - V * q < V) as Hb.
  { split; [apply (Z.mul_le_mono_pos_l _ _ p)|apply (Z.mul_lt_mono_pos_l p)]; lia. }
  assert (q = U / V) as Hq by (apply (Z.div_unique U V q (U - V * q)); [by left|lia]).
  split; [|done]. rewrite Hr. f_equal. apply (Z.mod_unique _ _ q); [by left|lia].
Qed.

Lemma big_div_exact u v rem :
  big_ok u -> big_ok v -> u <> [] ->
  returns (big_div u v rem) (fun d =>
    match d with
    | None => undivided u v
    | Some (q, r) =>
        ~ undivided u v /\ big_ok q /\ length q = (length u - length v + 1)%nat /\ val q = val u / val v /\
        if rem then big_ok r /\ val r = val u mod val v /\ r <> [] else r = with_capacity (length v)
    end).
Proof.
  intros Hu Hv Hne. unfold big_div. apply returns_bind. eapply returns_mono; [by apply returns_div_refused|].
  intros [|]; [intros Hr; by apply returns_ret|]. intros (Hsv & Hsu & Hl).
  assert (~ undivided u v) as Hund.
  { destruct u as [|d' u], v as [|d v]; [done..|]. unfold undivided. simpl in *. intros [?|[?|[?|?]]]; (lia || congruence). }
  pose proof (stripped_bound v Hv Hsv) as [Hvlo Hvhi]. pose proof (val_bounds u Hu) as Hub.
  destruct v as [|d v]; [done|]. simpl in Hsv. pose proof Hv as Hv'. inversion_clear Hv' as [|?? [Hd0 Hd1] Hvt].
  apply returns_bind, (returns_unwrap _ d); [done|]. destruct (leading_zeros_spec d) as (Hnb & Hlo & Hhi); [lia|].
  set (nb := leading_zeros d) in *. assert (0 < 2 ^ nb) as Hp by (apply Z.pow_pos_nonneg; lia).
  assert (limb (2 ^ nb)) as Hlim. { split; [lia|]. assert (2 * 2 ^ nb <= (d + 1) * 2 ^ nb) by (apply Z.mul_le_mono_nonneg_r; lia). lia. }
  apply returns_bind, returns_arith; [apply Hlim|].
  assert (big_ok (from_u32 (2 ^ nb)) /\ val (from_u32 (2 ^ nb)) = 2 ^ nb) as [Hf Hfv]. { split; [by apply Forall_singleton|]. unfold val. simpl. lia. }
  apply returns_bind. eapply returns_mono; [apply big_mul_exact; [done|done|lia|simpl; lia]|]. intros s (Hs & Hsl & Hsv'). rewrite Hfv in Hsv'.
  apply returns_bind. eapply returns_mono; [apply big_mul_exact; [done|done|simpl; lia|simpl; lia]|]. intros w (Hw & Hwl & Hwv). rewrite Hfv in Hwv.
  destruct (normalized_lstrip d v w nb) as [Hnorm Hnv]; [done|simpl in Hl; lia|done..|].
  set (n := length (d :: v)) in *. set (m := (length u - n)%nat). assert (n = Datatypes.S (length v)) as Hn by done. clearbody n.
  simpl length in Hsl. assert (length s = (n + m + 1)%nat) as Hsl' by lia.
  replace (lpad s (n + m + 1)) with s by (unfold lpad; destruct (Nat.leb_spec (n + m + 1) (length s)); [done|lia]).
  apply returns_bind. eapply returns_mono; [apply (returns_digits s (lstrip w) n m (val s)); [by rewrite Hn|done|done|done|]|].
  { rewrite Hnv, Hwv. apply (leading_below u (d :: v) s nb n m); [done|lia|lia|done..]. }
  intros [s' q] (Hs' & Hsl'' & Hq & Hql & Hr & He). rewrite Hnv, Hwv, Hsv' in *. destruct (unscale _ _ _ _ _ Hp He Hr) as [HR Hqv].
  assert (val s' < B ^ Z.of_nat n) as Hfit.
  { destruct Hnorm as (Ho & Hnl & _). pose proof (val_bounds _ Ho) as Hb. rewrite Hnl, Hnv, <- Hn in Hb. lia. }
  apply returns_bind. destruct rem.
  - eapply returns_mono; [apply (returns_denormalize s' n nb (val u mod val (d :: v))); [done|lia|lia|done|done]|].
    intros r (Hro & Hrv & Hrne). apply returns_ret. split_and!; [done|done|lia|done..].
  - apply returns_ret, returns_ret. split_and!; [done|done|lia|done..].
Qed.
End Division.

(* ===================================================================== *)
(** ** The greatest common divisor *)

Lemma gcd_double_odd a b : Z.odd b = true -> Z.gcd (2 * a) b = Z.gcd a b.
Proof.
  intros Hb. apply Z.gcd_unique; [apply Z.gcd_nonneg| | |].
  - apply Z.divide_mul_r, Z.gcd_divide_l.
  - apply Z.gcd_divide_r.
  - intros d H1 [k Hk]. apply Z.gcd_greatest; [|by exists k]. apply (Z.gauss d 2); [done|].
    assert (Z.odd d = true) as Hd by (subst b; rewrite Z.odd_mul in Hb; by apply andb_true_iff in Hb as [_ ?]).
    rewrite Z.gcd_comm, <- Z.gcd_mod by lia. by rewrite Zmod_odd, Hd.
Qed.

Lemma shiftr_1 a : Z.shiftr a 1 = a / 2.
Proof. by rewrite Z.shiftr_div_pow2. Qed.

Lemma even_half a : Z.odd a = false -> a = 2 * (a / 2).
Proof. intros Ho. pose proof (Z.div_mod a 2 ltac:(lia)). rewrite Zmod_odd, Ho in *. lia. Qed.

Section Gcd.
Context {P : Profile} {S E : Type}.
Local Abbreviation returns := (returns (S := S) (E := E)).

Lemma gcd_loop_exact fuel (i k : nat) a b :
  (i + k < fuel)%nat -> (i <= 128)%nat -> (k <= 128)%nat -> 0 <= a < 2 ^ Z.of_nat i -> 0 <= b < 2 ^ Z.of_nat k ->
  returns (gcd_loop fuel a b) (fun g => g = Z.gcd a b).
Proof.
  revert i k a b. induction fuel as [|fuel IH]; intros i k a b Hf Hi Hk Ha Hb; [lia|]. simpl.
  destruct (Z.eqb_spec a b) as [->|Hab]; [apply returns_ret; rewrite Z.gcd_diag_nonneg; lia|].
  destruct (Z.eqb_spec a 0) as [->|Ha0]; [apply returns_ret; rewrite Z.gcd_0_l_nonneg; lia|].
  destruct (Z.eqb_spec b 0) as [->|Hb0]; [apply returns_ret; rewrite Z.gcd_0_r_nonneg; lia|].
  destruct i as [|i]; [simpl in Ha; lia|]. destruct k as [|k]; [simpl in Hb; lia|].
  rewrite Nat2Z.inj_succ, Z.pow_succ_r in Ha, Hb by lia. rewrite !shiftr_1.
  assert (forall x c, 0 <= x < 2 * c -> 0 <= x / 2 < c) as Hhalf by (intros; split; [apply Z.div_pos|apply Z.div_lt_upper_bound]; lia).
  destruct (Z.odd a) eqn:Hoa, (Z.odd b) eqn:Hob.
  - assert (Z.odd (Z.max a b - Z.min a b) = false) as Hev.
    { rewrite Z.odd_sub. destruct (Z.max_spec a b) as [[? ->]|[? ->]], (Z.min_spec a b) as [[? ->]|[? ->]]; by rewrite ?Hoa, ?Hob. }
    assert (Z.odd (Z.min a b) = true) as Hod by (destruct (Z.min_spec a b) as [[? ->]|[? ->]]; done).
    apply returns_bind, returns_arith.
    { assert (2 * 2 ^ Z.of_nat i <= U128 /\ 2 * 2 ^ Z.of_nat k <= U128) by (rewrite <- !Z.pow_succ_r by lia; split; apply Z.pow_le_mono_r; lia). lia. }
    rewrite shiftr_1. replace (Z.gcd a b) with (Z.gcd ((Z.max a b - Z.min a b) / 2) (Z.min a b)).
    2: { rewrite <- gcd_double_odd, <- even_half by done. rewrite Z.gcd_comm, Z.gcd_sub_diag_r.
         destruct (Z.max_spec a b) as [[? ->]|[? ->]], (Z.min_spec a b) as [[? ->]|[? ->]]; (lia || done || apply Z.gcd_comm). }
    destruct (Z.le_gt_cases a b).
    + apply (IH k (Datatypes.S i)); [lia..|apply Hhalf; lia|rewrite Nat2Z.inj_succ, Z.pow_succ_r; lia].
    + apply (IH i (Datatypes.S k)); [lia..|apply Hhalf; lia|rewrite Nat2Z.inj_succ, Z.pow_succ_r; lia].
  - rewrite Z.gcd_comm, (even_half b Hob), gcd_double_odd by done. rewrite <- (even_half b Hob).
    apply (IH k (Datatypes.S i)); [lia..|apply Hhalf; lia|rewrite Nat2Z.inj_succ, Z.pow_succ_r; lia].
  - rewrite (even_half a Hoa), gcd_double_odd by done. rewrite <- (even_half a Hoa).
    apply (IH i (Datatypes.S k)); [lia..|apply Hhalf; lia|rewrite Nat2Z.inj_succ, Z.pow_succ_r; lia].
  - apply returns_bind. eapply returns_mono; [apply (IH i k); [lia..|apply Hhalf; lia|apply Hhalf; lia]|]. intros g ->.
    apply returns_ret. rewrite Z.shiftl_mul_pow2 by lia. change (2 ^ 1) with 2. unfold cast.
    assert (2 * Z.gcd (a / 2) (b / 2) = Z.gcd a b) as Hg by (rewrite (even_half a Hoa), (even_half b Hob) at 2; by rewrite Z.gcd_mul_mono_l_nonneg by lia).
    rewrite Z.mul_comm, Hg. apply Z.mod_small. split; [apply Z.gcd_nonneg|].
    assert (Z.gcd a b <= a) by (apply Z.divide_pos_le; [lia|apply Z.gcd_divide_l]).
    assert (2 * 2 ^ Z.of_nat i <= U128) by (rewrite <- Z.pow_succ_r by lia; apply Z.pow_le_mono_r; lia). lia.
Qed.

Lemma gcd_exact a b : 0 <= a < U128 -> 0 <= b < U128 -> returns (gcd a b) (fun g => g = Z.gcd a b).
Proof. intros Ha Hb. apply (gcd_loop_exact 258 128 128); [lia..|done|done]. Qed.
End Gcd.

(* ===================================================================== *)
(** ** The multiplication by a rational *)

(** [a * b / c]: rounded down, but to the nearest for a product of more than 128
    bits and a divisor of more than 32. *)
Definition rounded_quotient (a b c : Z) : Z :=
  let d := Z.max c 1 in
  a * b / d + (if (U128 <=? a * b) && (B <=? d) && (d / 2 <? (a * b) mod d) then 1 else 0).

Definition if_fits (x : Z) : option Z := if x <? U128 then Some x else None.

Section Rational.
Context {P : Profile} {S E : Type}.
Local Abbreviation returns := (returns (S := S) (E := E)).

Lemma U128_limbs : U128 = B ^ Z.of_nat 4.
Proof. reflexivity. Qed.

Lemma returns_fits u : u <> [] -> big_ok u -> returns (big_try_into 128 (lstrip u)) (fun r => r = if_fits (val u)).
Proof.
  intros Hne Hu. destruct (lstrip_exact u Hne Hu) as (Ho & Hv & Hne' & _). rewrite <- Hv.
  change 128 with (32 * Z.of_nat 4). eapply returns_mono; [apply big_try_into_exact; [lia|done|done]|]. by intros r ->.
Qed.

(** The division of a product that does not fit. *)
Lemma returns_wide a b c :
  0 < a < U128 -> 0 < b < U128 -> 0 < c < U128 -> U128 <= a * b ->
  returns (divide_wide a b c) (fun o => o = if_fits (rounded_quotient a b c)).
Proof.
  intros Ha Hb Hc Hab. unfold divide_wide. destruct (to_big_uint_exact a) as (Hao & Hav & Hane & _); [lia|]. destruct (to_big_uint_exact b) as (Hbo & Hbv & Hbne & _); [lia|].
  destruct (to_big_uint_exact c) as (Hco & Hcv & Hcne & Hcl & Hcs); [lia|]. specialize (Hcs ltac:(lia)).
  set (c_num := to_big_uint c) in *. clearbody c_num. unfold rounded_quotient. replace (Z.max c 1) with c by lia.
  replace (U128 <=? a * b) with true by (symmetry; apply Z.leb_le; lia).
  apply returns_bind. eapply returns_mono; [apply big_mul_exact; [done|done|by apply nonempty_pos|by apply nonempty_pos]|].
  intros w (Hw & Hwl & Hwv). rewrite Hav, Hbv in Hwv.
  destruct (lstrip_exact w) as (Hx & Hxv & Hxne & _ & Hxs); [apply nonempty_pos in Hane; apply nonempty_pos; lia|done|]. rewrite Hwv in *. specialize (Hxs ltac:(lia)).
  set (ab := lstrip w) in *. clearbody ab. cbv zeta. pose proof (stripped_bound c_num Hco Hcs) as [Hc1 Hc2]. rewrite Hcv in Hc1, Hc2.
  assert (5 <= length ab)%nat as Hl5.
  { apply Nat.nlt_ge. intros Hlt. pose proof (val_bounds ab Hx) as [_ Hb']. rewrite Hxv in Hb'.
    assert (B ^ Z.of_nat (length ab) <= B ^ Z.of_nat 4) by (apply Z.pow_le_mono_r; [apply B_pos|lia]). rewrite <- U128_limbs in *. lia. }
  apply returns_bind. destruct (Nat.eqb_spec (length c_num) 1) as [Hl|Hl].
  - rewrite Hl in Hc2. change (B ^ Z.of_nat 1) with B in Hc2. rewrite cast_small by (split; lia).
    eapply returns_mono; [apply div_unit_exact; [done|lia|split; lia]|]. intros q (Hq & Hql & Hqv). replace (Z.max c 1) with c in Hqv by lia.
    replace (B <=? c) with false by (symmetry; apply Z.leb_gt; lia). cbn [andb]. rewrite Z.add_0_r, <- Hxv, <- Hqv. apply returns_fits; [by apply nonempty_pos; lia|done].
  - assert (2 <= length c_num)%nat as Hl2 by (apply nonempty_pos in Hcne; lia).
    assert (B <= c) as HBc.
    { assert (B ^ Z.of_nat 1 <= B ^ Z.of_nat (length c_num - 1)) by (apply Z.pow_le_mono_r; [apply B_pos|lia]). change (B ^ Z.of_nat 1) with B in *. lia. }
    replace (B <=? c) with true by (symmetry; apply Z.leb_le; lia). cbn [andb].
    apply returns_bind. eapply returns_mono; [by apply big_div_exact|]. intros [[q r]|].
    2: { intros Hd. exfalso. destruct c_num as [|d c'], ab as [|d' ab']; [done..|]. unfold undivided in Hd. cbn [head length stripped] in Hd, Hcs, Hxs, Hl5, Hl2, Hcl. destruct Hd as [Hd|[Hd|[Hd|Hd]]]; [lia|congruence|congruence|lia]. }
    intros (_ & Hq & Hql & Hqv & Hr & Hrv & Hrne). rewrite Hxv, Hcv in *. simpl default.
    pose proof (Z.mod_pos_bound (a * b) c ltac:(lia)) as Hm.
    apply returns_bind. eapply returns_mono; [apply (big_try_into_exact 4); [lia|done|done]|]. intros o Ho.
    rewrite Hrv in Ho. replace (_ <? _) with true in Ho by (symmetry; apply Z.ltb_lt; change (2 ^ (32 * Z.of_nat 4)) with U128; lia).
    subst o. apply returns_bind, (returns_unwrap _ (a * b mod c)); [done|].
    destruct (c / 2 <? (a * b) mod c).
    + destruct (to_big_uint_exact 1) as (H1o & H1v & _); [done|]. eapply returns_mono; [by apply big_add_exact|].
      intros q' (Hq' & Hql' & Hqv'). rewrite H1v, Hqv in Hqv'. rewrite <- Hqv'. apply returns_fits; [apply nonempty_pos; lia|done].
    + apply returns_ret. rewrite Z.add_0_r, <- Hqv. apply returns_fits; [apply nonempty_pos; lia|done].
Qed.

Lemma rounded_comm a b c : rounded_quotient a b c = rounded_quotient b a c.
Proof. unfold rounded_quotient. by rewrite (Z.mul_comm a b). Qed.

(** A factor that the divisor divides. *)
Lemma rounded_divides a b c : 0 < c -> a mod c = 0 -> rounded_quotient a b c = a / c * b.
Proof.
  intros Hc Hm. unfold rounded_quotient. replace (Z.max c 1) with c by lia. pose proof (Z.div_mod a c ltac:(lia)) as Ha. rewrite Hm in Ha.
  assert (a * b = a / c * b * c) as He by (rewrite Ha at 1; ring). rewrite He, Z.mod_mul, Z.div_mul by lia.
  assert (0 <= c / 2) by (apply Z.div_pos; lia). destruct (Z.ltb_spec (c / 2) 0); [lia|]. rewrite andb_false_r. lia.
Qed.

Lemma rounded_narrow a b c : 0 < c -> a * b < U128 -> rounded_quotient a b c = a * b / c.
Proof.
  intros Hc Hlt. unfold rounded_quotient. replace (Z.max c 1) with c by lia. destruct (Z.leb_spec U128 (a * b)); [lia|]. simpl. lia.
Qed.

Lemma fits x : x < U128 -> if_fits x = Some x.
Proof. intros Hx. unfold if_fits. by destruct (Z.ltb_spec x U128); [|lia]. Qed.

(** Both routes of the division, for a given triple. *)
Lemma returns_quotient a b c :
  0 < a < U128 -> 0 < b < U128 -> 0 < c < U128 ->
  returns (divide_product a b c) (fun o => o = if_fits (rounded_quotient a b c)).
Proof.
  intros Ha Hb Hc. unfold divide_product. destruct (Z.ltb_spec (a * b) U128) as [Hlt|Hge]; [|by apply returns_wide]. apply returns_ret.
  rewrite rounded_narrow by lia. symmetry. apply fits. assert (a * b / c <= a * b) by (apply Z.div_le_upper_bound; nia). lia.
Qed.

Lemma rounded_by_one a b : rounded_quotient a b 1 = a * b.
Proof. rewrite rounded_divides, Z.div_1_r by (lia || apply Z.mod_1_r). done. Qed.

Lemma divided_factor a d : 0 < a < U128 -> 0 < d -> a mod d = 0 -> 0 < a / d < U128.
Proof.
  intros Ha Hd Hm. pose proof (Z.div_mod a d ltac:(lia)) as He. rewrite Hm in He. assert (a / d <= a) by (apply Z.div_le_upper_bound; nia).
  split; [|lia]. destruct (Z.lt_trichotomy (a / d) 0) as [|[Hz|]]; [|rewrite Hz in He; lia|done]. pose proof (Z.div_pos a d). lia.
Qed.

(** The division is tried on the factors first. *)
Lemma returns_ordered a b d :
  0 < a < U128 -> 0 < b < U128 -> 0 < d < U128 ->
  returns
    (let '(a, b, c) :=
       if a mod d =? 0 then (a / d, b, 1)
       else if b mod d =? 0 then (a, b / d, 1)
       else (a, b, d) in
     divide_product a b c) (fun o => o = if_fits (rounded_quotient a b d)).
Proof.
  intros Ha Hb Hd. destruct (Z.eqb_spec (a mod d) 0) as [H1|H1].
  - rewrite (rounded_divides a b d), <- rounded_by_one by lia. apply returns_quotient; [by apply divided_factor; [|lia|]|done|done].
  - destruct (Z.eqb_spec (b mod d) 0) as [H2|H2]; [|by apply returns_quotient].
    rewrite rounded_comm, (rounded_divides b a d), Z.mul_comm, <- rounded_by_one by lia. apply returns_quotient; [done|by apply divided_factor; [|lia|]|done].
Qed.

Lemma multiply_by_rational_returns a b c :
  in_range U128 a -> in_range U128 b -> in_range U128 c ->
  returns (multiply_by_rational a b c) (fun o => o = if_fits (rounded_quotient a b c)).
Proof.
  unfold in_range. intros Ha Hb Hc. unfold multiply_by_rational.
  destruct ((a =? 0) || (b =? 0)) eqn:H0.
  { apply returns_ret. rewrite orb_true_iff, !Z.eqb_eq in H0. assert (a * b = 0) as Hp by (destruct H0 as [->| ->]; lia).
    unfold rounded_quotient. rewrite Hp, Zdiv_0_l. symmetry. by apply fits. }
  apply orb_false_iff in H0 as [Ha0%Z.eqb_neq Hb0%Z.eqb_neq].
  set (d := Z.max c 1). assert (0 < d < U128) as Hd by (assert (1 < U128) by done; unfold d; lia).
  assert (rounded_quotient a b c = rounded_quotient a b d) as -> by (unfold rounded_quotient, d; by replace (Z.max (Z.max c 1) 1) with (Z.max c 1) by lia).
  clearbody d. cbv zeta.
  destruct (Z.ltb_spec a b); [rewrite rounded_comm|]; apply returns_ordered; lia.
Qed.
End Rational.
