(* ===== verification/BigUintTheorems.v ===== *)
(** * Big integers and rationals: what they promise

    The arithmetic of limbs is that of the integers, the multiplication by a
    rational is exact up to its rounding, and rationals add, subtract and
    compare as rationals. *)

From Stdlib Require Import QArith.
From S2P Require Import Prelude BigUint BigUintFacts BigUintNum BigUintDiv BigUintExact.

Set Default Proof Using "Type".
Open Scope Z_scope.

Section Rationals.
Context {P : Profile} {S E : Type}.
Local Abbreviation returns := (returns (S := S) (E := E)).
Implicit Types (a b : Rational128).

(** A rational with its parts in range and a denominator. *)
Definition rational_ok a : Prop := in_range U128 (rn a) /\ 0 < rd a < U128.

Definition value a : Q := rn a # Z.to_pos (rd a).

(** The least common denominator, and a numerator over it. *)
Definition common a b : Z := Z.lcm (rd a) (rd b).
Definition over a (l : Z) : Z := rn a * (l / rd a).

Lemma value_over a l : 0 < rd a -> 0 < l -> (rd a | l) -> (value (mkRational (over a l) l) == value a)%Q.
Proof.
  intros Hd Hl [k ->]. unfold value, over, Qeq. simpl. rewrite !Z2Pos.id by done. rewrite Z.div_mul by lia. ring.
Qed.

Lemma gcd_pos (a b : Z) : 0 < a -> 0 < Z.gcd a b <= a.
Proof.
  intros Ha. pose proof (Z.gcd_nonneg a b). pose proof (Z.gcd_divide_l a b) as Hd. split; [|by apply Z.divide_pos_le].
  destruct (decide (Z.gcd a b = 0)) as [Hz%Z.gcd_eq_0_l|]; lia.
Qed.

Lemma rounded_lcm (a b : Z) : 0 < a -> 0 < b -> rounded_quotient a b (Z.gcd a b) = Z.lcm a b.
Proof.
  intros Ha Hb. destruct (gcd_pos a b Ha) as [Hg _]. rewrite rounded_divides; [|done|by apply Z.mod_divide, Z.gcd_divide_l; lia].
  destruct (Z.gcd_divide_l a b) as [k Hk], (Z.gcd_divide_r a b) as [m Hm]. set (g := Z.gcd a b) in *.
  unfold Z.lcm. fold g. rewrite Z.abs_eq; [|apply Z.mul_nonneg_nonneg; [lia|apply Z.div_pos; lia]].
  rewrite Hk at 1. rewrite Hm at 1. rewrite Z.div_mul by lia. rewrite Hk, Hm at 1. rewrite Z.div_mul by lia. lia.
Qed.

Lemma returns_lcm a b : rational_ok a -> rational_ok b -> returns (lcm a b) (fun o => o = if_fits (common a b)).
Proof.
  intros [_ Ha] [_ Hb]. unfold lcm, common. destruct (Z.eqb_spec (rd a) (rd b)) as [He|He].
  - apply returns_ret. rewrite <- He, Z.lcm_diag_nonneg by lia. symmetry. apply fits. lia.
  - apply returns_bind. eapply returns_mono; [apply gcd_exact; lia|]. intros g ->.
    pose proof (gcd_pos (rd a) (rd b)). eapply returns_mono; [apply multiply_by_rational_returns; unfold in_range; lia|].
    intros o ->. by rewrite rounded_lcm by lia.
Qed.

Lemma returns_to_den a l : rational_ok a -> 0 < l < U128 -> (rd a | l) ->
  returns (to_den a l) (fun o => o = (fun n => mkRational n l) <$> if_fits (over a l)).
Proof.
  intros [Hn Hd] Hl Hdiv. unfold to_den, over. destruct (Z.eqb_spec l (rd a)) as [->|He].
  - apply returns_ret. rewrite Z.div_same, Z.mul_1_r, fits by (unfold in_range in *; lia). by destruct a.
  - apply returns_bind. eapply returns_mono; [apply multiply_by_rational_returns; unfold in_range in *; lia|].
    intros o ->. apply returns_ret. rewrite rounded_comm, rounded_divides by (lia || by apply Z.mod_divide; [lia|]). by rewrite Z.mul_comm.
Qed.

(** Both over their common denominator, where everything fits. *)
Definition all_fit a b : bool := let l := common a b in (l <? U128) && (over a l <? U128) && (over b l <? U128).

Lemma common_divides a b : rational_ok a -> rational_ok b -> 0 < common a b /\ (rd a | common a b) /\ (rd b | common a b).
Proof.
  intros [_ Ha] [_ Hb]. unfold common. split_and!; [|apply Z.divide_lcm_l|apply Z.divide_lcm_r].
  pose proof (Z.lcm_nonneg (rd a) (rd b)). destruct (decide (Z.lcm (rd a) (rd b) = 0)) as [Hz%Z.lcm_eq_0|]; lia.
Qed.

Lemma returns_scaled a b : rational_ok a -> rational_ok b ->
  returns (scaled a b) (fun o => let l := common a b in
    o = if all_fit a b then Some (mkRational (over a l) l, mkRational (over b l) l) else None).
Proof.
  intros Ha Hb. destruct (common_divides a b Ha Hb) as (Hl & Hda & Hdb). unfold scaled, all_fit. cbv zeta.
  apply returns_bind. eapply returns_mono; [by apply returns_lcm|]. intros o ->. unfold if_fits at 1.
  destruct (Z.ltb_spec (common a b) U128) as [Hlu|]; [|by apply returns_ret]. cbn [andb].
  apply returns_bind. eapply returns_mono; [by apply returns_to_den|]. intros o ->. unfold if_fits at 1.
  destruct (over a (common a b) <? U128); [|by apply returns_ret]. cbn [andb fmap option_fmap option_map].
  apply returns_bind. eapply returns_mono; [by apply returns_to_den|]. intros o ->. apply returns_ret. unfold if_fits.
  by destruct (over b (common a b) <? U128).
Qed.

(** Adding and subtracting rationals: the sum and the difference are exact,
    over the least common denominator. They fail exactly when this denominator
    or a numerator over it does not fit into 128 bits, or the difference would
    be negative; nothing panics. *)
Theorem rational_sum_is_exact a b :
  rational_ok a -> rational_ok b ->
  returns (rational_checked_add a b) (fun r =>
    match r with
    | inl x => (value x == value a + value b)%Q /\ rational_ok x
    | inr _ => all_fit a b = false \/ U128 <= over a (common a b) + over b (common a b)
    end) /\
  returns (rational_checked_sub a b) (fun r =>
    match r with
    | inl x => (value x == value a - value b)%Q /\ rational_ok x
    | inr _ => all_fit a b = false \/ (value a < value b)%Q
    end).
Proof.
  intros Ha Hb. destruct (common_divides a b Ha Hb) as (Hl & Hda & Hdb). pose proof (returns_scaled a b Ha Hb) as Hs. cbv zeta in Hs.
  set (l := common a b) in *. destruct Ha as [Hna [Ha _]], Hb as [Hnb [Hb _]].
  pose proof (value_over a l Ha Hl Hda) as Hva. pose proof (value_over b l Hb Hl Hdb) as Hvb.
  assert (0 <= over a l /\ 0 <= over b l) as [Ho1 Ho2].
  { unfold over, in_range in *. split; apply Z.mul_nonneg_nonneg; (lia || apply Z.div_pos; lia). }
  split; apply returns_bind; (eapply returns_mono; [exact Hs|]); intros o ->; apply returns_ret.
  - destruct (all_fit a b) eqn:Hf; [|by left]. apply andb_true_iff in Hf as [[Hf1%Z.ltb_lt Hf2%Z.ltb_lt]%andb_true_iff Hf3%Z.ltb_lt].
    fold l in Hf1, Hf2, Hf3. unfold checked_add. cbn [rn rd]. destruct (Z.ltb_spec (over a l + over b l) U128); [|by right].
    split; [|split; [unfold in_range; cbn; lia|cbn; lia]]. rewrite <- Hva, <- Hvb. unfold value, Qeq. cbn [rn rd Qnum Qden Qplus]. rewrite Pos2Z.inj_mul, Z2Pos.id by done. ring.
  - destruct (all_fit a b) eqn:Hf; [|by left]. apply andb_true_iff in Hf as [[Hf1%Z.ltb_lt Hf2%Z.ltb_lt]%andb_true_iff Hf3%Z.ltb_lt].
    fold l in Hf1, Hf2, Hf3. unfold checked_sub. cbn [rn rd]. destruct (Z.leb_spec (over b l) (over a l)).
    + split; [|split; [unfold in_range; cbn; lia|cbn; lia]]. rewrite <- Hva, <- Hvb. unfold value, Qeq. cbn [rn rd Qnum Qden Qplus Qminus Qopp]. rewrite Pos2Z.inj_mul, Z2Pos.id by done. ring.
    + right. rewrite <- Hva, <- Hvb. unfold value, Qlt. cbn [rn rd Qnum Qden]. apply Z.mul_lt_mono_pos_r; [|done]. lia.
Qed.

Lemma Qcompare_cross (n d n' d' : Z) : 0 < d -> 0 < d' -> (n # Z.to_pos d ?= n' # Z.to_pos d')%Q = (n * d' ?= n' * d).
Proof. intros Hd Hd'. unfold Qcompare. simpl. by rewrite !Z2Pos.id. Qed.

Lemma compare_same (n n' d : Z) : 0 < d -> (n * d ?= n' * d) = (n ?= n').
Proof. intros Hd. symmetry. rewrite !(Z.mul_comm _ d). by apply Zmult_compare_compat_l, Z.lt_gt. Qed.

(** The product of two numbers with at least one limb. *)
Lemma returns_product u v (Q : BigUint -> Prop) :
  big_ok u -> big_ok v -> u <> [] -> v <> [] ->
  (forall w, big_ok w -> val w = val u * val v -> Q w) -> returns (big_mul u v) Q.
Proof.
  intros Hu Hv Hnu%nonempty_pos Hnv%nonempty_pos HQ. eapply returns_mono; [by apply big_mul_exact|]. intros w (Hw & _ & He). by apply HQ.
Qed.

Lemma returns_cross a b : rational_ok a -> rational_ok b ->
  returns (cross a b) (fun '(x, y) => big_ok x /\ big_ok y /\ val x = rn a * rd b /\ val y = rn b * rd a).
Proof.
  intros [Hna Ha] [Hnb Hb]. unfold in_range in *.
  destruct (to_big_uint_exact (rn a)) as (H1 & H2 & H3 & _); [done|]. destruct (to_big_uint_exact (rd a)) as (H4 & H5 & H6 & _); [lia|].
  destruct (to_big_uint_exact (rn b)) as (H7 & H8 & H9 & _); [done|]. destruct (to_big_uint_exact (rd b)) as (G1 & G2 & G3 & _); [lia|].
  unfold cross. apply returns_bind, returns_product; [done..|]. intros x Hx Hvx. apply returns_bind, returns_product; [done..|]. intros y Hy Hvy.
  apply returns_ret. rewrite Hvx, Hvy. split_and!; [done..| |]; congruence.
Qed.

(** A rational of any size with limbs in range and a denominator. *)
Definition infinite_ok (x : RationalInfinite) : Prop :=
  big_ok (inf_n x) /\ big_ok (inf_d x) /\ inf_n x <> [] /\ inf_d x <> [] /\ 0 < val (inf_d x).
Definition infinite_value (x : RationalInfinite) : Q := val (inf_n x) # Z.to_pos (val (inf_d x)).

Lemma infinite_of_ok a : rational_ok a -> infinite_ok (infinite_of a).
Proof.
  intros [Hn Hd]. destruct (to_big_uint_exact (rn a)) as (H1 & H2 & H3 & _); [done|]. destruct (to_big_uint_exact (rd a)) as (H4 & H5 & H6 & _); [lia|].
  unfold infinite_of. split_and!; cbn [inf_n inf_d]; [done..|]. rewrite H5. lia.
Qed.

(** The comparisons of rationals, through the cross products of 256 bits and
    of any size, are the order of the rationals; the equality is that of the
    order. *)
Theorem rational_order_is_exact a b (x y : RationalInfinite) :
  rational_ok a -> rational_ok b -> infinite_ok x -> infinite_ok y ->
  returns (rational_cmp a b) (fun c => c = (value a ?= value b)%Q) /\
  returns (rational_eq a b) (fun e => e = Qeq_bool (value a) (value b)) /\
  returns (infinite_cmp x y) (fun c => c = (infinite_value x ?= infinite_value y)%Q) /\
  infinite_ok (infinite_of a) /\ infinite_value (infinite_of a) = value a.
Proof.
  intros Ha Hb (Hx1 & Hx2 & Hx3 & Hx4 & Hx5) (Hy1 & Hy2 & Hy3 & Hy4 & Hy5). pose proof (returns_cross a b Ha Hb) as Hc. destruct Ha as [Hna Ha], Hb as [Hnb Hb].
  split_and!.
  - unfold rational_cmp, value. rewrite Qcompare_cross by lia. destruct (Z.eqb_spec (rd a) (rd b)) as [He|He]; [apply returns_ret; rewrite He; by rewrite compare_same by lia|].
    destruct (Z.eqb_spec (rd a) 0); [lia|]. destruct (Z.eqb_spec (rd b) 0); [lia|].
    apply returns_bind. eapply returns_mono; [exact Hc|]. intros [u v] (Hu & Hv & Hvu & Hvv). apply returns_ret. by rewrite big_cmp_exact, Hvu, Hvv.
  - unfold rational_eq, value, Qeq_bool. simpl. rewrite !Z2Pos.id by lia.
    destruct (Z.eqb_spec (rd a) (rd b)) as [He|He].
    + apply returns_ret. rewrite He. destruct (Z.eqb_spec (rn a) (rn b)) as [->|Hne]; [symmetry; by apply Z.eqb_eq|].
      symmetry. apply not_true_iff_false. rewrite Z.eqb_eq. intros Hm%Z.mul_reg_r; [done|lia].
    + apply returns_bind. eapply returns_mono; [exact Hc|]. intros [u v] (Hu & Hv & Hvu & Hvv). apply returns_ret. by rewrite big_eq_exact, Hvu, Hvv.
  - unfold infinite_cmp, infinite_value. rewrite Qcompare_cross by done. rewrite big_eq_exact, !is_zero_exact by done.
    destruct (Z.eqb_spec (val (inf_d x)) (val (inf_d y))) as [He|He]; [apply returns_ret; rewrite He, compare_same by done; by apply big_cmp_exact|].
    destruct (Z.eqb_spec (val (inf_d x)) 0); [lia|]. destruct (Z.eqb_spec (val (inf_d y)) 0); [lia|].
    apply returns_bind, returns_product; [done..|]. intros u Hu Hvu. apply returns_bind, returns_product; [done..|]. intros v Hv Hvv.
    apply returns_ret. by rewrite big_cmp_exact, Hvu, Hvv.
  - by apply infinite_of_ok.
  - unfold infinite_of, infinite_value, value. cbn [inf_n inf_d]. destruct (to_big_uint_exact (rn a)) as (_ & H2 & _); [done|]. destruct (to_big_uint_exact (rd a)) as (_ & H5 & _); [lia|].
    by rewrite H2, H5.
Qed.

(** The schoolbook operations on limbs are those of the integers: the sum
    and the product are exact, the difference is exact or, where it would be
    negative, its complement; the order of the numbers is that of their values. *)
Theorem limb_arithmetic_is_exact u v :
  big_ok u -> big_ok v -> u <> [] -> v <> [] ->
  returns (big_add u v) (fun w => big_ok w /\ val w = val u + val v) /\
  returns (big_mul u v) (fun w => big_ok w /\ val w = val u * val v) /\
  returns (big_sub u v) (fun r =>
    match r with
    | inl w => big_ok w /\ val v <= val u /\ val w = val u - val v
    | inr w => big_ok w /\ val u < val v /\ val w = val u - val v + B ^ Z.of_nat (Nat.max (length u) (length v))
    end) /\
  big_cmp u v = (val u ?= val v) /\ big_eq u v = (val u =? val v).
Proof.
  intros Hu Hv Hnu Hnv. split_and!; [| | |by apply big_cmp_exact|by apply big_eq_exact].
  - eapply returns_mono; [by apply big_add_exact|]. by intros w (Hw & _ & He).
  - by apply returns_product.
  - eapply returns_mono; [apply big_sub_exact; [done|done|by apply nonempty_pos]|]. cbv zeta. intros [w|w].
    + intros (Hw & _ & He). pose proof (val_bounds w Hw). split_and!; [done|lia|done].
    + by intros (Hw & _ & He & Hlt).
Qed.

(** C6: The long division, Knuth's algorithm D on 32-bit limbs: it never panics
    or overflows, its quotient and remainder are those of the integers, and it
    refuses exactly a divisor of one limb or less, leading zeros, and a dividend
    that is not longer than the divisor. *)
Theorem division_is_euclidean u v :
  big_ok u -> big_ok v -> u <> [] ->
  returns (big_div u v true) (fun d =>
    match d with
    | None => undivided u v
    | Some (q, r) => ~ undivided u v /\ big_ok q /\ big_ok r /\ val q = val u / val v /\ val r = val u mod val v
    end).
Proof.
  intros Hu Hv Hne. eapply returns_mono; [by apply big_div_exact|]. intros [[q r]|]; [|done].
  intros (Hd & Hq & _ & Hqv & Hr & Hrv & _). by split_and!.
Qed.

(** C18: The multiplication of a 128-bit number by a rational, through 256 bits:
    it returns the quotient of the exact product, rounded down, or to the
    nearest where the product has more than 128 bits and the divisor more than
    32, and an error exactly when this does not fit; it never panics. *)
Theorem multiply_by_rational_is_exact (a b c : Z) :
  in_range U128 a -> in_range U128 b -> in_range U128 c ->
  returns (multiply_by_rational a b c) (fun o =>
    let d := Z.max c 1 in
    let x := a * b / d + (if (U128 <=? a * b) && (B <=? d) && (d / 2 <? (a * b) mod d) then 1 else 0) in
    o = if x <? U128 then Some x else None).
Proof. apply multiply_by_rational_returns. Qed.

(** The greatest common divisor by halving ends within one step per bit of
    its arguments, and is the greatest common divisor. *)
Theorem gcd_ends (a b : Z) : in_range U128 a -> in_range U128 b -> returns (gcd a b) (fun g => g = Z.gcd a b).
Proof. apply gcd_exact. Qed.
End Rationals.

(* ===================================================================== *)
(** ** At concrete numbers *)
Module Numbers.
#[local] Existing Instance release.
Local Abbreviation returns := (returns (S := unit) (E := unit)).

Ltac in_limbs := repeat first [apply Forall_cons_2 | apply Forall_nil_2]; unfold limb, B, U32; lia.

Definition wide : BigUint := [1; 0; 7].
Definition narrow : BigUint := [3; 5].

Lemma wide_ok : big_ok wide.
Proof. in_limbs. Qed.
Lemma narrow_ok : big_ok narrow.
Proof. in_limbs. Qed.

Definition third : Rational128 := mkRational 1 3.
Definition quarter : Rational128 := mkRational 1 4.
Definition big_third : RationalInfinite := infinite_of third.
Definition big_quarter : RationalInfinite := infinite_of quarter.

Lemma limb_arithmetic_is_exact_witness :
  returns (big_add wide narrow) (fun w => big_ok w /\ val w = val wide + val narrow) /\
  returns (big_mul wide narrow) (fun w => big_ok w /\ val w = val wide * val narrow) /\
  returns (big_sub wide narrow) (fun r =>
    match r with
    | inl w => big_ok w /\ val narrow <= val wide /\ val w = val wide - val narrow
    | inr w => big_ok w /\ val wide < val narrow /\ val w = val wide - val narrow + B ^ Z.of_nat (Nat.max (length wide) (length narrow))
    end) /\
  big_cmp wide narrow = (val wide ?= val narrow) /\ big_eq wide narrow = (val wide =? val narrow).
Proof. apply limb_arithmetic_is_exact; [exact wide_ok|exact narrow_ok|done|done]. Defined.

Lemma division_is_euclidean_witness :
  ~ undivided wide narrow /\
  returns (big_div wide narrow true) (fun d =>
    match d with
    | None => undivided wide narrow
    | Some (q, r) => ~ undivided wide narrow /\ big_ok q /\ big_ok r /\ val q = val wide / val narrow /\ val r = val wide mod val narrow
    end).
Proof.
  split; [unfold undivided; simpl; intros [?|[?|[?|?]]]; (lia || congruence)|].
  apply division_is_euclidean; [exact wide_ok|exact narrow_ok|done].
Defined.

Lemma multiply_by_rational_is_exact_witness :
  returns (multiply_by_rational (2 ^ 127) 6 (2 ^ 100 + 1)) (fun o =>
    let d := Z.max (2 ^ 100 + 1) 1 in
    let x := 2 ^ 127 * 6 / d + (if (U128 <=? 2 ^ 127 * 6) && (B <=? d) && (d / 2 <? (2 ^ 127 * 6) mod d) then 1 else 0) in
    o = if x <? U128 then Some x else None).
Proof. apply multiply_by_rational_is_exact; unfold in_range, U128; lia. Defined.

Lemma gcd_ends_witness : returns (gcd 84 36) (fun g => g = Z.gcd 84 36).
Proof. apply gcd_ends; unfold in_range, U128; lia. Defined.

Lemma rational_sum_is_exact_witness :
  returns (rational_checked_add third quarter) (fun r =>
    match r with
    | inl x => (value x == value third + value quarter)%Q /\ rational_ok x
    | inr _ => all_fit third quarter = false \/ U128 <= over third (common third quarter) + over quarter (common third quarter)
    end) /\
  returns (rational_checked_sub third quarter) (fun r =>
    match r with
    | inl x => (value x == value third - value quarter)%Q /\ rational_ok x
    | inr _ => all_fit third quarter = false \/ (value third < value quarter)%Q
    end).
Proof. apply rational_sum_is_exact; unfold rational_ok, in_range, U128; simpl; lia. Defined.

Lemma rational_order_is_exact_witness :
  returns (rational_cmp third quarter) (fun c => c = (value third ?= value quarter)%Q) /\
  returns (rational_eq third quarter) (fun e => e = Qeq_bool (value third) (value quarter)) /\
  returns (infinite_cmp big_third big_quarter) (fun c => c = (infinite_value big_third ?= infinite_value big_quarter)%Q) /\
  infinite_ok (infinite_of third) /\ infinite_value (infinite_of third) = value third.
Proof.
  apply rational_order_is_exact; try apply infinite_of_ok; unfold rational_ok, in_range, U128; simpl; lia.
Defined.

Definition answer {A} (m : M unit unit A) : option A := match m tt with Ok a _ => Some a | _ => None end.

(** The same rational is rounded up or down, by the size of the numbers that
    represent it. *)
Lemma rounding_depends_on_size :
  answer (multiply_by_rational 5 1 3) = Some (Some 1) /\
  answer (multiply_by_rational (5 * 2 ^ 63) (2 ^ 63) (3 * 2 ^ 126)) = Some (Some 2).
Proof. split; vm_compute; reflexivity. Qed.

(** Without a denominator the equality and the order disagree. *)
Lemma equality_disagrees_with_order :
  answer (rational_eq (from_unchecked 0 0) (from_unchecked 5 1)) = Some true /\
  answer (rational_cmp (from_unchecked 0 0) (from_unchecked 5 1)) = Some Gt.
Proof. split; vm_compute; reflexivity. Qed.

(** Without normalization the remainder keeps the limbs of the dividend. *)
Lemma remainder_is_longer_than_documented :
  match answer (big_div [1; 0; 0; 7] [2 ^ 31; 5] true) with Some (Some (_, r)) => length r = 5%nat | _ => False end.
Proof. vm_compute. reflexivity. Qed.
End Numbers.
