(* ===== verification/ForkTree.v ===== *)
(** * The fork tree

    [utils/fork-tree/src/lib.rs]: the blocks above the last finalized one that
    consensus has something to remember of (authority changes, epochs), as a
    tree that is searched by ancestry and pruned by finalization.

    The ancestry of blocks is asked of the client, which may fail; it is a
    function.  The number of a block, of any ordered type in the source, is an
    integer. *)

From S2P Require Import Prelude.

(* ===================================================================== *)
(** ** Nodes *)
Section Nodes.
Context {H V : Type}.

#[warnings="-register-all"] Inductive Node := mkNode (hash : H) (number : Z) (data : V) (children : list Node).

Definition n_hash (n : Node) : H := let '(mkNode h _ _ _) := n in h.
Definition n_number (n : Node) : Z := let '(mkNode _ k _ _) := n in k.
Definition n_data (n : Node) : V := let '(mkNode _ _ d _) := n in d.
Definition n_children (n : Node) : list Node := let '(mkNode _ _ _ cs) := n in cs.
Definition set_children (cs : list Node) (n : Node) : Node := mkNode (n_hash n) (n_number n) (n_data n) cs.

(** [Error], with the client's error [E] *)
Inductive ForkError (E : Type) := Duplicate | UnfinalizedAncestor | Revert | Client (e : E).

Inductive FinalizationResult := Changed (data : option V) | Unchanged.

Inductive FindOutcome (X : Type) := Found (x : X) | Failure (descendent : bool) | Abort.
End Nodes.

#[global] Arguments Node : clear implicits.
#[global] Arguments FinalizationResult : clear implicits.
#[global] Arguments Duplicate {E}.
#[global] Arguments UnfinalizedAncestor {E}.
#[global] Arguments Revert {E}.
#[global] Arguments Client {E} e.
#[global] Arguments Found {X} x.
#[global] Arguments Failure {X} descendent.
#[global] Arguments Abort {X}.

(** Loops over the children of a node, for functions that recurse through them. *)
Section Loops.
Context {A R X E : Type}.

(** [let mut acc = ..; for node in children { acc = op(f(node), acc) }] *)
Section Fold.
Context (f : A -> R) (op : R -> R -> R).

Fixpoint fold_children (acc : R) (l : list A) : R :=
  match l with [] => acc | a :: l => fold_children (op (f a) acc) l end.
End Fold.

(** [for node in children.iter_mut()], until one takes the value *)
Section Importing.
Context (f : A -> X -> (A * option X) + E).

Fixpoint import_children (l : list A) (x : X) : (list A * option X) + E :=
  match l with
  | [] => inl ([], Some x)
  | a :: l =>
      match f a x with
      | inr e => inr e
      | inl (a', None) => inl (a' :: l, None)
      | inl (a', Some x') =>
          match import_children l x' with
          | inr e => inr e
          | inl (l', r) => inl (a' :: l', r)
          end
      end
  end.
End Importing.

(** [for (i, node) in children.iter().enumerate()], until one answers *)
Section Search.
Context (f : A -> FindOutcome (list nat) + E).

Fixpoint search_children (i : nat) (l : list A) : FindOutcome (list nat) + E :=
  match l with
  | [] => inl (Failure false)
  | a :: l =>
      match f a with
      | inr e => inr e
      | inl Abort => inl Abort
      | inl (Found x) => inl (Found (x ++ [i]))
      | inl (Failure true) => inl (Failure true)
      | inl (Failure false) => search_children (S i) l
      end
  end.
End Search.
End Loops.

Section Tree.
Context {H V E : Type} `{EqDecision H} (is_descendent_of : H -> H -> bool + E).
Local Abbreviation Node := (Node H V).
Local Abbreviation Error := (ForkError E).
Implicit Types (n : Node) (ns : list Node) (hash : H) (number : Z).

(** [Node::max_depth] *)
Fixpoint max_depth (n : Node) : nat :=
  let '(mkNode _ _ _ cs) := n in (fold_children max_depth Nat.max 0 cs + 1)%nat.

(** [sort_by_key(|n| Reverse(n.max_depth()))]: a stable sort, the deepest first *)
Fixpoint insert_by_depth (n : Node) ns : list Node :=
  match ns with
  | [] => [n]
  | n' :: ns' => if (max_depth n' <=? max_depth n)%nat then n :: ns else n' :: insert_by_depth n ns'
  end.
Definition sort_by_depth ns : list Node := foldr insert_by_depth [] ns.

(** [Node::rebalance].  The children are sorted by their depths, which
    rebalancing them keeps; here they are rebalanced first. *)
Fixpoint node_rebalance (n : Node) : Node :=
  let '(mkNode h k d cs) := n in mkNode h k d (sort_by_depth (map node_rebalance cs)).

(** [Node::import]: the node, and what was not imported *)
Fixpoint node_import (n : Node) (x : H * Z * V) : (Node * option (H * Z * V)) + Error :=
  let '(mkNode h k d cs) := n in
  let '(hash, number, _) := x in
  if decide (h = hash) then inr Duplicate
  else if number <=? k then inl (n, Some x)
  else
    match import_children node_import cs x with
    | inr e => inr e
    | inl (cs', None) => inl (mkNode h k d cs', None)
    | inl (cs', Some (hash, number, data)) =>
        match is_descendent_of h hash with
        | inr e => inr (Client e)
        | inl true => inl (mkNode h k d (cs' ++ [mkNode hash number data []]), None)
        | inl false => inl (mkNode h k d cs', Some (hash, number, data))
        end
    end.

(** [Node::find_node_index_where] *)
Fixpoint node_find_index hash number (predicate : V -> bool) (n : Node) : FindOutcome (list nat) + Error :=
  let '(mkNode h k d cs) := n in
  if number <? k then inl (Failure false)
  else
    match search_children (node_find_index hash number predicate) 0%nat cs with
    | inr e => inr e
    | inl Abort => inl Abort
    | inl (Found x) => inl (Found x)
    | inl (Failure known_descendent_of) =>
        match (if known_descendent_of then inl true else is_descendent_of h hash) with
        | inr e => inr (Client e)
        | inl true => if predicate d then inl (Found []) else inl (Failure true)
        | inl false => inl (Failure false)
        end
    end.

(** [while let Some(i) = indexes.pop() { cur = &cur.children[i] }] *)
Fixpoint descend (indexes : list nat) (cur : Node) : option Node :=
  match indexes with
  | [] => Some cur
  | i :: indexes => n_children cur !! i ≫= descend indexes
  end.

(* ===================================================================== *)
(** ** The tree *)

Record ForkTree := mkTree { roots : list Node; best_finalized_number : option Z }.
Local Abbreviation MT := (M ForkTree Error).

Definition set_roots ns (t : ForkTree) : ForkTree := mkTree ns (best_finalized_number t).
Definition set_best (b : option Z) (t : ForkTree) : ForkTree := mkTree (roots t) b.

(** [ForkTree::new] *)
Definition new_tree : ForkTree := mkTree [] None.

(** [is_descendent_of(base, block)?] *)
Definition ask (base block : H) : MT bool :=
  match is_descendent_of base block with inl b => ret b | inr e => fail (Client e) end.

Definition lift {A} (r : A + Error) : MT A := match r with inl a => ret a | inr e => fail e end.

(** [ForkTree::rebalance] *)
Definition rebalance : MT unit := modify (fun t => set_roots (map node_rebalance (sort_by_depth (roots t))) t).

Definition ensure_above_finalized number : MT unit :=
  let! best := gets best_finalized_number in
  ensure (match best with Some b => b <? number | None => true end) Revert.

(** the body of the loop over the roots *)
Definition import_root (n : Node) (x : H * Z * V) : (Node * option (H * Z * V)) + Error :=
  if decide (n_hash n = x.1.1) then inr Duplicate else node_import n x.

(** [ForkTree::import] *)
Definition import hash number (data : V) : MT bool :=
  ensure_above_finalized number ;;
  let! ns := gets roots in
  let! '(ns', rest) := lift (import_children import_root ns (hash, number, data)) in
  modify (set_roots ns') ;;
  match rest with
  | None => rebalance ;; ret false
  | Some (hash, number, data) =>
      modify (fun t => set_roots (roots t ++ [mkNode hash number data []]) t) ;;
      rebalance ;; ret true
  end.

(* ===================================================================== *)
(** ** Iterators

    Both are stacks, here with the top first: [extend(children.rev())] puts the
    children, in their order, before the rest. *)

(** [ForkTreeIterator::next], and [RemovedIterator::next] without the fields of the node *)
Definition iter_next (stack : list Node) : option (Node * list Node) :=
  match stack with [] => None | n :: stack => Some (n, n_children n ++ stack) end.

Fixpoint drain (fuel : nat) (stack : list Node) : list Node :=
  match fuel, iter_next stack with
  | S fuel, Some (n, stack) => n :: drain fuel stack
  | _, _ => []
  end.

Fixpoint node_size (n : Node) : nat :=
  let '(mkNode _ _ _ cs) := n in S (fold_children node_size Nat.add 0%nat cs).
Definition size ns : nat := fold_children node_size Nat.add 0%nat ns.

Definition entry (n : Node) : H * Z * V := (n_hash n, n_number n, n_data n).

(** [ForkTree::node_iter]: a step per node empties the stack *)
Definition node_iter (t : ForkTree) : list Node := drain (size (roots t)) (roots t).

(** [ForkTree::iter] *)
Definition iter (t : ForkTree) : list (H * Z * V) := map entry (node_iter t).

(** [ForkTree::roots] *)
Definition root_entries (t : ForkTree) : list (H * Z * V) := map entry (roots t).

(** [RemovedIterator], to its end *)
Definition removed_iter (removed : list Node) : list (H * Z * V) := map entry (drain (size removed) (reverse removed)).

(* ===================================================================== *)
(** ** Searching *)

Fixpoint find_index_from (i : nat) hash number (predicate : V -> bool) ns : MT (option (list nat)) :=
  match ns with
  | [] => ret None
  | root :: ns =>
      let! node := lift (node_find_index hash number predicate root) in
      match node with
      | Found node => ret (Some (node ++ [i]))
      | _ => find_index_from (S i) hash number predicate ns
      end
  end.

(** [ForkTree::find_node_index_where] *)
Definition find_node_index_where hash number (predicate : V -> bool) : MT (option (list nat)) :=
  let! ns := gets roots in find_index_from 0%nat hash number predicate ns.

(** [Node::find_node_where] *)
Definition node_find_where hash number (predicate : V -> bool) (n : Node) : MT (FindOutcome Node) :=
  let! outcome := lift (node_find_index hash number predicate n) in
  match outcome with
  | Abort => ret Abort
  | Failure f => ret (Failure f)
  | Found indexes => let! cur := unwrap (descend (reverse indexes) n) in ret (Found cur)
  end.

Fixpoint find_from hash number (predicate : V -> bool) ns : MT (option Node) :=
  match ns with
  | [] => ret None
  | root :: ns =>
      let! node := node_find_where hash number predicate root in
      match node with
      | Found node => ret (Some node)
      | _ => find_from hash number predicate ns
      end
  end.

(** [ForkTree::find_node_where] *)
Definition find_node_where hash number (predicate : V -> bool) : MT (option Node) :=
  let! ns := gets roots in find_from hash number predicate ns.

(* ===================================================================== *)
(** ** Pruning *)

(** the loop over [root_index]: the node at the end of the path, and the roots without it *)
Fixpoint detach (path : list nat) ns : option (Node * list Node) :=
  match path with
  | [] => None
  | [i] => n ← ns !! i; Some (n, delete i ns)
  | i :: path =>
      n ← ns !! i;
      '(root, cs) ← detach path (n_children n);
      Some (root, <[i := set_children cs n]> ns)
  end.

(** the loop over [root_children] *)
Fixpoint split_children hash number (cs : list Node) (is_first : bool) (kept removed : list Node) :
    MT (list Node * list Node) :=
  match cs with
  | [] => ret (kept, removed)
  | child :: cs =>
      let! keep :=
        (if is_first then
           if (n_number child =? number) && bool_decide (n_hash child = hash) then ret true
           else if n_number child <? number then ask (n_hash child) hash else ret false
         else ret false) in
      if (keep : bool) then split_children hash number cs false (kept ++ [child]) removed
      else split_children hash number cs is_first kept (removed ++ [child])
  end.

(** [ForkTree::prune], with what its iterator gives *)
Definition prune hash number (predicate : V -> bool) : MT (list (H * Z * V)) :=
  let! new_root_index := find_node_index_where hash number predicate in
  let! removed :=
    match new_root_index with
    | Some root_index =>
        let! old_roots := gets roots in
        modify (set_roots []) ;;
        let! '(root, old_roots) := unwrap (detach (reverse root_index) old_roots) in
        let! '(children, removed) := split_children hash number (n_children root) true [] old_roots in
        modify (set_roots [set_children children root]) ;;
        ret removed
    | None => ret []
    end in
  rebalance ;;
  ret (removed_iter removed).

(* ===================================================================== *)
(** ** Finalization *)

(** [ForkTree::finalize_root_at] *)
Definition finalize_root_at (position : nat) : MT V :=
  let! ns := gets roots in
  let! node := unwrap (ns !! position) in
  modify (set_roots (n_children node)) ;;
  modify (set_best (Some (n_number node))) ;;
  ret (n_data node).

(** [ForkTree::finalize_root] *)
Definition finalize_root hash : MT (option V) :=
  let! ns := gets roots in
  match list_find (fun n => n_hash n = hash) ns with
  | Some (position, _) => let! data := finalize_root_at position in ret (Some data)
  | None => ret None
  end.

(** [for root in roots { if test(root)? { self.roots.push(root) } else { changed = true } }] *)
Fixpoint retain_roots (test : Node -> MT bool) ns (changed : bool) : MT bool :=
  match ns with
  | [] => ret changed
  | root :: ns =>
      let! keep := test root in
      if (keep : bool) then
        modify (fun t => set_roots (roots t ++ [root]) t) ;; retain_roots test ns changed
      else retain_roots test ns true
  end.

Definition changed_or_not (changed : bool) : FinalizationResult V :=
  if changed then Changed None else Unchanged.

(** [ForkTree::finalize] *)
Definition finalize hash number : MT (FinalizationResult V) :=
  ensure_above_finalized number ;;
  let! root := finalize_root hash in
  match root with
  | Some root => ret (Changed (Some root))
  | None =>
      let! ns := gets roots in
      for_each ns (fun root =>
        let! is_ancestor := (if n_number root <? number then ask (n_hash root) hash else ret false) in
        ensure (negb is_ancestor) UnfinalizedAncestor) ;;
      modify (set_roots []) ;;
      let! changed :=
        retain_roots (fun root => if number <? n_number root then ask hash (n_hash root) else ret false) ns false in
      modify (set_best (Some number)) ;;
      ret (changed_or_not changed)
  end.

(** the loop of [finalize_with_ancestors]: the finalized root's data, or whether anything changed *)
Fixpoint ancestors_loop (fuel : nat) hash number (changed : bool) (idx : nat) : MT (V + bool) :=
  match fuel with
  | O => panic
  | S fuel =>
      let! ns := gets roots in
      if (idx =? length ns)%nat then ret (inr changed)
      else
        let! root := unwrap (ns !! idx) in
        let is_finalized := bool_decide (n_hash root = hash) in
        let! is_descendant :=
          (if negb is_finalized && (number <? n_number root) then ask hash (n_hash root) else ret false) in
        let! is_ancestor :=
          (if negb is_finalized && negb is_descendant && (n_number root <? number)
           then ask (n_hash root) hash else ret false) in
        if is_finalized then let! data := finalize_root_at idx in ret (inl data)
        else if (is_descendant : bool) then ancestors_loop fuel hash number changed (S idx)
        else
          let! ns := unwrap (swap_remove idx ns) in
          modify (set_roots (if (is_ancestor : bool) then ns ++ n_children root else ns)) ;;
          ancestors_loop fuel hash number true idx
  end.

(** [ForkTree::finalize_with_ancestors].  An iteration passes a root or takes a
    node out of the tree. *)
Definition finalize_with_ancestors hash number : MT (FinalizationResult V) :=
  ensure_above_finalized number ;;
  let! root := finalize_root hash in
  match root with
  | Some root => ret (Changed (Some root))
  | None =>
      let! ns := gets roots in
      let! result := ancestors_loop (S (size ns)) hash number false 0%nat in
      match result with
      | inl data => ret (Changed (Some data))
      | inr changed =>
          modify (set_best (Some number)) ;;
          ret (changed_or_not changed)
      end
  end.

(** the checks of a node that passes the predicate: is it finalized with
    [hash], and if it is, not past one of its children *)
Definition finalized_by hash number (node : Node) : MT bool :=
  let! finalized := (if decide (n_hash node = hash) then ret true else ask (n_hash node) hash) in
  if (finalized : bool) then
    for_each (n_children node) (fun child =>
      let! past := (if n_number child <=? number then ask (n_hash child) hash else ret false) in
      ensure (negb past) UnfinalizedAncestor) ;;
    ret true
  else ret false.

(** [for (i, node) in nodes], to the first that is finalized; the predicate is a
    closure of the caller, which may panic *)
Fixpoint first_finalized (i : nat) hash number (predicate : V -> MT bool) (nodes : list Node) : MT (option (nat * Node)) :=
  match nodes with
  | [] => ret None
  | node :: nodes =>
      let! passes := predicate (n_data node) in
      let! found := (if (passes : bool) then finalized_by hash number node else ret false) in
      if (found : bool) then ret (Some (i, node)) else first_finalized (S i) hash number predicate nodes
  end.

(** [ForkTree::finalizes_any_with_descendent_if] *)
Definition finalizes_any_with_descendent_if hash number (predicate : V -> MT bool) : MT (option bool) :=
  ensure_above_finalized number ;;
  let! t := gets id in
  let! found := first_finalized 0%nat hash number predicate (node_iter t) in
  ret (match found with
       | Some (_, node) => Some (existsb (fun root => bool_decide (n_hash root = n_hash node)) (roots t))
       | None => None
       end).

(** [ForkTree::finalize_with_descendent_if] *)
Definition finalize_with_descendent_if hash number (predicate : V -> MT bool) : MT (FinalizationResult V) :=
  ensure_above_finalized number ;;
  let! ns := gets roots in
  let! position := first_finalized 0%nat hash number predicate ns in
  let! node_data :=
    match position with
    | Some (i, _) => let! data := finalize_root_at i in ret (Some data)
    | None => ret None
    end in
  let! ns := gets roots in
  modify (set_roots []) ;;
  let! changed :=
    retain_roots (fun root =>
      let! after := (if number <? n_number root then ask hash (n_hash root) else ret false) in
      if (after : bool) || ((n_number root =? number) && bool_decide (n_hash root = hash)) then ret true
      else ask (n_hash root) hash) ns false in
  modify (set_best (Some number)) ;;
  ret (match node_data with Some data => Changed (Some data) | None => changed_or_not changed end).
End Tree.

(** A predicate that only looks at the data. *)
Definition total {H V E : Type} (p : V -> bool) (v : V) : M (@ForkTree H V) (ForkError E) bool := ret (p v).

(** [Node::map] and [ForkTree::map], for a function without state *)
Section Map.
Context {H V W : Type} (f : H -> Z -> V -> W).

Fixpoint node_map (n : Node H V) : Node H W :=
  let '(mkNode h k d cs) := n in mkNode h k (f h k d) (map node_map cs).

Definition tree_map (t : @ForkTree H V) : @ForkTree H W := mkTree (map node_map (roots t)) (best_finalized_number t).
End Map.
