(* ===== verification/ForkTreeFacts.v ===== *)
(** * The fork tree: shape and ancestry

    What the tree relies on in the client's ancestry, the invariant that the
    tree has the shape of the ancestry, and that importing and rebalancing keep
    it. *)

From S2P Require Import Prelude ForkTree.

Section Ind.
Context {H V : Type} (P : Node H V -> Prop).
Context (step : forall h k d cs, Forall P cs -> P (mkNode h k d cs)).

(** Induction with the children. *)
Fixpoint node_children_ind (n : Node H V) : P n :=
  let '(mkNode h k d cs) := n in
  step h k d cs
    ((fix go cs := match cs return Forall P cs with
      | [] => Forall_nil_2 _
      | c :: cs => Forall_cons_2 _ c cs (node_children_ind c) (go cs)
      end) cs).
End Ind.

Section Loops.
Context {A B R : Type} (f : A -> R) (op : R -> R -> R) `{!Assoc (=) op, !Comm (=) op}.

Lemma fold_children_acc acc l x : fold_children f op (op x acc) l = op x (fold_children f op acc l).
Proof using Assoc0 Comm0.
  revert acc. induction l as [|a l IH]; intros acc; simpl; [done|].
  rewrite <- IH. f_equal. rewrite !(assoc_L op). by rewrite (comm_L op x (f a)).
Qed.

#[global] Instance fold_children_perm acc : Proper ((≡ₚ) ==> (=)) (fold_children f op acc).
Proof using Assoc0 Comm0.
  intros l l' Hl. induction Hl as [|x l l' _ IH|x y l|l1 l2 l3 _ IH1 _ IH2]; simpl; [done| | |congruence].
  - by rewrite !fold_children_acc, IH.
  - f_equal. rewrite !(assoc_L op). by rewrite (comm_L op (f x)).
Qed.

Lemma fold_children_ext (g : B -> A) (f' : B -> R) acc l :
  Forall (fun b => f (g b) = f' b) l -> fold_children f op acc (map g l) = fold_children f' op acc l.
Proof. intros Hl. revert acc. induction Hl as [|b l Hb _ IH]; intros acc; simpl; [done|]. by rewrite Hb, IH. Qed.
End Loops.

#[local] Instance max_assoc : Assoc (=) Nat.max.
Proof. intros a b c. lia. Qed.
#[local] Instance max_comm : Comm (=) Nat.max.
Proof. intros a b. lia. Qed.

(* ===================================================================== *)
(** ** The contents of a tree *)
Section Contents.
Context {H V : Type}.
Local Abbreviation Node := (Node H V).
Implicit Types (n : Node) (ns : list Node).

Fixpoint node_entries (n : Node) : list (H * Z * V) :=
  let '(mkNode h k d cs) := n in (h, k, d) :: flat_map node_entries cs.
Definition entries ns : list (H * Z * V) := flat_map node_entries ns.

#[global] Instance entries_perm : Proper ((≡ₚ) ==> (≡ₚ)) entries.
Proof. intros ns ns' Hns. by apply Permutation_flat_map. Qed.

Lemma entries_cons n ns : entries (n :: ns) = node_entries n ++ entries ns.
Proof. done. Qed.

Lemma entries_app ns ns' : entries (ns ++ ns') = entries ns ++ entries ns'.
Proof. apply flat_map_app. Qed.

Lemma node_entries_eq n : node_entries n = entry n :: entries (n_children n).
Proof. by destruct n. Qed.

Lemma elem_of_entries e ns : e ∈ entries ns <-> exists n, n ∈ ns /\ e ∈ node_entries n.
Proof.
  unfold entries. rewrite list_elem_of_In, in_flat_map.
  split; intros (n & Hn & He); exists n; by rewrite !list_elem_of_In in *.
Qed.

Lemma elem_of_node_entries e n : e ∈ node_entries n <-> e = entry n \/ e ∈ entries (n_children n).
Proof. rewrite node_entries_eq. apply elem_of_cons. Qed.

Lemma elem_of_entries_lookup e ns i n : ns !! i = Some n -> e ∈ node_entries n -> e ∈ entries ns.
Proof. intros Hn He. apply elem_of_entries. exists n. split; [by apply list_elem_of_lookup_2 in Hn|done]. Qed.

Lemma node_size_entries n : node_size n = length (node_entries n).
Proof.
  induction n as [h k d cs IH] using node_children_ind. simpl. f_equal.
  induction IH as [|c cs Hc _ IH]; simpl; [done|].
  rewrite (fold_children_acc node_size Nat.add), length_app. lia.
Qed.

Lemma size_entries ns : size ns = length (entries ns).
Proof.
  unfold size. induction ns as [|n ns IH]; simpl; [done|].
  rewrite (fold_children_acc node_size Nat.add), length_app, node_size_entries. lia.
Qed.

#[global] Instance size_perm : Proper ((≡ₚ) ==> (=)) (size (H := H) (V := V)).
Proof. intros ns ns' Hns. by rewrite !size_entries, Hns. Qed.

(** *** Rebalancing *)

Lemma insert_by_depth_perm n ns : insert_by_depth n ns ≡ₚ n :: ns.
Proof. induction ns as [|n' ns IH]; simpl; [done|]. case_match; [done|]. by rewrite IH, Permutation_swap. Qed.

Lemma sort_by_depth_perm ns : sort_by_depth ns ≡ₚ ns.
Proof. unfold sort_by_depth. induction ns as [|n ns IH]; simpl; [done|]. by rewrite insert_by_depth_perm, IH. Qed.

Lemma max_depth_rebalance n : max_depth (node_rebalance n) = max_depth n.
Proof.
  induction n as [h k d cs IH] using node_children_ind. simpl. f_equal.
  rewrite sort_by_depth_perm. by apply fold_children_ext.
Qed.

Lemma sort_by_depth_map (f : Node -> Node) ns :
  (forall n, max_depth (f n) = max_depth n) -> sort_by_depth (map f ns) = map f (sort_by_depth ns).
Proof.
  intros Hf. unfold sort_by_depth. induction ns as [|n ns IH]; simpl; [done|]. rewrite IH.
  generalize (foldr insert_by_depth [] ns). intros l. induction l as [|n' l IHl]; simpl; [done|].
  rewrite !Hf. case_match; simpl; congruence.
Qed.

(** The children are sorted, and then rebalanced. *)
Lemma node_rebalance_eq n :
  node_rebalance n = set_children (map node_rebalance (sort_by_depth (n_children n))) n.
Proof. destruct n as [h k d cs]. simpl. by rewrite (sort_by_depth_map _ _ max_depth_rebalance). Qed.

Lemma n_hash_rebalance n : n_hash (node_rebalance n) = n_hash n.
Proof. by destruct n. Qed.

Lemma node_entries_rebalance n : node_entries (node_rebalance n) ≡ₚ node_entries n.
Proof.
  induction n as [h k d cs IH] using node_children_ind. simpl. f_equiv.
  change (entries (sort_by_depth (map node_rebalance cs)) ≡ₚ entries cs). rewrite sort_by_depth_perm.
  unfold entries. induction IH as [|c cs Hc _ IH]; simpl; [done|]. by f_equiv.
Qed.

Lemma entries_rebalance ns : entries (map node_rebalance (sort_by_depth ns)) ≡ₚ entries ns.
Proof.
  rewrite <- (sort_by_depth_perm ns) at 2. unfold entries.
  induction (sort_by_depth ns) as [|n l IH]; simpl; [done|]. by rewrite node_entries_rebalance, IH.
Qed.

(** *** Iterating *)

(** A stack is emptied in as many steps as it has nodes, in pre-order. *)
Lemma drain_entries fuel ns : (size ns <= fuel)%nat -> map entry (drain fuel ns) = entries ns.
Proof.
  revert ns. induction fuel as [|fuel IH]; intros [|n ns]; rewrite size_entries; simpl; try done.
  - destruct n. simpl. lia.
  - intros Hn. rewrite node_entries_eq. cbn. f_equal. rewrite IH; [apply entries_app|].
    rewrite size_entries, entries_app, length_app. rewrite node_entries_eq in Hn. cbn in Hn. rewrite length_app in Hn. lia.
Qed.

Lemma iter_entries (t : ForkTree) : iter t = entries (roots t).
Proof. apply drain_entries. lia. Qed.

Lemma removed_iter_entries ns : removed_iter ns ≡ₚ entries ns.
Proof.
  unfold removed_iter. rewrite drain_entries.
  - by rewrite reverse_Permutation.
  - by rewrite !size_entries, reverse_Permutation.
Qed.
End Contents.

(* ===================================================================== *)
(** ** Ancestry

    The blocks of a chain form a tree: the ancestors of a block are its
    ancestors' and each other's, and have smaller numbers. *)
Class Ancestry {H E : Type} (is_descendent_of : H -> H -> bool + E) (anc : H -> H -> bool) (num : H -> Z) : Prop := {
  anc_answers a b : is_descendent_of a b = inl (anc a b);
  anc_trans a b c : anc a b -> anc b c -> anc a c;
  anc_number a b : anc a b -> num a < num b;
  anc_linear a b c : anc a c -> anc b c -> a = b \/ anc a b \/ anc b a
}.

Section Shape.
Context {H V E : Type} `{EqDecision H} {is_descendent_of : H -> H -> bool + E} {anc : H -> H -> bool} {num : H -> Z}.
Context `{HA : !Ancestry is_descendent_of anc num}.
Local Abbreviation Node := (Node H V).
Implicit Types (n : Node) (ns cs : list Node) (e : H * Z * V) (hash : H).

(** [a] is the block [b] or one of its ancestors. *)
Definition upto (a b : H) : Prop := a = b \/ anc a b.

Lemma anc_irrefl a : ~ anc a a.
Proof using HA. intros Ha. apply anc_number in Ha. lia. Qed.

Lemma upto_anc a b c : upto a b -> anc b c -> anc a c.
Proof using HA. intros [->|Hab] Hbc; [done|]. by apply (anc_trans a b c). Qed.

Lemma anc_upto a b c : anc a b -> upto b c -> anc a c.
Proof using HA. intros Hab [<-|Hbc]; [done|]. by apply (anc_trans a b c). Qed.

Lemma upto_trans a b c : upto a b -> upto b c -> upto a c.
Proof using HA. intros [->|Hab] Hbc; [done|]. right. by eapply anc_upto. Qed.

Lemma upto_linear a b c : upto a c -> upto b c -> upto a b \/ anc b a.
Proof using HA.
  intros [->|Ha] [->|Hb]; unfold upto; auto. destruct (anc_linear a b c Ha Hb) as [->|[?|?]]; auto.
Qed.

(** Siblings are different blocks on different forks. *)
Definition apart ns : Prop := NoDup (n_hash <$> ns) /\ forall a b, a ∈ ns -> b ∈ ns -> ~ anc (n_hash a) (n_hash b).

(** The subtree of a node holds descendants of it, at every node. *)
#[warnings="-register-all"] Inductive node_ok : Node -> Prop :=
| node_ok_intro h d cs :
    (forall e, e ∈ entries cs -> anc h e.1.1) -> apart cs -> Forall node_ok cs -> node_ok (mkNode h (num h) d cs).

Definition forest_ok ns : Prop := apart ns /\ Forall node_ok ns.

Lemma node_ok_iff n :
  node_ok n <-> n_number n = num (n_hash n) /\
    (forall e, e ∈ entries (n_children n) -> anc (n_hash n) e.1.1) /\ forest_ok (n_children n).
Proof.
  split.
  - by intros [h d cs Hd Ha Hcs].
  - destruct n as [h k d cs]. simpl. intros (-> & Hd & Ha & Hcs). by constructor.
Qed.

#[global] Instance apart_perm : Proper ((≡ₚ) ==> iff) apart.
Proof.
  assert (forall ns ns', ns ≡ₚ ns' -> apart ns -> apart ns') as Hw.
  { intros ns ns' Hp [Hnd Hanc]. split; [by rewrite <- Hp|]. intros a b. rewrite <- Hp. apply Hanc. }
  intros ns ns' Hp. split; apply Hw; [done|by symmetry].
Qed.

#[global] Instance forest_ok_perm : Proper ((≡ₚ) ==> iff) forest_ok.
Proof. intros ns ns' Hp. unfold forest_ok. by rewrite Hp. Qed.

Lemma forest_ok_elem ns n : forest_ok ns -> n ∈ ns -> node_ok n.
Proof. intros [_ Hns] Hn. by rewrite Forall_forall in Hns; apply Hns. Qed.

Lemma forest_ok_cons n ns :
  forest_ok (n :: ns) <-> node_ok n /\ forest_ok ns /\
    forall m, m ∈ ns -> n_hash m <> n_hash n /\ ~ anc (n_hash n) (n_hash m) /\ ~ anc (n_hash m) (n_hash n).
Proof using HA.
  unfold forest_ok, apart. rewrite Forall_cons, fmap_cons, NoDup_cons. split.
  - intros [[[Hn Hnd] Ha] [Hok Hns]]. split_and!; try done.
    + intros a b Hin Hin'. apply Ha; by right.
    + intros m Hm. split_and!; [|apply Ha; set_solver|apply Ha; set_solver].
      intros Heq. apply Hn. rewrite <- Heq. by apply list_elem_of_fmap_2.
  - intros (Hok & [[Hnd Ha] Hns] & Hm). split_and!; try done.
    + intros (m & Heq & Hin)%list_elem_of_fmap_1. destruct (Hm m Hin) as [Hne _]. by apply Hne.
    + intros a b [->|Hin]%elem_of_cons [->|Hin']%elem_of_cons; [apply anc_irrefl|by apply Hm|by apply Hm|by apply Ha].
Qed.

Lemma forest_ok_nil : forest_ok [].
Proof. split; [|done]. split; [constructor|]. intros a b Hin. by apply not_elem_of_nil in Hin. Qed.

(** A node is above everything in its subtree. *)
Lemma node_ok_upto n e : node_ok n -> e ∈ node_entries n -> upto (n_hash n) e.1.1.
Proof.
  rewrite node_ok_iff, elem_of_node_entries. intros (_ & Hd & _) [->|He]; [by left|]. right. by apply Hd.
Qed.

Lemma node_ok_number n e : node_ok n -> e ∈ node_entries n -> e.1.2 = num e.1.1.
Proof.
  revert e. induction n as [h k d cs IH] using node_children_ind. intros e Hok%node_ok_iff. simpl in Hok.
  destruct Hok as (-> & _ & Hcs). rewrite elem_of_node_entries. intros [->|He]; [done|].
  apply elem_of_entries in He as (c & Hc & He). rewrite Forall_forall in IH. eapply IH; eauto using forest_ok_elem.
Qed.

(** A block and what descends from it are under the same root. *)
Lemma same_root ns a b e e' :
  forest_ok ns -> a ∈ ns -> b ∈ ns -> e ∈ node_entries a -> e' ∈ node_entries b -> upto e.1.1 e'.1.1 -> a = b.
Proof using HA.
  intros Hns Ha Hb He He' Hup.
  apply node_ok_upto in He; [|by eapply forest_ok_elem]. apply node_ok_upto in He'; [|by eapply forest_ok_elem].
  destruct Hns as [[Hnd Hanc] _].
  destruct (upto_linear _ _ _ (upto_trans _ _ _ He Hup) He') as [[Heq|?]|?]; [|by destruct (Hanc a b)|by destruct (Hanc b a)].
  apply list_elem_of_lookup_1 in Ha as [i Hi]. apply list_elem_of_lookup_1 in Hb as [j Hj].
  assert (i = j) as -> by (apply (NoDup_lookup _ i j (n_hash a) Hnd); rewrite list_lookup_fmap, ?Hi, ?Hj; simpl; congruence).
  congruence.
Qed.

Definition hashes ns : list H := (fun e : H * Z * V => e.1.1) <$> entries ns.

#[global] Instance hashes_perm : Proper ((≡ₚ) ==> (≡ₚ)) hashes.
Proof. intros ns ns' Hp. unfold hashes. by rewrite Hp. Qed.

Lemma elem_of_hashes h ns : h ∈ hashes ns <-> exists e, e ∈ entries ns /\ e.1.1 = h.
Proof. unfold hashes. rewrite list_elem_of_fmap. naive_solver. Qed.

(** No block is twice in the tree. *)
Lemma forest_ok_nodup ns : forest_ok ns -> NoDup (hashes ns).
Proof using HA.
  assert (forall ns, Forall (fun n => node_ok n -> NoDup ((fun e : H * Z * V => e.1.1) <$> node_entries n)) ns ->
    forest_ok ns -> NoDup (hashes ns)) as Hw.
  { clear ns. intros ns Hns. induction Hns as [|n ns Hn _ IH]; intros Hok; [constructor|].
    pose proof Hok as (Hnok & Hnsok & _)%forest_ok_cons. unfold hashes. cbn. rewrite fmap_app. apply NoDup_app.
    split_and!; [by apply Hn| |by apply IH].
    intros h (e & -> & He)%list_elem_of_fmap_1 (e' & Heq & He')%list_elem_of_fmap_1.
    apply elem_of_entries in He' as (m & Hm & He').
    assert (n = m) as <- by (eapply (same_root (n :: ns)); [done|set_solver..|exact He|exact He'|by left]).
    apply forest_ok_cons in Hok as (_ & _ & Hne). by destruct (Hne n Hm) as [[] _]. }
  apply Hw. apply Forall_forall. intros n _. induction n as [h k d cs IH] using node_children_ind.
  intros Hok%node_ok_iff. simpl in Hok. destruct Hok as (_ & Hd & Hcs). simpl. constructor; [|by apply Hw].
  intros (e & Heq & He)%list_elem_of_fmap_1. apply (anc_irrefl h). rewrite Heq at 2. by apply Hd.
Qed.
End Shape.
