(* ===== verification/ForkTreeImport.v ===== *)
(** * The fork tree: importing

    A block is imported under the deepest of its ancestors in the tree, once,
    and the tree keeps the shape of the ancestry. *)

From S2P Require Import Prelude ForkTree ForkTreeFacts.

Section Importing.
Context {H V E : Type} `{EqDecision H} {is_descendent_of : H -> H -> bool + E} {anc : H -> H -> bool} {num : H -> Z}.
Context `{HA : !Ancestry is_descendent_of anc num}.
Local Abbreviation Node := (Node H V).
Local Abbreviation forest_ok := (forest_ok (V := V) (anc := anc) (num := num)).
Local Abbreviation node_ok := (node_ok (V := V) (anc := anc) (num := num)).
Local Abbreviation node_import := (node_import (V := V) is_descendent_of).
Implicit Types (n : Node) (ns cs : list Node) (e : H * Z * V).

Definition node_hashes n : list H := (fun e : H * Z * V => e.1.1) <$> node_entries n.

Lemma hashes_cons n ns : hashes (n :: ns) = node_hashes n ++ hashes ns.
Proof. unfold hashes, node_hashes. cbn. apply fmap_app. Qed.

Lemma node_hashes_eq n : node_hashes n = n_hash n :: hashes (n_children n).
Proof. unfold node_hashes. by rewrite node_entries_eq. Qed.

Lemma elem_of_node_hashes h n : h ∈ node_hashes n <-> exists e, e ∈ node_entries n /\ e.1.1 = h.
Proof. unfold node_hashes. rewrite list_elem_of_fmap. naive_solver. Qed.

Lemma entry_in_node n : entry n ∈ node_entries n.
Proof. rewrite node_entries_eq. by left. Qed.

(** Putting nodes of the same blocks for others keeps the siblings apart. *)
Lemma forest_ok_same_hashes ns ns' :
  n_hash <$> ns' = n_hash <$> ns -> Forall node_ok ns' -> forest_ok ns -> forest_ok ns'.
Proof.
  intros Heq Hok [[Hnd Ha] _]. split; [|done]. split; [by rewrite Heq|].
  assert (forall a, a ∈ ns' -> exists b, b ∈ ns /\ n_hash b = n_hash a) as Hin.
  { intros a Hin%(list_elem_of_fmap_2 n_hash). rewrite Heq in Hin. apply list_elem_of_fmap_1 in Hin as (b & ? & ?). by exists b. }
  intros a b (a' & Ha' & <-)%Hin (b' & Hb' & <-)%Hin. by apply Ha.
Qed.

Section Block.
Context (hash : H) (data : V).
Local Abbreviation x := (hash, num hash, data).

(** What importing the block [hash] into one node, or into a list of nodes, does. *)
Definition imports_into (f : Node -> H * Z * V -> (Node * option (H * Z * V)) + ForkError E) n : Prop :=
  (hash ∈ node_hashes n -> f n x = inr Duplicate) /\
  (hash ∉ node_hashes n -> ~ anc (n_hash n) hash -> f n x = inl (n, Some x)) /\
  (hash ∉ node_hashes n -> anc (n_hash n) hash -> (forall e, e ∈ node_entries n -> ~ anc hash e.1.1) ->
     exists n', f n x = inl (n', None) /\ n_hash n' = n_hash n /\ node_ok n' /\ node_entries n' ≡ₚ x :: node_entries n).

Definition imports_into_all (f : list Node -> H * Z * V -> (list Node * option (H * Z * V)) + ForkError E) ns : Prop :=
  (hash ∈ hashes ns -> f ns x = inr Duplicate) /\
  (hash ∉ hashes ns -> (forall n, n ∈ ns -> ~ anc (n_hash n) hash) -> f ns x = inl (ns, Some x)) /\
  (hash ∉ hashes ns -> (exists n, n ∈ ns /\ anc (n_hash n) hash) -> (forall e, e ∈ entries ns -> ~ anc hash e.1.1) ->
     exists ns', f ns x = inl (ns', None) /\ n_hash <$> ns' = n_hash <$> ns /\ Forall node_ok ns' /\
       entries ns' ≡ₚ x :: entries ns).

Lemma import_children_spec f cs :
  forest_ok cs -> Forall (imports_into f) cs -> imports_into_all (import_children f) cs.
Proof using HA.
  induction cs as [|c cs IH]; intros Hok Hf.
  { split_and!; [by intros ?%not_elem_of_nil|done|]. by intros _ (n & ?%not_elem_of_nil & _). }
  pose proof Hok as (Hc & Hcs & Hapart)%forest_ok_cons. apply Forall_cons in Hf as [(Hdup & Hpass & Htake) Hf].
  destruct (IH Hcs Hf) as (IHdup & IHpass & IHtake). unfold imports_into_all. simpl. rewrite hashes_cons.
  split_and!.
  - intros [Hin|Hin]%elem_of_app; [by rewrite Hdup|].
    assert (forall m, upto (anc := anc) (n_hash c) hash -> m ∈ cs -> hash ∈ node_hashes m -> False) as Hother.
    { intros m Hup Hm (e & He & <-)%elem_of_node_hashes.
      assert (c = m) as <- by (eapply (same_root (c :: cs)); [done|set_solver..|apply entry_in_node|exact He|done]).
      by destruct (Hapart c Hm) as [[] _]. }
    apply elem_of_hashes in Hin as Hin'. destruct Hin' as (e & (m & Hm & He)%elem_of_entries & Heq).
    assert (hash ∈ node_hashes m) as Hhm by (apply elem_of_node_hashes; eauto).
    rewrite Hpass, IHdup; [done|done| |].
    + intros Hc'. apply (Hother m); [|done..]. apply elem_of_node_hashes in Hc' as (e' & He' & <-). by eapply node_ok_upto.
    + intros Ha. apply (Hother m); [by right|done..].
  - intros [Hnc Hncs]%not_elem_of_app Hna. rewrite Hpass, IHpass; [done|done|set_solver|done|apply Hna; set_solver].
  - intros [Hnc Hncs]%not_elem_of_app (m & Hm & Ha) Hnd.
    assert (forall e, e ∈ node_entries c -> ~ anc hash e.1.1) by (intros e ?; apply Hnd; cbn; set_solver).
    assert (forall e, e ∈ entries cs -> ~ anc hash e.1.1) by (intros e ?; apply Hnd; cbn; set_solver).
    destruct (decide (anc (n_hash c) hash)) as [Hac|Hac].
    + destruct Htake as (c' & -> & Hh & Hok' & Hp); [done..|]. exists (c' :: cs). split_and!; [done| | |].
      * by rewrite !fmap_cons, Hh.
      * constructor; [done|apply Hcs].
      * cbn. by rewrite Hp.
    + rewrite Hpass by done. apply elem_of_cons in Hm as [->|Hm]; [done|].
      destruct IHtake as (cs' & -> & Hh & Hok' & Hp); [done|by exists m|done|]. exists (c :: cs'). split_and!; [done| | |].
      * by rewrite !fmap_cons, Hh.
      * by constructor.
      * cbn. change (flat_map node_entries) with (entries (H := H) (V := V)). rewrite Hp. symmetry. apply Permutation_middle.
Qed.

(** A node whose children are replaced by descendants of it. *)
Lemma node_ok_children h k d cs cs' :
  node_ok (mkNode h k d cs) -> forest_ok cs' -> anc h hash ->
  entries cs' ≡ₚ x :: entries cs ->
  node_ok (mkNode h k d cs') /\ node_entries (mkNode h k d cs') ≡ₚ x :: node_entries (mkNode h k d cs).
Proof.
  intros (Hk & Hd & _)%node_ok_iff Hcs' Ha Hp. split.
  - apply node_ok_iff. split_and!; [done| |done]. intros e. simpl. rewrite Hp. intros [->|He]%elem_of_cons; [done|by apply Hd].
  - rewrite !node_entries_eq. simpl. rewrite Hp. apply Permutation_swap.
Qed.

Lemma forest_ok_push cs :
  forest_ok cs -> hash ∉ hashes cs -> (forall c, c ∈ cs -> ~ anc (n_hash c) hash) ->
  (forall e, e ∈ entries cs -> ~ anc hash e.1.1) ->
  forest_ok (cs ++ [mkNode hash (num hash) data []]) /\ entries (cs ++ [mkNode hash (num hash) data []]) ≡ₚ x :: entries cs.
Proof using HA.
  intros Hcs Hnew Hna Hnd. rewrite <- Permutation_cons_append. split; [|done].
  assert (forall c, c ∈ cs -> entry c ∈ entries cs) as Hin.
  { intros c Hc. apply elem_of_entries. exists c. split; [done|apply entry_in_node]. }
  apply forest_ok_cons. split_and!; [|done|].
  - constructor; [by intros e ?%not_elem_of_nil|apply (forest_ok_nil (num := num))|constructor].
  - intros m Hm. simpl. split_and!; [|by apply (Hnd (entry m)), Hin|by apply Hna].
    intros Heq. apply Hnew, elem_of_hashes. exists (entry m). split; [by apply Hin|done].
Qed.

Lemma node_import_spec n : node_ok n -> imports_into node_import n.
Proof using HA.
  induction n as [h k d cs IH] using node_children_ind. intros Hok.
  pose proof Hok as (Hk & Hd & Hcs)%node_ok_iff. simpl in Hk, Hd, Hcs. subst k.
  assert (imports_into_all (import_children node_import) cs) as (Hdup & Hpass & Htake).
  { apply import_children_spec; [done|]. apply Forall_forall. intros c Hc. rewrite Forall_forall in IH.
    apply IH; [done|]. by eapply forest_ok_elem. }
  unfold imports_into. rewrite node_hashes_eq. cbn -[Z.leb]. split_and!.
  - intros [<-|Hin]%elem_of_cons; [by rewrite decide_True|]. case_decide; [done|].
    apply elem_of_hashes in Hin as Hin'. destruct Hin' as (e & He & <-). apply Hd, anc_number in He.
    rewrite (proj2 (Z.leb_gt _ _)) by done. by rewrite Hdup.
  - intros [Hne Hnew]%not_elem_of_cons Hna. rewrite decide_False by done. case_match; [done|].
    assert (forall c, c ∈ cs -> ~ anc (n_hash c) hash) as Hncs.
    { intros c Hc Hac. apply Hna, (anc_trans h (n_hash c)); [|done]. apply (Hd (entry c)), elem_of_entries. eauto using entry_in_node. }
    rewrite Hpass, anc_answers by done.
    by destruct (anc h hash).
  - intros [Hne Hnew]%not_elem_of_cons Ha Hnd. rewrite decide_False by done.
    rewrite (proj2 (Z.leb_gt _ _)) by by apply anc_number.
    assert (forall e, e ∈ entries cs -> ~ anc hash e.1.1) as Hnd' by (intros e He; apply Hnd; by right).
    destruct (decide (Exists (fun c => anc (n_hash c) hash) cs)) as [Hex|Hex].
    + apply Exists_exists in Hex. destruct (Htake Hnew Hex Hnd') as (cs' & -> & Hh & Hoks & Hp).
      destruct (node_ok_children h (num h) d cs cs') as [Hok' Hp']; [done|by eapply forest_ok_same_hashes|done..|].
      by exists (mkNode h (num h) d cs').
    + rewrite Exists_exists in Hex. assert (forall c, c ∈ cs -> ~ anc (n_hash c) hash) as Hna by naive_solver.
      rewrite Hpass, anc_answers, (Is_true_true_1 _ Ha) by done.
      destruct (forest_ok_push cs) as [Hoks Hp]; [done..|].
      destruct (node_ok_children h (num h) d cs _ Hok Hoks Ha Hp) as [Hok' Hp'].
      by eexists.
Qed.
End Block.
End Importing.
