(* ===== verification/ForkTreeFinal.v ===== *)
(** * The fork tree: a set of blocks

    What the tree stands for: blocks, and the number of the last finalized one.
    Importing adds a block; finalizing keeps the descendants of the finalized
    block and nothing else. *)

From S2P Require Import Prelude ForkTree ForkTreeFacts ForkTreeImport.

Section Lists.
Context {A : Type} (P : A -> Prop) `{!forall x, Decision (P x)}.

Lemma filter_none (l : list A) : (forall x, x ∈ l -> ~ P x) -> filter P l = [].
Proof. induction l as [|x l IH]; intros Hl; [done|]. rewrite filter_cons_False by set_solver. apply IH. set_solver. Qed.

Lemma filter_every (l : list A) : (forall x, x ∈ l -> P x) -> filter P l = l.
Proof. induction l as [|x l IH]; intros Hl; [done|]. rewrite filter_cons_True by set_solver. rewrite IH; set_solver. Qed.

Lemma take_swap_remove i (v v' : list A) : swap_remove i v = Some v' -> take i v' = take i v /\ (i <= length v')%nat.
Proof.
  unfold swap_remove. destruct (v !! i) as [x|] eqn:Hi; [|done]. destruct (last v); [|done]. intros [= <-].
  apply lookup_lt_Some in Hi. rewrite take_take, Nat.min_l, take_insert_ge, length_take, length_insert by lia. split; [done|lia].
Qed.
End Lists.

(* ===================================================================== *)
(** ** The specification *)
Section Spec.
Context {H V E : Type} `{EqDecision H} (anc : H -> H -> bool) (num : H -> Z).
Local Abbreviation Error := (ForkError E).

Record Blocks := mkBlocks { blocks : list (H * Z * V); finalized : option Z }.
Implicit Types (s : Blocks) (hash : H).

Definition view (t : @ForkTree H V) : Blocks := mkBlocks (entries (roots t)) (best_finalized_number t).

Definition above (b : option Z) (number : Z) : bool := match b with Some b => b <? number | None => true end.

Definition has_ancestor hash s : Prop := Exists (fun e => anc e.1.1 hash) (blocks s).
Definition known hash s : Prop := hash ∈ (fun e : H * Z * V => e.1.1) <$> blocks s.

#[global] Instance has_ancestor_dec hash s : Decision (has_ancestor hash s).
Proof. unfold has_ancestor. apply _. Defined.
#[global] Instance known_dec hash s : Decision (known hash s).
Proof using EqDecision0. unfold known. apply _. Defined.

Definition data_of hash s : option V := (fun p => p.2.2) <$> list_find (fun e : H * Z * V => e.1.1 = hash) (blocks s).

Definition spec_import hash (data : V) s (r : bool + Error) s' : Prop :=
  if above (finalized s) (num hash) then
    if decide (known hash s) then r = inr Duplicate /\ s' = s
    else r = inl (bool_decide (~ has_ancestor hash s)) /\
         blocks s' ≡ₚ (hash, num hash, data) :: blocks s /\ finalized s' = finalized s
  else r = inr Revert /\ s' = s.

(** The descendants of the finalized block stay. *)
Definition spec_finalized hash s (r : FinalizationResult V + Error) s' : Prop :=
  blocks s' ≡ₚ filter (fun e => anc hash e.1.1) (blocks s) /\ finalized s' = Some (num hash) /\
  r = inl (match data_of hash s with
           | Some data => Changed (Some data)
           | None => if decide (Forall (fun e => anc hash e.1.1) (blocks s)) then Unchanged else Changed None
           end).

Definition spec_finalize hash s (r : FinalizationResult V + Error) s' : Prop :=
  if above (finalized s) (num hash) then
    if decide (has_ancestor hash s) then r = inr UnfinalizedAncestor /\ s' = s else spec_finalized hash s r s'
  else r = inr Revert /\ s' = s.

Definition spec_finalize_with_ancestors hash s (r : FinalizationResult V + Error) s' : Prop :=
  if above (finalized s) (num hash) then spec_finalized hash s r s' else r = inr Revert /\ s' = s.
End Spec.

(* ===================================================================== *)
(** ** What descends from a block *)
Section Finalized.
Context {H V E : Type} `{EqDecision H} {is_descendent_of : H -> H -> bool + E} {anc : H -> H -> bool} {num : H -> Z}.
Context `{HA : !Ancestry is_descendent_of anc num}.
Local Abbreviation Node := (Node H V).
Local Abbreviation Tree := (@ForkTree H V).
Local Abbreviation forest_ok := (forest_ok (V := V) (anc := anc) (num := num)).
Local Abbreviation node_ok := (node_ok (V := V) (anc := anc) (num := num)).
Local Abbreviation upto := (upto (anc := anc)).
Local Abbreviation node_ok_upto := (node_ok_upto (anc := anc) (num := num)).
Implicit Types (n : Node) (ns cs : list Node) (e : H * Z * V) (t : Tree) (hash : H).

Local Abbreviation below hash := (fun e : H * Z * V => Is_true (anc hash e.1.1)).

Lemma anc_asym a b : anc a b -> ~ anc b a.
Proof using HA. intros Hab%(anc_number a b) Hba%(anc_number b a). lia. Qed.

Lemma elem_of_forest ns n : n ∈ ns -> entry n ∈ entries ns.
Proof. intros Hn. apply elem_of_entries. eauto using entry_in_node. Qed.

(** A node that descends from the block keeps its whole subtree; one that is
    on another fork, none of it. *)
Lemma below_node hash n : node_ok n -> anc hash (n_hash n) -> filter (below hash) (node_entries n) = node_entries n.
Proof using HA. intros Hn Ha. apply filter_every. intros e He. eapply anc_upto; [exact Ha|]. by eapply node_ok_upto. Qed.

Lemma fork_node hash n e : node_ok n -> ~ upto (n_hash n) hash -> ~ anc hash (n_hash n) -> e ∈ node_entries n -> ~ upto hash e.1.1.
Proof using HA.
  intros Hn Hup Ha He Hhe. apply node_ok_upto in He; [|done]. destruct (upto_linear _ _ _ He Hhe); contradiction.
Qed.

Lemma filter_fork_node hash n :
  node_ok n -> ~ upto (n_hash n) hash -> ~ anc hash (n_hash n) -> filter (below hash) (node_entries n) = [].
Proof using HA. intros Hn Hup Ha. apply filter_none. intros e He Hhe. eapply fork_node; eauto. by right. Qed.

(** Under the block itself: all but the block. *)
Lemma filter_root hash ns i n :
  forest_ok ns -> ns !! i = Some n -> n_hash n = hash -> filter (below hash) (entries ns) ≡ₚ entries (n_children n).
Proof using HA.
  intros Hns Hi <-. rewrite (delete_Permutation _ _ _ Hi) in Hns |- *. cbn. rewrite filter_app, node_entries_eq.
  pose proof Hns as (Hn & _ & _)%forest_ok_cons. rewrite filter_cons_False by apply anc_irrefl.
  apply node_ok_iff in Hn as (_ & Hd & _). rewrite (filter_every _ _ Hd), filter_none; [by rewrite app_nil_r|].
  intros e (m & Hm & He)%elem_of_entries Ha.
  assert (n = m) as <- by (eapply same_root; [exact Hns|set_solver..|apply entry_in_node|exact He|by right]).
  apply forest_ok_cons in Hns as (_ & _ & Hne). by destruct (Hne n Hm) as [[] _].
Qed.

Lemma root_has_no_ancestor ns n e : forest_ok ns -> n ∈ ns -> e ∈ entries ns -> ~ anc e.1.1 (n_hash n).
Proof using HA.
  intros Hns Hn (m & Hm & He)%elem_of_entries Ha.
  assert (m = n) as -> by (eapply same_root; [exact Hns|done..|exact He|apply entry_in_node|by right]).
  apply node_ok_upto in He; [|by eapply forest_ok_elem]. eapply anc_irrefl, anc_upto; [exact Ha|exact He].
Qed.

(** A block has an ancestor in the tree exactly when a root is one. *)
Lemma has_ancestor_root ns hash :
  forest_ok ns -> (exists e, e ∈ entries ns /\ anc e.1.1 hash) <-> exists n, n ∈ ns /\ anc (n_hash n) hash.
Proof using HA.
  intros Hns. split.
  - intros (e & (n & Hn & He)%elem_of_entries & Ha). exists n. split; [done|].
    eapply upto_anc; [|exact Ha]. eapply node_ok_upto; [|done]. by eapply forest_ok_elem.
  - intros (n & Hn & Ha). exists (entry n). split; [by apply elem_of_forest|done].
Qed.

Lemma data_of_entry b ns e : forest_ok ns -> e ∈ entries ns -> data_of e.1.1 (mkBlocks (entries ns) b) = Some e.2.
Proof using HA.
  intros Hns He. unfold data_of. simpl.
  destruct (list_find _ _) as [[i e']|] eqn:Hf; simpl.
  - apply list_find_Some in Hf as (Hi & Heq & _). apply list_elem_of_lookup_1 in He as [j Hj].
    assert (i = j) as -> by (apply (NoDup_lookup (hashes ns) i j e.1.1); [by apply forest_ok_nodup| |];
      unfold hashes; rewrite list_lookup_fmap, ?Hi, ?Hj; simpl; congruence).
    congruence.
  - apply list_find_None in Hf. rewrite Forall_forall in Hf. by destruct (Hf e He).
Qed.

Lemma data_of_unknown b ns hash : hash ∉ hashes ns -> data_of hash (mkBlocks (entries ns) b) = None.
Proof.
  intros Hn. unfold data_of. simpl. rewrite (proj2 (list_find_None _ _)); [done|].
  apply Forall_forall. intros e He Heq. apply Hn, elem_of_hashes. by exists e.
Qed.
End Finalized.
