(* ===== verification/ForkTreeSim.v ===== *)
(** * The fork tree implements the set of blocks

    Each operation of the tree against its specification on the blocks that the
    tree stands for. *)

From S2P Require Import Prelude ForkTree ForkTreeFacts ForkTreeImport ForkTreeFinal.

(** The steps of the calculus, through results and pairs. *)
Ltac ft_steps := repeat (cbn beta iota delta [lift]; wp_step); cbn beta iota.

Section Sim.
Context {H V E : Type} `{EqDecision H} {is_descendent_of : H -> H -> bool + E} {anc : H -> H -> bool} {num : H -> Z}.
Context `{HA : !Ancestry is_descendent_of anc num}.
Local Abbreviation Node := (Node H V).
Local Abbreviation Tree := (@ForkTree H V).
Local Abbreviation Error := (ForkError E).
Local Abbreviation MT := (M Tree Error).
Local Abbreviation forest_ok := (forest_ok (V := V) (anc := anc) (num := num)).
Local Abbreviation node_ok := (node_ok (V := V) (anc := anc) (num := num)).
Local Abbreviation upto := (upto (anc := anc)).
Local Abbreviation below hash := (fun e : H * Z * V => Is_true (anc hash e.1.1)).
Implicit Types (n : Node) (ns cs : list Node) (e : H * Z * V) (t : Tree) (hash : H).

(** From a tree of the shape of the ancestry, [m] ends as the specification
    says, in such a tree. *)
Definition implements {A} (m : MT A) (spec : Blocks (V := V) -> A + Error -> Blocks (V := V) -> Prop) t : Prop :=
  wp m (fun a t' => forest_ok (roots t') /\ spec (view t) (inl a) (view t'))
       (fun err t' => forest_ok (roots t') /\ spec (view t) (inr err) (view t')) t.

(** *** The client's answers *)

Lemma ask_eq a b : ask (V := V) is_descendent_of a b = ret (anc a b).
Proof using HA. unfold ask. by rewrite anc_answers. Qed.

(** Comparing the numbers first does not change the answer. *)
Lemma ask_below a b : (if num a <? num b then ask (V := V) is_descendent_of a b else ret false) = ret (anc a b).
Proof using HA.
  rewrite ask_eq. destruct (num a <? num b) eqn:Hlt; [done|]. destruct (anc a b) eqn:Ha; [|done].
  apply Is_true_true_2, anc_number in Ha. lia.
Qed.

Lemma wp_ensure_above number (Q : unit -> Tree -> Prop) (R : Error -> Tree -> Prop) t :
  (above (best_finalized_number t) number = true -> Q tt t) ->
  (above (best_finalized_number t) number = false -> R Revert t) ->
  wp (ensure_above_finalized number) Q R t.
Proof. intros HQ HR. unfold ensure_above_finalized. wp_steps; auto. Qed.

(** *** Rebalancing and importing *)

Lemma node_ok_rebalance n : node_ok n -> node_ok (node_rebalance n).
Proof.
  induction n as [h k d cs IH] using node_children_ind. intros (Hk & Hd & Hcs)%node_ok_iff. simpl in *.
  apply node_ok_iff. simpl. split_and!; [done| |].
  - intros e. rewrite sort_by_depth_perm. intros (c' & (c & <- & Hc)%list_elem_of_In%in_map_iff & He)%elem_of_entries.
    rewrite node_entries_rebalance in He. apply Hd, elem_of_entries. exists c. by rewrite list_elem_of_In.
  - rewrite sort_by_depth_perm. eapply forest_ok_same_hashes; [|  |exact Hcs].
    + change (map node_rebalance cs) with (node_rebalance <$> cs). rewrite <- list_fmap_compose.
      apply list_fmap_ext. intros i c _. apply n_hash_rebalance.
    + apply Forall_forall. intros c' (c & <- & Hc%list_elem_of_In)%list_elem_of_In%in_map_iff. rewrite Forall_forall in IH.
      apply IH; [done|]. by eapply forest_ok_elem.
Qed.

Lemma forest_ok_rebalance ns : forest_ok ns -> forest_ok (map node_rebalance (sort_by_depth ns)).
Proof.
  intros Hns. rewrite <- (sort_by_depth_perm ns) in Hns. eapply forest_ok_same_hashes; [| |exact Hns].
  - change (map node_rebalance ?l) with (node_rebalance <$> l). rewrite <- list_fmap_compose.
    apply list_fmap_ext. intros i c _. apply n_hash_rebalance.
  - apply Forall_forall. intros c' (c & <- & Hc%list_elem_of_In)%list_elem_of_In%in_map_iff.
    apply node_ok_rebalance. by eapply forest_ok_elem.
Qed.

Lemma wp_rebalance (Q : unit -> Tree -> Prop) (R : Error -> Tree -> Prop) t :
  forest_ok (roots t) ->
  (forall t', forest_ok (roots t') -> entries (roots t') ≡ₚ entries (roots t) ->
     best_finalized_number t' = best_finalized_number t -> Q tt t') ->
  wp rebalance Q R t.
Proof.
  intros Ht HQ. apply wp_modify, HQ; simpl; [by apply forest_ok_rebalance|by apply entries_rebalance|done].
Qed.

Lemma import_roots_spec hash (data : V) ns :
  forest_ok ns ->
  imports_into_all (anc := anc) (num := num) (E := E) hash data (import_children (import_root is_descendent_of)) ns.
Proof using HA.
  intros Hns. apply import_children_spec; [done|]. apply Forall_forall. intros n Hn.
  destruct (node_import_spec hash data n) as (Hdup & Hpass & Htake); [by eapply forest_ok_elem|].
  unfold imports_into, import_root. simpl. split_and!; intros Hin; (case_decide as Heq; [|by auto]); [done|..];
    destruct Hin; rewrite node_hashes_eq, <- Heq; by left.
Qed.

Lemma import_implements hash data t :
  forest_ok (roots t) -> (forall e, e ∈ entries (roots t) -> ~ anc hash e.1.1) ->
  implements (import is_descendent_of hash (num hash) data) (spec_import anc num hash data) t.
Proof using HA.
  intros Ht Hnd. destruct (import_roots_spec hash data _ Ht) as (Hdup & Hpass & Htake).
  unfold implements, import. ft_steps. apply wp_ensure_above; unfold spec_import; simpl; intros ->; [|done].
  ft_steps. destruct (decide (hash ∈ hashes (roots t))) as [Hin|Hin].
  { rewrite (Hdup Hin). ft_steps. by case_decide. }
  case_decide; [done|]. destruct (decide (has_ancestor anc hash (view t))) as [Ha|Ha].
  - apply Exists_exists in Ha as Hroot. apply has_ancestor_root in Hroot; [|done].
    destruct (Htake Hin Hroot Hnd) as (ns' & -> & Hh & Hok & Hp). ft_steps.
    apply wp_rebalance; [simpl; by eapply forest_ok_same_hashes|]. intros t' Ht' Hp' Hb. ft_steps.
    split_and!; [done| |simpl in *; by rewrite Hp', Hp|done]. rewrite bool_decide_eq_false_2; [done|by intros []].
  - assert (forall n, n ∈ roots t -> ~ anc (n_hash n) hash) as Hna.
    { intros n Hn Han. apply Ha, Exists_exists, has_ancestor_root; eauto. }
    rewrite (Hpass Hin Hna). ft_steps.
    destruct (forest_ok_push hash data (roots t)) as [Hok Hp]; [done..|].
    apply wp_rebalance; [done|]. intros t' Ht' Hp' Hb. ft_steps.
    split_and!; [done| |simpl in *; by rewrite Hp', Hp|done]. by rewrite bool_decide_eq_true_2.
Qed.

(** *** Finalizing *)

Lemma wp_finalize_root_at i n (Q : V -> Tree -> Prop) (R : Error -> Tree -> Prop) t :
  roots t !! i = Some n -> Q (n_data n) (mkTree (n_children n) (Some (n_number n))) -> wp (finalize_root_at i) Q R t.
Proof. intros Hi HQ. unfold finalize_root_at. ft_steps. eapply wp_unwrap; [done|]. by ft_steps. Qed.

Lemma wp_finalize_root hash (Q : option V -> Tree -> Prop) (R : Error -> Tree -> Prop) t :
  (forall i n, roots t !! i = Some n -> n_hash n = hash -> Q (Some (n_data n)) (mkTree (n_children n) (Some (n_number n)))) ->
  ((forall n, n ∈ roots t -> n_hash n <> hash) -> Q None t) ->
  wp (finalize_root hash) Q R t.
Proof.
  intros HS HN. unfold finalize_root. ft_steps. destruct (list_find _ _) as [[i n]|] eqn:Hf.
  - apply list_find_Some in Hf as (Hi & Heq & _). ft_steps. eapply wp_finalize_root_at; [done|]. ft_steps. by eapply HS.
  - apply list_find_None in Hf. rewrite Forall_forall in Hf. ft_steps. by apply HN.
Qed.

#[global] Instance upto_dec a b : Decision (upto a b).
Proof using EqDecision0. unfold ForkTreeFacts.upto. apply _. Defined.

(** The part of a forest that is the block or descends from it. *)
Definition branch hash (l : list (H * Z * V)) : list (H * Z * V) := filter (fun e => upto hash e.1.1) l.

Lemma below_branch hash l : filter (below hash) (branch hash l) = filter (below hash) l.
Proof. unfold branch. rewrite list_filter_filter_l; [done|]. intros e He. by right. Qed.

Lemma elem_of_branch hash l e : e ∈ branch hash l <-> upto hash e.1.1 /\ e ∈ l.
Proof. unfold branch. by rewrite list_elem_of_filter. Qed.

(** The block itself was a root, of the tree or of what is left of it. *)
Lemma finalized_root hash ns0 b0 ns i n :
  forest_ok ns0 -> forest_ok ns -> branch hash (entries ns) ≡ₚ branch hash (entries ns0) -> ns !! i = Some n -> n_hash n = hash ->
  forest_ok (n_children n) /\
  spec_finalized (E := E) anc num hash (mkBlocks (entries ns0) b0) (inl (Changed (Some (n_data n))))
    (mkBlocks (entries (n_children n)) (Some (n_number n))).
Proof using HA.
  intros Hns0 Hns Hb Hi Heq. assert (n ∈ ns) as Hn by by apply list_elem_of_lookup_2 in Hi.
  pose proof (forest_ok_elem _ _ Hns Hn) as (Hk & _ & Hcs)%node_ok_iff. split; [done|]. split_and!; simpl.
  - rewrite <- (below_branch hash (entries ns0)), <- Hb, below_branch. symmetry. by eapply filter_root.
  - by rewrite Hk, Heq.
  - rewrite <- Heq. change (n_hash n) with (entry n).1.1. rewrite (data_of_entry (num := num)); [done|done|].
    apply (elem_of_branch hash). rewrite <- Hb. apply elem_of_branch. split; [by left|by apply elem_of_forest].
Qed.

Lemma not_ancestor_iff b0 ns hash :
  forest_ok ns -> ~ has_ancestor anc hash (mkBlocks (entries ns) b0) <-> forall n, n ∈ ns -> ~ anc (n_hash n) hash.
Proof using HA.
  intros Hns. unfold has_ancestor. simpl. rewrite Exists_exists, has_ancestor_root by done. naive_solver.
Qed.

(** *** Keeping some of the roots *)

Lemma wp_retain_roots (f : Node -> bool) test ns changed (Q : bool -> Tree -> Prop) (R : Error -> Tree -> Prop) t :
  (forall n, n ∈ ns -> test n = ret (f n)) ->
  Q (changed || negb (forallb f ns)) (set_roots (roots t ++ filter f ns) t) ->
  wp (retain_roots test ns changed) Q R t.
Proof.
  revert changed t. induction ns as [|n ns IH]; intros changed t Ht HQ; simpl.
  { ft_steps. simpl in HQ. rewrite orb_false_r, app_nil_r in HQ. by destruct t. }
  simpl in HQ. rewrite Ht by set_solver. ft_steps. rewrite filter_cons in HQ. destruct (f n) eqn:Hf.
  - ft_steps. apply IH; [set_solver|]. cbn. rewrite <- app_assoc. simpl in HQ. done.
  - apply IH; [set_solver|]. by rewrite orb_true_r in HQ.
Qed.

(** Of roots that are neither the block nor its ancestors, those that descend
    from it hold all of its descendants. *)
Lemma below_roots hash ns :
  forest_ok ns -> (forall n, n ∈ ns -> ~ upto (n_hash n) hash) ->
  entries (filter (fun n => anc hash (n_hash n)) ns) = filter (below hash) (entries ns).
Proof using HA.
  intros [_ Hns] Hup. induction Hns as [|n ns Hn _ IH]; [done|]. rewrite filter_cons. cbn. rewrite filter_app.
  change (flat_map node_entries ns) with (entries ns). rewrite <- IH by set_solver. case_decide as Ha.
  - rewrite (below_node hash n) by done. done.
  - rewrite (filter_fork_node hash n); [done|done|apply Hup; set_solver|done].
Qed.

Lemma forallb_below hash ns :
  forest_ok ns -> forallb (fun n => anc hash (n_hash n)) ns = bool_decide (Forall (below hash) (entries ns)).
Proof using HA.
  intros Hns. apply Bool.eq_iff_eq_true. rewrite bool_decide_eq_true, forallb_forall, Forall_forall. split.
  - intros Hf e (n & Hn & He)%elem_of_entries. eapply anc_upto; [|eapply node_ok_upto; [by eapply forest_ok_elem|done]].
    apply Is_true_true_2, Hf. by apply list_elem_of_In.
  - intros Hf n Hn%list_elem_of_In. apply Is_true_true_1, (Hf (entry n)). by apply elem_of_forest.
Qed.

Lemma changed_or_not_iff changed (P : Prop) `{!Decision P} :
  (changed = false <-> P) -> changed_or_not (V := V) changed = if decide P then Unchanged else Changed None.
Proof. destruct changed; case_decide; naive_solver. Qed.

(** Nothing of the tree is the block: what stays are its descendants. *)
Lemma finalized_unknown hash ns0 b0 ns changed :
  hash ∉ hashes ns0 -> entries ns ≡ₚ filter (below hash) (entries ns0) ->
  (changed = false <-> Forall (below hash) (entries ns0)) ->
  spec_finalized (E := E) anc num hash (mkBlocks (entries ns0) b0) (inl (changed_or_not changed))
    (mkBlocks (entries ns) (Some (num hash))).
Proof.
  intros Hnew Hp Hc. split_and!; [done|done|]. rewrite data_of_unknown by done. f_equal. by apply changed_or_not_iff.
Qed.

Lemma known_root hash ns : forest_ok ns -> hash ∈ hashes ns -> exists n, n ∈ ns /\ upto (n_hash n) hash.
Proof.
  intros Hns (e & (n & Hn & He)%elem_of_entries & <-)%elem_of_hashes. exists n. split; [done|].
  eapply node_ok_upto; [|done]. by eapply forest_ok_elem.
Qed.

(** A loop that refuses what [f] holds of. *)
Lemma wp_for_none (f : Node -> bool) (err : Error) body ns (Q : unit -> Tree -> Prop) (R : Error -> Tree -> Prop) t :
  (forall n, n ∈ ns -> body n = (let! b := ret (f n) in ensure (negb b) err)) ->
  ((forall n, n ∈ ns -> ~ f n) -> Q tt t) -> ((exists n, n ∈ ns /\ f n) -> R err t) ->
  wp (for_each ns body) Q R t.
Proof.
  intros Hb HQ HR. induction ns as [|n ns IH]; simpl; ft_steps; [apply HQ; set_solver|].
  rewrite Hb by set_solver. ft_steps; destruct (f n) eqn:Hf; try done.
  - apply IH; [set_solver| |set_solver]. intros Hns. apply HQ. intros m [->|Hm]%elem_of_cons; [rewrite Hf; by intros []|exact (Hns m Hm)].
  - apply HR. exists n. rewrite Hf. split; [set_solver|done].
Qed.

Lemma forest_ok_filter (P : Node -> Prop) `{!forall n, Decision (P n)} ns : forest_ok ns -> forest_ok (filter P ns).
Proof using HA.
  induction ns as [|n ns IH]; [done|]. intros (Hn & Hns & Ha)%forest_ok_cons. rewrite filter_cons.
  case_decide; [|by apply IH]. apply forest_ok_cons. split_and!; [done|by apply IH|].
  intros m (_ & Hm)%list_elem_of_filter. by apply Ha.
Qed.

Lemma finalize_implements hash t :
  forest_ok (roots t) ->
  implements (finalize is_descendent_of hash (num hash)) (spec_finalize anc num hash) t.
Proof using HA.
  intros Ht. unfold implements, finalize. ft_steps. apply wp_ensure_above; unfold spec_finalize; simpl; intros ->; [|done].
  ft_steps. apply wp_finalize_root; [intros i n Hi Heq|intros Hne]; ft_steps.
  { assert (n ∈ roots t) as Hn by by apply list_elem_of_lookup_2 in Hi.
    rewrite decide_False; [by eapply finalized_root|]. apply not_ancestor_iff; [done|].
    intros m Hm. rewrite <- Heq. eapply (root_has_no_ancestor _ _ (entry m)); eauto using elem_of_forest. }
  assert (forall n, n ∈ roots t -> n_number n = num (n_hash n)) as Hk.
  { intros n Hn. by eapply node_ok_iff, forest_ok_elem. }
  apply (wp_for_none (fun n => anc (n_hash n) hash) UnfinalizedAncestor).
  { intros n Hn. by rewrite (Hk n Hn), ask_below. }
  2: { intros Ha%(has_ancestor_root _ hash Ht). rewrite decide_True; [done|]. by apply Exists_exists. }
  intros Hna. ft_steps. apply (wp_retain_roots (fun n => anc hash (n_hash n))).
  { intros n Hn. rewrite (Hk n Hn). apply ask_below. }
  ft_steps. simpl. split; [by apply forest_ok_filter|].
  assert (forall n, n ∈ roots t -> ~ upto (n_hash n) hash) as Hup.
  { intros n Hn [?|?]; [by apply (Hne n)|]. by destruct (Hna n Hn). }
  rewrite decide_False by by apply not_ancestor_iff.
  apply finalized_unknown; simpl.
  - intros (n & Hn & Hnup)%known_root; [|done]. by destruct (Hup n Hn).
  - by rewrite below_roots.
  - rewrite forallb_below by done. by rewrite negb_false_iff, bool_decide_eq_true.
Qed.

(** *** Finalizing with the ancestors *)

Lemma forest_ok_app ns ns' :
  forest_ok ns -> forest_ok ns' ->
  (forall n m, n ∈ ns -> m ∈ ns' -> n_hash n <> n_hash m /\ ~ anc (n_hash n) (n_hash m) /\ ~ anc (n_hash m) (n_hash n)) ->
  forest_ok (ns ++ ns').
Proof using HA.
  intros Hns Hns' Ha. induction ns as [|n ns IH]; [done|]. apply forest_ok_cons in Hns as (Hn & Hns & Hap).
  apply forest_ok_cons. split_and!; [done|apply IH; set_solver|].
  intros m [Hm|Hm]%elem_of_app; [by apply Hap|]. destruct (Ha n m) as (? & ? & ?); [set_solver|done|]. split_and!; auto.
Qed.

(** Opening a root: its children in its place. *)
Lemma forest_ok_open n ns : forest_ok (n :: ns) -> forest_ok (ns ++ n_children n).
Proof using HA.
  intros Hns. pose proof Hns as (Hn & Hrest & Hap)%forest_ok_cons. apply node_ok_iff in Hn as (_ & Hd & Hcs).
  apply forest_ok_app; [done..|]. intros m c Hm Hc.
  assert (forall h h', upto h h' -> (h = n_hash m /\ h' = n_hash c \/ h = n_hash c /\ h' = n_hash m) -> False) as Hno.
  { intros h h' Hup Heq. destruct (Hap m Hm) as [[] _]. f_equal.
    assert (entry m ∈ node_entries m) by apply entry_in_node.
    assert (entry c ∈ node_entries n) by (apply elem_of_node_entries; right; by apply elem_of_forest).
    assert (m ∈ n :: ns) by by right. assert (n ∈ n :: ns) by by left.
    destruct Heq as [[-> ->]|[-> ->]]; [eapply (same_root (n :: ns) m n (entry m) (entry c)); eauto|symmetry; eapply (same_root (n :: ns) n m (entry c) (entry m)); eauto]. }
  split_and!; intros Hx; eapply Hno; unfold ForkTreeFacts.upto; eauto.
Qed.

Lemma branch_app hash l l' : branch hash (l ++ l') = branch hash l ++ branch hash l'.
Proof. apply filter_app. Qed.

#[global] Instance branch_perm hash : Proper ((≡ₚ) ==> (≡ₚ)) (branch hash).
Proof. intros l l' Hl. unfold branch. by rewrite Hl. Qed.

(** Removing a root of another fork, or opening one above the block, keeps the
    block and its descendants. *)
Lemma branch_remove hash n ns :
  node_ok n -> n_hash n <> hash -> ~ anc hash (n_hash n) ->
  branch hash (entries (if anc (n_hash n) hash then ns ++ n_children n else ns)) ≡ₚ branch hash (entries (n :: ns)).
Proof using HA.
  intros Hn Hne Ha. change (entries (n :: ns)) with (node_entries n ++ entries ns). rewrite branch_app.
  destruct (anc (n_hash n) hash) eqn:Han.
  - rewrite node_entries_eq. unfold branch at 2. rewrite filter_cons_False.
    + by rewrite entries_app, branch_app, (Permutation_app_comm (branch hash (entries ns))).
    + by intros [?|?].
  - unfold branch at 2. rewrite filter_none; [done|]. intros e He. eapply fork_node; [done| |done|done].
    intros [?|Hup]; [done|]. by rewrite Han in Hup.
Qed.

(** The loop: the roots before [idx] descend from the block; what is the block
    or descends from it is still in the tree. *)
Record loop_inv hash ns0 (changed : bool) (idx : nat) ns : Prop := {
  li_ok : forest_ok ns;
  li_branch : branch hash (entries ns) ≡ₚ branch hash (entries ns0);
  li_sub : entries ns ⊆ entries ns0;
  li_idx : (idx <= length ns)%nat;
  li_passed : forall n, n ∈ take idx ns -> anc hash (n_hash n);
  li_changed : if changed then ~ Forall (below hash) (entries ns0) else ns = ns0
}.

Lemma loop_inv_remove hash ns0 changed idx ns ns' n :
  loop_inv hash ns0 changed idx ns -> ns !! idx = Some n -> swap_remove idx ns = Some ns' ->
  n_hash n <> hash -> ~ anc hash (n_hash n) ->
  loop_inv hash ns0 true idx (if anc (n_hash n) hash then ns' ++ n_children n else ns').
Proof using HA.
  intros [Hok Hb Hs Hi Hp Hc] Hn Hr Hne Ha. pose proof (swap_remove_perm _ _ _ _ Hn Hr) as Hperm.
  destruct (take_swap_remove _ _ _ Hr) as [Htake Hlen]. rewrite Hperm in Hok, Hb, Hs.
  pose proof Hok as (Hnok & Hok' & _)%forest_ok_cons. split.
  - destruct (anc (n_hash n) hash); [by apply forest_ok_open|done].
  - by rewrite branch_remove.
  - intros e He. apply Hs. cbn. apply elem_of_app. destruct (anc (n_hash n) hash); [|by right].
    rewrite entries_app in He. apply elem_of_app in He as [He|He]; [by right|left]. apply elem_of_node_entries. by right.
  - destruct (anc (n_hash n) hash); rewrite ?length_app; lia.
  - intros m Hm. apply Hp. rewrite <- Htake. destruct (anc (n_hash n) hash); [|done]. by rewrite take_app_le in Hm by lia.
  - rewrite Forall_forall. intros Hall. apply Ha, (Hall (entry n)), Hs. cbn. apply elem_of_app. left. apply entry_in_node.
Qed.

Lemma length_le_size ns : (length ns <= size ns)%nat.
Proof.
  rewrite size_entries. induction ns as [|n ns IH]; simpl; [done|]. rewrite length_app, node_entries_eq. simpl. lia.
Qed.

Lemma size_remove n ns b : (size (if b : bool then ns ++ n_children n else ns) < size (n :: ns))%nat.
Proof. rewrite !size_entries. destruct b; cbn; rewrite ?entries_app, !length_app, node_entries_eq; simpl; unfold entries; lia. Qed.

(** The loop ends, with the block at a root or with its descendants alone. *)
Lemma wp_ancestors_loop hash ns0 fuel changed idx (Q : V + bool -> Tree -> Prop) (R : Error -> Tree -> Prop) t :
  loop_inv hash ns0 changed idx (roots t) -> (size (roots t) - idx < fuel)%nat ->
  (forall changed ns i n, loop_inv hash ns0 changed i ns -> ns !! i = Some n -> n_hash n = hash ->
     Q (inl (n_data n)) (mkTree (n_children n) (Some (n_number n)))) ->
  (forall changed t', loop_inv hash ns0 changed (length (roots t')) (roots t') -> Q (inr changed) t') ->
  wp (ancestors_loop is_descendent_of fuel hash (num hash) changed idx) Q R t.
Proof using HA.
  intros Hinv Hfuel HQ1 HQ2. revert changed idx t Hinv Hfuel.
  induction fuel as [|fuel IH]; intros changed idx t Hinv Hfuel; [lia|]. simpl. ft_steps.
  case_match eqn:Hlen; [apply Nat.eqb_eq in Hlen; subst idx; ft_steps; by apply HQ2|apply Nat.eqb_neq in Hlen].
  pose proof (li_idx _ _ _ _ _ Hinv) as Hle. pose proof (length_le_size (roots t)) as Hsize.
  destruct (lookup_lt_is_Some_2 (roots t) idx) as [n Hn]; [lia|]. ft_steps. eapply wp_unwrap; [done|].
  assert (node_ok n) as Hnok by (eapply forest_ok_elem; [apply Hinv|by apply list_elem_of_lookup_2 in Hn]).
  pose proof Hnok as (Hk & _)%node_ok_iff. destruct (decide (n_hash n = hash)) as [Heq|Hne].
  { rewrite bool_decide_true by done. simpl. ft_steps. eapply wp_finalize_root_at; [done|]. ft_steps. by eapply HQ1. }
  rewrite bool_decide_false by done. simpl. rewrite Hk, ask_below. ft_steps.
  destruct (anc hash (n_hash n)) eqn:Ha; simpl.
  - ft_steps. apply IH; [|lia]. destruct Hinv as [? ? ? ? Hp ?]. split; try done; [lia|].
    intros m. rewrite (take_S_r _ _ _ Hn), elem_of_app, list_elem_of_singleton. intros [?| ->]; [by apply Hp|by rewrite Ha].
  - rewrite ask_below. ft_steps. destruct (swap_remove_is_Some _ _ _ Hn) as [ns' Hr]. eapply wp_unwrap; [done|]. ft_steps.
    apply IH; simpl.
    + eapply loop_inv_remove; eauto. rewrite Ha. by intros [].
    + pose proof (size_remove n ns' (anc (n_hash n) hash)) as Hlt. rewrite <- (swap_remove_perm _ _ _ _ Hn Hr) in Hlt. lia.
Qed.

Lemma loop_inv_start hash ns : forest_ok ns -> loop_inv hash ns false 0 ns.
Proof. intros Hns. split; try done; [lia|]. by intros n ?%not_elem_of_nil. Qed.

Lemma loop_inv_end hash ns0 changed ns :
  forest_ok ns0 -> loop_inv hash ns0 changed (length ns) ns ->
  hash ∉ hashes ns0 /\ entries ns ≡ₚ filter (below hash) (entries ns0) /\ (changed = false <-> Forall (below hash) (entries ns0)).
Proof using HA.
  intros Hns0 [Hok Hb _ _ Hp Hc]. rewrite firstn_all in Hp.
  assert (Forall (below hash) (entries ns)) as Hall.
  { apply Forall_forall. intros e (n & Hn & He)%elem_of_entries. eapply anc_upto; [by apply Hp|].
    eapply node_ok_upto; [|done]. by eapply forest_ok_elem. }
  rewrite Forall_forall in Hall. split_and!.
  - intros (e & He & <-)%elem_of_hashes. apply (anc_irrefl e.1.1), (Hall e), (elem_of_branch e.1.1).
    rewrite Hb. apply elem_of_branch. split; [by left|done].
  - rewrite <- (below_branch hash (entries ns0)), <- Hb, below_branch. by rewrite filter_every.
  - destruct changed; [naive_solver|]. subst ns0. split; [|done]. intros _. by apply Forall_forall.
Qed.

Lemma finalize_with_ancestors_implements hash t :
  forest_ok (roots t) ->
  implements (finalize_with_ancestors is_descendent_of hash (num hash)) (spec_finalize_with_ancestors anc num hash) t.
Proof using HA.
  intros Ht. unfold implements, finalize_with_ancestors. ft_steps.
  apply wp_ensure_above; unfold spec_finalize_with_ancestors; cbn [finalized view]; intros ->; [|done].
  ft_steps. apply wp_finalize_root; [intros i n Hi Heq|intros Hne]; [ft_steps; by eapply finalized_root|].
  apply wp_bind, wp_gets, wp_bind.
  apply (wp_ancestors_loop hash (roots t)); [by apply loop_inv_start|lia| |].
  - intros changed ns i n [Hok Hb _ _ _ _] Hn Heq. ft_steps. by eapply finalized_root.
  - intros changed t' Hinv. ft_steps. split; [apply Hinv|].
    apply loop_inv_end in Hinv as (Hnew & Hp & Hc); [|done]. by apply finalized_unknown.
Qed.
End Sim.
