(* ===== verification/ForkTreeFind.v ===== *)
(** * The fork tree: searching and pruning

    A search finds the deepest ancestor of a block that passes a predicate;
    pruning makes it the root, with the branch that leads to the block. *)

From S2P Require Import Prelude ForkTree ForkTreeFacts ForkTreeImport ForkTreeFinal ForkTreeSim.

Section Find.
Context {H V E : Type} `{EqDecision H} {is_descendent_of : H -> H -> bool + E} {anc : H -> H -> bool} {num : H -> Z}.
Context `{HA : !Ancestry is_descendent_of anc num}.
Local Abbreviation Node := (Node H V).
Local Abbreviation Tree := (@ForkTree H V).
Local Abbreviation Error := (ForkError E).
Local Abbreviation forest_ok := (forest_ok (V := V) (anc := anc) (num := num)).
Local Abbreviation node_ok := (node_ok (V := V) (anc := anc) (num := num)).
Local Abbreviation upto := (upto (anc := anc)).
Local Abbreviation wp_rebalance := (wp_rebalance (anc := anc) (num := num)).
Local Abbreviation implements := (implements (anc := anc) (num := num)).
Implicit Types (n m : Node) (ns cs : list Node) (e x : H * Z * V) (t : Tree).

Section Search.
Context (hash : H) (predicate : V -> bool).
Local Abbreviation find := (node_find_index is_descendent_of hash (num hash) predicate).

Definition candidate e : Prop := anc e.1.1 hash /\ predicate e.2.

(** [x] is the deepest ancestor of the block that passes the predicate. *)
Definition deepest x (l : list (H * Z * V)) : Prop :=
  x ∈ l /\ candidate x /\ forall e, e ∈ l -> candidate e -> upto e.1.1 x.1.1.

Definition found_in n (r : FindOutcome (list nat)) : Prop :=
  match r with
  | Found p => exists m, descend (reverse p) n = Some m /\ deepest (entry m) (node_entries n)
  | Failure b => (forall e, e ∈ node_entries n -> ~ candidate e) /\ b = anc (n_hash n) hash
  | Abort => False
  end.

Lemma search_children_spec (f : Node -> FindOutcome (list nat) + Error) i cs :
  (forall c, c ∈ cs -> exists r, f c = inl r /\ found_in c r) ->
  exists r, search_children f i cs = inl r /\
    match r with
    | Found p => exists j c q, p = q ++ [(i + j)%nat] /\ cs !! j = Some c /\ found_in c (Found q)
    | Failure true => exists c, c ∈ cs /\ found_in c (Failure true)
    | Failure false => forall c, c ∈ cs -> found_in c (Failure false)
    | Abort => False
    end.
Proof.
  revert i. induction cs as [|c cs IH]; intros i Hf; simpl.
  { exists (Failure false). split; [done|]. by intros c ?%not_elem_of_nil. }
  destruct (Hf c) as (r & -> & Hr); [set_solver|]. destruct r as [q|[]|]; [| | |done].
  - eexists. split; [done|]. exists 0%nat, c, q. by rewrite Nat.add_0_r.
  - eexists. split; [done|]. exists c. split; [by left|done].
  - destruct (IH (S i)) as (r & -> & Hr'); [set_solver|]. exists r. split; [done|]. destruct r as [p|[]|]; [| | |done].
    + destruct Hr' as (j & c' & q & -> & Hj & Hq). exists (S j), c', q. by rewrite <- Nat.add_succ_comm.
    + destruct Hr' as (c' & Hc' & Hq). exists c'. split; [by right|done].
    + intros c' [->|Hc']%elem_of_cons; [done|by apply Hr'].
Qed.

(** The ancestors of the block are under one root. *)
Lemma one_branch ns n m e :
  forest_ok ns -> n ∈ ns -> m ∈ ns -> anc (n_hash n) hash -> e ∈ node_entries m -> anc e.1.1 hash -> n = m.
Proof using HA.
  intros Hns Hn Hm Ha He Hae. assert (anc (n_hash m) hash) as Ham.
  { eapply upto_anc; [|exact Hae]. eapply node_ok_upto; [by eapply forest_ok_elem|done]. }
  destruct (anc_linear _ _ _ Ha Ham) as [Heq|[?|?]].
  - eapply (same_root _ n m (entry n) (entry m)); eauto using entry_in_node. by left.
  - eapply (same_root _ n m (entry n) (entry m)); eauto using entry_in_node. by right.
  - symmetry. eapply (same_root _ m n (entry m) (entry n)); eauto using entry_in_node. by right.
Qed.

Lemma descend_elem path n m : descend path n = Some m -> entry m ∈ node_entries n.
Proof.
  revert n. induction path as [|i path IH]; intros n; simpl.
  - intros [= ->]. apply entry_in_node.
  - intros (c & Hc & Hd)%bind_Some. apply elem_of_node_entries. right.
    eapply elem_of_entries_lookup; [exact Hc|]. by apply IH.
Qed.

(** The deepest ancestor of one tree of a forest is that of the forest. *)
Lemma deepest_forest ns n x : forest_ok ns -> n ∈ ns -> deepest x (node_entries n) -> deepest x (entries ns).
Proof using HA.
  intros Hns Hn (Hx & Hc & Hd). split_and!; [by apply elem_of_entries; exists n|done|].
  intros e (m & Hm & He)%elem_of_entries Hce. apply Hd; [|done].
  assert (n = m) as <-; [|done]. eapply one_branch; [done|exact Hn|exact Hm| |exact He|apply Hce].
  eapply upto_anc; [|apply Hc]. eapply node_ok_upto; [by eapply forest_ok_elem|done].
Qed.

Lemma node_find_index_spec n : node_ok n -> exists r, find n = inl r /\ found_in n r.
Proof using HA.
  induction n as [h k d cs IH] using node_children_ind. intros Hok.
  pose proof Hok as (Hk & Hd & Hcs)%node_ok_iff. simpl in Hk, Hd, Hcs. subst k. simpl.
  destruct (num hash <? num h) eqn:Hlt.
  { eexists. split; [done|]. assert (forall e, e ∈ node_entries (mkNode h (num h) d cs) -> ~ anc e.1.1 hash) as Hno.
    { intros e He Ha. apply (node_ok_upto _ _ Hok) in He. pose proof (upto_anc _ _ _ He Ha) as Hn%anc_number. simpl in Hn. lia. }
    split; [intros e He [Ha _]; by apply (Hno e)|]. simpl. destruct (anc h hash) eqn:Ha; [|done].
    destruct (Hno (h, num h, d)); [by left|]. simpl. by rewrite Ha. }
  destruct (search_children_spec find 0%nat cs) as (r & -> & Hr).
  { intros c Hc. rewrite Forall_forall in IH. apply IH; [done|]. by eapply forest_ok_elem. }
  assert ((forall e, e ∈ entries cs -> ~ candidate e) -> exists r',
    match anc h hash with true => if predicate d then inl (Found []) else inl (Failure true) | false => inl (Failure false) end
      = inl (B := Error) r' /\ found_in (mkNode h (num h) d cs) r') as Hself.
  { intros Hno. destruct (anc h hash) eqn:Ha; [destruct (predicate d) eqn:Hp|]; eexists; (split; [done|]).
    - exists (mkNode h (num h) d cs). split; [done|]. split_and!; [apply entry_in_node|split; simpl; by rewrite ?Ha, ?Hp|].
      intros e [->|He]%elem_of_node_entries Hc; [by left|]. by destruct (Hno e).
    - split; [|by simpl]. intros e [->|He]%elem_of_node_entries; [|by apply Hno]. intros [_ Hpd]. simpl in Hpd. by rewrite Hp in Hpd.
    - split; [|by simpl]. intros e [->|He]%elem_of_node_entries; [|by apply Hno]. intros [Had _]. simpl in Had. by rewrite Ha in Had. }
  destruct r as [p|[]|]; [| | |done].
  - destruct Hr as (j & c & q & -> & Hj & m & Hm & Hdeep). eexists. split; [done|]. exists m.
    assert (c ∈ cs) as Hc by by apply list_elem_of_lookup_2 in Hj. rewrite reverse_snoc. simpl. rewrite Hj. split; [done|].
    pose proof (deepest_forest cs c _ Hcs Hc Hdeep) as (Hin & Hcm & Hall). split_and!; [by right|done|].
    intros e [->|He]%elem_of_cons Hce; [right; by apply (Hd (entry m))|by apply Hall].
  - destruct Hr as (c & Hc & Hno & Hac). simpl. destruct (Hself) as (r' & Hr' & Hf').
    + intros e (c' & Hc' & He)%elem_of_entries Hce. apply (Hno e); [|done].
      assert (c = c') as <-; [|done]. eapply one_branch; [done|exact Hc|exact Hc'| |exact He|apply Hce]. by rewrite <- Hac.
    + exists r'. split; [|done]. replace (anc h hash) with true in Hr'; [done|]. symmetry. apply Is_true_true_1.
      eapply (anc_trans h (n_hash c)); [|by rewrite <- Hac]. apply (Hd (entry c)). by apply elem_of_forest.
  - rewrite anc_answers. apply Hself. intros e (c & Hc & He)%elem_of_entries. by apply (Hr c Hc).
Qed.

(** *** Searching the tree *)

Definition none_found (l : list (H * Z * V)) : Prop := forall e, e ∈ l -> ~ candidate e.

Lemma none_found_cons n ns : none_found (node_entries n) -> none_found (entries ns) -> none_found (entries (n :: ns)).
Proof. intros Hn Hns e [He|He]%elem_of_app; [by apply Hn|by apply Hns]. Qed.

Lemma wp_find_index_from i ns (Q : option (list nat) -> Tree -> Prop) (R : Error -> Tree -> Prop) t :
  Forall node_ok ns ->
  (forall j n q m, ns !! j = Some n -> descend (reverse q) n = Some m -> deepest (entry m) (node_entries n) ->
     Q (Some (q ++ [(i + j)%nat])) t) ->
  (none_found (entries ns) -> Q None t) ->
  wp (find_index_from is_descendent_of i hash (num hash) predicate ns) Q R t.
Proof using HA.
  intros Hns. revert i. induction Hns as [|n ns Hn _ IH]; intros i HS HN; simpl; ft_steps.
  { apply HN. by intros e ?%not_elem_of_nil. }
  destruct (node_find_index_spec n Hn) as (r & -> & Hr). ft_steps. destruct r as [q|b|]; [| |done].
  - destruct Hr as (m & Hm & Hd). ft_steps. specialize (HS 0%nat n q m). rewrite Nat.add_0_r in HS. by apply HS.
  - apply IH.
    + intros j n' q m Hj. specialize (HS (S j) n' q m). rewrite <- Nat.add_succ_comm in HS. by apply HS.
    + intros Hno. apply HN, none_found_cons; [exact (proj1 Hr)|done].
Qed.

Lemma wp_find_index (Q : option (list nat) -> Tree -> Prop) (R : Error -> Tree -> Prop) t :
  forest_ok (roots t) ->
  (forall p i path n m, reverse p = i :: path -> roots t !! i = Some n -> descend path n = Some m ->
     deepest (entry m) (entries (roots t)) -> Q (Some p) t) ->
  (none_found (entries (roots t)) -> Q None t) ->
  wp (find_node_index_where is_descendent_of hash (num hash) predicate) Q R t.
Proof using HA.
  intros Ht HS HN. unfold find_node_index_where. ft_steps. apply wp_find_index_from; [apply Ht| |done].
  intros j n q m Hj Hm Hd. eapply HS; [apply reverse_snoc|done..|].
  eapply deepest_forest; [done| |done]. by apply list_elem_of_lookup_2 in Hj.
Qed.

Lemma wp_find_from ns (Q : option Node -> Tree -> Prop) (R : Error -> Tree -> Prop) t :
  Forall node_ok ns ->
  (forall n m, n ∈ ns -> deepest (entry m) (node_entries n) -> Q (Some m) t) ->
  (none_found (entries ns) -> Q None t) ->
  wp (find_from is_descendent_of hash (num hash) predicate ns) Q R t.
Proof using HA.
  intros Hns. induction Hns as [|n ns Hn _ IH]; intros HS HN; simpl; ft_steps.
  { apply HN. by intros e ?%not_elem_of_nil. }
  destruct (node_find_index_spec n Hn) as (r & Hf & Hr). unfold node_find_where. ft_steps. rewrite Hf. ft_steps.
  destruct r as [q|b|]; [| |done]; ft_steps.
  - destruct Hr as (m & Hm & Hd). eapply wp_unwrap; [done|]. ft_steps. eapply HS; [|done]. by left.
  - apply IH; [intros n' m Hn'; apply HS; by right|]. intros Hno. apply HN, none_found_cons; [exact (proj1 Hr)|done].
Qed.

Lemma wp_find_node_where (Q : option Node -> Tree -> Prop) (R : Error -> Tree -> Prop) t :
  forest_ok (roots t) ->
  (forall m, deepest (entry m) (entries (roots t)) -> Q (Some m) t) -> (none_found (entries (roots t)) -> Q None t) ->
  wp (find_node_where is_descendent_of hash (num hash) predicate) Q R t.
Proof using HA.
  intros Ht HS HN. unfold find_node_where. ft_steps. apply wp_find_from; [apply Ht| |done].
  intros n m Hn Hd. apply HS. by eapply deepest_forest.
Qed.

(** *** Pruning *)

(** Taking a node out of the forest. *)
Lemma detach_spec path ns i n m :
  ns !! i = Some n -> descend path n = Some m ->
  exists ns', detach (i :: path) ns = Some (m, ns') /\ entries ns ≡ₚ entries ns' ++ node_entries m.
Proof.
  revert ns i n. induction path as [|j path IH]; intros ns i n Hi.
  - intros [= ->]. exists (delete i ns). simpl. rewrite Hi. split; [done|].
    rewrite (delete_Permutation _ _ _ Hi) at 1. apply Permutation_app_comm.
  - intros (c & Hc & Hd)%bind_Some. destruct (IH _ _ _ Hc Hd) as (cs' & Hcs' & Hp).
    exists (<[i := set_children cs' n]> ns). change (detach (i :: j :: path) ns) with
      (n ← ns !! i; '(root, cs) ← detach (j :: path) (n_children n); Some (root, <[i := set_children cs n]> ns)).
    rewrite Hi. cbn beta iota delta [mbind option_bind]. rewrite Hcs'. split; [done|].
    rewrite insert_take_drop by by eapply lookup_lt_Some. rewrite <- (take_drop_middle _ _ _ Hi) at 1.
    rewrite <- !Permutation_middle, !entries_cons, (node_entries_eq n), (node_entries_eq (set_children _ _)), Hp.
    cbn -[node_entries entries]. f_equiv. rewrite <- !app_assoc. f_equiv. apply Permutation_app_comm.
Qed.

(** What descends from a node of the forest is under it. *)
Lemma descend_complete path ns i n m e :
  forest_ok ns -> ns !! i = Some n -> descend path n = Some m -> e ∈ entries ns -> upto (n_hash m) e.1.1 -> e ∈ node_entries m.
Proof using HA.
  revert ns i n. induction path as [|j path IH]; intros ns i n Hns Hi Hd (n' & Hn' & He)%elem_of_entries Hup.
  - injection Hd as ->. apply list_elem_of_lookup_2 in Hi as Hn.
    assert (m = n') as ->; [|done]. eapply (same_root _ m n' (entry m) e); eauto using entry_in_node.
  - apply list_elem_of_lookup_2 in Hi as Hn.
    pose proof (descend_elem _ _ _ Hd) as Hm. assert (n = n') as <- by (eapply (same_root _ n n' (entry m) e); eauto).
    apply bind_Some in Hd as (c & Hc & Hd). pose proof (forest_ok_elem _ _ Hns Hn) as (_ & Hdn & Hcs)%node_ok_iff.
    eapply IH; [exact Hcs|done..| |done]. apply elem_of_node_entries in He as [->|He]; [|done].
    destruct (anc_irrefl (n_hash n)). apply (anc_upto _ (n_hash m)); [|done]. apply (Hdn (entry m)).
    eapply elem_of_entries_lookup; [exact Hc|]. by eapply descend_elem.
Qed.

(** At most one child leads to the block. *)
Lemma one_child c cs : forest_ok (c :: cs) -> upto (n_hash c) hash -> forall m, m ∈ cs -> ~ upto (n_hash m) hash.
Proof using HA.
  intros (_ & _ & Hap)%forest_ok_cons Hc m Hm Hup. destruct (Hap m Hm) as (Hne & Ha & Ha').
  destruct (upto_linear _ _ _ Hc Hup) as [[?|?]|?]; auto.
Qed.

Lemma wp_split_children cs (is_first : bool) kept removed (Q : list Node * list Node -> Tree -> Prop) (R : Error -> Tree -> Prop) t :
  forest_ok cs -> (is_first = false -> forall c, c ∈ cs -> ~ upto (n_hash c) hash) ->
  Q (kept ++ filter (fun c => upto (n_hash c) hash) cs, removed ++ filter (fun c => ~ upto (n_hash c) hash) cs) t ->
  wp (split_children is_descendent_of hash (num hash) cs is_first kept removed) Q R t.
Proof using HA.
  revert is_first kept removed. induction cs as [|c cs IH]; intros is_first kept removed Hcs Hfirst HQ; simpl.
  { ft_steps. by rewrite !app_nil_r in HQ. }
  pose proof Hcs as (Hc & Hcs' & _)%forest_ok_cons. apply node_ok_iff in Hc as (Hk & _).
  rewrite !filter_cons in HQ. destruct (decide (upto (n_hash c) hash)) as [Hup|Hup].
  - destruct is_first; [|by destruct (Hfirst eq_refl c); [left|]]. rewrite decide_False in HQ by tauto. ft_steps.
    replace (if (n_number c =? num hash) && _ then _ else _) with (ret (S := Tree) (E := Error) true); [ft_steps|].
    + apply IH; [done|intros _; by eapply one_child|]. by rewrite <- app_assoc.
    + rewrite Hk. destruct Hup as [->|Ha]; [by rewrite Z.eqb_refl, bool_decide_true|].
      rewrite ask_below, (Is_true_true_1 _ Ha). by case_match.
  - rewrite decide_True in HQ by done. ft_steps.
    replace (if is_first then _ else _) with (ret (S := Tree) (E := Error) false); [ft_steps|].
    + apply IH; [done|intros Hf m Hm; apply Hfirst; [done|by right]|]. by rewrite <- app_assoc.
    + destruct is_first; [|done]. rewrite bool_decide_false by (intros ?; apply Hup; by left). rewrite andb_false_r, Hk, ask_below.
      destruct (anc (n_hash c) hash) eqn:Ha; [|done]. destruct Hup. right. by rewrite Ha.
Qed.

(** What stays when the tree is pruned to [x]: [x], and what is on a block
    between it and [hash]. *)
Definition stays (l : list (H * Z * V)) x e : Prop :=
  e.1.1 = x.1.1 \/ Exists (fun y => anc x.1.1 y.1.1 /\ upto y.1.1 hash /\ upto y.1.1 e.1.1) l.

#[global] Instance stays_dec l x e : Decision (stays l x e).
Proof using EqDecision0. unfold stays. apply _. Defined.

#[global] Instance candidate_dec e : Decision (candidate e).
Proof. unfold candidate. apply _. Defined.

Definition spec_prune (s : Blocks (V := V)) (r : list (H * Z * V) + Error) (s' : Blocks (V := V)) : Prop :=
  finalized s' = finalized s /\
  if decide (Exists candidate (blocks s)) then
    exists x removed, deepest x (blocks s) /\ r = inl removed /\
      blocks s' ≡ₚ filter (stays (blocks s) x) (blocks s) /\
      removed ≡ₚ filter (fun e => ~ stays (blocks s) x e) (blocks s)
  else blocks s' ≡ₚ blocks s /\ r = inl [].

Lemma entries_filter_split (P : Node -> Prop) `{!forall n, Decision (P n)} cs :
  entries cs ≡ₚ entries (filter P cs) ++ entries (filter (fun c => ~ P c) cs).
Proof. by rewrite <- entries_app, filter_app_complement. Qed.

Lemma filter_split (P : H * Z * V -> Prop) `{!forall e, Decision (P e)} l l1 l2 :
  l ≡ₚ l1 ++ l2 -> (forall e, e ∈ l1 -> P e) -> (forall e, e ∈ l2 -> ~ P e) ->
  l1 ≡ₚ filter P l /\ l2 ≡ₚ filter (fun e => ~ P e) l.
Proof.
  intros -> H1 H2. rewrite !filter_app. rewrite (filter_every P l1), (filter_none P l2) by done.
  rewrite (filter_none (fun e => ~ P e) l1), (filter_every (fun e => ~ P e) l2) by naive_solver. by rewrite app_nil_r.
Qed.

Lemma descend_ok path n m : node_ok n -> descend path n = Some m -> node_ok m.
Proof.
  revert n. induction path as [|i path IH]; intros n Hn; simpl; [by intros [= ->]|].
  intros (c & Hc & Hd)%bind_Some. eapply IH; [|done]. apply node_ok_iff in Hn as (_ & _ & Hcs).
  eapply forest_ok_elem; [done|]. by apply list_elem_of_lookup_2 in Hc.
Qed.

Section Reroot.
Context (ns ns' : list Node) (i : nat) (path : list nat) (n m : Node).
Context (Hns : forest_ok ns) (Hi : ns !! i = Some n) (Hm : descend path n = Some m).
Context (Hp : entries ns ≡ₚ entries ns' ++ node_entries m).
Local Abbreviation leads := (fun c : Node => upto (n_hash c) hash).

Lemma reroot_ok : node_ok m.
Proof using Hns Hi Hm. eapply descend_ok; [|done]. eapply forest_ok_elem; [done|]. by apply list_elem_of_lookup_2 in Hi. Qed.

Lemma reroot_below e : e ∈ entries ns -> anc (n_hash m) e.1.1 -> e ∈ entries (n_children m).
Proof using HA Hns Hi Hm.
  intros He Ha. assert (e ∈ node_entries m) as [->|?]%elem_of_node_entries; [| |done].
  - eapply descend_complete; eauto. by right.
  - by destruct (anc_irrefl (n_hash m)).
Qed.

Lemma reroot_stays e : e ∈ entry m :: entries (filter leads (n_children m)) -> stays (entries ns) (entry m) e.
Proof using HA Hns Hi Hm Hp.
  pose proof reroot_ok as (_ & Hd & Hcs)%node_ok_iff.
  intros [->|(c & [Hup Hc]%list_elem_of_filter & He)%elem_of_entries]%elem_of_cons; [by left|right].
  apply Exists_exists. exists (entry c). split_and!; [|apply (Hd (entry c)); by apply elem_of_forest|done|].
  - rewrite Hp. apply elem_of_app. right. apply elem_of_node_entries. right. by apply elem_of_forest.
  - eapply node_ok_upto; [|done]. by eapply forest_ok_elem.
Qed.

Lemma reroot_goes e : e ∈ entries (ns' ++ filter (fun c => ~ leads c) (n_children m)) -> ~ stays (entries ns) (entry m) e.
Proof using HA Hns Hi Hm Hp.
  pose proof reroot_ok as (_ & Hd & Hcs)%node_ok_iff. rewrite entries_app. intros [He|He]%elem_of_app Hst.
  - assert (e ∈ node_entries m) as Hem.
    { eapply (descend_complete path ns i n m e); [done..|rewrite Hp; set_solver|]. destruct Hst as [Heq|(y & _ & Ha & _ & Hup)%Exists_exists].
      - by left.
      - right. by eapply anc_upto. }
    pose proof (forest_ok_nodup _ Hns) as Hnd. unfold hashes in Hnd. rewrite Hp, fmap_app in Hnd.
    apply NoDup_app in Hnd as (_ & Hdis & _). apply (Hdis e.1.1); by apply (list_elem_of_fmap_2 (fun e => e.1.1)).
  - apply elem_of_entries in He as (c & [Hnl Hc]%list_elem_of_filter & He).
    assert (e ∈ entries (n_children m)) as Hec by (apply elem_of_entries; eauto).
    destruct Hst as [Heq|(y & Hy & Ha & Hup & Hye)%Exists_exists].
    + apply (anc_irrefl (n_hash m)). simpl in Heq. rewrite <- Heq at 2. by apply Hd.
    + apply reroot_below in Hy; [|done]. apply elem_of_entries in Hy as (c' & Hc' & Hy).
      assert (c' = c) as -> by (eapply (same_root _ c' c y e); eauto). apply Hnl.
      eapply upto_trans; [|exact Hup]. eapply node_ok_upto; [|done]. by eapply forest_ok_elem.
Qed.

Lemma reroot_forest_ok : forest_ok [set_children (filter leads (n_children m)) m].
Proof using HA Hns Hi Hm.
  pose proof reroot_ok as (Hk & Hd & Hcs)%node_ok_iff. apply forest_ok_cons. split_and!; [|apply forest_ok_nil|].
  - apply node_ok_iff. split_and!; [done| |by apply forest_ok_filter]. simpl. intros e He. apply Hd.
    rewrite (entries_filter_split leads). apply elem_of_app. by left.
  - by intros c ?%not_elem_of_nil.
Qed.

Lemma reroot_perm :
  entries ns ≡ₚ (entry m :: entries (filter leads (n_children m))) ++ entries (ns' ++ filter (fun c => ~ leads c) (n_children m)).
Proof using Hp.
  rewrite Hp, node_entries_eq, entries_app. rewrite (entries_filter_split leads (n_children m)) at 1. solve_Permutation.
Qed.
End Reroot.

Lemma prune_implements t :
  forest_ok (roots t) ->
  implements (prune is_descendent_of hash (num hash) predicate) spec_prune t.
Proof using HA.
  intros Ht. unfold implements, prune. ft_steps. apply wp_find_index; [done| |].
  - intros p i path n m Hp Hi Hm Hd. ft_steps. destruct (detach_spec _ _ _ _ _ Hi Hm) as (ns' & Hdet & Hperm).
    eapply wp_unwrap; [by rewrite Hp|]. ft_steps. pose proof (reroot_ok _ _ _ _ _ Ht Hi Hm) as (_ & _ & Hcs)%node_ok_iff.
    apply wp_split_children; [done..|]. ft_steps.
    apply wp_rebalance; [exact (reroot_forest_ok _ _ _ _ _ Ht Hi Hm)|]. intros t' Ht' Hp' Hb. ft_steps. split; [done|]. split; [done|].
    rewrite decide_True by (apply Exists_exists; exists (entry m); split; apply Hd).
    destruct (filter_split (stays (entries (roots t)) (entry m)) _ _ _ (reroot_perm _ ns' m Hperm)) as [Hk Hg].
    { intros e. by eapply reroot_stays. }
    { intros e. by eapply reroot_goes. }
    exists (entry m). eexists. split_and!; [done|done| |]; simpl.
    + rewrite Hp', <- Hk. cbn -[entries]. rewrite entries_cons, node_entries_eq. cbn -[entries]. by rewrite app_nil_r.
    + by rewrite removed_iter_entries.
  - intros Hno. ft_steps. apply wp_rebalance; [done|]. intros t' Ht' Hp' Hb. ft_steps. split; [done|]. split; [done|].
    rewrite decide_False; [done|]. intros (e & He & Hc)%Exists_exists. by apply (Hno e).
Qed.
End Search.
End Find.
