(* ===== verification/ForkTreeDesc.v ===== *)
(** * The fork tree: finalizing a root with a descendant

    [finalize_with_descendent_if], which the authority sets of GRANDPA use: a
    root is finalized with the first block that is it or descends from it, past
    no other block of the tree. *)

From S2P Require Import Prelude ForkTree ForkTreeFacts ForkTreeImport ForkTreeFinal ForkTreeSim ForkTreeFind.

Section Desc.
Context {H V E : Type} `{EqDecision H} {is_descendent_of : H -> H -> bool + E} {anc : H -> H -> bool} {num : H -> Z}.
Context `{HA : !Ancestry is_descendent_of anc num}.
Local Abbreviation Node := (Node H V).
Local Abbreviation Tree := (@ForkTree H V).
Local Abbreviation Error := (ForkError E).
Local Abbreviation forest_ok := (forest_ok (V := V) (anc := anc) (num := num)).
Local Abbreviation node_ok := (node_ok (V := V) (anc := anc) (num := num)).
Local Abbreviation upto := (upto (anc := anc)).
Local Abbreviation implements := (implements (anc := anc) (num := num)).
Implicit Types (n m : Node) (ns cs : list Node) (e x : H * Z * V) (t : Tree).

Section Block.
Context (hash : H) (predicate : V -> bool).

(** *** The specification *)

(** A root of the tree that the block finalizes. *)
Definition finalizable (l : list (H * Z * V)) x : Prop :=
  Forall (fun e => ~ anc e.1.1 x.1.1) l /\ predicate x.2 /\ upto x.1.1 hash.

(** A block of the tree between them. *)
Definition between (l : list (H * Z * V)) x : Prop := Exists (fun y => anc x.1.1 y.1.1 /\ anc y.1.1 hash) l.

(** On the fork of the block, before or after it. *)
Definition on_fork (l : list (H * Z * V)) e : Prop :=
  upto hash e.1.1 \/ Exists (fun y => upto y.1.1 e.1.1 /\ upto y.1.1 hash) l.

#[global] Instance finalizable_dec l x : Decision (finalizable l x).
Proof using EqDecision0. unfold finalizable. apply _. Defined.
#[global] Instance between_dec l x : Decision (between l x).
Proof. unfold between. apply _. Defined.
#[global] Instance on_fork_dec l e : Decision (on_fork l e).
Proof using EqDecision0. unfold on_fork. apply _. Defined.

Definition spec_finalize_with_descendent_if (s : Blocks (V := V)) (r : FinalizationResult V + Error) (s' : Blocks (V := V)) : Prop :=
  if above (finalized s) (num hash) then
    match list_find (finalizable (blocks s)) (blocks s) with
    | Some (_, x) =>
        if decide (between (blocks s) x) then r = inr UnfinalizedAncestor /\ s' = s
        else r = inl (Changed (Some x.2)) /\ finalized s' = Some (num hash) /\
             blocks s' ≡ₚ filter (fun e => anc x.1.1 e.1.1 /\ upto hash e.1.1) (blocks s)
    | None =>
        r = inl (if decide (Forall (on_fork (blocks s)) (blocks s)) then Unchanged else Changed None) /\
        finalized s' = Some (num hash) /\ blocks s' ≡ₚ filter (on_fork (blocks s)) (blocks s)
    end
  else r = inr Revert /\ s' = s.

(** *** The operation *)

Lemma ask_upto a b : (if num a <=? num b then ask (V := V) is_descendent_of a b else ret false) = ret (anc a b).
Proof using HA.
  rewrite ask_eq. destruct (num a <=? num b) eqn:Hle; [done|]. destruct (anc a b) eqn:Ha; [|done].
  apply Is_true_true_2, anc_number in Ha. lia.
Qed.

Lemma wp_finalized_by n (Q : bool -> Tree -> Prop) (R : Error -> Tree -> Prop) t :
  node_ok n ->
  (~ upto (n_hash n) hash -> Q false t) ->
  (upto (n_hash n) hash -> (forall c, c ∈ n_children n -> ~ anc (n_hash c) hash) -> Q true t) ->
  (upto (n_hash n) hash -> (exists c, c ∈ n_children n /\ anc (n_hash c) hash) -> R UnfinalizedAncestor t) ->
  wp (finalized_by is_descendent_of hash (num hash) n) Q R t.
Proof using HA.
  intros (_ & _ & Hcs)%node_ok_iff HF HT HE. unfold finalized_by. ft_steps.
  replace (if decide (n_hash n = hash) then _ else _) with (ret (S := Tree) (E := Error) (bool_decide (upto (n_hash n) hash))).
  2: { rewrite ask_eq. case_decide as Heq; case_bool_decide as Hup; [done|by destruct Hup; left|..]; f_equal.
       - destruct Hup as [?|Ha]; [done|]. by rewrite (Is_true_true_1 _ Ha).
       - destruct (anc (n_hash n) hash) eqn:Ha; [|done]. destruct Hup. right. by rewrite Ha. }
  ft_steps. case_bool_decide as Hup; ft_steps; [|by apply HF].
  apply (wp_for_none (fun c => anc (n_hash c) hash) UnfinalizedAncestor).
  - intros c Hc. assert (node_ok c) as (-> & _)%node_ok_iff by by eapply forest_ok_elem. by rewrite ask_upto.
  - intros Hno. ft_steps. by apply HT.
  - by apply HE.
Qed.

Lemma wp_first_finalized i ns (Q : option (nat * Node) -> Tree -> Prop) (R : Error -> Tree -> Prop) t :
  Forall node_ok ns ->
  (forall j n, ns !! j = Some n -> predicate (n_data n) -> upto (n_hash n) hash ->
     (forall c, c ∈ n_children n -> ~ anc (n_hash c) hash) -> Q (Some ((i + j)%nat, n)) t) ->
  (forall n, n ∈ ns -> predicate (n_data n) -> upto (n_hash n) hash ->
     (exists c, c ∈ n_children n /\ anc (n_hash c) hash) -> R UnfinalizedAncestor t) ->
  ((forall n, n ∈ ns -> predicate (n_data n) -> ~ upto (n_hash n) hash) -> Q None t) ->
  wp (first_finalized is_descendent_of i hash (num hash) (total predicate) ns) Q R t.
Proof using HA.
  intros Hns. revert i. induction Hns as [|n ns Hn _ IH]; intros i HS HE HN; simpl; ft_steps.
  { apply HN. by intros n ?%not_elem_of_nil. }
  assert (~ (predicate (n_data n) /\ upto (n_hash n) hash) ->
    wp (first_finalized is_descendent_of (S i) hash (num hash) (total predicate) ns) Q R t) as Hnext.
  { intros Hno. apply IH.
    - intros j m Hj. specialize (HS (S j) m). rewrite <- Nat.add_succ_comm in HS. by apply HS.
    - intros m Hm. apply HE. by right.
    - intros Hall. apply HN. intros m [->|Hm]%elem_of_cons; [tauto|by apply Hall]. }
  unfold total at 1. ft_steps. destruct (predicate (n_data n)) eqn:Hp; ft_steps; [|apply Hnext; by intros [[] _]].
  apply wp_finalized_by; [done|intros Hup; ft_steps|intros Hup Hno; ft_steps|intros Hup Hex].
  - apply Hnext. by intros [_ ?].
  - specialize (HS 0%nat n). rewrite Nat.add_0_r in HS. apply HS; [done|by rewrite Hp|done..].
  - apply (HE n); [by left|by rewrite Hp|done..].
Qed.

(** *** Roots and blocks *)

(** A test of the roots that decides alike for all that is under a root. *)
Lemma entries_filter (f : Node -> bool) (P : H * Z * V -> Prop) `{!forall e, Decision (P e)} ns :
  (forall n e, n ∈ ns -> e ∈ node_entries n -> f n <-> P e) ->
  entries (filter f ns) = filter P (entries ns) /\ (forallb f ns = true <-> Forall P (entries ns)).
Proof.
  induction ns as [|n ns IH]; intros Hf; [done|]. destruct IH as [Heq Hall]; [set_solver|].
  rewrite filter_cons, entries_cons, filter_app, <- Heq, Forall_app, <- Hall. simpl. rewrite andb_true_iff.
  assert (forall e, e ∈ node_entries n -> f n <-> P e) as Hn by set_solver. case_decide as Hfn.
  - rewrite (filter_every P (node_entries n)) by (intros e He; by apply (Hn e He)). split; [done|].
    rewrite (Is_true_true_1 _ Hfn), Forall_forall. split; [|naive_solver]. intros [_ ?]. split; [|done]. intros e He. by apply (Hn e He).
  - rewrite (filter_none P (node_entries n)) by (intros e He ?; by apply Hfn, (Hn e He)). split; [done|].
    split; [intros [Hft _]; destruct Hfn; by rewrite Hft|]. intros [Hp _]. rewrite Forall_forall in Hp.
    destruct Hfn. apply (Hn (entry n)); [apply entry_in_node|]. apply Hp, entry_in_node.
Qed.

Lemma root_iff ns x :
  forest_ok ns -> x ∈ entries ns -> Forall (fun e => ~ anc e.1.1 x.1.1) (entries ns) <-> exists n, n ∈ ns /\ x = entry n.
Proof using HA.
  intros Hns Hx. rewrite Forall_forall. split.
  - intros Hno. apply elem_of_entries in Hx as (n & Hn & [Heq|Hx]%elem_of_node_entries); [by exists n|].
    pose proof (forest_ok_elem _ _ Hns Hn) as (_ & Hd & _)%node_ok_iff.
    destruct (Hno (entry n)); [by apply elem_of_forest|]. by apply Hd.
  - intros (n & Hn & ->) e He. by eapply root_has_no_ancestor.
Qed.

Lemma one_root ns n m : forest_ok ns -> n ∈ ns -> m ∈ ns -> upto (n_hash n) hash -> upto (n_hash m) hash -> n = m.
Proof using HA.
  intros Hns Hn Hm Hnu Hmu. destruct (upto_linear _ _ _ Hnu Hmu) as [Hup|Ha].
  - eapply (same_root _ n m (entry n) (entry m)); eauto using entry_in_node.
  - symmetry. eapply (same_root _ m n (entry m) (entry n)); eauto using entry_in_node. by right.
Qed.

Lemma find_finalizable ns n :
  forest_ok ns -> n ∈ ns -> predicate (n_data n) -> upto (n_hash n) hash ->
  exists i, list_find (finalizable (entries ns)) (entries ns) = Some (i, entry n).
Proof using HA.
  intros Hns Hn Hp Hup. destruct (list_find_elem_of (finalizable (entries ns)) (entries ns) (entry n)) as [[i x] Hf].
  - by apply elem_of_forest.
  - split_and!; [|done..]. apply root_iff; eauto using elem_of_forest.
  - exists i. rewrite Hf. apply list_find_Some in Hf as (Hi & (Hroot & _ & Hxup) & _). apply list_elem_of_lookup_2 in Hi.
    apply root_iff in Hroot as (m & Hm & ->); [|done..]. by rewrite (one_root ns n m).
Qed.

Lemma find_not_finalizable ns :
  forest_ok ns -> (forall n, n ∈ ns -> predicate (n_data n) -> ~ upto (n_hash n) hash) ->
  list_find (finalizable (entries ns)) (entries ns) = None.
Proof using HA.
  intros Hns Hno. apply list_find_None, Forall_forall. intros x Hx (Hroot & Hp & Hup).
  apply root_iff in Hroot as (n & Hn & ->); [|done..]. by eapply Hno.
Qed.

Lemma between_iff ns n :
  forest_ok ns -> n ∈ ns -> between (entries ns) (entry n) <-> exists c, c ∈ n_children n /\ anc (n_hash c) hash.
Proof using HA.
  intros Hns Hn. pose proof (forest_ok_elem _ _ Hns Hn) as (_ & Hd & Hcs)%node_ok_iff.
  unfold between. rewrite Exists_exists. split.
  - intros (y & (m & Hm & Hy)%elem_of_entries & Ha & Hah). simpl in Ha.
    assert (n = m) as <- by (eapply (same_root ns n m (entry n) y); eauto using entry_in_node; by right).
    apply elem_of_node_entries in Hy as [->|(c & Hc & Hy)%elem_of_entries]; [by apply anc_irrefl in Ha|].
    exists c. split; [done|]. eapply upto_anc; [|exact Hah]. eapply node_ok_upto; [|done]. by eapply forest_ok_elem.
  - intros (c & Hc & Ha). assert (entry c ∈ entries (n_children n)) as Hin by by apply elem_of_forest.
    exists (entry c). split_and!; [|by apply (Hd (entry c))|done]. apply elem_of_entries. exists n.
    split; [done|]. apply elem_of_node_entries. by right.
Qed.

(** *** What is kept *)

(** The test of the loop over the roots. *)
Definition keep n : bool := bool_decide (upto hash (n_hash n) \/ anc (n_hash n) hash).

Lemma keep_test n :
  node_ok n ->
  (let! after := (if num hash <? n_number n then ask (V := V) is_descendent_of hash (n_hash n) else ret false) in
   if (after : bool) || ((n_number n =? num hash) && bool_decide (n_hash n = hash)) then ret true
   else ask is_descendent_of (n_hash n) hash) = ret (keep n).
Proof using HA.
  intros (-> & _)%node_ok_iff. rewrite ask_below, ask_eq. unfold bind, ret. simpl.
  replace (anc hash (n_hash n) || _) with (bool_decide (upto hash (n_hash n))).
  - unfold keep. case_bool_decide as Hup; [by rewrite bool_decide_true by by left|]. f_equal.
    destruct (anc (n_hash n) hash) eqn:Ha.
    + by rewrite bool_decide_true by by right.
    + rewrite bool_decide_false; [done|]. by intros [?|[]].
  - case_bool_decide as Hup; symmetry.
    + destruct Hup as [<-|Ha]; [|by rewrite (Is_true_true_1 _ Ha)]. by rewrite Z.eqb_refl, bool_decide_true, orb_true_r.
    + apply orb_false_iff. split; [destruct (anc hash (n_hash n)) eqn:Ha; [|done]; destruct Hup; right; by rewrite Ha|].
      rewrite bool_decide_false; [by rewrite andb_false_r|]. intros Heq. apply Hup. by left.
Qed.

Lemma keep_on_fork ns n e : forest_ok ns -> n ∈ ns -> e ∈ node_entries n -> keep n <-> on_fork (entries ns) e.
Proof using HA.
  intros Hns Hn He. assert (upto (n_hash n) e.1.1) as Hne by (eapply node_ok_upto; [by eapply forest_ok_elem|done]).
  unfold keep. rewrite bool_decide_spec. split.
  - intros [Hup|Ha]; [left; by eapply upto_trans|]. right. apply Exists_exists. exists (entry n).
    split_and!; [by apply elem_of_forest|done|by right].
  - intros [Hup|(y & (m & Hm & Hy)%elem_of_entries & Hye & Hyh)%Exists_exists].
    + destruct (upto_linear _ _ _ Hne Hup) as [[Heq|?]|?]; [left; by left|by right|left; by right].
    + assert (m = n) as -> by (eapply (same_root ns m n y e); eauto).
      destruct (upto_trans _ _ _ (node_ok_upto _ _ (forest_ok_elem _ _ Hns Hm) Hy) Hyh); [left; by left|by right].
Qed.

(** Under the finalized root. *)
Lemma keep_below n c e :
  node_ok n -> c ∈ n_children n -> (forall c, c ∈ n_children n -> ~ anc (n_hash c) hash) ->
  e ∈ node_entries c -> keep c <-> anc (n_hash n) e.1.1 /\ upto hash e.1.1.
Proof using HA.
  intros (_ & Hd & Hcs)%node_ok_iff Hc Hno He.
  assert (upto (n_hash c) e.1.1) as Hce by (eapply node_ok_upto; [by eapply forest_ok_elem|done]).
  assert (anc (n_hash n) e.1.1) as Hane by (apply Hd, elem_of_entries; eauto).
  unfold keep. rewrite bool_decide_spec. split.
  - intros [Hup|Ha]; [|by destruct (Hno c)]. split; [done|]. by eapply upto_trans.
  - intros [_ Hup]. left. destruct (upto_linear _ _ _ Hce Hup) as [[Heq|Ha]|?]; [by left| |by right]. by destruct (Hno c).
Qed.

Lemma filter_under ns i n :
  forest_ok ns -> ns !! i = Some n ->
  filter (fun e => anc (n_hash n) e.1.1 /\ upto hash e.1.1) (entries ns) ≡ₚ
  filter (fun e => anc (n_hash n) e.1.1 /\ upto hash e.1.1) (entries (n_children n)).
Proof using HA.
  intros Hns Hi. rewrite <- (list_filter_filter_l _ (fun e => anc (n_hash n) e.1.1)) by naive_solver.
  by rewrite (filter_root (n_hash n) ns i n Hns Hi).
Qed.

Lemma finalize_with_descendent_if_implements t :
  forest_ok (roots t) ->
  implements (finalize_with_descendent_if is_descendent_of hash (num hash) (total predicate)) spec_finalize_with_descendent_if t.
Proof using HA.
  intros Ht. unfold implements, finalize_with_descendent_if. ft_steps.
  apply wp_ensure_above; unfold spec_finalize_with_descendent_if; simpl; intros ->; [|done]. ft_steps.
  apply wp_first_finalized; [apply Ht|intros i n Hi Hp Hup Hno|intros n Hn Hp Hup Hex|intros Hno]; ft_steps.
  - assert (n ∈ roots t) as Hn by by apply list_elem_of_lookup_2 in Hi.
    pose proof (forest_ok_elem _ _ Ht Hn) as Hnok. pose proof Hnok as (_ & _ & Hcs)%node_ok_iff.
    eapply wp_finalize_root_at; [done|]. ft_steps. simpl.
    apply (wp_retain_roots keep); [intros c Hc; apply keep_test; by eapply forest_ok_elem|]. ft_steps. simpl.
    split; [by apply forest_ok_filter|]. destruct (find_finalizable _ _ Ht Hn Hp Hup) as [j ->].
    rewrite decide_False by (rewrite between_iff by done; naive_solver). split_and!; [done..|].
    etrans; [|symmetry; exact (filter_under _ _ _ Ht Hi)].
    destruct (entries_filter keep (fun e => anc (n_hash n) e.1.1 /\ upto hash e.1.1) (n_children n)) as [-> _]; [|done].
    intros c e Hc He. by apply keep_below.
  - destruct (find_finalizable _ _ Ht Hn Hp Hup) as [j ->]. rewrite decide_True by by apply between_iff. done.
  - apply (wp_retain_roots keep); [intros c Hc; apply keep_test; by eapply forest_ok_elem|]. ft_steps. simpl.
    split; [by apply forest_ok_filter|]. rewrite find_not_finalizable by done.
    destruct (entries_filter keep (on_fork (entries (roots t))) (roots t)) as [-> Hall]; [intros; by apply keep_on_fork|].
    split_and!; [|done..]. f_equal. apply changed_or_not_iff. by rewrite negb_false_iff.
Qed.
End Block.
End Desc.
