(* ===== verification/ForkTreeTheorems.v ===== *)
(** * The fork tree: what it promises

    Over every history of calls, the tree is the set of the blocks that were
    imported and not finalized away, in the shape of their ancestry; a search
    finds the deepest ancestor.  Two ways in which it falls short: a block that
    finalizes its parent stays behind, and an error of the client loses roots. *)

From S2P Require Import Prelude ForkTree ForkTreeFacts ForkTreeImport ForkTreeFinal ForkTreeSim ForkTreeFind ForkTreeDesc.

Section Theorems.
Context {H V E : Type} `{EqDecision H} {is_descendent_of : H -> H -> bool + E} {anc : H -> H -> bool} {num : H -> Z}.
Local Abbreviation Tree := (@ForkTree H V).
Local Abbreviation Error := (ForkError E).
Local Abbreviation forest_ok := (forest_ok (V := V) (anc := anc) (num := num)).
Local Abbreviation Spec := (Blocks (H := H) (V := V)).
Implicit Types (t : Tree) (s : Spec) (hash : H).

(** *** Histories *)

Inductive Call :=
| CImport (hash : H) (data : V)
| CFinalize (hash : H)
| CFinalizeWithAncestors (hash : H)
| CFinalizeWithDescendentIf (hash : H) (predicate : V -> bool)
| CPrune (hash : H) (predicate : V -> bool)
| CRebalance.

Inductive Answer :=
| Root (b : bool)
| Finalized (r : FinalizationResult V)
| Pruned (removed : list (H * Z * V))
| Done.

Definition exec (c : Call) : M Tree Error Answer :=
  match c with
  | CImport hash data => let! b := import is_descendent_of hash (num hash) data in ret (Root b)
  | CFinalize hash => let! r := finalize is_descendent_of hash (num hash) in ret (Finalized r)
  | CFinalizeWithAncestors hash => let! r := finalize_with_ancestors is_descendent_of hash (num hash) in ret (Finalized r)
  | CFinalizeWithDescendentIf hash p =>
      let! r := finalize_with_descendent_if is_descendent_of hash (num hash) (total p) in ret (Finalized r)
  | CPrune hash p => let! removed := prune is_descendent_of hash (num hash) p in ret (Pruned removed)
  | CRebalance => rebalance ;; ret Done
  end.

(** A specification whose results are wrapped in an answer. *)
Definition answers {A} (spec : Spec -> A + Error -> Spec -> Prop) (f : A -> Answer) s (r : Answer + Error) s' : Prop :=
  match r with
  | inl a => exists b, a = f b /\ spec s (inl b) s'
  | inr e => spec s (inr e) s'
  end.

Definition spec_call (c : Call) s (r : Answer + Error) s' : Prop :=
  match c with
  | CImport hash data => answers (spec_import anc num hash data) Root s r s'
  | CFinalize hash => answers (spec_finalize anc num hash) Finalized s r s'
  | CFinalizeWithAncestors hash => answers (spec_finalize_with_ancestors anc num hash) Finalized s r s'
  | CFinalizeWithDescendentIf hash p => answers (spec_finalize_with_descendent_if (anc := anc) (num := num) hash p) Finalized s r s'
  | CPrune hash p => answers (spec_prune (anc := anc) hash p) Pruned s r s'
  | CRebalance => r = inl Done /\ blocks s' ≡ₚ blocks s /\ finalized s' = finalized s
  end.

(** Blocks are imported in order: none before one of its ancestors. *)
Definition in_order (c : Call) s : Prop :=
  match c with CImport hash _ => Forall (fun e => ~ anc hash e.1.1) (blocks s) | _ => True end.

Inductive reachable : Tree -> Prop :=
| reach_new : reachable new_tree
| reach_ok t c a t' : reachable t -> in_order c (view t) -> exec c t = Ok a t' -> reachable t'
| reach_err t c e t' : reachable t -> in_order c (view t) -> exec c t = Err e t' -> reachable t'.

Context `{HA : !Ancestry is_descendent_of anc num}.

Lemma wp_answers {A} (m : M Tree Error A) spec (f : A -> Answer) t :
  implements (anc := anc) (num := num) m spec t ->
  implements (anc := anc) (num := num) (let! a := m in ret (f a)) (answers spec f) t.
Proof. intros Hm. unfold implements. ft_steps. eapply wp_mono; [exact Hm| |done]. intros a t' [Ht' Hs]. ft_steps. split; [done|]. by exists a. Qed.

Lemma exec_implements c t :
  forest_ok (roots t) -> in_order c (view t) -> implements (anc := anc) (num := num) (exec c) (spec_call c) t.
Proof using HA.
  intros Ht Hin. destruct c; simpl in Hin; simpl; try apply wp_answers.
  - apply import_implements; [done|]. by apply Forall_forall.
  - by apply finalize_implements.
  - by apply finalize_with_ancestors_implements.
  - by apply finalize_with_descendent_if_implements.
  - by apply prune_implements.
  - unfold implements. ft_steps. by apply (wp_rebalance (anc := anc) (num := num)).
Qed.

Lemma reachable_ok t : reachable t -> forest_ok (roots t).
Proof using HA.
  intros Ht. induction Ht as [|t c a t' _ IH Hin Hex|t c e t' _ IH Hin Hex]; [apply forest_ok_nil|..];
    pose proof (exec_implements c t IH Hin) as Hw; unfold implements, wp in Hw; rewrite Hex in Hw; apply Hw.
Qed.

(** C3: Over every history of imports in order, finalizations of the three
    kinds, prunings and rebalancings, the tree does what the set of its blocks
    does: each call ends, without a panic, with the result or the error that the
    set of blocks specifies, leaves the tree with exactly the blocks that it
    specifies, each once, and in the shape of the ancestry. *)
Theorem fork_tree_refines_blocks t c :
  reachable t -> in_order c (view t) ->
  exists r t', (exec c t = match r with inl a => Ok a t' | inr e => Err e t' end) /\
    spec_call c (view t) r (view t') /\ forest_ok (roots t') /\ NoDup (hashes (roots t')).
Proof using HA.
  intros Ht%reachable_ok Hin. pose proof (exec_implements c t Ht Hin) as Hw. unfold implements, wp in Hw.
  destruct (exec c t) as [a t'|e t'|]; [exists (inl a), t'|exists (inr e), t'|done];
    destruct Hw as [Hok Hs]; split_and!; try done; by eapply forest_ok_nodup.
Qed.

(** C31: A search gives the deepest of the ancestors of a block that pass the
    predicate: an ancestor that passes, at or below every other one that does;
    and nothing exactly when none passes.  It changes nothing and never fails. *)
Theorem find_is_deepest t hash predicate :
  reachable t ->
  exists r, find_node_where is_descendent_of hash (num hash) predicate t = Ok r t /\
    match r with
    | Some n => deepest (anc := anc) hash predicate (entry n) (iter t)
    | None => forall e, e ∈ iter t -> anc e.1.1 hash -> ~ predicate e.2
    end.
Proof using HA.
  intros Ht%reachable_ok. rewrite iter_entries.
  assert (wp (find_node_where is_descendent_of hash (num hash) predicate)
    (fun r t' => t' = t /\ match r with
       | Some n => deepest (anc := anc) hash predicate (entry n) (entries (roots t))
       | None => forall e, e ∈ entries (roots t) -> anc e.1.1 hash -> ~ predicate e.2 end) (fun _ _ => False) t) as Hw.
  { apply wp_find_node_where; [done|naive_solver|]. intros Hno. split; [done|]. intros e He Ha Hp. by apply (Hno e). }
  unfold wp in Hw. destruct (find_node_where _ _ _ _ t) as [r t'|e t'|]; [|done..]. destruct Hw as [-> Hr]. by exists r.
Qed.

(** C38: [finalize_with_descendent_if] lets a block of the tree finalize its
    parent, a root that passes the predicate, although it is documented for the
    root itself or a block that is not in the tree: the parent is taken out, and
    the block stays in the tree as a root, at the number that is now the finalized
    one.  So [finalize], [finalize_with_ancestors] and
    [finalize_with_descendent_if] of this block are refused afterwards, the last
    for every predicate. *)
Theorem child_stays_behind t hash x data predicate :
  reachable t -> above (best_finalized_number t) (num hash) = true ->
  x ∈ iter t -> Forall (fun e => ~ anc e.1.1 x.1.1) (iter t) -> predicate x.2 = true ->
  anc x.1.1 hash = true -> (hash, num hash, data) ∈ iter t -> ~ between (anc := anc) hash (iter t) x ->
  exists t', finalize_with_descendent_if is_descendent_of hash (num hash) (total predicate) t = Ok (Changed (Some x.2)) t' /\
    best_finalized_number t' = Some (num hash) /\ (exists n, n ∈ roots t' /\ entry n = (hash, num hash, data)) /\
    forall p, finalize_with_descendent_if is_descendent_of hash (num hash) p t' = Err Revert t' /\
      finalize is_descendent_of hash (num hash) t' = Err Revert t' /\
      finalize_with_ancestors is_descendent_of hash (num hash) t' = Err Revert t'.
Proof using HA.
  intros Ht%reachable_ok Hab Hx Hroot Hp Ha Hin Hbt. rewrite iter_entries in *.
  apply (root_iff _ x Ht Hx) in Hroot as (n & Hn & ->).
  apply Is_true_true_2 in Ha. apply Is_true_true_2 in Hp.
  destruct (find_finalizable hash predicate _ _ Ht Hn Hp (or_intror Ha)) as [i Hf].
  pose proof (finalize_with_descendent_if_implements hash predicate t Ht) as Hw.
  unfold implements, wp, spec_finalize_with_descendent_if in Hw. cbn [view finalized blocks] in Hw.
  rewrite Hab, Hf in Hw. cbn beta iota in Hw.
  destruct (finalize_with_descendent_if _ _ _ _ t) as [r t'|e t'|]; [|rewrite decide_False in Hw by done; naive_solver|done].
  rewrite decide_False in Hw by done.
  destruct Hw as (Ht' & [= ->] & Hb & Hperm). exists t'. simpl in Hb, Hperm. split_and!; [done|done| |].
  - assert ((hash, num hash, data) ∈ entries (roots t')) as Hin'.
    { rewrite Hperm. apply list_elem_of_filter. split; [|done]. split; [done|by left]. }
    destruct (proj1 (root_iff _ _ Ht' Hin')) as (m & Hm & Heq); [|by exists m]. apply Forall_forall. intros e He Hanc.
    rewrite Hperm in He. apply list_elem_of_filter in He as [[_ Hup] _]. simpl in Hanc.
    destruct Hup as [Heq|Hup]; [rewrite <- Heq in Hanc; by eapply anc_irrefl|]. eapply anc_irrefl, anc_trans; [exact Hanc|exact Hup].
  - assert (ensure_above_finalized (H := H) (V := V) (E := E) (num hash) t' = Err Revert t') as Hr.
    { unfold ensure_above_finalized, bind, gets. rewrite Hb. cbn -[Z.ltb]. by rewrite Z.ltb_irrefl. }
    intros p. split_and!; [unfold finalize_with_descendent_if|unfold finalize|unfold finalize_with_ancestors];
      unfold bind at 1; by rewrite Hr.
Qed.
End Theorems.

(** The roots that [finalize] keeps, as far as the client answers. *)
Definition keeps {H V E : Type} (is_descendent_of : H -> H -> bool + E) hash number (m : Node H V) : bool :=
  (number <? n_number m) && match is_descendent_of hash (n_hash m) with inl answer => answer | inr _ => false end.

(** C39: [finalize] takes the roots out of the tree before it asks the client
    which of them to keep.  When the client fails at a root above the block, after
    the checks that come before have passed, the error is returned, nothing is
    finalized, and the tree has only the roots that were accepted before the
    failure: this root and all that come after it are lost. *)
Theorem client_error_loses_roots {H V E : Type} `{EqDecision H} (is_descendent_of : H -> H -> bool + E)
    hash number (before after : list (Node H V)) n b e :
  above b number = true ->
  Forall (fun m => n_hash m <> hash /\ (number <= n_number m \/ is_descendent_of (n_hash m) hash = inl false)) (before ++ n :: after) ->
  Forall (fun m => number < n_number m -> exists answer, is_descendent_of hash (n_hash m) = inl answer) before ->
  number < n_number n -> is_descendent_of hash (n_hash n) = inr e ->
  finalize is_descendent_of hash number (mkTree (before ++ n :: after) b) =
    Err (Client e) (mkTree (filter (keeps is_descendent_of hash number) before) b).
Proof.
  intros Hb Hns Hans Hn He. unfold finalize, ensure_above_finalized, finalize_root, bind, gets, ret, modify.
  cbn [best_finalized_number roots]. unfold above in Hb. rewrite Hb. cbn [ensure ret].
  rewrite (proj2 (list_find_None _ _)) by (eapply Forall_impl; [exact Hns|naive_solver]).
  assert (forall l (t : @ForkTree H V),
    Forall (fun m : Node H V => n_hash m <> hash /\ (number <= n_number m \/ is_descendent_of (n_hash m) hash = inl false)) l ->
    for_each l (fun root => let! a := (if n_number root <? number then ask (V := V) is_descendent_of (n_hash root) hash else ret false) in
      ensure (negb a) UnfinalizedAncestor) t = Ok tt t) as Hno.
  { intros l t Hl. induction Hl as [|m l [_ Hm] _ IH]; [done|]. simpl. unfold bind at 1 2, ask.
    destruct (Z.ltb_spec (n_number m) number); [|exact IH]. destruct Hm as [?|Hm]; [lia|]. rewrite Hm. exact IH. }
  unfold ret in *. rewrite Hno by done. cbn [set_roots].
  assert (forall kept changed, retain_roots (fun root => if number <? n_number root then ask (V := V) is_descendent_of hash (n_hash root) else ret false)
      (before ++ n :: after) changed (mkTree kept b) =
    Err (Client e) (mkTree (kept ++ filter (keeps is_descendent_of hash number) before) b)) as Hret.
  { clear Hns Hno. set (test := fun root => _). assert (forall m t, (number < n_number m -> exists answer, is_descendent_of hash (n_hash m) = inl answer) ->
      test m t = Ok (keeps is_descendent_of hash number m) t) as Htest.
    { intros m t Hm. unfold test, keeps, ask. destruct (Z.ltb_spec number (n_number m)) as [Hlt|]; [|done]. by destruct (Hm Hlt) as [answer ->]. }
    assert (forall t, test n t = Err (Client e) t) as Hfail.
    { intros t. unfold test, ask. by rewrite (proj2 (Z.ltb_lt _ _)), He by done. }
    clearbody test. induction Hans as [|m before Hm _ IH]; intros kept changed; cbn [app retain_roots]; unfold bind at 1.
    - rewrite Hfail. by rewrite app_nil_r.
    - rewrite Htest, filter_cons by done. destruct (keeps is_descendent_of hash number m) eqn:Hk.
      + rewrite decide_True by done. unfold bind, modify, set_roots. cbn. rewrite IH. by rewrite <- app_assoc.
      + rewrite decide_False by (by intros []). apply IH. }
  unfold ret in Hret. unfold set_roots. cbn [roots best_finalized_number]. by rewrite (Hret [] false).
Qed.

(* ===================================================================== *)
(** ** A chain

    Blocks are their paths from the genesis block, and ancestors are prefixes. *)
Module Chain.

Abbreviation block := (list nat).

Fixpoint ancestor (a b : block) : bool :=
  match a, b with
  | [], _ :: _ => true
  | x :: a, y :: b => (x =? y)%nat && ancestor a b
  | _, _ => false
  end.

Definition height (b : block) : Z := Z.of_nat (length b).
Definition client (a b : block) : bool + unit := inl (ancestor a b).
Definition broken (a b : block) : bool + unit := inr tt.

Lemma ancestor_iff a b : ancestor a b <-> exists x k, b = a ++ x :: k.
Proof.
  revert b. induction a as [|x a IH]; intros [|y b]; simpl.
  - split; [by intros []|]. by intros (? & ? & ?).
  - split; [|done]. intros _. by exists y, b.
  - split; [by intros []|]. by intros (? & ? & ?).
  - rewrite andb_True, IH. split.
    + intros [Hxy (z & k & ->)]. apply Is_true_true_1, Nat.eqb_eq in Hxy as ->. by exists z, k.
    + intros (z & k & [= -> ->]). rewrite Nat.eqb_refl. split; [done|]. by exists z, k.
Qed.

Lemma prefixes_linear (a b c d : block) : a ++ c = b ++ d -> a = b \/ ancestor a b \/ ancestor b a.
Proof.
  intros Heq. rewrite !ancestor_iff. revert b Heq. induction a as [|x a IH]; intros [|y b]; simpl.
  - by left.
  - intros _. right; left. by exists y, b.
  - intros _. right; right. by exists x, a.
  - intros [= -> Heq]. destruct (IH b Heq) as [->|[(z & k & ->)|(z & k & ->)]]; [by left|right; left|right; right]; by exists z, k.
Qed.

#[export] Instance chain : Ancestry client ancestor height.
Proof.
  split.
  - done.
  - intros a b c (x & k & ->)%ancestor_iff (y & l & ->)%ancestor_iff. apply ancestor_iff.
    exists x, (k ++ y :: l). by rewrite <- app_assoc.
  - intros a b (x & k & ->)%ancestor_iff. unfold height. rewrite length_app. simpl. lia.
  - intros a b c (x & k & ->)%ancestor_iff (y & l & Heq)%ancestor_iff. by eapply prefixes_linear.
Qed.

Abbreviation Tree := (@ForkTree block Z).
Abbreviation reachable := (reachable (is_descendent_of := client) (anc := ancestor) (num := height) (V := Z)).

#[local] Instance in_order_dec (c : Call (V := Z)) s : Decision (in_order (anc := ancestor) c s).
Proof. destruct c; simpl; apply _. Defined.

(** A history. *)
Fixpoint play (calls : list (Call (V := Z))) (t : Tree) : option Tree :=
  match calls with
  | [] => Some t
  | c :: calls =>
      if decide (in_order (anc := ancestor) c (view t)) then
        match exec (is_descendent_of := client) (num := height) c t with
        | Ok _ t' | Err _ t' => play calls t'
        | Panic => None
        end
      else None
  end.

Lemma play_reachable calls t t' : reachable t -> play calls t = Some t' -> reachable t'.
Proof.
  revert t. induction calls as [|c calls IH]; intros t Ht; simpl; [by intros [= ->]|].
  case_decide as Hin; [|done]. destruct (exec c t) as [a u|e u|] eqn:Hex; [| |done]; apply IH.
  - by eapply reach_ok.
  - by eapply reach_err.
Qed.

(** Two forks: 1-1-1 and 1-2-1 over block 1, and a block of its own. *)
Definition history : list (Call (V := Z)) :=
  [CImport [1%nat] 7; CImport [1; 2]%nat 0; CImport [1; 1]%nat 5; CImport [1; 2; 1]%nat 9; CImport [3]%nat 4; CImport [1; 1; 1]%nat 1].
Definition tree : Tree := default new_tree (play history new_tree).

Lemma tree_reachable : reachable tree.
Proof. apply (play_reachable history new_tree); [constructor|]. vm_compute. reflexivity. Qed.

Definition passes (d : Z) : bool := 4 <? d.

Lemma fork_tree_refines_blocks_witness :
  reachable tree /\ exists r t',
    exec (is_descendent_of := client) (num := height) (CFinalizeWithAncestors [1; 2]%nat) tree = match r with inl a => Ok a t' | inr e => Err e t' end /\
    spec_call (anc := ancestor) (num := height) (CFinalizeWithAncestors [1; 2]%nat) (view tree) r (view t') /\
    forest_ok (anc := ancestor) (num := height) (roots t') /\ NoDup (hashes (roots t')).
Proof. split; [exact tree_reachable|]. apply (fork_tree_refines_blocks tree (CFinalizeWithAncestors [1; 2]%nat)); [exact tree_reachable|exact I]. Defined.

Lemma find_is_deepest_witness :
  reachable tree /\ exists r, find_node_where client [1; 1; 1; 4]%nat (height [1; 1; 1; 4]%nat) passes tree = Ok r tree /\
    match r with
    | Some n => deepest (anc := ancestor) [1; 1; 1; 4]%nat passes (entry n) (iter tree)
    | None => forall e, e ∈ iter tree -> ancestor e.1.1 [1; 1; 1; 4]%nat -> ~ passes e.2
    end.
Proof. split; [exact tree_reachable|]. apply (find_is_deepest tree [1; 1; 1; 4]%nat passes tree_reachable). Defined.

(** The block below the one that does not pass is passed over. *)
Lemma search_backtracks :
  exists n, find_node_where client [1; 1; 1; 4]%nat 4 passes tree = Ok (Some n) tree /\ entry n = ([1; 1]%nat, 2, 5).
Proof. eexists. vm_compute. split; reflexivity. Qed.

Lemma child_stays_behind_witness :
  exists t', finalize_with_descendent_if client [1; 2]%nat (height [1; 2]%nat) (total passes) tree = Ok (Changed (Some 7)) t' /\
    best_finalized_number t' = Some (height [1; 2]%nat) /\ (exists n, n ∈ roots t' /\ entry n = ([1; 2]%nat, height [1; 2]%nat, 0)) /\
    forall p, finalize_with_descendent_if client [1; 2]%nat (height [1; 2]%nat) p t' = Err Revert t' /\
      finalize client [1; 2]%nat (height [1; 2]%nat) t' = Err Revert t' /\
      finalize_with_ancestors client [1; 2]%nat (height [1; 2]%nat) t' = Err Revert t'.
Proof.
  apply (child_stays_behind (num := height) (anc := ancestor) tree [1; 2]%nat ([1]%nat, 1, 7) 0 passes); [exact tree_reachable|reflexivity|..].
  - apply (bool_decide_unpack _). vm_compute. exact I.
  - apply (bool_decide_unpack _). vm_compute. exact I.
  - reflexivity.
  - reflexivity.
  - apply (bool_decide_unpack _). vm_compute. exact I.
  - apply (bool_decide_unpack _). vm_compute. exact I.
Defined.

(** A client that does not know the block 3-1. *)
Definition partial (a b : block) : bool + unit := if decide (b = [3; 1]%nat) then inr tt else client a b.

Lemma client_error_loses_roots_witness :
  finalize partial [1]%nat 1 (mkTree [mkNode [1; 1]%nat 2 5 []; mkNode [2; 1]%nat 2 6 []; mkNode [3; 1]%nat 2 7 []; mkNode [1; 2]%nat 2 8 []] None)
    = Err (Client tt) (mkTree (V := Z) [mkNode [1; 1]%nat 2 5 []] None).
Proof.
  apply (client_error_loses_roots partial [1]%nat 1 [mkNode [1; 1]%nat 2 5 []; mkNode [2; 1]%nat 2 6 []] [mkNode [1; 2]%nat 2 8 []]
    (mkNode [3; 1]%nat 2 7 []) None tt); [reflexivity| | |reflexivity|reflexivity].
  - repeat constructor; simpl; try done; left; lia.
  - repeat constructor; intros _; by eexists.
Defined.

End Chain.
