(* ===== verification/ForkTreeAgree.v ===== *)
(** * The fork tree: which questions it asks

    The operations ask the client only about blocks of the tree and the block
    that they are called with: two clients that agree on these drive the tree
    alike. *)

From S2P Require Import Prelude ForkTree ForkTreeFacts ForkTreeImport ForkTreeFinal ForkTreeSim ForkTreeFind ForkTreeDesc ForkTreeTheorems.

(** *** Loops with the same bodies *)

Lemma for_each_ext {S E X} (body body' : X -> M S E unit) l : (forall x, x ∈ l -> body x = body' x) -> for_each l body = for_each l body'.
Proof.
  induction l as [|x l IH]; intros Hb; simpl; [done|]. rewrite Hb by by left. rewrite IH; [done|]. intros y Hy. apply Hb. by right.
Qed.

Lemma import_children_ext {A X E} (f g : A -> X -> (A * option X) + E) l x :
  (forall a, a ∈ l -> f a x = g a x /\ forall a' x', g a x = inl (a', Some x') -> x' = x) ->
  import_children f l x = import_children g l x /\ forall l' x', import_children g l x = inl (l', Some x') -> x' = x.
Proof.
  induction l as [|a l IH]; intros Hl; simpl; [split; [done|by intros ?? [= <-]]|].
  destruct (Hl a) as [-> Hrest]; [by left|]. destruct (g a x) as [[a' [x'|]]|e] eqn:Hg; [|done|done].
  pose proof (Hrest _ _ eq_refl) as ->. destruct IH as [-> Hx]; [intros b Hb; apply Hl; by right|].
  split; [done|]. destruct (import_children g l x) as [[l' [y|]]|e]; [|done|done]. intros ?? [= _ <-]. by eapply Hx.
Qed.

Lemma search_children_ext {A E} (f g : A -> FindOutcome (list nat) + E) i l :
  (forall a, a ∈ l -> f a = g a) -> search_children f i l = search_children g i l.
Proof.
  revert i. induction l as [|a l IH]; intros i Hl; simpl; [done|]. rewrite Hl by by left. rewrite IH; [done|].
  intros b Hb. apply Hl. by right.
Qed.

Lemma retain_roots_ext {H V E} (test test' : Node H V -> M (@ForkTree H V) (ForkError E) bool) ns changed :
  (forall n, n ∈ ns -> test n = test' n) -> retain_roots test ns changed = retain_roots test' ns changed.
Proof.
  revert changed. induction ns as [|n ns IH]; intros changed Ht; simpl; [done|]. rewrite Ht by by left.
  rewrite !IH by (intros m Hm; apply Ht; by right). done.
Qed.

(** One step that is the same, and then what follows. *)
Lemma bind_agree {S E A B} (m m' : M S E A) (k k' : A -> M S E B) s :
  m s = m' s -> (forall a s', m s = Ok a s' -> k a s' = k' a s') -> (let! x := m in k x) s = (let! x := m' in k' x) s.
Proof. intros Hm Hk. unfold bind. rewrite <- Hm. destruct (m s); [by apply Hk|done|done]. Qed.

(** *** Steps that only look *)

Definition looks {S E A} (m : M S E A) : Prop := forall s a s', m s = Ok a s' -> s' = s.

Lemma looks_ret {S E A} (a : A) : looks (S := S) (E := E) (ret a).
Proof. by intros s b s' [= _ <-]. Qed.

Lemma looks_gets {S E A} (f : S -> A) : looks (E := E) (gets f).
Proof. by intros s b s' [= _ <-]. Qed.

Lemma looks_fail {S E A} (e : E) : looks (S := S) (A := A) (fail e).
Proof. by intros s b s' [=]. Qed.

Lemma looks_bind {S E A B} (m : M S E A) (k : A -> M S E B) : looks m -> (forall a, looks (k a)) -> looks (let! x := m in k x).
Proof. intros Hm Hk s b s'. unfold bind. destruct (m s) as [a s1|e s1|] eqn:He; [|done|done]. apply Hm in He as ->. apply Hk. Qed.

Lemma looks_ensure {S E} b (e : E) : looks (S := S) (ensure b e).
Proof. unfold ensure. destruct b; [apply looks_ret|apply looks_fail]. Qed.

Lemma looks_for_each {S E X} (body : X -> M S E unit) l : (forall x, looks (body x)) -> looks (for_each l body).
Proof. intros Hb. induction l as [|x l IH]; simpl; [apply looks_ret|]. by apply looks_bind. Qed.

Create HintDb looks.
#[export] Hint Resolve looks_ret looks_gets looks_fail looks_bind looks_ensure looks_for_each : looks.

Section Looks.
Context {H V E : Type} `{EqDecision H} (f : H -> H -> bool + E).
Implicit Types (n : Node H V) (ns : list (Node H V)).

Lemma looks_above number : looks (ensure_above_finalized (H := H) (V := V) (E := E) number).
Proof. unfold ensure_above_finalized. auto with looks. Qed.

Lemma looks_ask a b : looks (ask (V := V) f a b).
Proof. unfold ask. destruct (f a b); auto with looks. Qed.

Lemma looks_ask_if (b : bool) x y : looks (if b then ask (V := V) f x y else ret false).
Proof. destruct b; [apply looks_ask|apply looks_ret]. Qed.

Lemma looks_find_index i hash number predicate ns : looks (find_index_from f i hash number predicate ns).
Proof.
  revert i. induction ns as [|n ns IH]; intros i; simpl; [auto with looks|]. apply looks_bind.
  - unfold lift. destruct (node_find_index _ _ _ _ _); auto with looks.
  - intros [x|b|]; auto with looks.
Qed.

Lemma looks_finalized_by hash number n : looks (finalized_by f hash number n).
Proof.
  unfold finalized_by. apply looks_bind; [case_decide; [apply looks_ret|apply looks_ask]|]. intros []; [|apply looks_ret].
  apply looks_bind; [|auto with looks]. apply looks_for_each. intros c. apply looks_bind; [apply looks_ask_if|auto with looks].
Qed.

Lemma looks_first_finalized i hash number (p : V -> bool) ns : looks (first_finalized f i hash number (total p) ns).
Proof.
  revert i. induction ns as [|n ns IH]; intros i; simpl; [auto with looks|]. apply looks_bind; [apply looks_ret|]. intros passes.
  apply looks_bind; [destruct passes; [apply looks_finalized_by|apply looks_ret]|]. intros []; auto with looks.
Qed.
End Looks.

Section Agree.
Context {H V E : Type} `{EqDecision H} (f g : H -> H -> bool + E) (D : H -> Prop).
Context (Hfg : forall a b, D a -> D b -> f a b = g a b).
Local Abbreviation Node := (Node H V).
Local Abbreviation Tree := (@ForkTree H V).
Implicit Types (n : Node) (ns : list Node) (t : Tree) (hash : H) (number : Z).

(** All blocks of the nodes are among those that the clients agree on. *)
Definition within ns : Prop := forall e, e ∈ entries ns -> D e.1.1.

Lemma within_elem ns n : within ns -> n ∈ ns -> D (n_hash n) /\ within (n_children n).
Proof.
  intros Hw Hn. split.
  - apply (Hw (entry n)). by apply elem_of_forest.
  - intros e He. apply Hw, elem_of_entries. exists n. split; [done|]. apply elem_of_node_entries. by right.
Qed.

Lemma ask_agree a b : D a -> D b -> ask (V := V) f a b = ask g a b.
Proof using Hfg. intros Ha Hb. unfold ask. by rewrite Hfg. Qed.

Lemma node_import_agree n (x : H * Z * V) :
  D x.1.1 -> within [n] ->
  node_import f n x = node_import g n x /\ forall n' x', node_import g n x = inl (n', Some x') -> x' = x.
Proof using Hfg.
  intros Hx. induction n as [h k d cs IH] using node_children_ind. intros Hw. destruct x as [[hash number] data]. simpl in *.
  destruct (within_elem [mkNode h k d cs] (mkNode h k d cs) Hw) as [Hh Hcs]; [by left|]. simpl in Hh, Hcs.
  case_decide; [done|]. destruct (number <=? k); [split; [done|by intros ?? [= _ <-]]|].
  destruct (import_children_ext (node_import f) (node_import g) cs (hash, number, data)) as [-> Hrest].
  { rewrite Forall_forall in IH. intros c Hc. apply IH; [done|]. intros e He. apply Hcs. rewrite entries_cons, app_nil_r in He.
    apply elem_of_entries. by exists c. }
  destruct (import_children _ cs _) as [[cs' [[[hash' number'] data']|]]|e] eqn:Hi; [|done|done].
  pose proof (Hrest _ _ eq_refl) as [= -> -> ->]. rewrite Hfg by done. split; [done|].
  destruct (g h hash) as [[]|]; [done| |done]. by intros ?? [= _ <-].
Qed.

Lemma node_find_index_agree hash number predicate n :
  D hash -> within [n] -> node_find_index f hash number predicate n = node_find_index g hash number predicate n.
Proof using Hfg.
  intros Hx. induction n as [h k d cs IH] using node_children_ind. intros Hw. simpl.
  destruct (within_elem [mkNode h k d cs] (mkNode h k d cs) Hw) as [Hh Hcs]; [by left|]. simpl in Hh, Hcs.
  destruct (number <? k); [done|]. rewrite (search_children_ext (node_find_index f hash number predicate) (node_find_index g hash number predicate)).
  - destruct (search_children _ _ _) as [[x|known|]|]; try done. by rewrite Hfg.
  - rewrite Forall_forall in IH. intros c Hc. apply IH; [done|]. intros e He. apply Hcs. rewrite entries_cons, app_nil_r in He.
    apply elem_of_entries. by exists c.
Qed.

Lemma import_agree hash number data t :
  D hash -> within (roots t) -> import f hash number data t = import g hash number data t.
Proof using Hfg.
  intros Hx Hw. apply bind_agree; [done|]. intros [] t' ->%looks_above. apply bind_agree; [done|]. intros ns t' [= <- <-].
  apply bind_agree; [|done]. destruct (import_children_ext (import_root f) (import_root g) (roots t) (hash, number, data)) as [-> _]; [|done].
  intros n Hn. unfold import_root. simpl. case_decide; [done|]. apply node_import_agree; [done|].
  intros e He. rewrite entries_cons, app_nil_r in He. apply Hw, elem_of_entries. by exists n.
Qed.

Lemma find_index_agree i hash number predicate ns t :
  D hash -> within ns -> find_index_from f i hash number predicate ns t = find_index_from g i hash number predicate ns t.
Proof using Hfg.
  intros Hx. revert i t. induction ns as [|n ns IH]; intros i t Hw; simpl; [done|]. rewrite node_find_index_agree; [|done|].
  - apply bind_agree; [done|]. intros o t' _.
    destruct o; [done|..]; apply IH; intros e He; apply Hw; rewrite entries_cons; apply elem_of_app; by right.
  - intros e He. rewrite entries_cons, app_nil_r in He. apply Hw. rewrite entries_cons. apply elem_of_app. by left.
Qed.

Lemma split_children_agree hash number cs is_first kept removed t :
  D hash -> within cs -> split_children f hash number cs is_first kept removed t = split_children g hash number cs is_first kept removed t.
Proof using Hfg.
  intros Hx. revert is_first kept removed t. induction cs as [|c cs IH]; intros is_first kept removed t Hw; simpl; [done|].
  destruct (within_elem _ c Hw) as [Hc _]; [by left|]. rewrite ask_agree by done. apply bind_agree; [done|].
  intros keep t' _. destruct keep; apply IH; intros e He; apply Hw; rewrite entries_cons; apply elem_of_app; by right.
Qed.

Lemma detach_within path ns n ns' : detach path ns = Some (n, ns') -> within ns -> within (n_children n).
Proof.
  revert ns n ns'. induction path as [|i path IH]; intros ns n ns'; [done|]. intros Hd Hw.
  destruct path as [|j path].
  - simpl in Hd. destruct (ns !! i) as [m|] eqn:Hi; simplify_eq/=. apply (within_elem ns n Hw). by eapply list_elem_of_lookup_2.
  - change (detach (i :: j :: path) ns) with (n ← ns !! i; '(root, cs) ← detach (j :: path) (n_children n); Some (root, <[i := set_children cs n]> ns)) in Hd.
    destruct (ns !! i) as [m|] eqn:Hi; [|done]. cbn beta iota delta [mbind option_bind] in Hd.
    destruct (detach (j :: path) (n_children m)) as [[root cs]|] eqn:Hj; simplify_eq/=. eapply IH; [exact Hj|].
    apply (within_elem ns m Hw). by eapply list_elem_of_lookup_2.
Qed.

Lemma prune_agree hash number predicate t :
  D hash -> within (roots t) -> prune f hash number predicate t = prune g hash number predicate t.
Proof using Hfg.
  intros Hx Hw. unfold prune. apply bind_agree; [by apply find_index_agree|]. intros path t' ->%looks_find_index.
  destruct path as [path|]; [|done]. apply bind_agree; [|done]. apply bind_agree; [done|]. intros ns t' [= <- <-].
  apply bind_agree; [done|]. intros [] t' _. apply bind_agree; [done|]. intros [root old] t1 Hd.
  apply bind_agree; [|done]. apply split_children_agree; [done|]. revert Hd. unfold unwrap.
  destruct (detach _ _) as [[m ns']|] eqn:He; [|done]. intros [= <- <- _]. by eapply detach_within.
Qed.

Lemma finalize_root_None hash t t' : finalize_root (E := E) hash t = Ok None t' -> t' = t.
Proof.
  unfold finalize_root, bind at 1, gets. destruct (list_find _ _) as [[i n]|]; [|by intros [= <-]].
  unfold bind. by destruct (finalize_root_at i t).
Qed.

Lemma finalize_agree hash number t :
  D hash -> within (roots t) -> finalize f hash number t = finalize g hash number t.
Proof using Hfg.
  intros Hx Hw. apply bind_agree; [done|]. intros [] t' ->%looks_above. apply bind_agree; [done|].
  intros [v|] t' Hr; [done|]. apply finalize_root_None in Hr as ->. apply bind_agree; [done|]. intros ns t' [= <- <-].
  rewrite (for_each_ext _ (fun root => let! is_ancestor := (if n_number root <? number then ask g (n_hash root) hash else ret false) in
    ensure (negb is_ancestor) UnfinalizedAncestor)); [|intros n Hn; rewrite ask_agree; [done| |done]; by apply (within_elem (roots t))].
  apply bind_agree; [done|]. intros [] t' _. apply bind_agree; [done|]. intros [] t1 _.
  rewrite (retain_roots_ext _ (fun root => if number <? n_number root then ask g hash (n_hash root) else ret false)); [done|].
  intros n Hn. rewrite ask_agree; [done..|]. by apply (within_elem (roots t)).
Qed.

Lemma within_sub ns ns' : (forall n, n ∈ ns' -> n ∈ ns) -> within ns -> within ns'.
Proof. intros Hsub Hw e (n & Hn & He)%elem_of_entries. apply Hw, elem_of_entries. exists n. split; [by apply Hsub|done]. Qed.

Lemma within_app ns ns' : within ns -> within ns' -> within (ns ++ ns').
Proof. intros H1 H2 e. rewrite entries_app. intros [He|He]%elem_of_app; auto. Qed.

Lemma ancestors_loop_agree fuel hash number changed idx t :
  D hash -> within (roots t) -> ancestors_loop f fuel hash number changed idx t = ancestors_loop g fuel hash number changed idx t.
Proof using Hfg.
  intros Hx. revert changed idx t. induction fuel as [|fuel IH]; intros changed idx t Hw; simpl; [done|].
  apply bind_agree; [done|]. intros ns t' [= <- <-]. destruct (idx =? length (roots t))%nat; [done|].
  apply bind_agree; [done|]. intros n t' Hn. unfold unwrap in Hn. destruct (roots t !! idx) as [n'|] eqn:Hi; [|done]. injection Hn as -> <-.
  destruct (within_elem _ _ Hw (list_elem_of_lookup_2 _ _ _ Hi)) as [Hh Hcs]. rewrite !ask_agree by done.
  apply bind_agree; [done|]. intros desc t' ->%looks_ask_if. apply bind_agree; [done|]. intros anc t' ->%looks_ask_if.
  case_bool_decide; [done|]. destruct desc; [by apply IH|]. apply bind_agree; [done|]. intros ns t' Hns.
  unfold unwrap in Hns. destruct (swap_remove idx (roots t)) as [ns'|] eqn:Hs; [|done]. injection Hns as -> <-.
  apply bind_agree; [done|]. intros [] t' [= <-]. apply IH. simpl. pose proof (swap_remove_perm _ _ _ _ Hi Hs) as Hp.
  assert (within ns) as Hw' by (eapply within_sub; [|exact Hw]; intros m Hm; rewrite Hp; by right).
  destruct anc; [by apply within_app|done].
Qed.

Lemma finalize_with_ancestors_agree hash number t :
  D hash -> within (roots t) -> finalize_with_ancestors f hash number t = finalize_with_ancestors g hash number t.
Proof using Hfg.
  intros Hx Hw. apply bind_agree; [done|]. intros [] t' ->%looks_above. apply bind_agree; [done|].
  intros [v|] t' Hr; [done|]. apply finalize_root_None in Hr as ->. apply bind_agree; [done|]. intros ns t' [= <- <-].
  apply bind_agree; [by apply ancestors_loop_agree|done].
Qed.

Lemma finalized_by_agree hash number n t : D hash -> within [n] -> finalized_by f hash number n t = finalized_by g hash number n t.
Proof using Hfg.
  intros Hx Hw. destruct (within_elem _ n Hw) as [Hn Hcs]; [by left|]. unfold finalized_by. rewrite ask_agree by done.
  apply bind_agree; [done|]. intros [] t' _; [|done]. apply bind_agree; [|done].
  rewrite (for_each_ext _ (fun child => let! past := (if n_number child <=? number then ask g (n_hash child) hash else ret false) in
    ensure (negb past) UnfinalizedAncestor)); [done|]. intros c Hc. rewrite ask_agree; [done| |done]. by apply (within_elem (n_children n)).
Qed.

Lemma first_finalized_agree i hash number predicate ns t :
  D hash -> within ns -> first_finalized f i hash number predicate ns t = first_finalized g i hash number predicate ns t.
Proof using Hfg.
  intros Hx. revert i t. induction ns as [|n ns IH]; intros i t Hw; simpl; [done|].
  assert (within [n] /\ within ns) as [Hn Hns] by (split; (eapply within_sub; [|exact Hw]; set_solver)).
  apply bind_agree; [done|]. intros passes t1 _. apply bind_agree; [destruct passes; [by apply finalized_by_agree|done]|].
  intros [] t2 _; [done|]. by apply IH.
Qed.

(** The roots are asked about in the order of the source: the test of the loop. *)
Lemma retain_agree hash number ns changed :
  D hash -> within ns ->
  retain_roots (fun root =>
    let! after := (if number <? n_number root then ask f hash (n_hash root) else ret false) in
    if (after : bool) || ((n_number root =? number) && bool_decide (n_hash root = hash)) then ret true
    else ask f (n_hash root) hash) ns changed =
  retain_roots (fun root =>
    let! after := (if number <? n_number root then ask g hash (n_hash root) else ret false) in
    if (after : bool) || ((n_number root =? number) && bool_decide (n_hash root = hash)) then ret true
    else ask g (n_hash root) hash) ns changed.
Proof using Hfg.
  intros Hx Hw. apply retain_roots_ext. intros n Hn. destruct (within_elem _ _ Hw Hn) as [Hh _]. by rewrite !ask_agree by done.
Qed.

Lemma finalize_with_descendent_if_agree hash number p t :
  D hash -> within (roots t) ->
  finalize_with_descendent_if f hash number (total p) t = finalize_with_descendent_if g hash number (total p) t.
Proof using Hfg.
  intros Hx Hw. apply bind_agree; [done|]. intros [] t' ->%looks_above. apply bind_agree; [done|]. intros ns t' [= <- <-].
  apply bind_agree; [by apply first_finalized_agree|]. intros position t1 ->%looks_first_finalized. apply bind_agree; [done|]. intros data t2 Hd.
  apply bind_agree; [done|]. intros ns t3 [= <- <-]. apply bind_agree; [done|]. intros [] t4 _. rewrite retain_agree; [done|done|].
  destruct position as [[i n]|]; [|by injection Hd as _ <-]. revert Hd. unfold finalize_root_at, bind, gets, unwrap, modify, ret.
  destruct (roots t !! i) as [m|] eqn:Hi; [|done]. intros [= _ <-]. simpl. apply (within_elem (roots t) m Hw). by eapply list_elem_of_lookup_2.
Qed.

Definition call_hash (c : Call (H := H) (V := V)) : option H :=
  match c with
  | CImport hash _ | CFinalize hash | CFinalizeWithAncestors hash | CFinalizeWithDescendentIf hash _ | CPrune hash _ => Some hash
  | CRebalance => None
  end.

(** The clients agree on the blocks of the tree and of the call. *)
Lemma exec_agree (num : H -> Z) c t :
  within (roots t) -> (forall h, call_hash c = Some h -> D h) ->
  exec (is_descendent_of := f) (num := num) c t = exec (is_descendent_of := g) (num := num) c t.
Proof using Hfg.
  intros Hw Hc. destruct c; simpl; [..|done]; (apply bind_agree; [|done]).
  - apply import_agree; auto.
  - apply finalize_agree; auto.
  - apply finalize_with_ancestors_agree; auto.
  - apply finalize_with_descendent_if_agree; auto.
  - apply prune_agree; auto.
Qed.
End Agree.
