(* ===== verification/Grandpa.v ===== *)
(** * The authority sets of GRANDPA

    [client/finality-grandpa/src/authorities.rs]: who may finalize blocks, and
    the changes of this set that blocks have signalled, standard ones in a fork
    tree, forced ones in a list; and the record of when each set ended.

    Block numbers are of type [u32]: they are only compared, but for the sum of
    height and delay of a change, which wraps or panics.  The identifiers of the
    authorities are a parameter.  Logging and telemetry are left out. *)

From S2P Require Import Prelude ForkTree.

Section Authorities.
Context {P : Profile} {H E AuthorityId : Type} `{EqDecision H} (is_descendent_of : H -> H -> bool + E).
Implicit Types (best_hash hash : H) (number : Z).

Abbreviation AuthorityList := (list (AuthorityId * Z)).

(** [DelayKind] *)
Inductive DelayKind := DelayFinalized | DelayBest (median_last_finalized : Z).

Record PendingChange := mkChange {
  next_authorities : AuthorityList;
  delay : Z;
  canon_height : Z;
  canon_hash : H;
  delay_kind : DelayKind
}.
Implicit Types (change pending c : PendingChange).

(** [PendingChange::effective_number] *)
Definition effective_number {S F} c : M S F Z := add U32 (canon_height c) (delay c).

(** [AuthoritySetChanges]: each set with its last block *)
Abbreviation AuthoritySetChanges := (list (Z * Z)).

Record AuthoritySet := mkSet {
  current_authorities : AuthorityList;
  set_id : Z;
  pending_standard_changes : @ForkTree H PendingChange;
  pending_forced_changes : list PendingChange;
  authority_set_changes : AuthoritySetChanges
}.

(** [Error] *)
Inductive SetError :=
| InvalidAuthoritySet
| ClientError (e : E)
| DuplicateAuthoritySetChange
| MultiplePendingForcedAuthoritySetChanges
| ForcedAuthoritySetChangeDependencyUnsatisfied (number : Z)
| InvalidTreeOperation (e : ForkError E).

Record Status := mkStatus { changed : bool; new_set_block : option (H * Z) }.

Local Abbreviation MG := (M AuthoritySet SetError).

Definition set_standard (t : ForkTree) (s : AuthoritySet) : AuthoritySet :=
  mkSet (current_authorities s) (set_id s) t (pending_forced_changes s) (authority_set_changes s).
Definition set_forced (l : list PendingChange) (s : AuthoritySet) : AuthoritySet :=
  mkSet (current_authorities s) (set_id s) (pending_standard_changes s) l (authority_set_changes s).
Definition set_current (a : AuthorityList) (id : Z) (s : AuthoritySet) : AuthoritySet :=
  mkSet a id (pending_standard_changes s) (pending_forced_changes s) (authority_set_changes s).

(** [AuthoritySetChanges::append] *)
Definition append (id block_number : Z) (s : AuthoritySet) : AuthoritySet :=
  mkSet (current_authorities s) (set_id s) (pending_standard_changes s) (pending_forced_changes s)
    (authority_set_changes s ++ [(id, block_number)]).

(** [From<fork_tree::Error<E>>] *)
Definition from_fork_error (err : ForkError E) : SetError :=
  match err with
  | Client err => ClientError err
  | Duplicate => DuplicateAuthoritySetChange
  | err => InvalidTreeOperation err
  end.

(** A call of the tree of standard changes. *)
Definition on_tree {A} (m : M ForkTree (ForkError E) A) : M AuthoritySet (ForkError E) A :=
  zoom pending_standard_changes set_standard m.

(** [is_descendent_of(base, block)?] *)
Definition ask_client (base block : H) : MG bool :=
  match is_descendent_of base block with inl b => ret b | inr e => fail (ClientError e) end.

Definition invalid_authority_list (authorities : AuthorityList) : bool :=
  match authorities with [] => true | _ => existsb (fun a => a.2 =? 0) authorities end.

(** [AuthoritySet::genesis] *)
Definition genesis (initial : AuthorityList) : option AuthoritySet :=
  if invalid_authority_list initial then None else Some (mkSet initial 0 new_tree [] []).

(** [AuthoritySet::new] *)
Definition new_set (authorities : AuthorityList) (id : Z) (standard : ForkTree) (forced : list PendingChange)
    (changes : AuthoritySetChanges) : option AuthoritySet :=
  if invalid_authority_list authorities then None else Some (mkSet authorities id standard forced changes).

(* ===================================================================== *)
(** ** Signalling changes *)

Definition add_standard_change pending : MG unit :=
  let! _ := map_err from_fork_error (on_tree (import is_descendent_of (canon_hash pending) (canon_height pending) pending)) in
  ret tt.

(** the order of the pairs (effective number, height) *)
Definition compare_key (key : Z * Z) (number height : Z) : comparison :=
  match number ?= key.1 with Eq => height ?= key.2 | o => o end.

(** [binary_search_by_key], of these pairs *)
Definition insertion_point pending (l : list PendingChange) : MG nat :=
  let! number := effective_number pending in
  let! found := search_by (fun change =>
    let! n := effective_number change in ret (compare_key (number, canon_height pending) n (canon_height change))) l in
  ret (match found with inl i | inr i => i end).

Definition add_forced_change pending : MG unit :=
  let! l := gets pending_forced_changes in
  for_each l (fun change =>
    ensure (negb (bool_decide (canon_hash change = canon_hash pending))) DuplicateAuthoritySetChange ;;
    let! multiple := ask_client (canon_hash change) (canon_hash pending) in
    ensure (negb multiple) MultiplePendingForcedAuthoritySetChanges) ;;
  let! idx := insertion_point pending l in
  modify (set_forced (take idx l ++ pending :: drop idx l)).

Definition add_pending_change pending : MG unit :=
  ensure (negb (invalid_authority_list (next_authorities pending))) InvalidAuthoritySet ;;
  match delay_kind pending with
  | DelayBest _ => add_forced_change pending
  | DelayFinalized => add_standard_change pending
  end.

(* ===================================================================== *)
(** ** Looking at the pending changes *)

Definition pending_changes (s : AuthoritySet) : list PendingChange :=
  (iter (pending_standard_changes s)).*2 ++ pending_forced_changes s.

(** the first of the changes below which the block is *)
Fixpoint first_above best_hash (l : list PendingChange) : MG (option (H * Z)) :=
  match l with
  | [] => ret None
  | change :: l =>
      let! below := ask_client (canon_hash change) best_hash in
      if (below : bool) then ret (Some (canon_hash change, canon_height change)) else first_above best_hash l
  end.

Definition next_change best_hash : MG (option (H * Z)) :=
  let! s := gets id in
  let! forced := first_above best_hash (pending_forced_changes s) in
  let! standard := first_above best_hash (root_entries (pending_standard_changes s)).*2 in
  ret (match forced, standard with
       | Some forced, Some standard => Some (if forced.2 <? standard.2 then forced else standard)
       | Some forced, None => Some forced
       | None, standard => standard
       end).

(** [min_by_key], of the numbers themselves *)
Definition minimum (l : list Z) : option Z :=
  match l with [] => None | n :: l => Some (foldl Z.min n l) end.

Fixpoint effective_numbers (l : list PendingChange) : MG (list Z) :=
  match l with
  | [] => ret []
  | c :: l => let! n := effective_number c in let! ns := effective_numbers l in ret (n :: ns)
  end.

Definition current_limit (min : Z) : MG (option Z) :=
  let! s := gets id in
  let! numbers := effective_numbers (root_entries (pending_standard_changes s)).*2 in
  ret (minimum (filter (fun n => min <= n) numbers)).

Definition enacts_standard_change hash number : MG (option bool) :=
  map_err InvalidTreeOperation (on_tree
    (finalizes_any_with_descendent_if is_descendent_of hash number
      (fun change => let! n := effective_number change in ret (n =? number)))).

(* ===================================================================== *)
(** ** Applying changes *)

(** the loop over the standard changes that a forced one depends on *)
Definition check_dependencies change (median_last_finalized : Z) : MG unit :=
  let! s := gets id in
  for_each (root_entries (pending_standard_changes s)).*2 (fun standard_change =>
    let! n := effective_number standard_change in
    let! depends :=
      (if n <=? median_last_finalized
       then ask_client (canon_hash standard_change) (canon_hash change) else ret false) in
    ensure (negb depends) (ForcedAuthoritySetChangeDependencyUnsatisfied n)).

(** the loop over the changes that [take_while] and [filter] let through, one
    after the other *)
Fixpoint forced_loop best_hash (best_number : Z) (l : list PendingChange) : MG (option (Z * AuthoritySet)) :=
  match l with
  | [] => ret None
  | change :: l =>
      let! n := effective_number change in
      if negb (n <=? best_number) then ret None
      else if negb (n =? best_number) then forced_loop best_hash best_number l
      else
        let! on_branch :=
          (if decide (canon_hash change = best_hash) then ret true else ask_client (canon_hash change) best_hash) in
        if (on_branch : bool) then
          match delay_kind change with
          | DelayBest median_last_finalized =>
              check_dependencies change median_last_finalized ;;
              let! s := gets id in
              let! next_id := add U64 (set_id s) 1 in
              ret (Some (median_last_finalized,
                mkSet (next_authorities change) next_id new_tree []
                  (authority_set_changes s ++ [(set_id s, median_last_finalized)])))
          | DelayFinalized => panic
          end
        else forced_loop best_hash best_number l
  end.

Definition apply_forced_changes best_hash (best_number : Z) : MG (option (Z * AuthoritySet)) :=
  let! l := gets pending_forced_changes in
  forced_loop best_hash best_number l.

(** the loop that keeps the later forced changes of the finalized branch *)
Definition keep_forced hash number (l : list PendingChange) : MG unit :=
  for_each l (fun change =>
    let! n := effective_number change in
    let! keep := (if number <? n then ask_client hash (canon_hash change) else ret false) in
    if (keep : bool) then modify (fun s => set_forced (pending_forced_changes s ++ [change]) s) else ret tt).

Definition apply_standard_changes hash number : MG Status :=
  let! result := map_err from_fork_error (on_tree
    (finalize_with_descendent_if is_descendent_of hash number
      (fun change => let! n := effective_number change in ret (n <=? number)))) in
  match result with
  | Changed change =>
      let! forced := gets pending_forced_changes in
      modify (set_forced []) ;;
      keep_forced hash number forced ;;
      match change with
      | Some change =>
          modify (fun s => append (set_id s) number s) ;;
          let! id := gets set_id in
          modify (fun s => set_current (next_authorities change) (set_id s) s) ;;
          let! next_id := add U64 id 1 in
          modify (fun s => set_current (current_authorities s) next_id s) ;;
          ret (mkStatus true (Some (hash, number)))
      | None => ret (mkStatus true None)
      end
  | Unchanged => ret (mkStatus false None)
  end.
End Authorities.

(* ===================================================================== *)
(** ** The record of the sets *)

Inductive AuthoritySetChangeId := Latest | Set_ (id block_number : Z) | Unknown.

Definition search_block (block_number : Z) (changes : list (Z * Z)) : nat + nat :=
  binary_search_by (fun change => change.2 ?= block_number) changes.

(** [AuthoritySetChanges::get_set_id] *)
Definition get_set_id (changes : list (Z * Z)) (block_number : Z) : AuthoritySetChangeId :=
  if match last changes with Some last_auth_change => last_auth_change.2 <? block_number | None => false end then Latest
  else
    let idx := match search_block block_number changes with inl i | inr i => i end in
    match changes !! idx with
    | Some (id, n) => if (idx =? 0)%nat && negb (id =? 0) then Unknown else Set_ id n
    | None => Unknown
    end.

(** [AuthoritySetChanges::iter_from] *)
Definition iter_from (changes : list (Z * Z)) (block_number : Z) : option (list (Z * Z)) :=
  let idx := match search_block block_number changes with inl n => S n | inr b => b end in
  match changes !! idx with
  | Some (id, _) => if (idx =? 0)%nat && negb (id =? 0) then None else Some (drop idx changes)
  | None => Some (drop idx changes)
  end.
