(* ===== verification/GrandpaFacts.v ===== *)
(** * The authority sets of GRANDPA: order and invariant

    The forced changes are sorted by their effective numbers and on different
    forks, the record of the sets is consecutive, and every operation keeps it
    so. *)

From S2P Require Import Prelude ForkTree ForkTreeFacts ForkTreeImport ForkTreeFinal ForkTreeSim ForkTreeFind ForkTreeDesc Grandpa.

(* ===================================================================== *)
(** ** Sorted lists *)

Lemma sorted_lookup {A} (R : A -> A -> Prop) l i j x y :
  StronglySorted R l -> (i < j)%nat -> l !! i = Some x -> l !! j = Some y -> R x y.
Proof.
  intros Hs. revert i j. induction Hs as [|a l _ IH Ha]; intros i j Hij Hi Hj; [done|].
  destruct j as [|j]; [lia|]. destruct i as [|i]; simpl in *.
  - injection Hi as ->. rewrite Forall_forall in Ha. apply Ha. by apply list_elem_of_lookup_2 in Hj.
  - apply (IH i j); [lia|done..].
Qed.

(** A new element between the smaller and the larger ones. *)
Lemma sorted_insert_at {A} (R : A -> A -> Prop) l i x :
  StronglySorted R l ->
  (forall j y, l !! j = Some y -> (j < i)%nat -> R y x) -> (forall j y, l !! j = Some y -> (i <= j)%nat -> R x y) ->
  StronglySorted R (take i l ++ x :: drop i l).
Proof.
  intros Hs Hlt Hge. rewrite <- (take_drop i l) in Hs. apply StronglySorted_app in Hs as (Hcross & Hl & Hr).
  assert (forall y, y ∈ take i l -> R y x) as Hl'.
  { intros y (j & Hj)%list_elem_of_lookup_1. pose proof (lookup_lt_Some _ _ _ Hj) as Hlen. rewrite length_take in Hlen.
    rewrite lookup_take_lt in Hj by lia. eapply Hlt; [exact Hj|lia]. }
  apply StronglySorted_app_2; [|done|].
  - intros y z Hy [->|Hz]%elem_of_cons; [by apply Hl'|by apply Hcross].
  - apply StronglySorted_cons. split; [|done]. apply Forall_forall. intros y (j & Hj)%list_elem_of_lookup_1.
    rewrite lookup_drop in Hj. eapply Hge; [exact Hj|lia].
Qed.

Section Order.
Context {P : Profile} {H AuthorityId : Type}.
Implicit Types (c : PendingChange (H := H) (AuthorityId := AuthorityId)) (l : list (PendingChange (H := H) (AuthorityId := AuthorityId))).

(** The number at which a change is due, and that computing it does not panic:
    the sum wraps in a build without overflow checks. *)
Definition effective c : Z := (canon_height c + delay c) mod U32.
Definition fits c : Prop := overflow_checks = true -> in_range U32 (canon_height c + delay c).

#[global] Instance fits_dec c : Decision (fits c).
Proof. unfold fits, in_range. apply _. Defined.

Lemma effective_number_eq {S F} c : fits c -> effective_number (S := S) (F := F) c = ret (effective c).
Proof.
  intros Hf. unfold effective_number, effective, add, arith, fits, in_range in *. destruct (_ && _) eqn:Hb.
  - rewrite Z.mod_small; [done|]. lia.
  - destruct overflow_checks; [|done]. specialize (Hf eq_refl). lia.
Qed.

Definition sort_key c : Z * Z := (effective c, canon_height c).
Definition compare_change (k : Z * Z) c : comparison := compare_key k (effective c) (canon_height c).
Definition key_le (a b : Z * Z) : Prop := a.1 < b.1 \/ a.1 = b.1 /\ a.2 <= b.2.
Definition by_key c c' : Prop := key_le (sort_key c) (sort_key c').

Lemma compare_key_spec k c :
  match compare_change k c with
  | Lt => key_le (sort_key c) k
  | Eq => sort_key c = k
  | Gt => key_le k (sort_key c)
  end /\ (compare_change k c = Gt -> ~ key_le (sort_key c) k) /\ (compare_change k c = Lt -> ~ key_le k (sort_key c)).
Proof.
  destruct k as [e h]. unfold compare_change, compare_key, key_le, sort_key. simpl.
  destruct (Z.compare_spec (effective c) e); [destruct (Z.compare_spec (canon_height c) h)|..]; subst; simpl;
    (split; [try done; try lia|split; [try done; lia|try done; lia]]).
Qed.

Lemma key_le_trans a b d : key_le a b -> key_le b d -> key_le a d.
Proof. unfold key_le. lia. Qed.

Lemma key_le_refl a : key_le a a.
Proof. unfold key_le. lia. Qed.

Lemma sorted_partitioned k l : StronglySorted by_key l -> partitioned (compare_change k) l.
Proof.
  intros Hs i j x y Hij Hx Hy. pose proof (sorted_lookup _ _ _ _ _ _ Hs Hij Hx Hy) as Hle.
  destruct (compare_key_spec k x) as (Hcx & HxG & HxL). destruct (compare_key_spec k y) as (Hcy & HyG & HyL).
  unfold by_key in Hle. split; intros Hc; rewrite Hc in *.
  - destruct (compare_change k x); [|done|]; destruct HyL; try done; [by rewrite <- Hcx|]. by eapply key_le_trans.
  - destruct (compare_change k y); [| |done]; destruct HxG; try done; [by rewrite <- Hcy|]. by eapply key_le_trans.
Qed.

(** A forced change is inserted where it belongs. *)
Lemma insertion_sorted {E} pending l :
  fits pending -> (forall c, c ∈ l -> fits c) -> StronglySorted by_key l ->
  exists i, insertion_point (E := E) pending l = ret i /\ StronglySorted by_key (take i l ++ pending :: drop i l).
Proof.
  intros Hp Hl Hs. unfold insertion_point. rewrite effective_number_eq by done. unfold bind at 1, ret at 1.
  rewrite (search_by_eq (compare_change (sort_key pending))) by (intros c Hc; by rewrite effective_number_eq by by apply Hl).
  eexists. split; [reflexivity|]. pose proof (binary_search_by_ok _ _ (sorted_partitioned (sort_key pending) l Hs)) as Hf.
  destruct (binary_search_by _ l) as [i|i]; simpl in Hf.
  - destruct Hf as (x & Hx & Hc). pose proof (compare_key_spec (sort_key pending) x) as [Hk _]. rewrite Hc in Hk.
    apply sorted_insert_at; [done|..]; intros j y Hj Hij; unfold by_key; rewrite <- Hk.
    + by apply (sorted_lookup _ _ _ _ _ _ Hs Hij Hj Hx).
    + destruct (decide (i = j)) as [->|]; [simplify_eq; apply key_le_refl|].
      apply (sorted_lookup _ _ i j _ _ Hs); [lia|done..].
  - destruct Hf as (_ & Hlt & Hgt). apply sorted_insert_at; [done|..]; intros j y Hj Hij.
    + pose proof (compare_key_spec (sort_key pending) y) as [Hk _]. by rewrite (Hlt j y Hj Hij) in Hk.
    + pose proof (compare_key_spec (sort_key pending) y) as [Hk _]. by rewrite (Hgt j y Hj Hij) in Hk.
Qed.

(** After the first larger number there is no smaller one. *)
Lemma later_larger c c' l : Forall (by_key c) l -> c' ∈ c :: l -> effective c <= effective c'.
Proof.
  intros Hc [->|Hin]%elem_of_cons; [lia|]. rewrite Forall_forall in Hc.
  pose proof (Hc c' Hin) as Hcc. unfold by_key, key_le, sort_key in Hcc. simpl in Hcc. lia.
Qed.

Lemma by_key_filter (Q : PendingChange (H := H) (AuthorityId := AuthorityId) -> Prop) `{!forall c, Decision (Q c)} l :
  StronglySorted by_key l -> StronglySorted by_key (filter Q l).
Proof.
  intros Hs. induction Hs as [|c l _ IH Hc]; [constructor|]. rewrite filter_cons. case_decide; [|done].
  constructor; [done|]. rewrite Forall_forall in *. intros c' (_ & Hin)%list_elem_of_filter. by apply Hc.
Qed.
End Order.

(* ===================================================================== *)
(** ** The record of the sets *)
Section Record_.
Implicit Types (changes : list (Z * Z)).

Definition increasing changes : Prop := StronglySorted (fun a b => a.2 < b.2) changes.

(** The search finds the first set that ends at the block or after it. *)
Lemma search_block_first block changes :
  increasing changes ->
  let idx := match search_block block changes with inl i | inr i => i end in
  (idx <= length changes)%nat /\ (forall j c, changes !! j = Some c -> (j < idx)%nat -> c.2 < block) /\
  (forall j c, changes !! j = Some c -> (idx <= j)%nat -> block <= c.2).
Proof.
  intros Hs. assert (partitioned (fun c : Z * Z => c.2 ?= block) changes) as Hp.
  { intros i j x y Hij Hx Hy. pose proof (sorted_lookup _ _ _ _ _ _ Hs Hij Hx Hy) as Hlt. simpl in Hlt.
    rewrite !Z.compare_lt_iff, !Z.compare_gt_iff. lia. }
  apply binary_search_by_ok in Hp. unfold search_block. destruct (binary_search_by _ changes) as [i|i]; simpl in *.
  - destruct Hp as (x & Hx & Heq%Z.compare_eq_iff). split_and!.
    + apply lookup_lt_Some in Hx. lia.
    + intros j c Hj Hji. pose proof (sorted_lookup _ _ _ _ _ _ Hs Hji Hj Hx) as Hlt. simpl in Hlt. lia.
    + intros j c Hj Hij. destruct (decide (i = j)) as [->|]; [simplify_eq; lia|].
      pose proof (sorted_lookup _ _ i j _ _ Hs ltac:(lia) Hx Hj) as Hlt. simpl in Hlt. lia.
  - destruct Hp as (Hi & Hlt & Hgt). split_and!; [done|..].
    + intros j c Hj Hji. apply Z.compare_lt_iff. exact (Hlt j c Hj Hji).
    + intros j c Hj Hji. apply Z.lt_le_incl, Z.compare_gt_iff. exact (Hgt j c Hj Hji).
Qed.

(** The set of a block, by going through the record from its start. *)
Definition set_of (changes : list (Z * Z)) (block : Z) : AuthoritySetChangeId :=
  match list_find (fun c : Z * Z => block <= c.2) changes with
  | Some (i, (id, n)) => if (i =? 0)%nat && negb (id =? 0) then Unknown else Set_ id n
  | None => match changes with [] => Unknown | _ => Latest end
  end.

Lemma get_set_id_set_of changes block : increasing changes -> get_set_id changes block = set_of changes block.
Proof.
  intros Hs. unfold get_set_id, set_of. destruct (search_block_first block changes Hs) as (Hlen & Hlt & Hge).
  set (idx := match search_block block changes with inl i | inr i => i end) in *.
  destruct (changes !! idx) as [c|] eqn:Hidx.
  - rewrite (proj2 (list_find_Some (fun c : Z * Z => block <= c.2) changes idx c)).
    2: { split_and!; [done|eapply Hge; [done|lia]|]. intros j y Hj Hji. pose proof (Hlt j y Hj Hji). lia. }
    destruct (last changes) as [d|] eqn:Hl; [|by destruct c].
    replace (d.2 <? block) with false; [by destruct c|]. symmetry. apply Z.ltb_ge.
    rewrite last_lookup in Hl. apply lookup_lt_Some in Hidx. apply (Hge _ _ Hl). lia.
  - apply lookup_ge_None in Hidx. rewrite (proj2 (list_find_None _ _)).
    2: { apply Forall_forall. intros c (j & Hj)%list_elem_of_lookup_1. pose proof (lookup_lt_Some _ _ _ Hj).
         pose proof (Hlt j c Hj ltac:(lia)). lia. }
    destruct changes as [|c0 changes]; [done|]. destruct (last (c0 :: changes)) as [d|] eqn:Hl.
    + rewrite last_lookup in Hl. pose proof (lookup_lt_Some _ _ _ Hl). rewrite (proj2 (Z.ltb_lt _ _)); [done|].
      apply (Hlt _ _ Hl). lia.
    + by apply last_None in Hl.
Qed.
End Record_.
