(* ===== verification/GrandpaInv.v ===== *)
(** * The authority sets of GRANDPA: every operation keeps the invariant

    What signalling and applying changes do, over a client whose answers are the
    ancestry of a chain. *)

From S2P Require Import Prelude ForkTree ForkTreeFacts ForkTreeImport ForkTreeFinal ForkTreeSim ForkTreeFind ForkTreeDesc Grandpa GrandpaFacts.

Section Inv.
Context {P : Profile} {H E AuthorityId : Type} `{EqDecision H}.
Context {is_descendent_of : H -> H -> bool + E} {anc : H -> H -> bool} {num : H -> Z}.
Context `{HA : !Ancestry is_descendent_of anc num}.
Local Abbreviation PendingChange := (PendingChange (H := H) (AuthorityId := AuthorityId)).
Local Abbreviation AuthoritySet := (AuthoritySet (H := H) (AuthorityId := AuthorityId)).
Local Abbreviation SetError := (SetError (E := E)).
Local Abbreviation Tree := (@ForkTree H PendingChange).
Local Abbreviation forest_ok := (forest_ok (V := PendingChange) (anc := anc) (num := num)).
Local Abbreviation upto := (upto (anc := anc)).
Implicit Types (s : AuthoritySet) (c pending : PendingChange) (l : list PendingChange) (t : Tree) (hash : H).

(** Not empty, and no authority without a weight. *)
Definition valid (a : list (AuthorityId * Z)) : Prop := a <> [] /\ Forall (fun x => x.2 <> 0) a.

Lemma invalid_iff (a : list (AuthorityId * Z)) : invalid_authority_list a = false <-> valid a.
Proof.
  unfold invalid_authority_list, valid. destruct a as [|x a]; [naive_solver|].
  rewrite <- not_true_iff_false, existsb_exists, Forall_forall. split.
  - intros Hn. split; [done|]. intros y Hy%list_elem_of_In Heq. apply Hn. exists y. split; [done|lia].
  - intros [_ Hall] (y & Hy%list_elem_of_In & Heq). apply (Hall y Hy). lia.
Qed.

(** A change that a block of the chain signalled. *)
Definition change_ok c : Prop := canon_height c = num (canon_hash c) /\ fits c /\ valid (next_authorities c).

Definition standard_ok t : Prop :=
  forest_ok (roots t) /\
  forall e, e ∈ entries (roots t) -> canon_hash e.2 = e.1.1 /\ delay_kind e.2 = DelayFinalized /\ change_ok e.2.

Record forced_ok l : Prop := {
  fo_changes : forall c, c ∈ l -> change_ok c /\ delay_kind c <> DelayFinalized;
  fo_sorted : StronglySorted by_key l;
  fo_forks : NoDup (canon_hash <$> l) /\ forall a b, a ∈ l -> b ∈ l -> ~ anc (canon_hash a) (canon_hash b)
}.

(** The sets that ended, from the first one on, are all before the current one. *)
Definition record_ok s : Prop :=
  (authority_set_changes s).*1 = Z.of_nat <$> seq 0 (length (authority_set_changes s)) /\
  set_id s = Z.of_nat (length (authority_set_changes s)).

Record set_ok s : Prop := {
  so_current : valid (current_authorities s);
  so_record : record_ok s;
  so_standard : standard_ok (pending_standard_changes s);
  so_forced : forced_ok (pending_forced_changes s)
}.

Lemma standard_ok_sub t t' :
  forest_ok (roots t') -> (forall e, e ∈ entries (roots t') -> e ∈ entries (roots t)) -> standard_ok t -> standard_ok t'.
Proof. intros Ht' Hsub [_ Ht]. split; [done|]. intros e He. by apply Ht, Hsub. Qed.

Lemma standard_ok_new : standard_ok new_tree.
Proof. split; [apply forest_ok_nil|]. by intros e ?%not_elem_of_nil. Qed.

Lemma forced_ok_nil : forced_ok [].
Proof. split; [by intros c ?%not_elem_of_nil|constructor|]. split; [constructor|]. by intros a b ?%not_elem_of_nil. Qed.

Lemma forced_ok_filter (Q : PendingChange -> Prop) `{!forall c, Decision (Q c)} l : forced_ok l -> forced_ok (filter Q l).
Proof.
  intros [Hc Hs [Hnd Ha]]. split.
  - intros c (_ & Hin)%list_elem_of_filter. by apply Hc.
  - by apply by_key_filter.
  - split; [|intros a b (_ & Hin)%list_elem_of_filter (_ & Hin')%list_elem_of_filter; by apply Ha].
    clear -Hnd. induction l as [|c l IH]; [done|]. rewrite fmap_cons in Hnd. apply NoDup_cons in Hnd as [Hn Hnd].
    rewrite filter_cons. case_decide; [|by apply IH]. rewrite fmap_cons. constructor; [|by apply IH].
    intros (d & Heq & Hd)%list_elem_of_fmap_1. apply Hn. rewrite Heq. apply list_elem_of_fmap_2. by apply list_elem_of_filter in Hd as [_ ?].
Qed.

Lemma forced_fits l c : forced_ok l -> c ∈ l -> fits c.
Proof. intros [Hc _ _] Hin. by destruct (Hc c Hin) as [(_ & ? & _) _]. Qed.

Lemma standard_fits t e : standard_ok t -> e ∈ entries (roots t) -> fits e.2.
Proof. intros [_ Ht] He. by destruct (Ht e He) as (_ & _ & _ & ? & _). Qed.

Lemma record_ok_append id n s a :
  record_ok s -> id = set_id s ->
  record_ok (mkSet a (set_id s + 1) (pending_standard_changes s) (pending_forced_changes s) (authority_set_changes s ++ [(id, n)])).
Proof.
  intros [Hids Hid] ->. split; simpl; rewrite length_app; [|simpl; lia].
  rewrite fmap_app, Hids, seq_app, fmap_app. simpl. by rewrite Hid.
Qed.

(** *** The client's answers *)

Lemma ask_client_eq a b : ask_client (AuthorityId := AuthorityId) is_descendent_of a b = ret (anc a b).
Proof using HA. unfold ask_client. by rewrite anc_answers. Qed.

(** A loop that refuses what [f] holds of. *)
Lemma wp_refuse (f : PendingChange -> bool) (err : PendingChange -> SetError) body l (Q : unit -> AuthoritySet -> Prop) (R : SetError -> AuthoritySet -> Prop) s :
  (forall c, c ∈ l -> body c = (let! b := ret (f c) in ensure (negb b) (err c))) ->
  ((forall c, c ∈ l -> ~ f c) -> Q tt s) -> (forall c, c ∈ l -> f c -> R (err c) s) ->
  wp (for_each l body) Q R s.
Proof.
  intros Hb HQ HR. induction l as [|c l IH]; simpl; ft_steps; [apply HQ; set_solver|].
  rewrite Hb by set_solver. ft_steps; destruct (f c) eqn:Hf; try done.
  - apply IH; [set_solver| |intros d Hd; apply HR; by right]. intros Hl. apply HQ. intros d [->|Hd]%elem_of_cons; [rewrite Hf; by intros []|by apply (Hl d)].
  - apply HR; [by left|by rewrite Hf].
Qed.

(** *** Signalling *)

(** Nothing pending descends from the block that signals. *)
Definition signalled_in_order pending s : Prop :=
  Forall (fun c => ~ anc (canon_hash pending) (canon_hash c)) (pending_changes s).

Lemma elem_of_pending e s : e ∈ entries (roots (pending_standard_changes s)) -> e.2 ∈ pending_changes s.
Proof. intros He. apply elem_of_app. left. rewrite iter_entries. by apply list_elem_of_fmap_2. Qed.

(** The set in office, its number and the record stay. *)
Definition same_set s s' : Prop :=
  current_authorities s' = current_authorities s /\ set_id s' = set_id s /\
  authority_set_changes s' = authority_set_changes s /\
  best_finalized_number (pending_standard_changes s') = best_finalized_number (pending_standard_changes s).

Lemma add_standard_ok pending s :
  set_ok s -> change_ok pending -> delay_kind pending = DelayFinalized -> signalled_in_order pending s ->
  wp (add_standard_change is_descendent_of pending)
    (fun _ s' => set_ok s' /\ same_set s s') (fun _ s' => set_ok s' /\ same_set s s') s.
Proof using HA.
  intros [Hcur Hrec Hstd Hfor] (Hh & Hf & Hv) Hk Hord. unfold signalled_in_order in Hord. rewrite Forall_forall in Hord. unfold add_standard_change, on_tree. ft_steps. rewrite Hh. pose proof Hstd as [Ht Hes].
  eapply wp_mono; [apply (import_implements (canon_hash pending) pending); [done|]| |]; simpl.
  - intros e He. rewrite <- (proj1 (Hes e He)). by apply Hord, elem_of_pending.
  - intros b t [Ht' Hs]. unfold spec_import in Hs. case_match; [|naive_solver]. case_decide; [naive_solver|].
    destruct Hs as (_ & Hp & Hb). simpl in Hp, Hb. ft_steps. split; [|done]. split; simpl; [done..| |done]. split; [done|].
    intros e. rewrite Hp. intros [->|He]%elem_of_cons; [done|by apply Hes].
  - intros e t [Ht' Hs]. assert (view t = view (pending_standard_changes s)) as Hview.
    { unfold spec_import in Hs. case_match; [case_decide|]; naive_solver. }
    injection Hview as Hes' Hb. split; [|done]. split; simpl; [done..| |done].
    apply (standard_ok_sub (pending_standard_changes s)); [done|by rewrite Hes'|done].
Qed.

Lemma wp_forced_checks pending l (Q : unit -> AuthoritySet -> Prop) (R : SetError -> AuthoritySet -> Prop) s :
  ((forall c, c ∈ l -> canon_hash c <> canon_hash pending /\ ~ anc (canon_hash c) (canon_hash pending)) -> Q tt s) ->
  (forall e, R e s) ->
  wp (for_each l (fun change =>
    ensure (negb (bool_decide (canon_hash change = canon_hash pending))) DuplicateAuthoritySetChange ;;
    let! multiple := ask_client is_descendent_of (canon_hash change) (canon_hash pending) in
    ensure (negb multiple) MultiplePendingForcedAuthoritySetChanges)) Q R s.
Proof using HA.
  intros HQ HR. induction l as [|c l IH]; simpl; ft_steps; [apply HQ; set_solver| |done].
  rewrite ask_client_eq. ft_steps; [|done]. apply IH. intros Hl. apply HQ. intros d [->|Hd]%elem_of_cons; [|by apply Hl].
  case_bool_decide; [done|]. split; [done|]. intros Ha. by rewrite (Is_true_true_1 _ Ha) in *.
Qed.

Lemma forced_ok_insert pending l i :
  forced_ok l -> StronglySorted by_key (take i l ++ pending :: drop i l) -> change_ok pending -> delay_kind pending <> DelayFinalized ->
  (forall c, c ∈ l -> canon_hash c <> canon_hash pending /\ ~ anc (canon_hash c) (canon_hash pending)) ->
  (forall c, c ∈ l -> ~ anc (canon_hash pending) (canon_hash c)) -> forced_ok (take i l ++ pending :: drop i l).
Proof using HA.
  intros [Hc _ [Hnd Ha]] Hs Hp Hk Hnew Hord.
  assert (take i l ++ pending :: drop i l ≡ₚ pending :: l) as Hperm.
  { rewrite <- (take_drop i l) at 3. symmetry. apply Permutation_middle. }
  split; [|done|split].
  - intros c. rewrite Hperm. intros [->|Hin]%elem_of_cons; [done|by apply Hc].
  - rewrite Hperm. simpl. constructor; [|done]. intros (c & Heq & Hin)%list_elem_of_fmap_1. by destruct (Hnew c Hin) as [[] _].
  - intros a b. rewrite !Hperm. intros [->|Hin]%elem_of_cons [->|Hin']%elem_of_cons;
      [apply anc_irrefl|by apply Hord|by apply Hnew|by apply Ha].
Qed.

Lemma add_pending_ok pending s :
  set_ok s -> canon_height pending = num (canon_hash pending) -> fits pending -> signalled_in_order pending s ->
  wp (add_pending_change is_descendent_of pending)
    (fun _ s' => set_ok s' /\ same_set s s') (fun _ s' => set_ok s' /\ same_set s s') s.
Proof using HA.
  intros Hs Hh Hf Hord. unfold add_pending_change. ft_steps; [|done].
  assert (change_ok pending) as Hp by (split_and!; [done..|apply invalid_iff; by destruct (invalid_authority_list _)]).
  destruct (delay_kind pending) as [|n] eqn:Hk; [by apply add_standard_ok|]. pose proof Hs as [Hcur Hrec Hstd Hfor].
  unfold add_forced_change. ft_steps. apply wp_forced_checks; [|done]. intros Hnew.
  destruct (insertion_sorted (E := E) pending (pending_forced_changes s)) as (i & -> & Hsort); [done|..|apply Hfor|].
  { intros c. by apply forced_fits. }
  ft_steps. split; [|done]. split; simpl; [done..|]. apply forced_ok_insert; [done..|by rewrite Hk|done|].
  unfold signalled_in_order in Hord. rewrite Forall_forall in Hord. intros c Hc. apply Hord, elem_of_app. by right.
Qed.

(** *** Applying standard changes *)

(** The forced changes that finalizing a block keeps. *)
Definition later hash c : Prop := num hash < effective c /\ anc hash (canon_hash c).

#[global] Instance later_dec hash c : Decision (later hash c).
Proof. unfold later. apply _. Defined.

Lemma wp_keep_forced hash l (Q : unit -> AuthoritySet -> Prop) (R : SetError -> AuthoritySet -> Prop) s :
  (forall c, c ∈ l -> fits c) -> Q tt (set_forced (pending_forced_changes s ++ filter (later hash) l) s) ->
  wp (keep_forced is_descendent_of hash (num hash) l) Q R s.
Proof using HA.
  unfold keep_forced. revert s. induction l as [|c l IH]; intros s Hfit HQ; simpl.
  { ft_steps. rewrite app_nil_r in HQ. by destruct s. }
  rewrite ask_client_eq, effective_number_eq by (apply Hfit; by left). ft_steps. rewrite filter_cons in HQ.
  replace (if num hash <? effective c then ret (anc hash (canon_hash c)) else ret false)
    with (ret (S := AuthoritySet) (E := SetError) (bool_decide (later hash c))).
  - ft_steps. case_bool_decide as Hl; case_decide; try done; ft_steps; (apply IH; [intros d Hd; apply Hfit; by right|]); [|done]. simpl. by rewrite <- app_assoc.
  - destruct (Z.ltb_spec (num hash) (effective c)); f_equal; case_bool_decide as Hl; unfold later in Hl; try done.
    + by rewrite (Is_true_true_1 _ (proj2 Hl)).
    + destruct (anc hash (canon_hash c)); [|done]. by destruct Hl.
    + lia.
Qed.

Definition due hash c : bool := effective c <=? num hash.

(** The outcome of [apply_standard_changes], from that of the tree. *)
Definition standard_outcome hash s (r : FinalizationResult PendingChange + ForkError E) t : outcome AuthoritySet SetError Status :=
  match r with
  | inl (Changed (Some c)) =>
      Ok (mkStatus true (Some (hash, num hash)))
        (mkSet (next_authorities c) (set_id s + 1) t (filter (later hash) (pending_forced_changes s))
          (authority_set_changes s ++ [(set_id s, num hash)]))
  | inl (Changed None) => Ok (mkStatus true None) (set_forced (filter (later hash) (pending_forced_changes s)) (set_standard t s))
  | inl Unchanged => Ok (mkStatus false None) (set_standard t s)
  | inr e => Err (from_fork_error e) (set_standard t s)
  end.

(** The tree asks only about its roots. *)
Lemma due_predicate hash t :
  (forall e, e ∈ entries (roots t) -> fits e.2) ->
  finalize_with_descendent_if is_descendent_of hash (num hash)
    (fun change => let! n := effective_number change in ret (n <=? num hash)) t =
  finalize_with_descendent_if is_descendent_of hash (num hash) (total (due hash)) t.
Proof.
  intros Ht. assert (forall i ns, (forall n, n ∈ ns -> fits (n_data n)) ->
    first_finalized is_descendent_of i hash (num hash) (fun change => let! n := effective_number change in ret (n <=? num hash)) ns =
    first_finalized is_descendent_of i hash (num hash) (total (due hash)) ns) as Heq.
  { intros i ns Hns. revert i. induction ns as [|n ns IH]; intros i; simpl; [done|].
    rewrite effective_number_eq by (apply Hns; by left). rewrite IH; [done|]. intros m Hm. apply Hns. by right. }
  unfold finalize_with_descendent_if, ensure_above_finalized, gets, bind, ensure, ret, fail. simpl.
  destruct (match best_finalized_number t with Some b => b <? num hash | None => true end); [|done]. simpl. rewrite Heq; [done|]. intros n Hn. apply (Ht (entry n)). by apply elem_of_forest.
Qed.

Lemma apply_standard_outcome hash s :
  standard_ok (pending_standard_changes s) -> (forall c, c ∈ pending_forced_changes s -> fits c) -> 0 <= set_id s -> set_id s + 1 < U64 ->
  exists r t, forest_ok (roots t) /\
    spec_finalize_with_descendent_if (anc := anc) (num := num) hash (due hash) (view (pending_standard_changes s)) r (view t) /\
    apply_standard_changes is_descendent_of hash (num hash) s = standard_outcome hash s r t.
Proof using HA.
  intros [Ht Hes] Hfor Hid Hid'. pose proof (finalize_with_descendent_if_implements hash (due hash) _ Ht) as Hw.
  unfold implements, wp in Hw. unfold apply_standard_changes, on_tree, map_err, zoom, bind at 1.
  rewrite due_predicate by (intros e; by apply standard_fits).
  destruct (finalize_with_descendent_if _ _ _ _ _) as [r t|e t|]; [exists (inl r), t|exists (inr e), t|done];
    (split; [apply Hw|split; [apply Hw|]]); [|done].
  assert (forall (k : unit -> M AuthoritySet SetError (Status (H := H))) s',
    bind (keep_forced is_descendent_of hash (num hash) (pending_forced_changes s)) k (set_forced [] s') =
    k tt (set_forced (filter (later hash) (pending_forced_changes s)) s')) as Hkeep.
  { intros k s'. pose proof (wp_keep_forced hash (pending_forced_changes s)
      (fun _ s'' => s'' = set_forced (filter (later hash) (pending_forced_changes s)) s') (fun _ _ => False) (set_forced [] s') Hfor eq_refl) as Hk.
    unfold wp, bind in *. destruct (keep_forced _ _ _ _ _) as [[] s''|?|]; [by rewrite Hk|done..]. }
  destruct r as [[c|]|]; simpl; [..|done]; unfold bind at 1, gets; unfold bind at 1, modify at 1; simpl; rewrite Hkeep; [|done].
  unfold bind, modify, gets, add, arith. simpl. by rewrite (proj2 (Z.leb_le _ _)), (proj2 (Z.ltb_lt _ _)) by lia.
Qed.

(** What the tree gives back is one of its changes, and it keeps others. *)
Lemma finalized_change hash (p : PendingChange -> bool) (b b' : Blocks (H := H) (V := PendingChange)) (r : FinalizationResult PendingChange + ForkError E) :
  spec_finalize_with_descendent_if (anc := anc) (num := num) hash p b r b' ->
  (forall e, e ∈ blocks b' -> e ∈ blocks b) /\
  (forall c, r = inl (Changed (Some c)) -> exists e, e ∈ blocks b /\ e.2 = c) /\
  match r with inl _ => above (finalized b) (num hash) = true /\ finalized b' = Some (num hash) | inr _ => b' = b end.
Proof.
  unfold spec_finalize_with_descendent_if. destruct (above _ _); [|by intros [-> ->]].
  destruct (list_find _ _) as [[i x]|] eqn:Hf.
  - apply list_find_Some in Hf as (Hi & _). apply list_elem_of_lookup_2 in Hi. case_decide; [by intros [-> ->]|].
    intros (-> & Hb & Hp). split_and!; [|by intros c [= <-]; exists x|done..].
    intros e. rewrite Hp, list_elem_of_filter. naive_solver.
  - intros (-> & Hb & Hp). split_and!; [intros e; rewrite Hp, list_elem_of_filter; naive_solver| |done..].
    intros c Hc. case_decide; naive_solver.
Qed.

Lemma apply_standard_ok hash s :
  set_ok s -> set_id s + 1 < U64 ->
  wp (apply_standard_changes is_descendent_of hash (num hash))
    (fun _ s' => set_ok s' /\ set_id s' <= set_id s + 1) (fun _ s' => set_ok s' /\ set_id s' = set_id s) s.
Proof using HA.
  intros [Hcur Hrec Hstd Hfor] Hid. pose proof (proj2 Hrec) as Hlen.
  destruct (apply_standard_outcome hash s) as (r & t & Ht & Hs & Hout); [done|intros c; by apply forced_fits|lia|lia|].
  apply finalized_change in Hs as (Hsub & Hin & _). pose proof (standard_ok_sub _ t Ht Hsub Hstd) as Hstd'.
  unfold wp. rewrite Hout. destruct r as [[[c|]|]|e]; simpl; (split; [|lia]).
  - destruct (Hin c eq_refl) as (e & He & <-). split; simpl; [by apply Hstd| |done|by apply forced_ok_filter].
    by apply (record_ok_append (set_id s) (num hash) s (next_authorities e.2)).
  - split; simpl; [done..|by apply forced_ok_filter].
  - by split.
  - by split.
Qed.

(** *** Applying forced changes *)

Definition on_branch (best : H) c : Prop := effective c = num best /\ upto (canon_hash c) best.

#[global] Instance on_branch_dec best c : Decision (on_branch best c).
Proof using EqDecision0. unfold on_branch. apply _. Defined.

Definition depends_on c (median : Z) (d : PendingChange) : Prop := effective d <= median /\ anc (canon_hash d) (canon_hash c).

#[global] Instance depends_on_dec c median d : Decision (depends_on c median d).
Proof. unfold depends_on. apply _. Defined.

Definition standard_roots s : list PendingChange := (root_entries (pending_standard_changes s)).*2.

(** The outcome of [apply_forced_changes]. *)
Definition change_outcome s c : outcome AuthoritySet SetError (option (Z * AuthoritySet)) :=
  match delay_kind c with
  | DelayFinalized => Panic
  | DelayBest median =>
      match list_find (depends_on c median) (standard_roots s) with
      | Some (_, d) => Err (ForcedAuthoritySetChangeDependencyUnsatisfied (effective d)) s
      | None => Ok (Some (median, mkSet (next_authorities c) (set_id s + 1) new_tree []
                   (authority_set_changes s ++ [(set_id s, median)]))) s
      end
  end.

Definition forced_outcome (best : H) s : outcome AuthoritySet SetError (option (Z * AuthoritySet)) :=
  match list_find (on_branch best) (pending_forced_changes s) with
  | None => Ok None s
  | Some (_, c) => change_outcome s c
  end.

Lemma dependencies_eq c median s l :
  (forall d, d ∈ l -> fits d) ->
  for_each l (fun standard_change =>
    let! n := effective_number standard_change in
    let! depends :=
      (if n <=? median
       then ask_client is_descendent_of (canon_hash standard_change) (canon_hash c) else ret false) in
    ensure (negb depends) (ForcedAuthoritySetChangeDependencyUnsatisfied n)) s =
  match list_find (depends_on c median) l with
  | Some (_, d) => Err (ForcedAuthoritySetChangeDependencyUnsatisfied (effective d)) s
  | None => Ok tt s
  end.
Proof using HA.
  induction l as [|d l IH]; intros Hfit; [done|]. specialize (IH ltac:(set_solver)).
  simpl. rewrite ask_client_eq, effective_number_eq by (apply Hfit; by left). unfold bind at 1. unfold bind at 1, ret at 1.
  replace (if effective d <=? median then ret (anc (canon_hash d) (canon_hash c)) else ret false)
    with (ret (S := AuthoritySet) (E := SetError) (bool_decide (depends_on c median d))).
  - unfold bind at 1, ret at 1. case_decide as Hd; [by rewrite bool_decide_true by done|]. rewrite bool_decide_false by done.
    simpl. rewrite IH. by destruct (list_find _ l) as [[]|].
  - destruct (Z.leb_spec (effective d) median); f_equal; case_bool_decide as Hl; unfold depends_on in Hl; try done.
    + by rewrite (Is_true_true_1 _ (proj2 Hl)).
    + destruct (anc (canon_hash d) (canon_hash c)); [|done]. by destruct Hl.
    + lia.
Qed.

Lemma ask_branch (a b : H) :
  (if decide (a = b) then ret true else ask_client (AuthorityId := AuthorityId) is_descendent_of a b) = ret (bool_decide (upto a b)).
Proof using HA.
  rewrite ask_client_eq. case_decide as Heq; case_bool_decide as Hup; [done|by destruct Hup; left|..]; f_equal.
  - destruct Hup as [?|Ha]; [done|]. by rewrite (Is_true_true_1 _ Ha).
  - destruct (anc a b) eqn:Ha; [|done]. destruct Hup. right. by rewrite Ha.
Qed.

Lemma forced_loop_eq best l s :
  (forall c, c ∈ l -> fits c) -> (forall d, d ∈ standard_roots s -> fits d) -> StronglySorted by_key l ->
  0 <= set_id s -> set_id s + 1 < U64 ->
  forced_loop is_descendent_of best (num best) l s =
  match list_find (on_branch best) l with None => Ok None s | Some (_, c) => change_outcome s c end.
Proof using HA.
  intros Hl Hstd Hsort Hid Hid'. induction Hsort as [|c l Hsort IH Hc]; [done|]. specialize (IH ltac:(set_solver)).
  cbn [forced_loop list_find]. rewrite effective_number_eq by (apply Hl; by left). unfold bind at 1, ret at 1.
  assert (~ on_branch best c -> match list_find (on_branch best) l with None => Ok None s | Some (_, d) => change_outcome s d end =
    match (if decide (on_branch best c) then Some (0%nat, c) else prod_map S id <$> list_find (on_branch best) l) with
    | None => Ok None s | Some (_, d) => change_outcome s d end) as Hnext.
  { intros Hno. rewrite decide_False by done. by destruct (list_find _ l) as [[]|]. }
  destruct (Z.leb_spec (effective c) (num best)) as [Hle|Hgt]; simpl.
  - destruct (Z.eqb_spec (effective c) (num best)) as [Heq|Hne]; simpl; [|rewrite IH; apply Hnext; by intros []].
    rewrite ask_branch. unfold bind at 1, ret at 1. case_bool_decide as Hup; [|rewrite IH; apply Hnext; by intros []].
    rewrite decide_True by done. unfold change_outcome. destruct (delay_kind c) as [|median]; [done|].
    unfold check_dependencies, bind at 1. unfold bind at 1, gets at 1. simpl. rewrite dependencies_eq by done. fold (standard_roots s).
    destruct (list_find (depends_on c median) (standard_roots s)) as [[i d]|]; [done|]. unfold bind, gets, add, arith. simpl.
    by rewrite (proj2 (Z.leb_le _ _)), (proj2 (Z.ltb_lt _ _)) by lia.
  - assert (forall d, d ∈ c :: l -> ~ on_branch best d) as Hno.
    { intros d Hd [Heq _]. pose proof (later_larger c d l Hc Hd). lia. }
    rewrite <- Hnext by (apply Hno; by left). rewrite (proj2 (list_find_None (on_branch best) l)); [done|].
    apply Forall_forall. intros d Hd. apply Hno. by right.
Qed.

Lemma apply_forced_outcome best s :
  set_ok s -> 0 <= set_id s -> set_id s + 1 < U64 ->
  apply_forced_changes is_descendent_of best (num best) s = forced_outcome best s.
Proof using HA.
  intros [_ _ Hstd Hfor] Hid Hid'. apply forced_loop_eq; [| |apply Hfor|done..].
  - intros c Hc. by apply (forced_fits _ _ Hfor).
  - intros d (e & -> & He)%list_elem_of_fmap_1. apply (standard_fits _ _ Hstd). apply list_elem_of_fmap_1 in He as (n & -> & Hn). by apply elem_of_forest.
Qed.

Lemma apply_forced_ok best s :
  set_ok s -> set_id s + 1 < U64 ->
  wp (apply_forced_changes is_descendent_of best (num best))
    (fun r s' => s' = s /\ match r with Some (_, new) => set_ok new /\ set_id new = set_id s + 1 | None => True end)
    (fun _ s' => s' = s) s.
Proof using HA.
  intros Hok Hid. pose proof Hok as [Hcur Hrec Hstd Hfor]. pose proof (proj2 Hrec) as Hlen. unfold wp.
  rewrite apply_forced_outcome by (done || lia). unfold forced_outcome, change_outcome.
  destruct (list_find (on_branch best) _) as [[i c]|] eqn:Hf; [|done].
  apply list_find_Some in Hf as (Hi & _). apply list_elem_of_lookup_2 in Hi. destruct (fo_changes _ Hfor c Hi) as [(_ & _ & Hv) Hk].
  destruct (delay_kind c) as [|median]; [done|]. destruct (list_find _ (standard_roots s)) as [[j d]|]; [done|].
  split; [done|]. split; [|done]. split; simpl; [done| |apply standard_ok_new|apply forced_ok_nil].
  by apply (record_ok_append (set_id s) median s (next_authorities c)).
Qed.
End Inv.
