(* ===== verification/GrandpaTheorems.v ===== *)
(** * The authority sets of GRANDPA: what they promise

    Over every history of signals, finalizations and imports: the set in office
    is never empty, sets are numbered one after the other, and changes are
    applied exactly when they are due; and the record of the sets answers for
    every block, as long as no change was forced. *)

From S2P Require Import Prelude ForkTree ForkTreeFacts ForkTreeImport ForkTreeFinal ForkTreeSim ForkTreeFind ForkTreeDesc ForkTreeTheorems Grandpa GrandpaFacts GrandpaInv.

Section Theorems.
Context {P : Profile} {H E AuthorityId : Type} `{EqDecision H}.
Context {is_descendent_of : H -> H -> bool + E} {anc : H -> H -> bool} {num : H -> Z}.
Local Abbreviation PendingChange := (PendingChange (H := H) (AuthorityId := AuthorityId)).
Local Abbreviation AuthoritySet := (AuthoritySet (H := H) (AuthorityId := AuthorityId)).
Local Abbreviation SetError := (SetError (E := E)).
Local Abbreviation set_ok := (set_ok (AuthorityId := AuthorityId) (anc := anc) (num := num)).
Implicit Types (s : AuthoritySet) (pending : PendingChange) (hash : H).

(** A block signals a change, is finalized, or is imported as the best one; a
    forced change replaces the set. *)
Inductive Event :=
| Signalled (pending : PendingChange)
| BlockFinalized (hash : H)
| BestImported (hash : H).

Definition handle (v : Event) : M AuthoritySet SetError unit :=
  match v with
  | Signalled pending => add_pending_change is_descendent_of pending
  | BlockFinalized hash => let! _ := apply_standard_changes is_descendent_of hash (num hash) in ret tt
  | BestImported hash =>
      let! forced := apply_forced_changes is_descendent_of hash (num hash) in
      match forced with Some (_, new) => modify (fun _ => new) | None => ret tt end
  end.

(** Changes are signalled at the height of their block, and in order: before the
    changes of its descendants.  In a build with overflow checks height and delay
    of a change add up to a block number. *)
Definition possible (v : Event) s : Prop :=
  match v with
  | Signalled pending =>
      canon_height pending = num (canon_hash pending) /\ fits pending /\ signalled_in_order (anc := anc) pending s
  | _ => True
  end.

Definition is_forced (v : Event) : bool := match v with BestImported _ => true | _ => false end.

(** [history allowed k s]: [s] after [k] events that were allowed. *)
Inductive history (allowed : Event -> AuthoritySet -> Prop) : nat -> AuthoritySet -> Prop :=
| history_genesis initial s : genesis initial = Some s -> history allowed 0 s
| history_ok k s v s' : history allowed k s -> allowed v s -> handle v s = Ok tt s' -> history allowed (S k) s'
| history_err k s v e s' : history allowed k s -> allowed v s -> handle v s = Err e s' -> history allowed (S k) s'.

(** Any signals, also of changes with a delay that is too large and out of order. *)
Definition unforced (v : Event) (_ : AuthoritySet) : Prop := is_forced v = false.

Context `{HA : !Ancestry is_descendent_of anc num}.

Lemma genesis_ok initial s : genesis initial = Some s -> set_ok s /\ set_id s = 0 /\ authority_set_changes s = [].
Proof.
  unfold genesis. destruct (invalid_authority_list initial) eqn:Hi; [done|]. intros [= <-]. split_and!; [|done..].
  split; simpl; [by apply invalid_iff|done|apply standard_ok_new|apply forced_ok_nil].
Qed.

(** The record ascends to the last finalized block, without forced changes. *)
Definition record_ascends s : Prop :=
  increasing (authority_set_changes s) /\
  forall c, c ∈ authority_set_changes s ->
    exists b, best_finalized_number (pending_standard_changes s) = Some b /\ c.2 <= b.

Lemma ascends_same s s' :
  authority_set_changes s' = authority_set_changes s ->
  best_finalized_number (pending_standard_changes s') = best_finalized_number (pending_standard_changes s) ->
  record_ascends s -> record_ascends s'.
Proof. unfold record_ascends. by intros -> ->. Qed.

Lemma ascends_finalized s s' n :
  above (best_finalized_number (pending_standard_changes s)) n = true ->
  best_finalized_number (pending_standard_changes s') = Some n ->
  authority_set_changes s' = authority_set_changes s \/
    authority_set_changes s' = authority_set_changes s ++ [(set_id s, n)] ->
  record_ascends s -> record_ascends s'.
Proof.
  intros Hab Hb Hc [Hinc Hle].
  assert (forall c, c ∈ authority_set_changes s -> c.2 < n) as Hlt.
  { intros c (b & Hbest & Hcb)%Hle. rewrite Hbest in Hab. simpl in Hab. lia. }
  unfold record_ascends. rewrite Hb. destruct Hc as [->| ->].
  - split; [done|]. intros c Hc%Hlt. exists n. split; [done|lia].
  - split.
    + apply StronglySorted_app_2; [|done|repeat constructor]. intros x y Hx%Hlt ->%list_elem_of_singleton. done.
    + intros c [Hc%Hlt| ->%list_elem_of_singleton]%elem_of_app; exists n; (split; [done|simpl; lia]).
Qed.

(** *** The record, whatever is signalled *)

Lemma keeps_search_by {St F A} (I : St -> Prop) (cmp : A -> M St F comparison) (l : list A) :
  (forall x, Prelude.keeps I (cmp x)) -> Prelude.keeps I (search_by cmp l).
Proof.
  intros Hc. unfold search_by. generalize 0%nat, (length l) at 2, (length l) at 2.
  induction (Datatypes.S (length l)) as [|n IH]; intros left right size x Hx; simpl; [by wlp_steps|].
  destruct (left <? right)%nat; [|by wlp_steps]. destruct (l !! _) as [y|]; [|by wlp_steps].
  apply wlp_bind. eapply wlp_mono; [by apply Hc| |done]. intros [] z Hz; [by wlp_steps|by apply IH..].
Qed.

Lemma wlp_map_err {St F F' A} (f : F -> F') (m : M St F A) (Q : A -> St -> Prop) (R : F' -> St -> Prop) x :
  wlp m Q (fun e => R (f e)) x -> wlp (map_err f m) Q R x.
Proof. unfold wlp, map_err. by destruct (m x). Qed.

Lemma wlp_effective {St F} (c : PendingChange) (Q : Z -> St -> Prop) (R : F -> St -> Prop) x :
  (forall n, Q n x) -> wlp (effective_number c) Q R x.
Proof. intros HQ. unfold effective_number. wlp_steps. apply HQ. Qed.

Lemma import_best hash number data (t : @ForkTree H PendingChange) :
  let same := fun t' => best_finalized_number t' = best_finalized_number t in
  wlp (import is_descendent_of hash number data) (fun _ => same) (fun _ => same) t.
Proof.
  unfold import, ensure_above_finalized, rebalance, lift. wlp_steps; [|done].
  destruct (import_children _ _ _) as [[ns [[[h n] d]|]]|e]; by wlp_steps.
Qed.

Lemma signalled_same pending s :
  wlp (add_pending_change is_descendent_of pending) (fun _ => same_set s) (fun _ => same_set s) s.
Proof using HA.
  unfold add_pending_change. wlp_steps; [|done]. destruct (delay_kind pending).
  - unfold add_standard_change, on_tree. wlp_steps. apply wlp_map_err. wlp_steps.
    eapply wlp_mono; [apply import_best|..]; intros ? t Ht; wlp_steps; by repeat split.
  - unfold add_forced_change. wlp_steps. eapply wlp_mono; [apply wp_wlp, wp_forced_checks with (Q := fun _ => eq s) (R := fun _ => eq s)|..]; try done.
    + intros _ ? <-. wlp_steps. unfold insertion_point. wlp_steps. apply wlp_effective. intros number. wlp_steps. eapply wlp_mono; [apply (keeps_search_by (eq s)); [|done]|..]; [|by intros ? ? <-; wlp_steps|by intros ? ? <-].
      intros c x Hx. wlp_steps. apply wlp_effective. intros n. by wlp_steps.
    + by intros ? ? <-.
Qed.

(** Until the first root has left the tree, an error has no effect. *)
Lemma first_finalized_same (I : @ForkTree H PendingChange -> Prop) i hash number (p : PendingChange -> M _ (ForkError E) bool) ns :
  (forall c, Prelude.keeps I (p c)) -> Prelude.keeps I (first_finalized is_descendent_of i hash number p ns).
Proof using HA.
  intros Hp. revert i. induction ns as [|n ns IH]; intros i t Ht; simpl; [by wlp_steps|].
  apply wlp_bind. eapply wlp_mono; [by apply Hp| |done]. intros passes u Hu. wlp_steps.
  apply wlp_mono with (Q := fun _ => I) (R := fun _ => I); [|intros [] v Hv; [by wlp_steps|by apply IH]|done].
  destruct passes; [|by wlp_steps]. unfold finalized_by, ask. rewrite anc_answers. wlp_steps.
  destruct (decide _); wlp_steps; [|destruct (anc _ _); [|by wlp_steps]]; wlp_steps;
    (apply wlp_mono with (Q := fun _ => I) (R := fun _ => I); [|intros; by wlp_steps|done]);
    (induction (n_children n) as [|child cs IHc]; simpl; [by wlp_steps|]); wlp_steps; rewrite anc_answers;
    (destruct (_ <=? _); wlp_steps; done).
Qed.

Lemma retain_answered (test : Node H PendingChange -> M _ (ForkError E) bool) ns changed t :
  (forall n, exists b, test n = ret b) -> wlp (retain_roots test ns changed) (fun _ _ => True) (fun _ _ => False) t.
Proof.
  intros Ht. revert changed t. induction ns as [|n ns IH]; intros changed t; simpl; [by wlp_steps|].
  destruct (Ht n) as [[] ->]; wlp_steps; apply IH.
Qed.

Lemma finalized_best hash number (p : PendingChange -> M _ (ForkError E) bool) t :
  (forall c, Prelude.keeps (eq t) (p c)) ->
  wlp (finalize_with_descendent_if is_descendent_of hash number p)
    (fun _ t' => above (best_finalized_number t) number = true /\ best_finalized_number t' = Some number)
    (fun _ t' => best_finalized_number t' = best_finalized_number t) t.
Proof using HA.
  intros Hp. unfold finalize_with_descendent_if, ensure_above_finalized. wlp_steps; [|done].
  eapply wlp_mono; [by apply (first_finalized_same (eq t))| |by intros ? ? <-]. intros position ? <-. wlp_steps.
  apply wlp_mono with (Q := fun _ _ => True) (R := fun _ _ => False); [|intros data u _|done].
  { destruct position as [[i n]|]; unfold finalize_root_at; by wlp_steps. }
  wlp_steps. eapply wlp_mono; [apply retain_answered| |done]; [|intros; by wlp_steps].
  intros n. unfold ask. rewrite !anc_answers. unfold bind, ret.
  destruct (number <? n_number n), (anc hash (n_hash n)), ((n_number n =? number) && bool_decide (n_hash n = hash)); simpl; eauto.
Qed.

Lemma keep_forced_same hash number l s :
  wlp (keep_forced is_descendent_of hash number l) (fun _ s' => exists l', s' = set_forced l' s) (fun _ _ => False) s.
Proof using HA.
  assert (forall l0, wlp (keep_forced is_descendent_of hash number l)
    (fun _ s' => exists l', s' = set_forced l' s) (fun _ _ => False) (set_forced l0 s)) as Hk.
  { unfold keep_forced. induction l as [|c l IH]; intros l0; simpl; wlp_steps; [by exists l0|].
    apply wlp_effective. intros n. wlp_steps. rewrite ask_client_eq. destruct (_ <? n); wlp_steps; [destruct (anc _ _)|]; wlp_steps; apply IH. }
  destruct s. apply Hk.
Qed.

(** The record is that of the first [k] events at most, and ascends. *)
Definition recorded (k : nat) s : Prop := record_ok s /\ set_id s <= Z.of_nat k /\ record_ascends s.

Lemma finalized_recorded k hash s :
  recorded k s -> Z.of_nat (S k) < U64 ->
  wlp (apply_standard_changes is_descendent_of hash (num hash)) (fun _ => recorded (S k)) (fun _ => recorded (S k)) s.
Proof using HA.
  intros ([Hids Hid] & Hk & Has) Hb. unfold apply_standard_changes, on_tree. wlp_steps. apply wlp_map_err. wlp_steps.
  eapply wlp_mono; [apply finalized_best| |].
  - intros c t Ht. wlp_steps. apply wlp_effective. intros n. by wlp_steps.
  - intros r t [Hab Hbest]. destruct r as [change|]; wlp_steps.
    + eapply wlp_mono; [apply keep_forced_same| |done]. intros _ ? [l ->]. destruct change as [c|]; apply wp_wlp; wp_steps.
      * apply wp_arith; simpl; [lia|]. wp_steps.
        split_and!; [by apply (record_ok_append (set_id s) (num hash) s [])|simpl; lia|].
        eapply ascends_finalized; eauto.
      * split_and!; [done|simpl; lia|]. eapply ascends_finalized; eauto.
    + split_and!; [done|simpl; lia|]. eapply ascends_finalized; eauto.
  - intros e t Hbest. split_and!; [done|simpl; lia|]. by apply (ascends_same s (set_standard t s)).
Qed.

Lemma unforced_recorded k s : history unforced k s -> Z.of_nat k < U64 -> recorded k s.
Proof using HA.
  assert (forall k v s, recorded k s -> Z.of_nat (S k) < U64 -> unforced v s ->
    wlp (handle v) (fun _ => recorded (S k)) (fun _ => recorded (S k)) s) as Hstep.
  { clear k s. intros k v s Hs Hb Hv. destruct v as [pending|hash|hash]; [|simpl; wlp_steps|done].
    - destruct Hs as ([Hids Hid] & Hk & Has).
      eapply wlp_mono; [apply signalled_same|..]; intros ? s' (_ & Hid' & Hc & Hbest); unfold recorded, record_ok; rewrite Hc, Hid';
        (split_and!; [done|done|lia|by apply (ascends_same s s')]).
    - eapply wlp_mono; [by apply finalized_recorded|intros; by wlp_steps|done]. }
  intros Hh. induction Hh as [initial s Hg|k s v s' _ IH Hv Hex|k s v e s' _ IH Hv Hex]; intros Hb.
  - apply genesis_ok in Hg as (Hs & Hid & Hc). split_and!; [apply Hs|lia|]. unfold record_ascends. rewrite Hc.
    split; [constructor|]. by intros c ?%not_elem_of_nil.
  - pose proof (Hstep k v s (IH ltac:(lia)) Hb Hv) as Hw. unfold wlp in Hw. by rewrite Hex in Hw.
  - pose proof (Hstep k v s (IH ltac:(lia)) Hb Hv) as Hw. unfold wlp in Hw. by rewrite Hex in Hw.
Qed.

(** *** The whole set, after possible events *)

Lemma handle_ok k v s :
  set_ok s /\ set_id s <= Z.of_nat k -> Z.of_nat (S k) < U64 -> possible v s ->
  let good := fun s' => set_ok s' /\ set_id s' <= Z.of_nat (S k) in wp (handle v) (fun _ => good) (fun _ => good) s.
Proof using HA.
  intros (Hs & Hk) Hb Hp. destruct v as [pending|hash|hash]; simpl.
  - destruct Hp as (Hh & Hfit & Hord). eapply wp_mono; [by apply add_pending_ok|..];
      intros ? s' (Hs' & _ & Hid & _); (split; [done|lia]).
  - ft_steps. eapply wp_mono; [apply apply_standard_ok; [done|lia]|..].
    + intros st s' [? ?]. ft_steps. split; [done|lia].
    + intros e s' [? ?]. split; [done|lia].
  - ft_steps. eapply wp_mono; [apply apply_forced_ok; [done|lia]|..].
    + intros [[median new]|] s' (-> & Hnew); ft_steps; [|split; [done|lia]].
      destruct Hnew as [Hnew Hid]. split; [done|lia].
    + intros e s' ->. split; [done|lia].
Qed.

Lemma history_inv k s : history possible k s -> Z.of_nat k < U64 -> set_ok s /\ set_id s <= Z.of_nat k.
Proof using HA.
  intros Hh. induction Hh as [initial s Hg|k s v s' _ IH Hp Hex|k s v e s' _ IH Hp Hex]; intros Hb.
  - apply genesis_ok in Hg as (Hs & Hid & _). split; [done|lia].
  - pose proof (handle_ok k v s (IH ltac:(lia)) Hb Hp) as Hw. unfold wp in Hw. by rewrite Hex in Hw.
  - pose proof (handle_ok k v s (IH ltac:(lia)) Hb Hp) as Hw. unfold wp in Hw. by rewrite Hex in Hw.
Qed.

(** C9: The client answers for every two blocks, by an ancestry; changes are
    signalled at the height of their block and before those of its descendants;
    and in a build with overflow checks height and delay of each add up to a
    block number.  Then over every history of fewer than 2^64 such signals,
    finalized blocks and imported best blocks, errors included, the authority set in office is not empty and
    gives every authority a weight, as do all pending changes; the sets that
    ended are numbered from 0 on without a gap, up to the one in office; the
    forced changes are sorted and on different forks; and the next event does
    not panic and keeps all this. *)
Theorem authority_set_stays_coherent k s v :
  history possible k s -> Z.of_nat (S k) < U64 -> possible v s ->
  set_ok s /\ match handle v s with Ok _ s' | Err _ s' => set_ok s' | Panic => False end.
Proof using HA.
  intros Hh Hb Hp. pose proof (history_inv k s Hh ltac:(lia)) as Hs. split; [apply Hs|].
  pose proof (handle_ok k v s Hs Hb Hp) as Hw. unfold wp in Hw. by destruct (handle v s); [apply Hw|apply Hw|].
Qed.

(** C32: After such a history, finalizing a block applies the standard change that is due: of the roots
    of the tree of changes the one that the block is or descends from and whose
    effective number, height and delay added modulo 2^32, is at most that of the
    block, unless the block is past another pending change.  The new
    set takes office under the next number, the old one is recorded with the
    block as its last, and of the forced changes the later ones of the branch
    are kept; otherwise the set in office stays. *)
Theorem standard_change_is_exact k s hash :
  history possible k s -> Z.of_nat (S k) < U64 ->
  exists r t,
    spec_finalize_with_descendent_if (anc := anc) (num := num) (E := E) hash (due (num := num) hash) (view (pending_standard_changes s)) r (view t) /\
    apply_standard_changes is_descendent_of hash (num hash) s = standard_outcome (num := num) (anc := anc) hash s r t.
Proof using HA.
  intros Hh Hb. destruct (history_inv k s Hh ltac:(lia)) as ([_ Hrec Ht Hfor] & Hid). pose proof (proj2 Hrec) as Hlen.
  destruct (apply_standard_outcome hash s) as (r & t & _ & Hs & Hout); [done|intros c; by apply (forced_fits _ c Hfor)|lia|lia|]. by exists r, t.
Qed.

(** C35: After such a history, a forced change is applied exactly when its
    effective number, height and delay added modulo 2^32, is that of the imported
    block and the block is on its branch, and then with the median block that it
    names; it is refused while a standard change that it depends on is pending.
    There is at most one such change, and looking for it in the sorted list
    misses none. *)
Theorem forced_change_is_exact k s best :
  history possible k s -> Z.of_nat (S k) < U64 ->
  apply_forced_changes is_descendent_of best (num best) s = forced_outcome (E := E) (anc := anc) (num := num) best s /\
  forced_outcome (E := E) (anc := anc) (num := num) best s <> Panic /\
  forall c c', c ∈ pending_forced_changes s -> c' ∈ pending_forced_changes s ->
    on_branch (anc := anc) (num := num) best c -> on_branch (anc := anc) (num := num) best c' -> c = c'.
Proof using HA.
  intros Hh Hb. destruct (history_inv k s Hh ltac:(lia)) as (Hok & Hid). pose proof (proj2 (so_record _ Hok)) as Hlen.
  pose proof (so_forced _ Hok) as Hfor. pose proof (apply_forced_outcome best s Hok ltac:(lia) ltac:(lia)) as Hout.
  pose proof (apply_forced_ok best s Hok ltac:(lia)) as Hw. unfold wp in Hw. rewrite Hout in Hw.
  split_and!; [done|by intros Hp; rewrite Hp in Hw|].
  intros c c' Hc Hc' [_ Hup] [_ Hup']. destruct (fo_forks _ Hfor) as [Hnd Ha].
  assert (canon_hash c = canon_hash c') as Heq.
  { destruct (upto_linear _ _ _ Hup Hup') as [[?|?]|?]; [done|by destruct (Ha c c')|by destruct (Ha c' c)]. }
  apply list_elem_of_lookup_1 in Hc as [i Hi]. apply list_elem_of_lookup_1 in Hc' as [j Hj].
  assert (i = j) as -> by (apply (NoDup_lookup _ i j (canon_hash c) Hnd); rewrite list_lookup_fmap, ?Hi, ?Hj; simpl; congruence).
  congruence.
Qed.

(** C36: As long as no change was forced, and whatever was signalled and finalized,
    the binary search in the record gives the set of every block: the first one whose last block is the block or after
    it, by its number and its last block, and the latest set for the blocks after
    the record.  For an empty record, of the first set, it gives nothing. *)
Theorem set_of_a_block k s block :
  history unforced k s -> Z.of_nat k < U64 ->
  get_set_id (authority_set_changes s) block =
  match list_find (fun c : Z * Z => block <= c.2) (authority_set_changes s) with
  | Some (i, (_, n)) => Set_ (Z.of_nat i) n
  | None => match authority_set_changes s with [] => Unknown | _ => Latest end
  end.
Proof using HA.
  intros Hh Hb. destruct (unforced_recorded k s Hh Hb) as ([Hids _] & _ & [Hinc _]).
  rewrite get_set_id_set_of by done. unfold set_of. destruct (list_find _ _) as [[i [id n]]|] eqn:Hf; [|done].
  apply list_find_Some in Hf as (Hi & _). assert (id = Z.of_nat i) as ->.
  { pose proof (lookup_lt_Some _ _ _ Hi) as Hlen. assert ((authority_set_changes s).*1 !! i = Some id) as Hid by by rewrite list_lookup_fmap, Hi.
    rewrite Hids, list_lookup_fmap, lookup_seq_lt in Hid by done. simpl in Hid. congruence. }
  destruct i as [|i]; [done|]. by rewrite andb_false_l.
Qed.
End Theorems.

(* ===================================================================== *)
(** ** Sets on a chain *)
Module Sets.
Import ForkTreeTheorems.Chain(client, ancestor, height).
#[local] Existing Instance ForkTreeTheorems.Chain.chain.

Abbreviation block := (list nat).

Abbreviation Change := (PendingChange (H := block) (AuthorityId := nat)).
Abbreviation Set' := (AuthoritySet (H := block) (AuthorityId := nat)).
Abbreviation Event' := (Event (H := block) (AuthorityId := nat)).

Section Play.
Context {P : Profile}.
Abbreviation history' := (history (AuthorityId := nat) (is_descendent_of := client) (num := height)).

#[global] Instance possible_dec (v : Event') s : Decision (possible (anc := ancestor) (num := height) v s).
Proof. destruct v; simpl; unfold signalled_in_order; apply _. Defined.

#[global] Instance unforced_dec (v : Event') (s : Set') : Decision (unforced v s).
Proof. unfold unforced. apply _. Defined.

Fixpoint play (allowed : Event' -> Set' -> Prop) `{!forall v s, Decision (allowed v s)} (events : list Event') (s : Set') : option Set' :=
  match events with
  | [] => Some s
  | v :: events =>
      if decide (allowed v s) then
        match handle (is_descendent_of := client) (num := height) v s with
        | Ok _ s' | Err _ s' => play allowed events s'
        | Panic => None
        end
      else None
  end.

Lemma play_history allowed `{!forall v s, Decision (allowed v s)} events k s s' :
  history' allowed k s -> play allowed events s = Some s' -> history' allowed (length events + k) s'.
Proof.
  revert k s. induction events as [|v events IH]; intros k s Hs; simpl in *; [by intros [= <-]|].
  case_decide as Hp; [|done]. rewrite <- Nat.add_succ_r. destruct (handle v s) as [[] u|e u|] eqn:He; [| |done]; apply IH.
  - by eapply history_ok.
  - by eapply history_err.
Qed.
End Play.

Abbreviation release_history := (history (P := release) (AuthorityId := nat) (is_descendent_of := client) (num := height)).
Abbreviation possible' := (possible (P := release) (anc := ancestor) (num := height)).

(** A change at block 1 without delay, and one at block 1-1-1 after one block. *)
Definition initial : Set' := mkSet [(1%nat, 1)] 0 new_tree [] [].
Definition change1 : Change := mkChange [(2%nat, 1)] 0 1 [1%nat] DelayFinalized.
Definition change2 : Change := mkChange [(3%nat, 1)] 1 3 [1; 1; 1]%nat DelayFinalized.
Definition forced1 : Change := mkChange [(4%nat, 1)] 1 3 [1; 1; 1]%nat (DelayBest 0).

Definition standard_events : list Event' := [Signalled change1; Signalled change2; BlockFinalized [1; 1]%nat].
Definition forced_events : list Event' := [Signalled change1; BlockFinalized [1; 1]%nat; Signalled forced1].

Definition after (events : list Event') : Set' := default initial (play (P := release) possible' events initial).

Lemma standard_history : release_history possible' 3 (after standard_events).
Proof. apply (play_history possible' standard_events 0 initial); [by apply (history_genesis _ [(1%nat, 1)])|]. vm_compute. reflexivity. Qed.

Lemma unforced_history : release_history unforced 3 (after standard_events).
Proof. apply (play_history unforced standard_events 0 initial); [by apply (history_genesis _ [(1%nat, 1)])|]. vm_compute. reflexivity. Qed.

Lemma forced_history : release_history possible' 3 (after forced_events).
Proof. apply (play_history possible' forced_events 0 initial); [by apply (history_genesis _ [(1%nat, 1)])|]. vm_compute. reflexivity. Qed.

Lemma authority_set_stays_coherent_witness :
  set_ok (P := release) (anc := ancestor) (num := height) (after standard_events) /\
  match handle (P := release) (is_descendent_of := client) (num := height) (BlockFinalized [1; 1; 1; 1]%nat) (after standard_events) with
  | Ok _ s' | Err _ s' => set_ok (P := release) (anc := ancestor) (num := height) s' | Panic => False end.
Proof. apply (authority_set_stays_coherent 3 (after standard_events)); [exact standard_history|reflexivity|exact I]. Defined.

Lemma standard_change_is_exact_witness :
  exists r t,
    spec_finalize_with_descendent_if (anc := ancestor) (num := height) (E := unit) [1; 1; 1; 1]%nat
      (due (num := height) [1; 1; 1; 1]%nat) (view (pending_standard_changes (after standard_events))) r (view t) /\
    apply_standard_changes (P := release) client [1; 1; 1; 1]%nat (height [1; 1; 1; 1]%nat) (after standard_events) =
      standard_outcome (num := height) (anc := ancestor) [1; 1; 1; 1]%nat (after standard_events) r t.
Proof. apply (standard_change_is_exact 3 (after standard_events)); [exact standard_history|reflexivity]. Defined.

Lemma forced_change_is_exact_witness :
  apply_forced_changes (P := release) client [1; 1; 1; 1]%nat (height [1; 1; 1; 1]%nat) (after forced_events) =
    forced_outcome (E := unit) (anc := ancestor) (num := height) [1; 1; 1; 1]%nat (after forced_events) /\
  forced_outcome (E := unit) (anc := ancestor) (num := height) [1; 1; 1; 1]%nat (after forced_events) <> Panic /\
  forall c c', c ∈ pending_forced_changes (after forced_events) -> c' ∈ pending_forced_changes (after forced_events) ->
    on_branch (anc := ancestor) (num := height) [1; 1; 1; 1]%nat c -> on_branch (anc := ancestor) (num := height) [1; 1; 1; 1]%nat c' -> c = c'.
Proof. apply (forced_change_is_exact 3 (after forced_events)); [exact forced_history|reflexivity]. Defined.

Lemma set_of_a_block_witness :
  get_set_id (authority_set_changes (after standard_events)) 2 = Set_ 0 2.
Proof. refine (set_of_a_block (P := release) 3 (after standard_events) 2 unforced_history _). reflexivity. Defined.

(** The second change takes office in its turn. *)
Lemma second_change_applies :
  exists s', apply_standard_changes (P := release) client [1; 1; 1; 1]%nat 4 (after standard_events) =
    Ok (mkStatus true (Some ([1; 1; 1; 1]%nat, 4))) s' /\ current_authorities s' = [(3%nat, 1)] /\
    authority_set_changes s' = [(0, 2); (1, 4)].
Proof. eexists. vm_compute. split_and!; reflexivity. Qed.

(** A forced change records its median block, which may be below the record:
    the binary search then misses the set of block 1, which was the first. *)
Lemma forced_change_unsorts_the_record :
  let s := after (forced_events ++ [BestImported [1; 1; 1; 1]%nat]) in
  authority_set_changes s = [(0, 2); (1, 0)] /\ get_set_id (authority_set_changes s) 1 = Latest.
Proof. vm_compute. split; reflexivity. Qed.

(** Height and delay add up modulo 2^32 in a build without overflow checks: a
    change with the largest delay takes office with its own block, and a build
    with checks panics when this block is finalized. *)
Lemma largest_delay_applies_at_once :
  let s := after [Signalled (mkChange [(2%nat, 1)] (U32 - 1) 1 [1%nat] DelayFinalized)] in
  (exists s', apply_standard_changes (P := release) client [1%nat] 1 s = Ok (mkStatus true (Some ([1%nat], 1))) s' /\
     current_authorities s' = [(2%nat, 1)]) /\
  apply_standard_changes (P := debug) client [1%nat] 1 s = Panic.
Proof. split; [eexists; vm_compute; split; reflexivity|]. vm_compute. reflexivity. Qed.

(** A standard change that is not a root of the tree is not seen, although the
    forced change depends on it. *)
Lemma dependency_below_a_root_is_missed :
  let s := after [Signalled (mkChange [(2%nat, 1)] 9 1 [1%nat] DelayFinalized); Signalled (mkChange [(3%nat, 1)] 0 2 [1; 1]%nat DelayFinalized);
                  Signalled (mkChange [(4%nat, 1)] 1 3 [1; 1; 1]%nat (DelayBest 2))] in
  exists new, apply_forced_changes (P := release) client [1; 1; 1; 1]%nat 4 s = Ok (Some (2, new)) s.
Proof. eexists. vm_compute. reflexivity. Qed.

End Sets.
