(* ===== verification/Database.v ===== *)
(** * The key-value database

    [primitives/database]: changes are collected in a transaction and committed
    to columns of keys; some values are counted by reference.  The trait is a
    class, the database in memory an instance of it. *)

From S2P Require Import Prelude.

Abbreviation ColumnId := Z.

(** The columns of the database in memory: a counter and a value under each key. *)
Abbreviation MemDb := (gmap ColumnId (gmap bytes (Z * bytes))).

Section Database.
Context {H : Type}.

Inductive Change :=
| CSet (col : ColumnId) (key value : bytes)
| CRemove (col : ColumnId) (key : bytes)
| CStore (col : ColumnId) (hash : H) (preimage : bytes)
| CReference (col : ColumnId) (hash : H)
| CRelease (col : ColumnId) (hash : H).

Definition Transaction := list Change.

Definition tx_set (col : ColumnId) (key value : bytes) (tx : Transaction) : Transaction := tx ++ [CSet col key value].
Definition tx_remove (col : ColumnId) (key : bytes) (tx : Transaction) : Transaction := tx ++ [CRemove col key].

(** [trait Database] *)
Class Database (D E : Type) := {
  db_commit : Transaction -> M D E unit;
  db_get : ColumnId -> bytes -> D -> option bytes
}.

(* --------------------------------------------------------------------- *)
(** ** What setting and removing keys means *)

Definition plain (ch : Change) : bool :=
  match ch with CSet _ _ _ | CRemove _ _ => true | _ => false end.

Definition change_at (ch : Change) (col : ColumnId) (key : bytes) (old : option bytes) : option bytes :=
  match ch with
  | CSet col' key' value => if decide ((col', key') = (col, key)) then Some value else old
  | CRemove col' key' => if decide ((col', key') = (col, key)) then None else old
  | _ => old
  end.

Definition changes_at (tx : Transaction) (col : ColumnId) (key : bytes) (old : option bytes) : option bytes :=
  foldl (fun o ch => change_at ch col key o) old tx.

Lemma changes_at_app (tx tx' : Transaction) col key old :
  changes_at (tx ++ tx') col key old = changes_at tx' col key (changes_at tx col key old).
Proof. apply foldl_app. Qed.

(** A transaction that only sets and removes keys takes effect, in order. *)
Class DatabaseLaws {D E : Type} `{!Database D E} : Prop := {
  commit_plain tx d : forallb plain tx ->
    wp (db_commit tx) (fun _ d' => forall col key, db_get col key d' = changes_at tx col key (db_get col key d))
      (fun _ _ => False) d
}.

(* --------------------------------------------------------------------- *)
(** ** The database in memory *)
Context (as_ref : H -> bytes).

(** [s.entry(col).or_default()] *)
Definition column (col : ColumnId) (s : MemDb) : gmap bytes (Z * bytes) := default ∅ (s !! col).

Definition put_entry (col : ColumnId) (key : bytes) (v : option (Z * bytes)) (s : MemDb) : MemDb :=
  <[col := put_opt key v (column col s)]> s.

Section Commit.
Context {P : Profile} {E : Type}.

Definition mem_change (ch : Change) : M MemDb E unit :=
  match ch with
  | CSet col key value => modify (put_entry col key (Some (1, value)))
  | CRemove col key => modify (put_entry col key None)
  | CStore col hash value =>
      let! entry := gets (fun s => column col s !! as_ref hash) in
      match entry with
      | Some (c, v) => let! c := add U32 c 1 in modify (put_entry col (as_ref hash) (Some (c, v)))
      | None => modify (put_entry col (as_ref hash) (Some (1, value)))
      end
  | CReference col hash =>
      let! entry := gets (fun s => column col s !! as_ref hash) in
      match entry with
      | Some (c, v) => let! c := add U32 c 1 in modify (put_entry col (as_ref hash) (Some (c, v)))
      | None => ret tt
      end
  | CRelease col hash =>
      let! entry := gets (fun s => column col s !! as_ref hash) in
      match entry with
      | Some (c, v) =>
          let! c := sub U32 c 1 in
          modify (put_entry col (as_ref hash) (if c =? 0 then None else Some (c, v)))
      | None => ret tt
      end
  end.

Definition mem_commit (tx : Transaction) : M MemDb E unit := for_each tx mem_change.
End Commit.

Definition mem_get (col : ColumnId) (key : bytes) (s : MemDb) : option bytes := snd <$> (s !! col ≫= (.!! key)).

Definition mem_count (col : ColumnId) (s : MemDb) : nat := default 0%nat (base.size <$> s !! col).

#[global] Instance mem_database {P : Profile} {E} : Database MemDb E :=
  {| db_commit := mem_commit; db_get := mem_get |}.

Lemma mem_get_column col key s : mem_get col key s = snd <$> column col s !! key.
Proof. unfold mem_get, column. destruct (s !! col); simpl; [done|]. by rewrite lookup_empty. Qed.

Lemma column_put col key v s col' :
  column col' (put_entry col key v s) = if decide (col' = col) then put_opt key v (column col s) else column col' s.
Proof.
  unfold column at 1, put_entry. case_decide as Hc; [subst; by rewrite lookup_insert_eq|by rewrite lookup_insert_ne].
Qed.

Lemma mem_get_put col key v s col' key' :
  mem_get col' key' (put_entry col key v s) =
  if decide ((col, key) = (col', key')) then snd <$> v else mem_get col' key' s.
Proof.
  rewrite !mem_get_column, column_put. case_decide as Hc; [subst|by rewrite decide_False by naive_solver].
  rewrite lookup_put_opt. repeat case_decide; naive_solver.
Qed.

#[global] Instance mem_database_laws {P : Profile} {E} : DatabaseLaws (D := MemDb) (E := E).
Proof.
  split. simpl. unfold mem_commit. induction tx as [|ch tx IH]; intros d Hp; [done|].
  cbn [forallb] in Hp. apply andb_True in Hp as [Hch Hp]. cbn [for_each]. apply wp_bind.
  destruct ch; try done; (eapply wp_modify, wp_mono; [by apply IH| |done]);
    intros [] d' Hd' col' key'; rewrite Hd', mem_get_put; done.
Qed.
End Database.

#[global] Arguments Change : clear implicits.
#[global] Arguments Transaction : clear implicits.
#[global] Arguments Database : clear implicits.
