(* ===== verification/HeaderMetadata.v ===== *)
(** * Header metadata

    [primitives/blockchain/src/header_metadata.rs] and the ancestry test that
    [client/api/src/lib.rs] and [client/network/src/protocol/sync.rs] build on
    it: the lowest common ancestor of two blocks, the route from one block to
    another, and whether a block descends from another.

    The backend that serves the metadata is a class, as it is a trait; it may
    change its caches while it serves.  A block number is an integer. *)

From S2P Require Import Prelude.

(** [traits::Header]: what the client reads of a header *)
Class HeaderT (Header : Type) := {
  header_hash : Header -> Hash;
  header_number : Header -> Z;
  header_parent_hash : Header -> Hash;
  header_state_root : Header -> Hash
}.

Record CachedHeaderMetadata := mkMetadata {
  m_hash : Hash;
  m_number : Z;
  m_parent : Hash;
  m_state_root : Hash;
  m_ancestor : Hash
}.

(** [CachedHeaderMetadata::from]: the ancestor is the parent at first *)
Definition metadata_from `{HeaderT Header} (header : Header) : CachedHeaderMetadata :=
  mkMetadata (header_hash header) (header_number header) (header_parent_hash header)
    (header_state_root header) (header_parent_hash header).

Definition set_ancestor (a : Hash) (m : CachedHeaderMetadata) : CachedHeaderMetadata :=
  mkMetadata (m_hash m) (m_number m) (m_parent m) (m_state_root m) a.

Record HashAndNumber := mkHN { hn_number : Z; hn_hash : Hash }.

Definition hash_and_number (m : CachedHeaderMetadata) : HashAndNumber := mkHN (m_number m) (m_hash m).

(** [trait HeaderMetadata]; the methods take [&self] and change caches behind it *)
Class HeaderMetadata (S E : Type) := {
  header_metadata : Hash -> M S E CachedHeaderMetadata;
  insert_header_metadata : Hash -> CachedHeaderMetadata -> M S E unit;
  remove_header_metadata : Hash -> M S E unit
}.

(** A tree-route: the blocks before the pivot are retracted, the one at the pivot
    is common, those after it are enacted. *)
Record TreeRoute := mkRoute { route : list HashAndNumber; pivot : nat }.

Section Routes.
Context {S E : Type} `{!HeaderMetadata S E}.
Implicit Types (one two from to : CachedHeaderMetadata).

(* --------------------------------------------------------------------- *)
(** ** The lowest common ancestor *)

(** [while header_one.number > header_two.number], through ancestor links *)
Fixpoint climb (fuel : nat) one two : M S E CachedHeaderMetadata :=
  match fuel with
  | O => panic
  | Datatypes.S fuel =>
      if m_number two <? m_number one then
        let! ancestor_one := header_metadata (m_ancestor one) in
        if m_number two <=? m_number ancestor_one then climb fuel ancestor_one two else ret one
      else ret one
  end.

(** [while header_one.hash != header_two.hash], through parent links *)
Fixpoint meet (fuel : nat) one two : M S E CachedHeaderMetadata :=
  match fuel with
  | O => panic
  | Datatypes.S fuel =>
      if decide (m_hash one = m_hash two) then ret one
      else if m_number two <? m_number one then
        let! one := header_metadata (m_parent one) in meet fuel one two
      else
        let! two := header_metadata (m_parent two) in meet fuel one two
  end.

(** A number has that many blocks below it. *)
Definition blocks_to (m : CachedHeaderMetadata) : nat := Datatypes.S (Z.to_nat (m_number m)).

(** [if orig.number > header.number { orig.ancestor = header.hash; insert }] *)
Definition relink orig (header : CachedHeaderMetadata) : M S E unit :=
  if m_number header <? m_number orig then insert_header_metadata (m_hash orig) (set_ancestor (m_hash header) orig)
  else ret tt.

Definition lowest_common_ancestor (id_one id_two : Hash) : M S E HashAndNumber :=
  let! orig_one := header_metadata id_one in
  let! orig_two := header_metadata id_two in
  let! one := climb (blocks_to orig_one) orig_one orig_two in
  let! two := climb (blocks_to orig_two) orig_two one in
  let! common := meet (blocks_to one + blocks_to two) one two in
  relink orig_one common ;;
  relink orig_two common ;;
  ret (hash_and_number common).

(* --------------------------------------------------------------------- *)
(** ** Routes *)

(** [while to.number > from.number { branch.push(to); to = parent }] *)
Fixpoint walk_down (fuel : nat) to (number : Z) (branch : list HashAndNumber) :
    M S E (CachedHeaderMetadata * list HashAndNumber) :=
  match fuel with
  | O => panic
  | Datatypes.S fuel =>
      if number <? m_number to then
        let! parent := header_metadata (m_parent to) in
        walk_down fuel parent number (branch ++ [hash_and_number to])
      else ret (to, branch)
  end.

(** [while to.hash != from.hash], both a step at a time *)
Fixpoint walk_both (fuel : nat) from to (from_branch to_branch : list HashAndNumber) :
    M S E (CachedHeaderMetadata * list HashAndNumber * list HashAndNumber) :=
  match fuel with
  | O => panic
  | Datatypes.S fuel =>
      if decide (m_hash to = m_hash from) then ret (to, from_branch, to_branch)
      else
        let! to' := header_metadata (m_parent to) in
        let! from' := header_metadata (m_parent from) in
        walk_both fuel from' to' (from_branch ++ [hash_and_number from]) (to_branch ++ [hash_and_number to])
  end.

Definition tree_route (from to : Hash) : M S E TreeRoute :=
  let! from := header_metadata from in
  let! to := header_metadata to in
  let! down := walk_down (blocks_to to) to (m_number from) [] in
  let '(to, to_branch) := down in
  let! down := walk_down (blocks_to from) from (m_number to) [] in
  let '(from, from_branch) := down in
  let! met := walk_both (blocks_to from) from to from_branch to_branch in
  let '(to, from_branch, to_branch) := met in
  ret (mkRoute (from_branch ++ hash_and_number to :: rev to_branch) (length from_branch)).

(** The slices panic where the pivot is not in the route. *)
Definition retracted (r : TreeRoute) : M S E (list HashAndNumber) :=
  assert (pivot r <=? length (route r))%nat ;; ret (take (pivot r) (route r)).

Definition into_retracted (r : TreeRoute) : list HashAndNumber := take (pivot r) (route r).

Definition common_block (r : TreeRoute) : M S E HashAndNumber := unwrap (route r !! pivot r).

Definition enacted (r : TreeRoute) : M S E (list HashAndNumber) :=
  assert (pivot r + 1 <=? length (route r))%nat ;; ret (drop (pivot r + 1) (route r)).

(* --------------------------------------------------------------------- *)
(** ** Descent *)

(** [utils::is_descendent_of].  [current] is a block that is not in the backend
    yet, with its parent. *)
Definition is_descendent_of (current : option (Hash * Hash)) (base hash : Hash) : M S E bool :=
  if decide (base = hash) then ret false
  else
    let search hash :=
      let! ancestor := lowest_common_ancestor hash base in ret (bool_decide (hn_hash ancestor = base)) in
    match current with
    | None => search hash
    | Some (current_hash, current_parent_hash) =>
        if decide (base = current_hash) then ret false
        else if decide (hash = current_hash) then
          if decide (base = current_parent_hash) then ret true else search current_parent_hash
        else search hash
    end.

(** [sync::is_descendent_of] *)
Definition sync_is_descendent_of (base block : Hash) : M S E bool :=
  if decide (base = block) then ret false
  else let! ancestor := lowest_common_ancestor block base in ret (bool_decide (hn_hash ancestor = base)).
End Routes.
