(* ===== verification/HeaderChain.v ===== *)
(** * The tree of headers

    The blocks of a backend as a tree of parent links, the ancestors of a block
    in it, and what a backend that serves header metadata promises. *)

From S2P Require Import Prelude HeaderMetadata.

(* ===================================================================== *)
(** ** Blocks and their ancestors *)

(** What the tree keeps of a header. *)
Record Link := mkLink { l_number : Z; l_parent : Hash; l_state_root : Hash }.
Abbreviation Links := (gmap Hash Link).

Definition header_link `{HeaderT Header} (header : Header) : Link :=
  mkLink (header_number header) (header_parent_hash header) (header_state_root header).

Section Ancestors.
Implicit Types (c : Links) (h a x : Hash) (k : nat).

(** The block [k] steps below [h]. *)
Fixpoint up c k h : option Hash :=
  l ← c !! h;
  match k with
  | O => Some h
  | S k => up c k (l_parent l)
  end.

(** [a] is [h] or below it. *)
Definition ancestor c a h : Prop := exists k, up c k h = Some a.

(** Every block but the genesis sits on a block one lower; the genesis is one
    block and sits on none. *)
Record chain_ok c : Prop := {
  ok_number h l : c !! h = Some l -> 0 <= l_number l;
  ok_parent h l : c !! h = Some l -> 0 < l_number l ->
    exists p, c !! l_parent l = Some p /\ l_number p = l_number l - 1;
  ok_genesis h l h' l' : c !! h = Some l -> c !! h' = Some l' -> l_number l = 0 -> l_number l' = 0 -> h = h';
  ok_root h l : c !! h = Some l -> l_number l = 0 -> c !! l_parent l = None
}.

(** The same, block by block. *)
Definition block_ok c h l : Prop :=
  0 <= l_number l /\
  (0 < l_number l -> l_number <$> c !! l_parent l = Some (l_number l - 1)) /\
  (l_number l = 0 -> c !! l_parent l = None /\ map_Forall (fun h' l' => l_number l' = 0 -> h = h') c).

#[global] Instance block_ok_dec c h l : Decision (block_ok c h l).
Proof. unfold block_ok. apply _. Defined.

Lemma chain_ok_blocks c : chain_ok c <-> map_Forall (block_ok c) c.
Proof.
  split.
  - intros [Hn Hp Hg Hr] h l Hl. split_and!; [by eapply Hn| |].
    + intros H0. destruct (Hp h l Hl H0) as (p & -> & Hpn). simpl. by rewrite Hpn.
    + intros H0. split; [by eapply Hr|]. intros h' l' Hl' H0'. by eapply Hg.
  - intros Hall. split.
    + intros h l Hl. by apply (Hall h l).
    + intros h l Hl H0. destruct (Hall h l Hl) as (_ & Hp & _). specialize (Hp H0).
      destruct (c !! l_parent l) as [p|]; [|done]. injection Hp as Hp. eauto.
    + intros h l h' l' Hl Hl' H0 H0'. destruct (Hall h l Hl) as (_ & _ & Hg). by apply (proj2 (Hg H0) h' l').
    + intros h l Hl H0. destruct (Hall h l Hl) as (_ & _ & Hg). apply (Hg H0).
Qed.

#[global] Instance chain_ok_dec c : Decision (chain_ok c).
Proof. refine (cast_if (decide (map_Forall (block_ok c) c))); by rewrite chain_ok_blocks. Defined.

(** [x] is the highest block below both. *)
Definition is_lca c h h' x : Prop :=
  ancestor c x h /\ ancestor c x h' /\ forall y, ancestor c y h -> ancestor c y h' -> ancestor c y x.

Lemma up_0 c h l : c !! h = Some l -> up c 0 h = Some h.
Proof. intros Hl. simpl. by rewrite Hl. Qed.

Lemma up_S c k h l : c !! h = Some l -> up c (S k) h = up c k (l_parent l).
Proof. intros Hl. simpl. by rewrite Hl. Qed.

Lemma up_from c k h a : up c k h = Some a -> is_Some (c !! h).
Proof. destruct k; simpl; destruct (c !! h); simpl; naive_solver. Qed.

Lemma up_to c k h a : up c k h = Some a -> is_Some (c !! a).
Proof.
  revert h. induction k as [|k IH]; intros h; simpl; destruct (c !! h) as [l|] eqn:Hl; simpl; try done.
  - intros [= ->]. eauto.
  - apply IH.
Qed.

Lemma up_add c j k h a : up c j h = Some a -> up c (j + k) h = up c k a.
Proof.
  revert h. induction j as [|j IH]; intros h; simpl; destruct (c !! h) as [l|] eqn:Hl; simpl; try done.
  - intros [= ->]. destruct k; simpl; by rewrite Hl.
  - apply IH.
Qed.

Lemma ancestor_refl c h l : c !! h = Some l -> ancestor c h h.
Proof. intros Hl. exists 0%nat. by eapply up_0. Qed.

Lemma ancestor_trans c x a h : ancestor c x a -> ancestor c a h -> ancestor c x h.
Proof. intros [k Hk] [j Hj]. exists (j + k)%nat. by rewrite (up_add c j k h a). Qed.

Lemma ancestor_parent c h l p : c !! h = Some l -> c !! l_parent l = Some p -> ancestor c (l_parent l) h.
Proof. intros Hl Hp. exists 1%nat. rewrite (up_S _ _ _ l) by done. by eapply up_0. Qed.

Lemma ancestor_known c a h : ancestor c a h -> is_Some (c !! a) /\ is_Some (c !! h).
Proof. intros [k Hk]. split; [by eapply up_to|by eapply up_from]. Qed.

Section Ok.
Context c (Hc : chain_ok c).

Lemma parent_number h l p : c !! h = Some l -> c !! l_parent l = Some p -> l_number p = l_number l - 1.
Proof using Hc.
  intros Hl Hp. pose proof (ok_number c Hc h l Hl).
  destruct (decide (l_number l = 0)) as [H0|H0]; [by rewrite (ok_root c Hc h l) in Hp|].
  destruct (ok_parent c Hc h l Hl ltac:(lia)) as (p' & Hp' & Hn). by simplify_eq.
Qed.

Lemma up_number k h a l la :
  up c k h = Some a -> c !! h = Some l -> c !! a = Some la -> l_number la = l_number l - Z.of_nat k.
Proof using Hc.
  revert h l. induction k as [|k IH]; intros h l Hk Hl Ha.
  - rewrite (up_0 _ _ l) in Hk by done. simplify_eq. lia.
  - rewrite (up_S _ _ _ l) in Hk by done. pose proof (up_from _ _ _ _ Hk) as [p Hp].
    rewrite (IH _ p Hk Hp Ha), (parent_number h l p) by done. lia.
Qed.

Lemma up_total k h l : c !! h = Some l -> Z.of_nat k <= l_number l -> is_Some (up c k h).
Proof using Hc.
  revert h l. induction k as [|k IH]; intros h l Hl Hk; [by rewrite (up_0 _ _ l)|].
  rewrite (up_S _ _ _ l) by done.
  destruct (ok_parent c Hc h l Hl ltac:(lia)) as (p & Hp & Hn). apply (IH _ p Hp). lia.
Qed.

Lemma ancestor_number a h la l :
  ancestor c a h -> c !! a = Some la -> c !! h = Some l -> 0 <= l_number la <= l_number l.
Proof using Hc.
  intros [k Hk] Ha Hl. pose proof (up_number _ _ _ _ _ Hk Hl Ha). pose proof (ok_number c Hc a la Ha). lia.
Qed.

(** Ancestors at one height are the same block. *)
Lemma ancestor_same a a' h la :
  ancestor c a h -> ancestor c a' h -> c !! a = Some la -> l_number <$> c !! a' = Some (l_number la) -> a = a'.
Proof using Hc.
  intros [k Hk] [j Hj] Ha Hn. destruct (c !! a') as [la'|] eqn:Ha'; simplify_eq/=.
  destruct (up_from _ _ _ _ Hk) as [l Hl].
  pose proof (up_number _ _ _ _ _ Hk Hl Ha). pose proof (up_number _ _ _ _ _ Hj Hl Ha').
  assert (k = j) as -> by lia. congruence.
Qed.

(** The ancestors of a block are in a line. *)
Lemma ancestor_linear x a h lx la :
  ancestor c x h -> ancestor c a h -> c !! x = Some lx -> c !! a = Some la ->
  l_number lx <= l_number la -> ancestor c x a.
Proof using Hc.
  intros [k Hk] [j Hj] Hx Ha Hle. destruct (up_from _ _ _ _ Hk) as [l Hl].
  pose proof (up_number _ _ _ _ _ Hk Hl Hx). pose proof (up_number _ _ _ _ _ Hj Hl Ha).
  exists (k - j)%nat. rewrite <- (up_add c j (k - j) h a Hj). by replace (j + (k - j))%nat with k by lia.
Qed.

Lemma ancestor_antisym a h : ancestor c a h -> ancestor c h a -> a = h.
Proof using Hc.
  intros Ha Hh. destruct (ancestor_known _ _ _ Ha) as [[la Hla] [l Hl]].
  pose proof (ancestor_number _ _ _ _ Ha Hla Hl). pose proof (ancestor_number _ _ _ _ Hh Hl Hla).
  eapply (ancestor_same a h h la); eauto using ancestor_refl. rewrite Hl. simpl. f_equal. lia.
Qed.

(** An ancestor of a block is the block, or an ancestor of its parent. *)
Lemma ancestor_step a h l : c !! h = Some l -> ancestor c a h -> a = h \/ ancestor c a (l_parent l).
Proof using Hc.
  intros Hl [[|k] Hk].
  - rewrite (up_0 _ _ l) in Hk by done. left. congruence.
  - rewrite (up_S _ _ _ l) in Hk by done. right. by exists k.
Qed.

Lemma is_lca_unique h h' x x' : is_lca c h h' x -> is_lca c h h' x' -> x = x'.
Proof using Hc. intros (? & ? & Hx) (? & ? & Hx'). apply ancestor_antisym; auto. Qed.

(** Every block stands on the genesis. *)
Lemma genesis_below h l g lg : c !! h = Some l -> c !! g = Some lg -> l_number lg = 0 -> ancestor c g h.
Proof using Hc.
  intros Hl Hg H0. pose proof (ok_number c Hc h l Hl).
  destruct (up_total (Z.to_nat (l_number l)) h l Hl ltac:(lia)) as [g' Hg'].
  destruct (up_to _ _ _ _ Hg') as [lg' Hlg']. pose proof (up_number _ _ _ _ _ Hg' Hl Hlg').
  assert (g = g') as -> by (eapply (ok_genesis c Hc); eauto; lia). by exists (Z.to_nat (l_number l)).
Qed.
End Ok.

(** The test of [ancestor], by the numbers. *)
Definition ancestorb c a h : bool :=
  match c !! h, c !! a with
  | Some l, Some la => bool_decide (up c (Z.to_nat (l_number l - l_number la)) h = Some a)
  | _, _ => false
  end.

Lemma ancestorb_spec c a h : chain_ok c -> ancestorb c a h <-> ancestor c a h.
Proof.
  intros Hc. unfold ancestorb. destruct (c !! h) as [l|] eqn:Hl.
  2:{ split; [done|]. intros [_ [? ?]]%ancestor_known. congruence. }
  destruct (c !! a) as [la|] eqn:Ha.
  2:{ split; [done|]. intros [[? ?] _]%ancestor_known. congruence. }
  rewrite bool_decide_spec. split; [by eexists|]. intros [k Hk].
  pose proof (up_number c Hc _ _ _ _ _ Hk Hl Ha). by replace (Z.to_nat _) with k by lia.
Qed.
End Ancestors.

(* ===================================================================== *)
(** ** What a backend serves *)

(** The metadata of a block; its link leads to some ancestor. *)
Record metadata_ok (c : Links) (h : Hash) (m : CachedHeaderMetadata) : Prop := {
  md_link : c !! h = Some (mkLink (m_number m) (m_parent m) (m_state_root m));
  md_hash : m_hash m = h;
  md_ancestor : m_ancestor m = m_parent m \/ ancestor c (m_ancestor m) (m_parent m)
}.

(** A backend shows a tree of blocks.  It serves the metadata of each of them,
    and an error for every other hash; it takes metadata back whose link leads to
    any ancestor.  Nothing of this changes the tree that it shows. *)
Class HeaderServer {S E : Type} `{!HeaderMetadata S E} (shows : Links -> S -> Prop) : Prop := {
  serve_known c s h l : shows c s -> c !! h = Some l ->
    wp (header_metadata h) (fun m s' => metadata_ok c h m /\ shows c s') (fun _ _ => False) s;
  serve_unknown c s h : shows c s -> c !! h = None ->
    wp (header_metadata h) (fun _ _ => False) (fun _ => shows c) s;
  serve_insert c s h m : shows c s -> metadata_ok c h m ->
    wp (insert_header_metadata h m) (fun _ => shows c) (fun _ _ => False) s;
  serve_remove c s h : shows c s ->
    wp (remove_header_metadata h) (fun _ => shows c) (fun _ _ => False) s
}.
