(* ===== verification/HeaderRoutes.v ===== *)
(** * Common ancestors, routes and descent are exact

    Over any backend that serves a tree of blocks: the lowest common ancestor,
    the tree-route and the test of descent end, with the answer of the tree,
    whatever links the backend has cached. *)

From S2P Require Import Prelude HeaderMetadata HeaderChain.

Section Routes.
Context {S E : Type} `{!HeaderMetadata S E} {shows : Links -> S -> Prop} `{HS : !HeaderServer (E := E) shows}.
Context (c : Links) (Hc : chain_ok c).
Implicit Types (s : S) (m : CachedHeaderMetadata).

Abbreviation never := (fun (_ : E) (_ : S) => False).

Lemma wp_known h l (Q : CachedHeaderMetadata -> S -> Prop) R s :
  shows c s -> c !! h = Some l -> (forall m s', metadata_ok c h m -> shows c s' -> Q m s') ->
  wp (header_metadata h) Q R s.
Proof using HS.
  intros Hs Hl HQ. eapply wp_mono; [by apply (serve_known c s h l)| |done]. intros m s' [? ?]. by apply HQ.
Qed.

(** The parent of a block that is not the genesis. *)
Lemma wp_parent h m (Q : CachedHeaderMetadata -> S -> Prop) R s :
  shows c s -> metadata_ok c h m -> 0 < m_number m ->
  (forall p s', metadata_ok c (m_parent m) p -> m_number p = m_number m - 1 -> ancestor c (m_parent m) h -> shows c s' -> Q p s') ->
  wp (header_metadata (m_parent m)) Q R s.
Proof using HS Hc.
  intros Hs [Hl Hh _] Hn HQ. destruct (ok_parent c Hc h _ Hl Hn) as (p & Hp & Hpn). simpl in *.
  eapply wp_known; [done|exact Hp|]. intros m' s' Hm' Hs'. apply HQ; [done| | |done].
  - pose proof (md_link _ _ _ Hm') as He. rewrite Hp in He. injection He as ->. done.
  - exact (ancestor_parent c h _ p Hl Hp).
Qed.

(** The ancestor that is linked, likewise. *)
Lemma wp_ancestor h m (Q : CachedHeaderMetadata -> S -> Prop) R s :
  shows c s -> metadata_ok c h m -> 0 < m_number m ->
  (forall a s', metadata_ok c (m_ancestor m) a -> m_number a < m_number m -> ancestor c (m_ancestor m) h -> shows c s' -> Q a s') ->
  wp (header_metadata (m_ancestor m)) Q R s.
Proof using HS Hc.
  intros Hs [Hl Hh Ha] Hn HQ. destruct (ok_parent c Hc h _ Hl Hn) as (p & Hp & Hpn). simpl in *.
  assert (ancestor c (m_ancestor m) (m_parent m)) as Hap.
  { destruct Ha as [->|?]; [by eapply ancestor_refl|done]. }
  destruct (ancestor_known _ _ _ Hap) as [[la Hla] _].
  eapply wp_known; [done|exact Hla|]. intros m' s' Hm' Hs'. apply HQ; [done| | |done].
  - pose proof (ancestor_number c Hc _ _ _ _ Hap (md_link _ _ _ Hm') Hp). simpl in *. lia.
  - eapply ancestor_trans; [exact Hap|]. exact (ancestor_parent c h _ p Hl Hp).
Qed.

(* --------------------------------------------------------------------- *)
(** ** The lowest common ancestor *)

(** Two blocks on the way down from [h] and [h'], with all common ancestors
    still below both. *)
Record approach (h h' : Hash) (one two : CachedHeaderMetadata) : Prop := {
  ap_one : metadata_ok c (m_hash one) one;
  ap_two : metadata_ok c (m_hash two) two;
  ap_below_one : ancestor c (m_hash one) h;
  ap_below_two : ancestor c (m_hash two) h';
  ap_common y : ancestor c y h -> ancestor c y h' -> ancestor c y (m_hash one) /\ ancestor c y (m_hash two)
}.

Lemma approach_sym h h' one two : approach h h' one two -> approach h' h two one.
Proof. intros [H1 H2 H3 H4 H5]. split; try done. intros y Hy Hy'. split; by apply H5. Qed.

Lemma metadata_number h m l : metadata_ok c h m -> c !! h = Some l -> l_number l = m_number m.
Proof. intros [Hl _ _] Hl'. rewrite Hl' in Hl. by simplify_eq. Qed.

(** A step to an ancestor that keeps the common ones below it. *)
Lemma approach_to h h' one two m :
  approach h h' one two -> metadata_ok c (m_hash m) m -> ancestor c (m_hash m) (m_hash one) ->
  (forall y, ancestor c y (m_hash one) -> ancestor c y (m_hash two) -> ancestor c y (m_hash m)) ->
  approach h h' m two.
Proof.
  intros [H1 H2 H3 H4 H5] Hm Ha Hy. split; try done; [by eapply ancestor_trans|].
  intros y Hy1 Hy2. destruct (H5 y Hy1 Hy2). auto.
Qed.

(** A step to an ancestor that is not below the other block. *)
Lemma approach_step h h' one two m :
  approach h h' one two -> metadata_ok c (m_hash m) m -> ancestor c (m_hash m) (m_hash one) ->
  m_number two <= m_number m -> approach h h' m two.
Proof using Hc.
  intros Hap Hm Ha Hle. eapply approach_to; [done..|]. intros y Hy1 Hy2.
  destruct (ancestor_known _ _ _ Hy1) as [[ly Hly] _].
  pose proof (ancestor_number c Hc _ _ _ _ Hy2 Hly (md_link _ _ _ (ap_two _ _ _ _ Hap))).
  eapply (ancestor_linear c Hc); [exact Hy1|exact Ha|exact Hly|apply (md_link _ _ _ Hm)|]. simpl in *. lia.
Qed.

(** A step of the higher block to its parent, while the two differ. *)
Lemma approach_parent h h' one two p :
  approach h h' one two -> m_hash one <> m_hash two -> m_number two <= m_number one ->
  metadata_ok c (m_parent one) p -> approach h h' p two.
Proof using Hc.
  intros Hap Hne Hle Hp. pose proof (ap_one _ _ _ _ Hap) as H1. pose proof (ap_two _ _ _ _ Hap) as H2.
  pose proof (md_hash _ _ _ Hp) as Hh. rewrite <- Hh in Hp. eapply approach_to; [done|done|..].
  - rewrite Hh. exact (ancestor_parent c _ _ _ (md_link _ _ _ H1) ltac:(rewrite Hh in Hp; apply (md_link _ _ _ Hp))).
  - intros y Hy1 Hy2. destruct (ancestor_step c Hc _ _ _ (md_link _ _ _ H1) Hy1) as [->|]; [|by rewrite Hh].
    destruct Hne. eapply (ancestor_same c Hc _ _ (m_hash two)); [exact Hy2|by eapply ancestor_refl, (md_link _ _ _ H2)|apply (md_link _ _ _ H1)|].
    pose proof (ancestor_number c Hc _ _ _ _ Hy2 (md_link _ _ _ H1) (md_link _ _ _ H2)).
    rewrite (md_link _ _ _ H2). simpl in *. f_equal. lia.
Qed.

Lemma metadata_nonneg h m : metadata_ok c h m -> 0 <= m_number m.
Proof using Hc. intros [Hl _ _]. exact (ok_number c Hc _ _ Hl). Qed.

Lemma metadata_self h m : metadata_ok c h m -> metadata_ok c (m_hash m) m.
Proof. intros Hm. by rewrite (md_hash _ _ _ Hm). Qed.

Lemma climb_ok h h' fuel one two s :
  shows c s -> approach h h' one two -> (blocks_to one <= fuel)%nat ->
  wp (climb fuel one two) (fun one' s' => shows c s' /\ approach h h' one' two) never s.
Proof using HS Hc.
  revert one s. induction fuel as [|fuel IH]; intros one s Hs Hap Hf; [unfold blocks_to in Hf; lia|].
  cbn [climb]. pose proof (metadata_nonneg _ _ (ap_two _ _ _ _ Hap)).
  destruct (Z.ltb_spec (m_number two) (m_number one)) as [Hlt|]; [|by apply wp_ret].
  apply wp_bind. eapply wp_ancestor; [done|apply (ap_one _ _ _ _ Hap)|lia|].
  intros a s' Hm Ha Hanc Hs'. destruct (Z.leb_spec (m_number two) (m_number a)); [|by apply wp_ret].
  apply IH; [done| |unfold blocks_to in *; lia].
  rewrite <- (md_hash _ _ _ Hm) in Hanc. by eapply approach_step; [|eapply metadata_self| |].
Qed.

Lemma meet_ok h h' fuel one two s :
  shows c s -> approach h h' one two -> (blocks_to one + blocks_to two <= fuel)%nat ->
  wp (meet fuel one two) (fun m s' => shows c s' /\ metadata_ok c (m_hash m) m /\ is_lca c h h' (m_hash m)) never s.
Proof using HS Hc.
  revert one two s. induction fuel as [|fuel IH]; intros one two s Hs Hap Hf; [unfold blocks_to in Hf; lia|].
  cbn [meet]. pose proof Hap as [H1 H2 H3 H4 H5].
  pose proof (metadata_nonneg _ _ H1). pose proof (metadata_nonneg _ _ H2).
  case_decide as He.
  { apply wp_ret. split_and!; [done..|]. split_and!; [done|by rewrite He|]. intros y Hy Hy'. by apply H5. }
  assert (m_number one <> 0 \/ m_number two <> 0) as Hne.
  { destruct (decide (m_number one = 0)); [|by left]. right. intros ?.
    apply He. by eapply (ok_genesis c Hc); [apply (md_link _ _ _ H1)|apply (md_link _ _ _ H2)|..]. }
  destruct (Z.ltb_spec (m_number two) (m_number one)) as [Hlt|Hge]; apply wp_bind.
  - eapply wp_parent; [done|exact H1|lia|]. intros p s' Hp Hn _ Hs'.
    apply IH; [done| |unfold blocks_to in *; lia]. eapply approach_parent; [done..|lia|done].
  - eapply wp_parent; [done|exact H2|lia|]. intros p s' Hp Hn _ Hs'.
    apply IH; [done| |unfold blocks_to in *; lia].
    apply approach_sym. eapply approach_parent; [by apply approach_sym|congruence|lia|done].
Qed.
(** The links that are cached lead to ancestors. *)
Lemma relink_ok h orig m s :
  shows c s -> metadata_ok c h orig -> metadata_ok c (m_hash m) m -> ancestor c (m_hash m) h ->
  wp (relink orig m) (fun _ s' => shows c s') never s.
Proof using HS Hc.
  intros Hs Ho Hm Ha. unfold relink. destruct (Z.ltb_spec (m_number m) (m_number orig)) as [Hlt|]; [|by apply wp_ret].
  pose proof (md_hash _ _ _ Ho) as Hh. apply (serve_insert c); [done|].
  rewrite Hh. split; simpl; [apply (md_link _ _ _ Ho)|done|]. right.
  destruct (ancestor_step c Hc _ _ _ (md_link _ _ _ Ho) Ha) as [He|]; [|done].
  pose proof (md_link _ _ _ Hm) as Hl. rewrite He, (md_link _ _ _ Ho) in Hl. simplify_eq. lia.
Qed.

Lemma approach_start h h' m m' : metadata_ok c h m -> metadata_ok c h' m' -> approach h h' m m'.
Proof.
  intros Hm Hm'. pose proof (md_hash _ _ _ Hm). pose proof (md_hash _ _ _ Hm'). simplify_eq.
  split; try done; by eapply ancestor_refl, md_link.
Qed.

Lemma lowest_common_ancestor_ok h h' l l' s :
  shows c s -> c !! h = Some l -> c !! h' = Some l' ->
  wp (lowest_common_ancestor h h')
    (fun r s' => shows c s' /\ is_lca c h h' (hn_hash r) /\ l_number <$> c !! hn_hash r = Some (hn_number r)) never s.
Proof using HS Hc.
  intros Hs Hl Hl'. unfold lowest_common_ancestor.
  apply wp_bind. eapply wp_known; [done|exact Hl|]. intros m1 s1 Hm1 Hs1.
  apply wp_bind. eapply wp_known; [done|exact Hl'|]. intros m2 s2 Hm2 Hs2.
  pose proof (approach_start _ _ _ _ Hm1 Hm2) as Hap. apply wp_bind.
  eapply wp_mono; [by apply (climb_ok h h')| |done]. intros one s3 [Hs3 Hap1]. apply wp_bind.
  eapply wp_mono; [apply (climb_ok h' h); [done|by apply approach_sym|done]| |done].
  intros two s4 [Hs4 Hap2%approach_sym]. apply wp_bind.
  eapply wp_mono; [by apply (meet_ok h h')| |done]. intros m s5 (Hs5 & Hm & Hlca).
  apply wp_bind. eapply wp_mono; [apply (relink_ok h); [done..|apply Hlca]| |done]. intros u6 s6 Hs6.
  apply wp_bind. eapply wp_mono; [apply (relink_ok h'); [done..|apply Hlca]| |done]. intros u7 s7 Hs7.
  apply wp_ret. split_and!; [done..|]. simpl. by rewrite (md_link _ _ _ Hm).
Qed.

Lemma wp_unknown h (Q : CachedHeaderMetadata -> S -> Prop) (R : E -> S -> Prop) s :
  shows c s -> c !! h = None -> (forall e s', shows c s' -> R e s') -> wp (header_metadata h) Q R s.
Proof using HS.
  intros Hs Hl HR. by eapply wp_mono; [apply (serve_unknown c s h)|done|].
Qed.

(** A block that the backend does not know is an error. *)
Lemma lowest_common_ancestor_unknown h h' s :
  shows c s -> c !! h = None \/ c !! h' = None ->
  wp (lowest_common_ancestor h h') (fun _ _ => False) (fun _ => shows c) s.
Proof using HS.
  intros Hs Hn. unfold lowest_common_ancestor. apply wp_bind. destruct (c !! h) as [l|] eqn:Hl.
  - eapply wp_known; [done..|]. intros m s' _ Hs'. destruct Hn as [|Hn]; [done|].
    apply wp_bind. by eapply wp_unknown; [done..|].
  - by eapply wp_unknown; [done..|].
Qed.

(* --------------------------------------------------------------------- *)
(** ** Routes *)

(** The [k] blocks from [h] down. *)
Fixpoint path (k : nat) (h : Hash) : list HashAndNumber :=
  match k with
  | O => []
  | Datatypes.S k => match c !! h with Some l => mkHN (l_number l) h :: path k (l_parent l) | None => [] end
  end.

Lemma path_S h m k : metadata_ok c h m -> path (Datatypes.S k) h = hash_and_number m :: path k (m_parent m).
Proof. intros Hm. simpl. rewrite (md_link _ _ _ Hm). unfold hash_and_number. by rewrite (md_hash _ _ _ Hm). Qed.

Lemma up_metadata h m k : metadata_ok c h m -> up c (Datatypes.S k) h = up c k (m_parent m).
Proof. intros Hm. exact (up_S c k h _ (md_link _ _ _ Hm)). Qed.

Lemma path_add j k h a : up c j h = Some a -> path (j + k) h = path j h ++ path k a.
Proof.
  revert h. induction j as [|j IH]; intros h; simpl; destruct (c !! h) as [l|]; simpl; try done.
  - by intros [= ->].
  - intros Ha. by rewrite IH.
Qed.

Lemma path_length k h a : up c k h = Some a -> length (path k h) = k.
Proof.
  revert h. induction k as [|k IH]; intros h; simpl; destruct (c !! h) as [l|]; simpl; try done.
  intros Ha. by rewrite IH.
Qed.

(** Down to the height of another block. *)
Lemma walk_down_ok h h' fuel to from branch s :
  shows c s -> approach h h' to from -> (blocks_to to <= fuel)%nat ->
  wp (walk_down fuel to (m_number from) branch)
    (fun r s' => shows c s' /\ approach h h' r.1 from /\ (m_number r.1 = m_number from \/ m_number r.1 < m_number from /\ r.1 = to) /\
       exists k, up c k (m_hash to) = Some (m_hash r.1) /\ r.2 = branch ++ path k (m_hash to)) never s.
Proof using HS Hc.
  revert to branch s. induction fuel as [|fuel IH]; intros to branch s Hs Hap Hf; [unfold blocks_to in Hf; lia|].
  cbn [walk_down]. pose proof (ap_one _ _ _ _ Hap) as Ht. pose proof (metadata_nonneg _ _ (ap_two _ _ _ _ Hap)).
  destruct (Z.ltb_spec (m_number from) (m_number to)) as [Hlt|Hge]; [|apply wp_ret; simpl].
  - apply wp_bind. eapply wp_parent; [done|exact Ht|lia|]. intros p s' Hp Hn Ha Hs'.
    pose proof (md_hash _ _ _ Hp) as Hh. rewrite <- Hh in Hp, Ha. assert (approach h h' p from) as Hap'.
    { by eapply approach_step; [|done|done|lia]. }
    eapply wp_mono; [apply IH; [done..|unfold blocks_to in *; lia]| |done].
    intros [r br] s'' (Hs'' & Hr & Hrn & k & Hk & ->). simpl in *. split_and!; [done|done| |].
    + destruct Hrn as [|[? ->]]; [by left|lia].
    + exists (Datatypes.S k). rewrite (up_metadata _ to) by done. rewrite <- Hh, (path_S _ to) by done.
      rewrite <- Hh, <- (assoc_L (++)). done.
  - split_and!; [done|done|lia || (destruct (decide (m_number to = m_number from)); [by left|right; split; [lia|done]])|].
    exists 0%nat. rewrite app_nil_r. split; [|done]. exact (up_0 c _ _ (md_link _ _ _ Ht)).
Qed.

(** Both down to the first block that they share. *)
Lemma walk_both_ok h h' fuel from to fb tb s :
  shows c s -> approach h h' from to -> m_number from = m_number to -> (blocks_to from <= fuel)%nat ->
  wp (walk_both fuel from to fb tb)
    (fun r s' => shows c s' /\ metadata_ok c (m_hash r.1.1) r.1.1 /\ is_lca c h h' (m_hash r.1.1) /\
       exists k, up c k (m_hash from) = Some (m_hash r.1.1) /\ up c k (m_hash to) = Some (m_hash r.1.1) /\
         r.1.2 = fb ++ path k (m_hash from) /\ r.2 = tb ++ path k (m_hash to)) never s.
Proof using HS Hc.
  revert from to fb tb s. induction fuel as [|fuel IH]; intros from to fb tb s Hs Hap Hn Hf; [unfold blocks_to in Hf; lia|].
  cbn [walk_both]. pose proof Hap as [H1 H2 H3 H4 H5]. pose proof (metadata_nonneg _ _ H1).
  case_decide as He; [apply wp_ret; simpl|].
  { split_and!; [done|done| |].
    - split_and!; [by rewrite He|done|]. intros y Hy Hy'. by apply H5.
    - exists 0%nat. rewrite !app_nil_r, He.
      split_and!; [exact (up_0 c _ _ (md_link _ _ _ H1))..|done|done]. }
  assert (m_number from <> 0) as H0.
  { intros H0. apply He. eapply (ok_genesis c Hc); [apply (md_link _ _ _ H2)|apply (md_link _ _ _ H1)|..]; simpl; lia. }
  apply wp_bind. eapply wp_parent; [done|exact H2|lia|]. intros p s' Hp Hpn _ Hs'.
  apply wp_bind. eapply wp_parent; [done|exact H1|lia|]. intros q s'' Hq Hqn _ Hs''.
  assert (approach h h' q p) as Hap'.
  { eapply approach_parent; [|..|exact Hq].
    - apply approach_sym. eapply approach_parent; [by apply approach_sym|done|lia|exact Hp].
    - intros Heq. pose proof (md_link _ _ _ H1) as L1. rewrite Heq, (md_hash _ _ _ Hp), (md_link _ _ _ Hp) in L1.
      simplify_eq. lia.
    - lia. }
  eapply wp_mono; [apply IH; [done..|lia|unfold blocks_to in *; lia]| |done].
  intros [[m fb'] tb'] t (Ht & Hm & Hl & k & Hk1 & Hk2 & E1 & E2). simpl in *. subst fb' tb'. split_and!; [done..|].
  exists (Datatypes.S k). rewrite (md_hash _ _ _ Hp) in *. rewrite (md_hash _ _ _ Hq) in *.
  rewrite (up_metadata _ from), (up_metadata _ to), (path_S _ from), (path_S _ to), <- !(assoc_L (++)) by done. done.
Qed.

(** The route that leads from one block to another. *)
Definition route_ok (from to : Hash) (r : TreeRoute) : Prop :=
  exists x lx j k, is_lca c from to x /\ c !! x = Some lx /\ up c j from = Some x /\ up c k to = Some x /\
    route r = path j from ++ mkHN (l_number lx) x :: rev (path k to) /\ pivot r = j.

Lemma tree_route_ok from to lf lt s :
  shows c s -> c !! from = Some lf -> c !! to = Some lt ->
  wp (tree_route from to) (fun r s' => shows c s' /\ route_ok from to r) never s.
Proof using HS Hc.
  intros Hs Hf Ht. unfold tree_route.
  apply wp_bind. eapply wp_known; [done|exact Hf|]. intros mf s1 Hmf Hs1.
  apply wp_bind. eapply wp_known; [done|exact Ht|]. intros mt s2 Hmt Hs2.
  pose proof (md_hash _ _ _ Hmf) as Hhf. pose proof (md_hash _ _ _ Hmt) as Hht.
  pose proof (approach_start _ _ _ _ Hmt Hmf) as Hap. apply wp_bind.
  eapply wp_mono; [by apply (walk_down_ok to from)| |done].
  intros [mt' tb] s3 (Hs3 & Hap1 & Hn1 & k & Hk & Etb). cbn [fst snd app] in *. subst tb. apply wp_bind.
  eapply wp_mono; [apply (walk_down_ok from to); [done|by apply approach_sym|done]| |done].
  intros [mf' fb] s4 (Hs4 & Hap2 & Hn2 & j & Hj & Efb). cbn [fst snd app] in *. subst fb. apply wp_bind.
  assert (m_number mf' = m_number mt') as Hn.
  { destruct Hn2 as [|[? ->]]; [done|]. destruct Hn1 as [|[? ->]]; lia. }
  eapply wp_mono; [by apply (walk_both_ok from to)| |done].
  intros [[m fb'] tb'] s5 (Hs5 & Hm & Hl & i & Hi1 & Hi2 & E1 & E2). cbn [fst snd app] in *. subst fb' tb'. apply wp_ret. split; [done|].
  rewrite Hhf, Hht in *. exists (m_hash m), (mkLink (m_number m) (m_parent m) (m_state_root m)), (j + i)%nat, (k + i)%nat.
  rewrite (up_add c j i _ _ Hj), (up_add c k i _ _ Hk), (path_add j i _ _ Hj), (path_add k i _ _ Hk).
  split_and!; [done|apply (md_link _ _ _ Hm)|done|done|done|]. simpl.
  by rewrite length_app, (path_length _ _ _ Hj), (path_length _ _ _ Hi1).
Qed.

Lemma tree_route_unknown from to s :
  shows c s -> c !! from = None \/ c !! to = None ->
  wp (tree_route from to) (fun _ _ => False) (fun _ => shows c) s.
Proof using HS.
  intros Hs Hn. unfold tree_route. apply wp_bind. destruct (c !! from) as [l|] eqn:Hl.
  - eapply wp_known; [done..|]. intros m s' _ Hs'. destruct Hn as [|Hn]; [done|].
    apply wp_bind. by eapply wp_unknown; [done..|].
  - by eapply wp_unknown; [done..|].
Qed.

(** The parts of a route, without a panic. *)
Lemma route_parts from to r :
  route_ok from to r ->
  exists x lx j k, is_lca c from to x /\ c !! x = Some lx /\ up c j from = Some x /\ up c k to = Some x /\
    retracted (S := S) (E := E) r = ret (path j from) /\ into_retracted r = path j from /\
    common_block (S := S) (E := E) r = ret (mkHN (l_number lx) x) /\
    enacted (S := S) (E := E) r = ret (rev (path k to)).
Proof.
  intros (x & lx & j & k & Hl & Hx & Hj & Hk & Hr & Hp). exists x, lx, j, k. split_and!; [done..| | | |];
    pose proof (path_length _ _ _ Hj) as Hlen; unfold retracted, into_retracted, common_block, enacted; rewrite Hr, Hp.
  - rewrite length_app, Hlen, (proj2 (Nat.leb_le _ _)) by lia. unfold bind. simpl. by rewrite take_app_length'.
  - by rewrite take_app_length'.
  - rewrite lookup_app_r, Hlen, Nat.sub_diag by lia. done.
  - rewrite length_app, Hlen. simpl. rewrite (proj2 (Nat.leb_le _ _)) by lia. unfold bind. simpl.
    by rewrite <- drop_drop, drop_app_length'.
Qed.
End Routes.
