(* ===== verification/HeaderDescent.v ===== *)
(** * Descent from a block

    The test of descent that consensus asks of the client answers with the
    ancestry of the tree, also for a block that is not in it yet; so it keeps
    what the fork tree and the authority sets rely on. *)

From S2P Require Import Prelude HeaderMetadata HeaderChain HeaderRoutes.

(* ===================================================================== *)
(** ** A block on top of the tree *)
Section Current.
Implicit Types (c : Links) (h p a : Hash).

(** The tree with the block that is being imported. *)
Definition with_current (current : option (Hash * Hash)) c : Links :=
  match current with
  | Some (h, p) => match c !! p with Some l => <[h := mkLink (l_number l + 1) p 0%N]> c | None => c end
  | None => c
  end.

(** It is new, sits on a block of the tree, and nothing sits on it. *)
Definition current_ok (current : option (Hash * Hash)) c : Prop :=
  match current with
  | Some (h, p) => c !! h = None /\ is_Some (c !! p) /\ map_Forall (fun _ l => l_parent l <> h) c
  | None => True
  end.

Section Extend.
Context c h p lp (root : Hash) (Hc : chain_ok c) (Hh : c !! h = None) (Hp : c !! p = Some lp).
Context (Hch : map_Forall (fun _ l => l_parent l <> h) c).
Local Abbreviation c' := (<[h := mkLink (l_number lp + 1) p root]> c).

Lemma extend_old a l : c !! a = Some l -> c' !! a = Some l.
Proof using Hh. intros Ha. rewrite lookup_insert_ne; [done|]. congruence. Qed.

Lemma up_extend k a l : c !! a = Some l -> up c' k a = up c k a.
Proof using Hh Hch.
  revert a l. induction k as [|k IH]; intros a l Ha.
  - by rewrite (up_0 c a l), (up_0 c' a l) by eauto using extend_old.
  - rewrite (up_S c k a l), (up_S c' k a l) by eauto using extend_old.
    destruct (c !! l_parent l) as [l'|] eqn:Hl'; [by eapply IH|].
    pose proof (Hch a l Ha) as Hne. simpl in Hne.
    destruct k; simpl; rewrite lookup_insert_ne by done; by rewrite Hl'.
Qed.

Lemma ancestor_extend a b l : c !! b = Some l -> ancestor c' a b <-> ancestor c a b.
Proof using Hh Hch. intros Hb. unfold ancestor. by setoid_rewrite (up_extend _ b l Hb). Qed.

Lemma ancestor_extend_new a : ancestor c' a h <-> a = h \/ ancestor c a p.
Proof using Hh Hch Hp.
  split.
  - intros [[|k] Hk].
    + rewrite (up_0 c' h _ (lookup_insert_eq _ _ _)) in Hk. left. congruence.
    + rewrite (up_S c' k h _ (lookup_insert_eq _ _ _)) in Hk. simpl in Hk. right. exists k. by rewrite <- (up_extend k p lp).
  - intros [->|[k Hk]]; [exists 0%nat; by rewrite (up_0 c' h _ (lookup_insert_eq _ _ _))|].
    exists (S k). rewrite (up_S c' k h _ (lookup_insert_eq _ _ _)). simpl. by rewrite (up_extend k p lp).
Qed.

Lemma extend_chain_ok : chain_ok c'.
Proof using Hc Hh Hch Hp.
  pose proof (ok_number c Hc p lp Hp). split.
  - intros a l [[<- <-]|[Hne Ha]]%lookup_insert_Some; simpl; [lia|]. by eapply (ok_number c Hc).
  - intros a l [[<- <-]|[Hne Ha]]%lookup_insert_Some Hl; simpl in *.
    + exists lp. split; [by apply extend_old|lia].
    + destruct (ok_parent c Hc a l Ha Hl) as (q & Hq & Hn). exists q. split; [by apply extend_old|done].
  - intros a l b l' [[<- <-]|[Hne Ha]]%lookup_insert_Some [[<- <-]|[Hne' Hb]]%lookup_insert_Some H0 H0'; simpl in *; try lia.
    by eapply (ok_genesis c Hc).
  - intros a l [[<- <-]|[Hne Ha]]%lookup_insert_Some Hl; simpl in *; [lia|].
    rewrite lookup_insert_ne; [by eapply (ok_root c Hc)|]. intros Heq. by apply (Hch a l Ha).
Qed.
End Extend.

Lemma with_current_ok current c : chain_ok c -> current_ok current c -> chain_ok (with_current current c).
Proof.
  intros Hc. destruct current as [[h p]|]; simpl; [|done]. intros (Hh & [lp Hp] & Hch). rewrite Hp.
  by apply extend_chain_ok.
Qed.
End Current.

(* ===================================================================== *)
(** ** The answers *)

(** [a] is below [h]. *)
Definition descends (c : Links) (a h : Hash) : bool := bool_decide (a <> h) && ancestorb c a h.

Lemma descends_spec c a h : chain_ok c -> descends c a h <-> a <> h /\ ancestor c a h.
Proof. intros Hc. unfold descends. rewrite andb_True, bool_decide_spec, ancestorb_spec by done. done. Qed.

Lemma and_is_right (P Q : Prop) : P -> (P /\ Q <-> Q).
Proof. tauto. Qed.

Section Descent.
Context {S E : Type} `{!HeaderMetadata S E} {shows : Links -> S -> Prop} `{HS : !HeaderServer (E := E) shows}.
Context (c : Links) (Hc : chain_ok c).
Implicit Types (s : S) (base hash : Hash).
Local Abbreviation never := (fun (_ : E) (_ : S) => False).

(** The common ancestor is the base exactly if the block stands on it. *)
Lemma lca_is_base base hash x l :
  c !! base = Some l -> is_lca c hash base x -> x = base <-> ancestor c base hash.
Proof using Hc.
  intros Hb (H1 & H2 & H3). split; [by intros ->|]. intros Ha. apply (ancestor_antisym c Hc); [done|].
  apply H3; [done|]. by eapply ancestor_refl.
Qed.

(** The answer to [P], and nothing else changes. *)
Definition answers (P : Prop) (m : M S E bool) : Prop :=
  forall s, shows c s -> wp m (fun b s' => shows c s' /\ (b <-> P)) never s.

#[local] Instance answers_proper : Proper (iff ==> (=) ==> iff) answers.
Proof.
  intros P P' HP m _ <-. split; intros Hm s Hs; (eapply wp_mono; [by apply Hm| |done]); intros b s' [? ?]; split; tauto.
Qed.

Lemma answers_ret (P : Prop) (b : bool) : (b <-> P) -> answers P (ret b).
Proof. intros Hb s Hs. by apply wp_ret. Qed.

Lemma answers_search base hash l l' :
  c !! hash = Some l -> c !! base = Some l' ->
  answers (ancestor c base hash)
    (let! ancestor := lowest_common_ancestor hash base in ret (bool_decide (hn_hash ancestor = base))).
Proof using HS Hc.
  intros Hl Hl' s Hs. apply wp_bind. eapply wp_mono; [by eapply (lowest_common_ancestor_ok c Hc)| |done].
  intros r s' (Hs' & Hr & _). apply wp_ret. split; [done|]. rewrite bool_decide_spec. by eapply lca_is_base.
Qed.

Lemma is_descendent_of_answers current base hash :
  current_ok current c -> is_Some (with_current current c !! base) -> is_Some (with_current current c !! hash) ->
  answers (base <> hash /\ ancestor (with_current current c) base hash) (is_descendent_of current base hash).
Proof using HS Hc.
  intros Hok Hb Hh. unfold is_descendent_of. case_decide as Hne; [apply answers_ret; naive_solver|].
  destruct current as [[h p]|]; simpl in *.
  2:{ destruct Hb as [lb Hb], Hh as [lh Hh]. rewrite and_is_right by done. by eapply answers_search. }
  destruct Hok as (Hnew & [lp Hp] & Hch). rewrite Hp in *.
  case_decide as Hbase; [subst base; apply answers_ret; split; [done|]|].
  { intros [_ Ha]. destruct Hh as [lh [[? _]|[? Hlh]]%lookup_insert_Some]; [congruence|].
    apply (ancestor_extend c h p lp 0%N Hnew Hch _ _ lh Hlh) in Ha.
    apply ancestor_known in Ha as [[? ?] _]. congruence. }
  rewrite lookup_insert_ne in Hb by done. destruct Hb as [lb Hb]. case_decide as Hcur; [subst hash|].
  - rewrite (ancestor_extend_new c h p lp 0%N Hnew Hp Hch). case_decide as Hpar.
    + apply answers_ret. split; [|done]. intros _. split; [done|]. right. subst. by eapply ancestor_refl.
    + assert (base <> h /\ (base = h \/ ancestor c base p) <-> ancestor c base p) as -> by naive_solver.
      by eapply answers_search.
  - rewrite lookup_insert_ne in Hh by done. destruct Hh as [lh Hh].
    rewrite (ancestor_extend c h p lp 0%N Hnew Hch _ _ lh Hh).
    rewrite and_is_right by done. by eapply answers_search.
Qed.

Lemma is_descendent_of_ok current base hash s :
  shows c s -> current_ok current c ->
  is_Some (with_current current c !! base) -> is_Some (with_current current c !! hash) ->
  wp (is_descendent_of current base hash)
    (fun b s' => shows c s' /\ b = descends (with_current current c) base hash) never s.
Proof using HS Hc.
  intros Hs Hok Hb Hh. pose proof (with_current_ok _ _ Hc Hok) as Hc'.
  eapply wp_mono; [by apply is_descendent_of_answers| |done]. intros b s' [Hs' Hiff]. split; [done|].
  pose proof (descends_spec _ base hash Hc'). destruct b, (descends _ base hash); simpl in *; tauto.
Qed.

(** The synchronization asks the same question. *)
Lemma sync_is_descendent_of_eq base block : sync_is_descendent_of (S := S) (E := E) base block = is_descendent_of None base block.
Proof. done. Qed.
End Descent.
