(* ===== verification/ChainBackend.v ===== *)
(** * What a blockchain backend offers

    [primitives/blockchain/src/backend.rs]: the traits [HeaderBackend] and
    [Backend] as a class, with their default methods; among them the search for
    the best chain that contains a block.  A message of an error is left out, and
    so is the warning in the log. *)

From S2P Require Import Prelude HeaderMetadata.

(** [sp_blockchain::Error], as far as these components return it *)
Inductive ChainError :=
| UnknownBlock | BadJustification | MissingHeader | BackendError | InvalidState
| SetHeadTooOld | NotInFinalizedChain | NonSequentialFinalization.

Inductive BlockId := IdHash (h : Hash) | IdNumber (n : Z).

Inductive BlockStatus := InChain | Unknown.

(** [blockchain::Info] *)
Record ChainInfo := mkInfo {
  info_best_hash : Hash;
  info_best_number : Z;
  info_genesis_hash : Hash;
  info_finalized_hash : Hash;
  info_finalized_number : Z;
  info_finalized_state : option (Hash * Z);
  info_number_leaves : nat
}.

(** The required methods. *)
Class ChainBackend (S Header : Type) := {
  get_header : BlockId -> M S ChainError (option Header);
  get_info : S -> ChainInfo;
  get_number : Hash -> M S ChainError (option Z);
  get_hash : Z -> M S ChainError (option Hash);
  get_leaves : M S ChainError (list Hash)
}.

Section Default.
Context {S Header : Type} `{!HeaderT Header, !ChainBackend S Header}.
Local Abbreviation M := (M S ChainError).

Definition block_hash_from_id (id : BlockId) : M (option Hash) :=
  match id with IdHash h => ret (Some h) | IdNumber n => get_hash n end.

Definition block_number_from_id (id : BlockId) : M (option Z) :=
  match id with IdHash h => get_number h | IdNumber n => ret (Some n) end.

Definition expect_header (id : BlockId) : M Header :=
  let! h := get_header id in ok_or h UnknownBlock.

Definition expect_block_number_from_id (id : BlockId) : M Z :=
  let! n := block_number_from_id id in ok_or n UnknownBlock.

Definition expect_block_hash_from_id (id : BlockId) : M Hash :=
  let! h := block_hash_from_id id in ok_or h UnknownBlock.

(* --------------------------------------------------------------------- *)
(** ** The best chain that contains a block *)

(** [self.header(hash)?.ok_or_else(MissingHeader)?] *)
Definition present (hash : Hash) : M Header :=
  let! h := get_header (IdHash hash) in ok_or h MissingHeader.

(** Backwards until the number is at most [max_number]: the hash of the block
    there, and the block at which the search goes on *)
Fixpoint enter_range (fuel : nat) (max_number : Z) (current_hash : Hash) : M (Hash * Hash) :=
  match fuel with
  | O => panic
  | Datatypes.S fuel =>
      let! current_header := present current_hash in
      if header_number current_header <=? max_number then ret (header_hash current_header, current_hash)
      else enter_range fuel max_number (header_parent_hash current_header)
  end.

(** Backwards until the target, or below its number *)
Fixpoint find_target (fuel : nat) (target_hash : Hash) (target_number : Z) (current_hash : Hash) : M bool :=
  match fuel with
  | O => panic
  | Datatypes.S fuel =>
      if decide (current_hash = target_hash) then ret true
      else
        let! current_header := present current_hash in
        if header_number current_header <? target_number then ret false
        else find_target fuel target_hash target_number (header_parent_hash current_header)
  end.

(** [for leaf_hash in leaves] *)
Fixpoint search_leaves (fuel : nat) (target_hash : Hash) (target_number : Z) (maybe_max_number : option Z)
    (leaves : list Hash) : M (option Hash) :=
  match leaves with
  | [] => ret None
  | leaf_hash :: leaves =>
      let! start :=
        match maybe_max_number with
        | Some max_number => enter_range fuel max_number leaf_hash
        | None => ret (leaf_hash, leaf_hash)
        end in
      let '(best_hash, current_hash) := start in
      let! found := find_target fuel target_hash target_number current_hash in
      if found : bool then ret (Some best_hash)
      else search_leaves fuel target_hash target_number maybe_max_number leaves
  end.

(** No chain is longer than the numbers of blocks, which are 32 bits wide;
    [fuel] is at least the highest number and two. *)
Definition best_containing (fuel : nat) (target_hash : Hash) (maybe_max_number : option Z) : M (option Hash) :=
  let! target_header := get_header (IdHash target_hash) in
  match target_header with
  | None => ret None
  | Some target_header =>
      let number := header_number target_header in
      if match maybe_max_number with Some max_number => max_number <? number | None => false end then ret None
      else
        let search :=
          let! leaves := get_leaves in search_leaves fuel target_hash number maybe_max_number leaves in
        let! info := gets get_info in
        let! maybe_canon_hash := get_hash number in
        if decide (maybe_canon_hash = Some target_hash) then
          match maybe_max_number with
          | Some max_number =>
              let! header := get_hash max_number in
              match header with Some header => ret (Some header) | None => search end
          | None => search
          end
        else if number <=? info_finalized_number info then ret None
        else search
  end.
End Default.
