(* ===== verification/ChainDemo.v ===== *)
(** * A small tree of headers

    The concrete headers on which the theorems about the chain are instantiated:
    a genesis, a chain on it and a shorter fork; and a codec for any countable type. *)

From S2P Require Import Prelude HeaderMetadata HeaderChain.

Record Head := mkHead { hd_hash : Hash; hd_number : Z; hd_parent : Hash }.
#[global] Instance head_eq_dec : EqDecision Head.
Proof. solve_decision. Defined.
#[global] Instance head_header : HeaderT Head := {|
  header_hash := hd_hash; header_number := hd_number; header_parent_hash := hd_parent; header_state_root _ := 0%N
|}.

(** Block 3 on 2 on the genesis 1, and the fork 4 on 1. *)
Definition heads : list Head := [mkHead 1 0 0; mkHead 2 1 1; mkHead 3 2 2; mkHead 4 1 1].
Definition tree : Links := list_to_map (map (fun x => (hd_hash x, header_link x)) heads).

Lemma tree_ok : chain_ok tree.
Proof. apply (bool_decide_unpack _). vm_compute. exact I. Qed.

(** *** A codec *)

Fixpoint pos_bytes (p : positive) : bytes :=
  match p with xH => [Byte.x02] | xO p => Byte.x00 :: pos_bytes p | xI p => Byte.x01 :: pos_bytes p end.

Fixpoint bytes_pos (b : bytes) : option positive :=
  match b with
  | [Byte.x02] => Some xH
  | Byte.x00 :: b => xO <$> bytes_pos b
  | Byte.x01 :: b => xI <$> bytes_pos b
  | _ => None
  end.

Lemma bytes_pos_bytes p : bytes_pos (pos_bytes p) = Some p.
Proof. induction p as [p IH|p IH|]; simpl; by rewrite ?IH. Qed.

#[global] Instance pos_bytes_inj : Inj (=) (=) pos_bytes.
Proof. intros p q Hpq. apply (f_equal bytes_pos) in Hpq. rewrite !bytes_pos_bytes in Hpq. congruence. Qed.

Definition to_bytes {A} `{Countable A} (x : A) : bytes := pos_bytes (encode x).
Definition of_bytes {A} `{Countable A} (b : bytes) : option A := p ← bytes_pos b; decode p.

Lemma of_to_bytes {A} `{Countable A} (x : A) : of_bytes (to_bytes x) = Some x.
Proof. unfold of_bytes, to_bytes. rewrite bytes_pos_bytes. simpl. apply decode_encode. Qed.
