(* ===== verification/Leaves.v ===== *)
(** * The leaves of the chain

    [client/api/src/leaves.rs]: the blocks without children, by number, the
    highest first.  Importing a block replaces its parent; finalizing a height
    displaces the leaves below it; both can be undone; the set is written to the
    database and read back. *)

From S2P Require Import Prelude Database.

(* ===================================================================== *)
(** ** Maps in the order of their numbers *)

(** The iterator of a [BTreeMap<Reverse<N>, V>]: the highest number first. *)
Definition higher {V} (a b : Z * V) : Prop := b.1 <= a.1.
#[global] Instance higher_dec {V} : RelDecision (@higher V).
Proof. unfold higher. intros a b. apply _. Defined.

Definition by_number {V} (m : gmap Z V) : list (Z * V) := merge_sort higher (map_to_list m).

(* ===================================================================== *)
(** ** Data *)

Record LeafSetItem := mkItem { item_hash : Hash; item_number : Z }.

Record ImportDisplaced := mkImportDisplaced { new_hash : Hash; displaced : LeafSetItem }.

(** [FinalizationDisplaced] *)
Abbreviation FinalizationDisplaced := (gmap Z (list Hash)).

Record LeafSet := mkLeaves {
  leaf_storage : gmap Z (list Hash);
  pending_added : list (Hash * Z);
  pending_removed : list Hash
}.

Definition set_storage (m : gmap Z (list Hash)) (s : LeafSet) : LeafSet := mkLeaves m (pending_added s) (pending_removed s).
Definition push_added (x : Hash * Z) (s : LeafSet) : LeafSet :=
  mkLeaves (leaf_storage s) (pending_added s ++ [x]) (pending_removed s).
Definition extend_removed (l : list Hash) (s : LeafSet) : LeafSet :=
  mkLeaves (leaf_storage s) (pending_added s) (pending_removed s ++ l).
Definition clear_pending (s : LeafSet) : LeafSet := mkLeaves (leaf_storage s) [] [].

(** [FinalizationDisplaced::merge]: [BTreeMap::append], where the other side wins *)
Definition displaced_merge (d other : FinalizationDisplaced) : FinalizationDisplaced := other ∪ d.

Definition displaced_leaves (d : FinalizationDisplaced) : list Hash := flat_map snd (by_number d).

(* ===================================================================== *)
(** ** Operations *)
Section Leaves.
Context {P : Profile} {E : Type}.
Local Abbreviation M := (M LeafSet E).

Definition leaves_new : LeafSet := mkLeaves ∅ [] [].

Definition insert_leaf (number : Z) (hash : Hash) : M unit :=
  modify (fun s => set_storage (<[number := default [] (leaf_storage s !! number) ++ [hash]]> (leaf_storage s)) s).

(** [true] if the leaf was contained *)
Definition remove_leaf (number : Z) (hash : Hash) : M bool :=
  let! entry := gets (fun s => leaf_storage s !! number) in
  match entry with
  | None => ret false
  | Some leaves =>
      let leaves' := retain (fun h => negb (bool_decide (h = hash))) leaves in
      let removed := contains hash leaves in
      modify (fun s => set_storage (<[number := leaves']> (leaf_storage s)) s) ;;
      (if removed && bool_decide (leaves' = []) then modify (fun s => set_storage (delete number (leaf_storage s)) s)
       else ret tt) ;;
      ret removed
  end.

Definition leaves_import (hash : Hash) (number : Z) (parent_hash : Hash) : M (option ImportDisplaced) :=
  let! displaced :=
    if negb (number =? 0) then
      let! new_number := sub U32 number 1 in
      let! was_displaced := remove_leaf new_number parent_hash in
      if was_displaced : bool then
        modify (extend_removed [parent_hash]) ;;
        ret (Some (mkImportDisplaced hash (mkItem parent_hash new_number)))
      else ret None
    else ret None in
  insert_leaf number hash ;;
  modify (push_added (hash, number)) ;;
  ret displaced.

Definition finalize_height (number : Z) : M FinalizationDisplaced :=
  if number =? 0 then ret ∅
  else
    let! boundary := sub U32 number 1 in
    let! below_boundary := gets (fun s => filter (fun e => e.1 <= boundary) (leaf_storage s)) in
    modify (fun s => set_storage (filter (fun e => ~ e.1 <= boundary) (leaf_storage s)) s) ;;
    modify (extend_removed (displaced_leaves below_boundary)) ;;
    ret below_boundary.

(** [Undo::undo_import], and the drop of the [Undo] *)
Definition undo_import (d : ImportDisplaced) : M unit :=
  let! new_number := add U32 (item_number (displaced d)) 1 in
  remove_leaf new_number (new_hash d) ;;
  insert_leaf new_number (item_hash (displaced d)) ;;
  modify clear_pending.

Definition undo_finalization (d : FinalizationDisplaced) : M unit :=
  modify (fun s => set_storage (d ∪ leaf_storage s) s) ;;
  modify clear_pending.

(** All leaves with their numbers, the highest first. *)
Definition leaf_items (m : gmap Z (list Hash)) : list (Hash * Z) :=
  flat_map (fun e : Z * list Hash => map (fun h => (h, e.1)) e.2) (by_number m).

Definition leaves_revert (best_hash : Hash) (best_number : Z) : M unit :=
  let! items := gets (fun s => leaf_items (leaf_storage s)) in
  for_each items (fun '(hash, number) =>
    if best_number <? number then
      let! removed := remove_leaf number hash in
      assert removed ;;
      modify (extend_removed [hash])
    else ret tt) ;;
  let! leaves_contains_best := gets (fun s =>
    match leaf_storage s !! best_number with Some hashes => contains best_hash hashes | None => false end) in
  if negb leaves_contains_best then
    insert_leaf best_number best_hash ;;
    modify (push_added (best_hash, best_number))
  else ret tt.

Definition leaf_hashes (s : LeafSet) : list Hash := flat_map snd (by_number (leaf_storage s)).

Definition leaf_count (s : LeafSet) : nat := base.size (leaf_storage s).

Definition leaves_contain (number : Z) (hash : Hash) (s : LeafSet) : bool :=
  match leaf_storage s !! number with Some hashes => contains hash hashes | None => false end.
End Leaves.

(* --------------------------------------------------------------------- *)
(** ** In the database

    The codec of the list of leaves is a parameter. *)
Section Stored.
Context {H D E : Type} `{!Database H D E}.
Context (encode : list (Z * list Hash) -> bytes) (decode : bytes -> option (list (Z * list Hash))).

(** The transaction with the write, and the set after it *)
Definition prepare_transaction (tx : Transaction H) (column : ColumnId) (prefix : bytes) (s : LeafSet) : Transaction H * LeafSet :=
  (tx_set column prefix (encode (by_number (leaf_storage s))) tx, clear_pending s).

(** [None] is the error of a value that does not decode *)
Definition read_from_db (db : D) (column : ColumnId) (prefix : bytes) : option LeafSet :=
  match db_get column prefix db with
  | Some leaves =>
      match decode leaves with
      | Some vals => Some (mkLeaves (foldl (fun m '(number, hashes) => <[number := hashes]> m) ∅ vals) [] [])
      | None => None
      end
  | None => Some leaves_new
  end.
End Stored.
