(* ===== verification/LeavesFacts.v ===== *)
(** * The leaves of the chain: what they promise

    The leaf set is a set of numbered blocks: each operation does to the set what
    its name says, the hashes come highest first, and the set survives the
    database.  Undoing an import does not restore it. *)

From S2P Require Import Prelude Database Leaves HeaderMetadata HeaderChain ChainDemo.

Section Order.
Context {V : Type}.
Implicit Types (m : gmap Z V).

#[global] Instance higher_total : Total (@higher V).
Proof. unfold higher. intros a b. lia. Qed.
#[global] Instance higher_trans : Transitive (@higher V).
Proof. unfold higher. intros a b c. lia. Qed.

Lemma by_number_perm m : by_number m ≡ₚ map_to_list m.
Proof. apply merge_sort_Permutation. Qed.

Lemma by_number_sorted m : StronglySorted higher (by_number m).
Proof. apply StronglySorted_merge_sort; apply _. Qed.

Lemma elem_of_by_number m n v : (n, v) ∈ by_number m <-> m !! n = Some v.
Proof. rewrite by_number_perm. apply elem_of_map_to_list. Qed.

(** Inserting the sorted entries gives the map back. *)
Lemma foldl_insert_list (l : list (Z * V)) m0 :
  NoDup l.*1 -> foldl (fun m '(n, v) => <[n := v]> m) m0 l = list_to_map l ∪ m0.
Proof.
  revert m0. induction l as [|[n v] l IH]; intros m0 Hl; simpl; [by rewrite (left_id_L ∅ _)|].
  apply NoDup_cons in Hl as [Hn Hl]. rewrite IH by done.
  rewrite <- insert_union_l, <- insert_union_r; [done|]. by apply not_elem_of_list_to_map_1.
Qed.

Lemma by_number_fold m : foldl (fun m' '(n, v) => <[n := v]> m') ∅ (by_number m) = m.
Proof.
  rewrite foldl_insert_list.
  - rewrite (right_id_L ∅ _). rewrite (list_to_map_proper _ (map_to_list m)); [apply list_to_map_to_list| |apply by_number_perm].
    rewrite by_number_perm. apply NoDup_fst_map_to_list.
  - rewrite by_number_perm. apply NoDup_fst_map_to_list.
Qed.
End Order.

(* ===================================================================== *)
(** ** Membership *)

(** A leaf of a storage. *)
Definition leaf (m : gmap Z (list Hash)) (n : Z) (h : Hash) : Prop := exists l, m !! n = Some l /\ h ∈ l.

(** No number without leaves, no leaf twice. *)
Definition leaves_ok (s : LeafSet) : Prop :=
  map_Forall (fun n l => in_range U32 n /\ l <> [] /\ NoDup l) (leaf_storage s).

(** The set that a leaf set is. *)
Definition members (s : LeafSet) : gset (Z * Hash) := list_to_set (map (fun e => (e.2, e.1)) (leaf_items (leaf_storage s))).

Lemma elem_of_leaf_items m h n : (h, n) ∈ leaf_items m <-> leaf m n h.
Proof.
  unfold leaf_items, leaf. rewrite list_elem_of_In, in_flat_map. split.
  - intros ([n' l] & He & Hh). apply list_elem_of_In, elem_of_by_number in He. simpl in Hh.
    apply in_map_iff in Hh as (h' & [= -> ->] & Hh%list_elem_of_In). eauto.
  - intros (l & Hl & Hh). exists (n, l). split; [by apply list_elem_of_In, elem_of_by_number|].
    apply in_map_iff. exists h. by rewrite <- list_elem_of_In.
Qed.

Lemma elem_of_members s n h : (n, h) ∈ members s <-> leaf (leaf_storage s) n h.
Proof.
  unfold members. rewrite elem_of_list_to_set, list_elem_of_In, in_map_iff. split.
  - intros ([h' n'] & [= <- <-] & He). by apply elem_of_leaf_items, list_elem_of_In.
  - intros Hl. exists (h, n). split; [done|]. by apply list_elem_of_In, elem_of_leaf_items.
Qed.

Lemma leaves_contain_spec n h s : leaves_contain n h s <-> (n, h) ∈ members s.
Proof.
  rewrite elem_of_members. unfold leaves_contain, leaf. destruct (leaf_storage s !! n) as [l|]; [|naive_solver].
  unfold contains. rewrite bool_decide_spec. naive_solver.
Qed.

Section Updates.
Implicit Types (m : gmap Z (list Hash)).

Lemma leaf_lookup m n l h : m !! n = Some l -> leaf m n h <-> h ∈ l.
Proof. unfold leaf. naive_solver. Qed.

Lemma leaf_insert m n l n' h : leaf (<[n := l]> m) n' h <-> (n' = n /\ h ∈ l) \/ (n' <> n /\ leaf m n' h).
Proof.
  unfold leaf. destruct (decide (n' = n)) as [->|Hn].
  - rewrite lookup_insert_eq. naive_solver.
  - rewrite lookup_insert_ne by done. naive_solver.
Qed.

Lemma leaf_push m n h n' h' :
  leaf (<[n := default [] (m !! n) ++ [h]]> m) n' h' <-> (n', h') = (n, h) \/ leaf m n' h'.
Proof.
  rewrite leaf_insert. unfold leaf. destruct (decide (n' = n)) as [->|]; [|naive_solver].
  destruct (m !! n) as [l|] eqn:Hl; simpl; set_solver.
Qed.

Lemma leaf_delete m n n' h : leaf (delete n m) n' h <-> n' <> n /\ leaf m n' h.
Proof. unfold leaf. setoid_rewrite lookup_delete_Some. naive_solver. Qed.
End Updates.

(* --------------------------------------------------------------------- *)
(** ** The single leaf *)
Section Ops.
Context {P : Profile} {E : Type}.
Local Abbreviation never := (fun (_ : E) (_ : LeafSet) => False).
Implicit Types (s : LeafSet).

Lemma insert_leaf_ok n h s (Q : unit -> LeafSet -> Prop) R :
  leaves_ok s -> in_range U32 n -> (n, h) ∉ members s ->
  (forall s', leaves_ok s' -> members s' = {[(n, h)]} ∪ members s ->
     pending_added s' = pending_added s -> pending_removed s' = pending_removed s -> Q tt s') ->
  wp (insert_leaf (E := E) n h) Q R s.
Proof.
  intros Hok Hn Hnew HQ. apply wp_modify, HQ; simpl; [| |done|done].
  - apply map_Forall_insert_2; [|done]. split_and!; [done|by destruct (default _ _)|]. rewrite elem_of_members in Hnew.
    apply NoDup_app. split_and!; [| |apply NoDup_singleton].
    + destruct (leaf_storage s !! n) as [l|] eqn:Hl; [by apply (Hok n l Hl)|constructor].
    + intros x Hx ->%list_elem_of_singleton. apply Hnew. destruct (leaf_storage s !! n) as [l|] eqn:Hl; simpl in Hx; [by exists l|set_solver].
  - apply set_eq. intros [n' h']. rewrite elem_of_union, elem_of_singleton, !elem_of_members. apply leaf_push.
Qed.

Lemma remove_leaf_ok n h s (Q : bool -> LeafSet -> Prop) R :
  leaves_ok s ->
  (forall s', leaves_ok s' -> members s' = members s ∖ {[(n, h)]} ->
     pending_added s' = pending_added s -> pending_removed s' = pending_removed s ->
     Q (bool_decide ((n, h) ∈ members s)) s') ->
  wp (remove_leaf (E := E) n h) Q R s.
Proof.
  intros Hok HQ. unfold remove_leaf. wp_steps. destruct (leaf_storage s !! n) as [l|] eqn:Hl.
  2:{ apply wp_ret. rewrite bool_decide_eq_false_2 in HQ by (rewrite elem_of_members; unfold leaf; naive_solver).
      apply HQ; [done| |done|done]. apply set_eq. intros [n' h']. rewrite elem_of_difference, elem_of_singleton, elem_of_members.
      unfold leaf. naive_solver. }
  set (l' := retain _ l). destruct (Hok n l Hl) as (Hr & Hne & Hnd).
  assert (forall x, x ∈ l' <-> x ∈ l /\ x <> h) as Hl'.
  { intros x. unfold l'. rewrite elem_of_retain, negb_true_iff, bool_decide_eq_false. done. }
  assert (NoDup l') as Hnd' by (eapply sublist_NoDup; [done|apply retain_sublist]).
  assert (bool_decide ((n, h) ∈ members s) = contains h l) as Hb.
  { unfold contains. apply bool_decide_ext. rewrite elem_of_members. by apply leaf_lookup. }
  rewrite Hb in HQ. wp_steps. destruct (contains h l && bool_decide (l' = [])) eqn:He; wp_steps; apply HQ; simpl; try done.
  - apply andb_prop in He as [Hc He%bool_decide_eq_true]. rewrite delete_insert_eq. by apply map_Forall_delete.
  - apply andb_prop in He as [Hc He%bool_decide_eq_true]. apply set_eq. intros [n' h'].
    rewrite elem_of_difference, elem_of_singleton, !elem_of_members. simpl. rewrite delete_insert_eq, leaf_delete.
    destruct (decide (n' = n)) as [->|]; [|naive_solver]. rewrite (leaf_lookup _ n l) by done.
    specialize (Hl' h'). rewrite He in Hl'. set_solver.
  - apply map_Forall_insert_2; [|done]. split_and!; [done| |done]. intros Hn. rewrite Hn in He.
    rewrite bool_decide_eq_true_2, andb_true_r in He by done. apply Hne.
    destruct l as [|x l0]; [done|]. exfalso. apply contains_false in He. destruct (proj2 (Hl' x)); rewrite Hn in *; set_solver.
  - apply set_eq. intros [n' h']. rewrite elem_of_difference, elem_of_singleton, !elem_of_members. simpl.
    rewrite leaf_insert. destruct (decide (n' = n)) as [->|]; [|naive_solver].
    rewrite (leaf_lookup _ n l) by done. specialize (Hl' h'). naive_solver.
Qed.

Lemma members_range n h s : leaves_ok s -> (n, h) ∈ members s -> in_range U32 n.
Proof. intros Hok (l & Hl & _)%elem_of_members. by apply (Hok n l). Qed.

(* --------------------------------------------------------------------- *)
(** ** The operations on the set *)

(** What importing a block displaces: its parent, if that is a leaf. *)
Definition import_displaces h n p s : option ImportDisplaced :=
  if bool_decide ((n - 1, p) ∈ members s) then Some (mkImportDisplaced h (mkItem p (n - 1))) else None.

Lemma import_ok h n p s :
  leaves_ok s -> in_range U32 n -> (n, h) ∉ members s ->
  wp (leaves_import (E := E) h n p)
    (fun d s' => leaves_ok s' /\ members s' = {[(n, h)]} ∪ members s ∖ {[(n - 1, p)]} /\
       d = import_displaces h n p s /\ pending_added s' = pending_added s ++ [(h, n)] /\
       pending_removed s' = pending_removed s ++ (if d is Some _ then [p] else [])) never s.
Proof.
  intros Hok Hn Hnew. unfold leaves_import. apply wp_bind. unfold in_range in Hn.
  eapply (wp_mono _ (fun d s' => leaves_ok s' /\ members s' = members s ∖ {[(n - 1, p)]} /\ d = import_displaces h n p s /\
    pending_added s' = pending_added s /\ pending_removed s' = pending_removed s ++ (if d is Some _ then [p] else [])) _ never); [| |done].
  - unfold import_displaces. destruct (Z.eqb_spec n 0) as [->|Hn0]; simpl.
    + assert ((0 - 1, p) ∉ members s) as Hno by (intros Hm%members_range; [unfold in_range in Hm; lia|done]).
      apply wp_ret. rewrite bool_decide_eq_false_2, app_nil_r by done. split_and!; [done| |done..].
      apply set_eq. intros x. rewrite elem_of_difference, elem_of_singleton. naive_solver.
    + apply wp_bind, wp_arith; [lia|]. apply wp_bind, remove_leaf_ok; [done|]. intros s' Hok' Hm Ha Hr.
      case_bool_decide; wp_steps; simpl; rewrite ?app_nil_r, ?Ha, ?Hr; done.
  - intros d s' (Hok' & Hm & -> & Ha & Hr). apply wp_bind, insert_leaf_ok; [done|done|rewrite Hm, elem_of_difference; naive_solver|].
    intros s'' Hok'' Hm' Ha' Hr'. wp_steps. simpl. split_and!; [done|by rewrite <- Hm|done|by rewrite Ha', Ha|by rewrite Hr', Hr].
Qed.

Lemma leaf_filter (Q : Z * list Hash -> Prop) `{!forall e, Decision (Q e)} (m : gmap Z (list Hash)) n h :
  leaf (filter Q m) n h <-> exists l, m !! n = Some l /\ Q (n, l) /\ h ∈ l.
Proof. unfold leaf. setoid_rewrite map_lookup_filter_Some. naive_solver. Qed.

Lemma finalize_height_ok n s :
  leaves_ok s -> in_range U32 n ->
  wp (finalize_height (E := E) n)
    (fun d s' => leaves_ok s' /\ members s' = filter (fun e => n <= e.1) (members s) /\
       d ∪ leaf_storage s' = leaf_storage s /\ (forall n' h, leaf d n' h <-> n' < n /\ (n', h) ∈ members s) /\
       pending_added s' = pending_added s /\ pending_removed s' = pending_removed s ++ displaced_leaves d) never s.
Proof.
  intros Hok Hn. unfold finalize_height. destruct (Z.eqb_spec n 0) as [->|Hn0].
  { apply wp_ret. split_and!; [done| |by rewrite (left_id_L ∅ _)| |done|].
    - apply set_eq. intros [n' h]. rewrite elem_of_filter. simpl. split; [|naive_solver].
      intros Hm. pose proof (members_range _ _ _ Hok Hm) as []. done.
    - intros n' h. split; [intros (l & Hl & _); by rewrite lookup_empty in Hl|].
      intros [? Hm]. pose proof (members_range _ _ _ Hok Hm) as []. lia.
    - by rewrite app_nil_r. }
  unfold in_range in Hn. apply wp_bind, wp_arith; [lia|]. wp_steps. simpl. split_and!; [| |apply map_filter_union_complement| |done|done].
  - intros n' l [Hl _]%map_lookup_filter_Some. by apply Hok.
  - apply set_eq. intros [n' h]. rewrite elem_of_filter, !elem_of_members. simpl.
    rewrite leaf_filter. unfold leaf. simpl. naive_solver lia.
  - intros n' h. rewrite leaf_filter, elem_of_members. unfold leaf. simpl. naive_solver lia.
Qed.

(** Finalizing and undoing it gives the storage back. *)
Lemma undo_finalization_ok n s :
  leaves_ok s -> in_range U32 n ->
  wp (let! d := finalize_height (E := E) n in undo_finalization d)
    (fun _ s' => s' = clear_pending s) never s.
Proof.
  intros Hok Hn. apply wp_bind. eapply wp_mono; [by apply finalize_height_ok| |done].
  intros d s' (_ & _ & Hd & _). unfold undo_finalization. wp_steps. unfold clear_pending. simpl. by rewrite Hd.
Qed.

(** Undoing an import takes the block out, and puts its parent back one number
    too high. *)
Lemma undo_import_ok h n p s :
  leaves_ok s -> in_range U32 n -> (n, h) ∉ members s -> (n - 1, p) ∈ members s -> (n, p) ∉ members s ->
  wp (let! d := leaves_import (E := E) h n p in match d with Some d => undo_import d | None => ret tt end)
    (fun _ s' => members s' = {[(n, p)]} ∪ members s ∖ {[(n - 1, p)]}) never s.
Proof.
  intros Hok Hn Hnew Hp Hp'. apply wp_bind. eapply wp_mono; [by apply import_ok| |done].
  intros d s' (Hok' & Hm & -> & _). unfold import_displaces. rewrite bool_decide_eq_true_2 by done.
  unfold undo_import. simpl. unfold in_range in Hn. apply wp_bind, wp_arith; [lia|]. rewrite Z.sub_add.
  apply wp_bind, remove_leaf_ok; [done|]. intros s1 Hok1 Hm1 _ _. rewrite Hm in Hm1.
  apply wp_bind, insert_leaf_ok; [done|done| |].
  { rewrite Hm1, !elem_of_difference, elem_of_union, elem_of_difference, !elem_of_singleton. naive_solver. }
  intros s2 _ Hm2 _ _. wp_steps. change (members (clear_pending s2)) with (members s2). rewrite Hm2, Hm1. f_equal.
  apply set_eq. intros x. rewrite !elem_of_difference, elem_of_union, !elem_of_difference, !elem_of_singleton. naive_solver.
Qed.

(* --------------------------------------------------------------------- *)
(** ** Reverting *)

Lemma leaf_items_NoDup m : map_Forall (fun _ l => NoDup l) m -> NoDup (leaf_items m).
Proof.
  intros Hm. unfold leaf_items. assert (NoDup (by_number m).*1) as Hk.
  { rewrite by_number_perm. apply NoDup_fst_map_to_list. }
  assert (Forall (fun e => NoDup e.2) (by_number m)) as Hl.
  { apply Forall_forall. intros [n l] He%elem_of_by_number. by apply (Hm n). }
  induction (by_number m) as [|[n l] k IH]; simpl; [constructor|].
  apply NoDup_cons in Hk as [Hn Hk]. apply Forall_cons in Hl as [Hl Hls].
  apply NoDup_app. split_and!; [|intros [h n'] Hin Hin'|by apply IH].
  - apply (NoDup_fmap_2 (fun h => (h, n))). done.
  - apply Hn. apply list_elem_of_In, in_map_iff in Hin as (h' & [= _ <-] & _).
    apply list_elem_of_In, in_flat_map in Hin' as ([n' l'] & Hk' & (h'' & [= _ <-] & _)%in_map_iff).
    apply list_elem_of_In in Hk'. apply list_elem_of_fmap. by exists (n', l').
Qed.

(** The leaves that a loop over [rest] still has to look at. *)
Definition reverting n s (rest : list (Hash * Z)) s' : Prop :=
  leaves_ok s' /\ NoDup rest /\
  (forall n' h', (n', h') ∈ members s' <-> (n', h') ∈ members s /\ (n' <= n \/ (h', n') ∈ rest)) /\
  (forall n' h', (h', n') ∈ rest -> (n', h') ∈ members s).

Lemma revert_step n s h' n' rest t :
  reverting n s ((h', n') :: rest) t ->
  wp (if n <? n' then let! removed := remove_leaf (E := E) n' h' in assert removed ;; modify (extend_removed [h']) else ret tt)
    (fun _ => reverting n s rest) never t.
Proof.
  intros (Ht & Hnd & Hm & Hs). apply NoDup_cons in Hnd as [Hni Hnd].
  assert (forall n1 h1, (h1, n1) ∈ rest -> (n1, h1) ∈ members s) as Hs' by (intros; apply Hs; by right).
  destruct (Z.ltb_spec n n') as [Hlt|Hge].
  - apply wp_bind, remove_leaf_ok; [done|]. intros t' Ht' Hm' _ _.
    rewrite bool_decide_eq_true_2 by (apply Hm; split; [apply Hs|right]; by left). apply wp_bind, wp_ret, wp_modify.
    split_and!; [done|done| |done]. intros n1 h1. change (members (extend_removed [h'] t')) with (members t').
    rewrite Hm', elem_of_difference, elem_of_singleton, Hm, elem_of_cons.
    split; [naive_solver|]. intros [? [?|?]]; split; try tauto; intros [= -> ->]; [lia|done].
  - apply wp_ret. split_and!; [done|done| |done].
    intros n1 h1. rewrite Hm, elem_of_cons. split; [|naive_solver]. intros [? [?|[[= -> ->]|?]]]; tauto.
Qed.

Lemma leaves_revert_ok h n s :
  leaves_ok s -> in_range U32 n ->
  wp (leaves_revert (E := E) h n)
    (fun _ s' => leaves_ok s' /\ members s' = {[(n, h)]} ∪ filter (fun e => e.1 <= n) (members s)) never s.
Proof.
  intros Hok Hn. unfold leaves_revert. apply wp_bind, wp_gets, wp_bind.
  eapply wp_mono; [apply (wp_for_each (reverting n s) _ _ never)| |done].
  - split_and!; [done|apply leaf_items_NoDup; intros k l Hl; by apply (Hok k l)| |].
    + intros n' h'. rewrite elem_of_leaf_items, <- elem_of_members. tauto.
    + intros n' h'. by rewrite elem_of_leaf_items, <- elem_of_members.
  - intros [h' n'] rest t Ht. by apply revert_step.
  - intros [] t (Ht & _ & Hm & _). apply wp_bind, wp_gets.
    assert (members t = filter (fun e => e.1 <= n) (members s)) as Hmt.
    { apply set_eq. intros [n' h']. rewrite Hm, elem_of_filter, elem_of_nil. simpl. tauto. }
    change (match leaf_storage t !! n with Some hashes => contains h hashes | None => false end) with (leaves_contain n h t).
    pose proof (leaves_contain_spec n h t) as Hc. destruct (leaves_contain n h t); simpl in Hc |- *.
    + apply wp_ret. split; [done|]. rewrite <- Hmt. assert ((n, h) ∈ members t) by tauto.
      apply set_eq. intros x. rewrite elem_of_union, elem_of_singleton. naive_solver.
    + apply wp_bind, insert_leaf_ok; [done|done|tauto|]. intros t' Ht' Hm' _ _. wp_steps. split; [done|].
      change (members (push_added (h, n) t')) with (members t'). by rewrite Hm', Hmt.
Qed.
End Ops.

(* ===================================================================== *)
(** ** Order *)

Lemma leaf_hashes_items s : leaf_hashes s = (leaf_items (leaf_storage s)).*1.
Proof.
  unfold leaf_hashes, leaf_items. induction (by_number (leaf_storage s)) as [|[n l] k IH]; simpl; [done|].
  rewrite fmap_app, IH. f_equal. induction l as [|h l IHl]; simpl; [done|]. by f_equal.
Qed.

(** The leaves come with falling numbers. *)
Lemma leaf_items_sorted m : StronglySorted (fun a b => b.2 <= a.2) (leaf_items m).
Proof.
  unfold leaf_items. pose proof (by_number_sorted m) as Hs. induction Hs as [|[n l] k _ IH Hk]; simpl; [constructor|].
  apply StronglySorted_app. split_and!; [| |done].
  - intros [h1 n1] [h2 n2] H1 H2. simpl. apply list_elem_of_In, in_map_iff in H1 as (? & [= _ <-] & _).
    apply list_elem_of_In, in_flat_map in H2 as ([n' l'] & Hk' & (? & [= _ <-] & _)%in_map_iff).
    rewrite Forall_forall in Hk. apply list_elem_of_In, Hk in Hk'. unfold higher in Hk'. simpl in *. lia.
  - clear Hk. induction l as [|h l IHl]; simpl; [constructor|constructor; [done|]]. apply Forall_forall. intros [h' n'] Hin. simpl.
    apply list_elem_of_In, in_map_iff in Hin as (? & [= _ <-] & _). lia.
Qed.

(* ===================================================================== *)
(** ** The set in the database *)
Section Stored.
Context {H D E : Type} `{!Database H D E, !DatabaseLaws (D := D) (E := E)}.
Context {encode : list (Z * list Hash) -> bytes} {decode : bytes -> option (list (Z * list Hash))}.

Lemma stored_ok (tx : Transaction H) column prefix s d :
  (forall l, decode (encode l) = Some l) -> forallb plain tx ->
  let '(tx', s') := prepare_transaction encode tx column prefix s in
  wp (db_commit (E := E) tx') (fun _ d' => read_from_db (E := E) decode d' column prefix = Some s') (fun _ _ => False) d.
Proof using DatabaseLaws0.
  intros Hcodec Htx. unfold prepare_transaction, tx_set. eapply wp_mono; [apply commit_plain| |done].
  - rewrite forallb_app. by rewrite (Is_true_true_1 _ Htx).
  - intros [] d' Hd'. unfold read_from_db. rewrite Hd', changes_at_app. simpl. rewrite decide_True by done.
    rewrite Hcodec, by_number_fold. done.
Qed.
End Stored.

(* ===================================================================== *)
(** ** Histories *)
Section Histories.
Context {P : Profile} {E : Type}.
Implicit Types (s : LeafSet).

Inductive LeafCall :=
| LImport (hash : Hash) (number : Z) (parent : Hash)
| LFinalize (number : Z)
| LFinalizeUndo (number : Z)
| LUndoImport (d : ImportDisplaced)
| LRevert (hash : Hash) (number : Z).

Definition leaf_exec (c : LeafCall) : M LeafSet E (option ImportDisplaced) :=
  match c with
  | LImport h n p => leaves_import h n p
  | LFinalize n => finalize_height n ;; ret None
  | LFinalizeUndo n => (let! d := finalize_height n in undo_finalization d) ;; ret None
  | LUndoImport d => undo_import d ;; ret None
  | LRevert h n => leaves_revert h n ;; ret None
  end.

(** What a call does to the set of leaves. *)
Definition leaf_spec (c : LeafCall) (L : gset (Z * Hash)) : gset (Z * Hash) :=
  match c with
  | LImport h n p => {[(n, h)]} ∪ L ∖ {[(n - 1, p)]}
  | LFinalize n => filter (fun e => n <= e.1) L
  | LFinalizeUndo _ => L
  | LUndoImport d => let n := item_number (displaced d) + 1 in {[(n, item_hash (displaced d))]} ∪ L ∖ {[(n, new_hash d)]}
  | LRevert h n => {[(n, h)]} ∪ filter (fun e => e.1 <= n) L
  end.

(** Numbers are of their type, and an imported block is new, as is a block that
    is put back by undoing an import, at the number where it is put. *)
Definition leaf_call_ok (c : LeafCall) (L : gset (Z * Hash)) : Prop :=
  match c with
  | LImport h n p => in_range U32 n /\ (n, h) ∉ L
  | LUndoImport d =>
      let n := item_number (displaced d) + 1 in in_range U32 n /\ (n, item_hash (displaced d)) ∉ L ∖ {[(n, new_hash d)]}
  | LFinalize n | LFinalizeUndo n | LRevert _ n => in_range U32 n
  end.

Definition leaf_answer (c : LeafCall) s : option ImportDisplaced :=
  match c with LImport h n p => import_displaces h n p s | _ => None end.

Inductive leaf_reachable : LeafSet -> Prop :=
| leaf_start : leaf_reachable leaves_new
| leaf_next s c a s' : leaf_reachable s -> leaf_call_ok c (members s) -> leaf_exec c s = Ok a s' -> leaf_reachable s'.

Lemma leaf_exec_ok c s :
  leaves_ok s -> leaf_call_ok c (members s) ->
  wp (leaf_exec c) (fun a s' => leaves_ok s' /\ members s' = leaf_spec c (members s) /\ a = leaf_answer c s) (fun _ _ => False) s.
Proof.
  intros Hok Hc. destruct c as [h n p|n|n|d|h n]; simpl in *.
  - destruct Hc. eapply wp_mono; [by apply import_ok| |done]. naive_solver.
  - apply wp_bind. eapply wp_mono; [by apply finalize_height_ok| |done]. intros d s' (? & ? & _). by apply wp_ret.
  - apply wp_bind. eapply wp_mono; [by apply undo_finalization_ok| |done]. by intros [] s' ->.
  - destruct Hc as [Hn Hnew]. unfold undo_import. apply wp_bind, wp_bind. unfold in_range in Hn. apply wp_arith; [lia|].
    apply wp_bind, remove_leaf_ok; [done|]. intros s1 Hok1 Hm1 _ _. rewrite <- Hm1 in Hnew |- *.
    apply wp_bind, insert_leaf_ok; [done..|]. intros s2 Hok2 Hm2 _ _. by wp_steps.
  - apply wp_bind. eapply wp_mono; [by apply leaves_revert_ok| |done]. intros [] s' (? & ?). by apply wp_ret.
Qed.

Lemma leaf_reachable_ok s : leaf_reachable s -> leaves_ok s.
Proof.
  induction 1 as [|s c a s' _ IH Hc Hex]; [apply map_Forall_empty|].
  pose proof (leaf_exec_ok c s IH Hc) as Hw. unfold wp in Hw. rewrite Hex in Hw. apply Hw.
Qed.
End Histories.

(* ===================================================================== *)
(** ** The theorems *)
Lemma NoDup_fst_unique {A B} (l : list (A * B)) :
  NoDup l -> (forall a b b', (a, b) ∈ l -> (a, b') ∈ l -> b = b') -> NoDup l.*1.
Proof.
  intros Hnd Hu. induction Hnd as [|[a b] l Hn _ IH]; simpl; [constructor|]. constructor.
  - intros ([a' b'] & -> & Hin)%list_elem_of_fmap_1. apply Hn. by rewrite (Hu a' b b' ltac:(by left) ltac:(by right)).
  - apply IH. intros x y y' Hy Hy'. apply (Hu x); by right.
Qed.

Section Theorems.
Context {P : Profile} {E : Type}.
Implicit Types (s : LeafSet).

(** C24: Over every history of imports of blocks that are no leaves yet,
    finalizations, finalizations that are undone at once, undone imports that do not
    put a leaf back that is there already, and reverts, the leaf set is a set of
    pairs of a number and a hash, and each call does to it what the set specifies: an
    import puts the block in the place of its parent and reports the parent if that
    was a leaf, a finalization drops the leaves below its number, a revert drops
    those above and keeps the new head; undoing an import takes the block out and
    puts the parent back at the number of the block, not at its own.  The hashes that
    are listed are those of the pairs, one for each pair, those with the highest
    numbers first; no hash is listed twice if none is in the set with two numbers. *)
Theorem leaves_refine_the_set s c :
  leaf_reachable (E := E) s -> leaf_call_ok c (members s) ->
  exists s', leaf_exec (E := E) c s = Ok (leaf_answer c s) s' /\ members s' = leaf_spec c (members s) /\
    leaf_hashes s' = (leaf_items (leaf_storage s')).*1 /\ NoDup (leaf_items (leaf_storage s')) /\
    (forall h n, (h, n) ∈ leaf_items (leaf_storage s') <-> (n, h) ∈ members s') /\
    StronglySorted (fun a b => b.2 <= a.2) (leaf_items (leaf_storage s')) /\
    ((forall h n n', (n, h) ∈ members s' -> (n', h) ∈ members s' -> n = n') -> NoDup (leaf_hashes s')).
Proof.
  intros Hok%leaf_reachable_ok Hc. pose proof (leaf_exec_ok (E := E) c s Hok Hc) as Hw. unfold wp in Hw.
  destruct (leaf_exec c s) as [a s'| |]; [|done|done]. destruct Hw as (Hok' & Hm & ->). exists s'.
  assert (NoDup (leaf_items (leaf_storage s'))) as Hnd by (apply leaf_items_NoDup; intros n l Hl; by apply (Hok' n l)).
  split_and!; [done|done|apply leaf_hashes_items|done| |apply leaf_items_sorted|].
  - intros h n. by rewrite elem_of_leaf_items, elem_of_members.
  - intros Hone. rewrite leaf_hashes_items. apply (NoDup_fst_unique _ Hnd). intros h n n'. rewrite !elem_of_leaf_items, <- !elem_of_members. apply Hone.
Qed.

(** C37: Undoing an import that displaced its parent does not restore the leaf set:
    the parent comes back with the number of the block, one too high, so the former
    leaf is gone and the set differs. *)
Theorem undo_import_misplaces_the_parent s h n p :
  leaf_reachable (E := E) s -> in_range U32 n -> (n, h) ∉ members s -> (n - 1, p) ∈ members s -> (n, p) ∉ members s ->
  exists s', (let! d := leaves_import h n p in match d with Some d => undo_import d | None => ret tt end) s = Ok (E := E) tt s' /\
    members s' = {[(n, p)]} ∪ members s ∖ {[(n - 1, p)]} /\ (n - 1, p) ∉ members s'.
Proof.
  intros Hok%leaf_reachable_ok Hn Hnew Hp Hp'. pose proof (undo_import_ok (E := E) h n p s Hok Hn Hnew Hp Hp') as Hw. unfold wp in Hw.
  destruct ((let! d := leaves_import h n p in _) s) as [[] s'| |]; [|done|done]. exists s'. split_and!; [done|done|].
  rewrite Hw, elem_of_union, elem_of_difference, !elem_of_singleton. intros [[= He]|[_ He]]; [lia|done].
Qed.
End Theorems.

(** C27: The leaf set survives the database: after the commit of a transaction that
    was prepared with it, whatever plain writes and removals come before, the set
    that is read back has the same leaves, and nothing pending; in every database
    that applies the changes of a transaction in order. *)
Theorem leaves_survive_the_database {H D E : Type} `{!Database H D E, !DatabaseLaws (D := D) (E := E)}
    (encode : list (Z * list Hash) -> bytes) (decode : bytes -> option (list (Z * list Hash)))
    (tx : Transaction H) column prefix (s : LeafSet) (d : D) :
  (forall l, decode (encode l) = Some l) -> forallb plain tx ->
  let '(tx', s') := prepare_transaction encode tx column prefix s in
  members s' = members s /\ pending_added s' = [] /\ pending_removed s' = [] /\
  exists d', db_commit (E := E) tx' d = Ok tt d' /\ read_from_db (E := E) decode d' column prefix = Some s'.
Proof.
  intros Hcodec Htx. pose proof (stored_ok tx column prefix s d Hcodec Htx) as Hw. unfold prepare_transaction in *.
  split_and!; [done..|]. unfold wp in Hw. destruct (db_commit _ d) as [[] d'| |]; [|done|done]. by exists d'.
Qed.

Module Demo.
#[local] Existing Instance release.

(** The genesis, and two blocks on it. *)
Definition leaves : LeafSet := mkLeaves {[1 := [2; 3]%N]} [(1%N, 0); (2%N, 1); (3%N, 1)] [1%N].

Lemma leaves_reached : leaf_reachable (E := unit) leaves.
Proof.
  eapply (leaf_next _ (LImport 3 1 1) None); [eapply (leaf_next _ (LImport 2 1 1)); [eapply (leaf_next _ (LImport 1 0 0)); [apply leaf_start|..]|..]|..];
    try (vm_compute; reflexivity); apply (bool_decide_unpack _); vm_compute; exact I.
Qed.

Lemma leaves_refine_the_set_witness :
  exists s', leaf_exec (E := unit) (LImport 4 2 2) leaves = Ok (Some (mkImportDisplaced 4 (mkItem 2 1))) s' /\
    members s' = {[(2, 4%N)]} ∪ members leaves ∖ {[(1, 2%N)]}.
Proof.
  destruct (leaves_refine_the_set (E := unit) leaves (LImport 4 2 2)) as (s' & He & Hm & _).
  - exact leaves_reached.
  - apply (bool_decide_unpack _). vm_compute. exact I.
  - exists s'. split; [exact He|exact Hm].
Defined.

Lemma undo_import_misplaces_the_parent_witness :
  exists s', (let! d := leaves_import 4 2 2 in match d with Some d => undo_import d | None => ret tt end) leaves = Ok (E := unit) tt s' /\
    leaf_storage s' = {[1 := [3%N]; 2 := [2%N]]} /\ (1, 2%N) ∉ members s'.
Proof.
  destruct (undo_import_misplaces_the_parent (E := unit) leaves 4 2 2) as (s' & He & _ & Hm);
    [exact leaves_reached|apply (bool_decide_unpack _); vm_compute; exact I..|].
  exists s'. split; [exact He|]. split; [|exact Hm].
  assert (match (let! d := leaves_import 4 2 2 in match d with Some d => undo_import d | None => ret tt end) leaves with
    | Ok _ s' => leaf_storage s' = {[1 := [3%N]; 2 := [2%N]]} | Err tt _ => False | Panic => False end) as Hr by (vm_compute; reflexivity).
  rewrite He in Hr. exact Hr.
Defined.

#[local] Instance mem : Database Hash MemDb unit := mem_database (P := release) to_bytes.
#[local] Instance mem_laws : DatabaseLaws (H := Hash) (D := MemDb) (E := unit) := mem_database_laws (P := release) to_bytes.

Lemma leaves_survive_the_database_witness :
  let '(tx', s') := prepare_transaction (H := Hash) to_bytes [] 0 [] leaves in
  exists d', db_commit (E := unit) tx' (∅ : MemDb) = Ok tt d' /\ read_from_db (E := unit) (H := Hash) of_bytes d' 0 [] = Some s'.
Proof.
  pose proof (leaves_survive_the_database (E := unit) (H := Hash) to_bytes of_bytes [] 0 [] leaves (∅ : MemDb) of_to_bytes I) as Hw.
  exact (proj2 (proj2 (proj2 Hw))).
Defined.
End Demo.
