(* ===== verification/InMem.v ===== *)
(** * The blockchain in memory

    [client/api/src/in_mem.rs]: blocks, the canonical chain, the head, the
    finalized block, justifications, leaves and auxiliary data.  The locks are not
    modelled: every method takes them one after another.

    The header is a class, as it is a trait.  A message of an error is left
    out. *)

From S2P Require Import Prelude HeaderMetadata ChainBackend Leaves.

(* ===================================================================== *)
(** ** Justifications and block states *)

Abbreviation EngineId := N.
Abbreviation Justification := (EngineId * bytes)%type.
Abbreviation Justifications := (list (EngineId * bytes)).

(** [Justifications::get] *)
Definition justification_of (engine_id : EngineId) (js : Justifications) : option bytes :=
  match position (fun j => bool_decide (j.1 = engine_id)) js with
  | Some i => snd <$> js !! i
  | None => None
  end.

(** [Justifications::append]: the collection after it, and whether it was taken *)
Definition justifications_append (j : Justification) (js : Justifications) : bool * Justifications :=
  if justification_of j.1 js is Some _ then (false, js) else (true, js ++ [j]).

Inductive NewBlockState := Normal | Best | Final.
Definition is_best (s : NewBlockState) : bool := match s with Best | Final => true | Normal => false end.
Definition is_final (s : NewBlockState) : bool := match s with Final => true | Best | Normal => false end.

(* ===================================================================== *)
(** ** Storage *)
Section Blocks.
Context {Header Extrinsic : Type}.

Inductive StoredBlock :=
| SHeader (header : Header) (just : option Justifications)
| SFull (header : Header) (body : list Extrinsic) (just : option Justifications).

Definition stored_new (header : Header) (body : option (list Extrinsic)) (just : option Justifications) : StoredBlock :=
  match body with Some body => SFull header body just | None => SHeader header just end.

Definition stored_header (b : StoredBlock) : Header := match b with SHeader h _ | SFull h _ _ => h end.
Definition stored_justifications (b : StoredBlock) : option Justifications := match b with SHeader _ j | SFull _ _ j => j end.
Definition stored_extrinsics (b : StoredBlock) : option (list Extrinsic) :=
  match b with SHeader _ _ => None | SFull _ x _ => Some x end.
Definition stored_into_inner (b : StoredBlock) : Header * option (list Extrinsic) * option Justifications :=
  match b with SHeader h j => (h, None, j) | SFull h x j => (h, Some x, j) end.

Definition set_justifications (j : option Justifications) (b : StoredBlock) : StoredBlock :=
  match b with SHeader h _ => SHeader h j | SFull h x _ => SFull h x j end.

Record BlockchainStorage := mkStorage {
  blocks : gmap Hash StoredBlock;
  hashes : gmap Z Hash;
  best_hash : Hash;
  best_number : Z;
  finalized_hash : Hash;
  finalized_number : Z;
  genesis_hash : Hash;
  header_cht_roots : gmap Z Hash;
  changes_trie_cht_roots : gmap Z Hash;
  leaves : LeafSet;
  aux : gmap bytes bytes
}.
End Blocks.

#[global] Arguments StoredBlock : clear implicits.
#[global] Arguments BlockchainStorage : clear implicits.

Section Setters.
Context {Header Extrinsic : Type}.
Local Abbreviation Storage := (BlockchainStorage Header Extrinsic).
Implicit Types (s : Storage).

Definition set_blocks b s : Storage :=
  mkStorage b (hashes s) (best_hash s) (best_number s) (finalized_hash s) (finalized_number s) (genesis_hash s)
    (header_cht_roots s) (changes_trie_cht_roots s) (leaves s) (aux s).
Definition set_hashes m s : Storage :=
  mkStorage (blocks s) m (best_hash s) (best_number s) (finalized_hash s) (finalized_number s) (genesis_hash s)
    (header_cht_roots s) (changes_trie_cht_roots s) (leaves s) (aux s).
Definition set_best h n s : Storage :=
  mkStorage (blocks s) (hashes s) h n (finalized_hash s) (finalized_number s) (genesis_hash s)
    (header_cht_roots s) (changes_trie_cht_roots s) (leaves s) (aux s).
Definition set_finalized_hash h s : Storage :=
  mkStorage (blocks s) (hashes s) (best_hash s) (best_number s) h (finalized_number s) (genesis_hash s)
    (header_cht_roots s) (changes_trie_cht_roots s) (leaves s) (aux s).
Definition set_finalized_number n s : Storage :=
  mkStorage (blocks s) (hashes s) (best_hash s) (best_number s) (finalized_hash s) n (genesis_hash s)
    (header_cht_roots s) (changes_trie_cht_roots s) (leaves s) (aux s).
Definition set_genesis_hash h s : Storage :=
  mkStorage (blocks s) (hashes s) (best_hash s) (best_number s) (finalized_hash s) (finalized_number s) h
    (header_cht_roots s) (changes_trie_cht_roots s) (leaves s) (aux s).
Definition set_header_cht_roots m s : Storage :=
  mkStorage (blocks s) (hashes s) (best_hash s) (best_number s) (finalized_hash s) (finalized_number s) (genesis_hash s)
    m (changes_trie_cht_roots s) (leaves s) (aux s).
Definition set_leaves l s : Storage :=
  mkStorage (blocks s) (hashes s) (best_hash s) (best_number s) (finalized_hash s) (finalized_number s) (genesis_hash s)
    (header_cht_roots s) (changes_trie_cht_roots s) l (aux s).
Definition set_aux m s : Storage :=
  mkStorage (blocks s) (hashes s) (best_hash s) (best_number s) (finalized_hash s) (finalized_number s) (genesis_hash s)
    (header_cht_roots s) (changes_trie_cht_roots s) (leaves s) m.
End Setters.

(* ===================================================================== *)
(** ** The blockchain *)
Section Blockchain.
Context {P : Profile} {Header Extrinsic : Type} `{!HeaderT Header}.
Local Abbreviation Storage := (BlockchainStorage Header Extrinsic).
Local Abbreviation Block := (StoredBlock Header Extrinsic).
Local Abbreviation M := (M Storage ChainError).

Definition chain_new : Storage := mkStorage ∅ ∅ 0%N 0 0%N 0 0%N ∅ ∅ leaves_new ∅.

Definition chain_id (id : BlockId) (s : Storage) : option Hash :=
  match id with IdHash h => Some h | IdNumber n => hashes s !! n end.

Definition chain_header (id : BlockId) (s : Storage) : option Header :=
  h ← chain_id id s; stored_header <$> blocks s !! h.

#[global] Instance in_mem_metadata : HeaderMetadata Storage ChainError := {|
  header_metadata hash :=
    let! header := gets (chain_header (IdHash hash)) in
    ok_or (metadata_from <$> header) UnknownBlock;
  insert_header_metadata _ _ := ret tt;
  remove_header_metadata _ := ret tt
|}.

Definition apply_head (header : Header) : M unit :=
  let! best := gets best_hash in
  let! best_tree_route :=
    if decide (best = header_parent_hash header) then ret None
    else let! r := tree_route best (header_parent_hash header) in ret (Some r) in
  match best_tree_route with
  | Some r =>
      let! enacted := enacted r in
      for_each enacted (fun entry => modify (fun s => set_hashes (<[hn_number entry := hn_hash entry]> (hashes s)) s)) ;;
      let! retracted := retracted r in
      for_each (drop (length enacted) retracted) (fun entry => modify (fun s => set_hashes (delete (hn_number entry) (hashes s)) s))
  | None => ret tt
  end ;;
  modify (set_best (header_hash header) (header_number header)) ;;
  modify (fun s => set_hashes (<[header_number header := header_hash header]> (hashes s)) s).

Definition chain_insert (hash : Hash) (header : Header) (justifications : option Justifications)
    (body : option (list Extrinsic)) (new_state : NewBlockState) : M unit :=
  let number := header_number header in
  (if is_best new_state then apply_head header else ret tt) ;;
  zoom leaves set_leaves (leaves_import hash number (header_parent_hash header)) ;;
  modify (fun s => set_blocks (<[hash := stored_new header body justifications]> (blocks s)) s) ;;
  (if is_final new_state then modify (fun s => set_finalized_number number (set_finalized_hash hash s)) else ret tt) ;;
  (if number =? 0 then modify (set_genesis_hash hash) else ret tt).

Definition blocks_count (s : Storage) : nat := base.size (blocks s).

Definition canon_equals_to (s other : Storage) : bool :=
  bool_decide (hashes s = hashes other) && bool_decide (best_hash s = best_hash other) &&
  bool_decide (best_number s = best_number other) && bool_decide (genesis_hash s = genesis_hash other).

Definition equals_to `{!EqDecision Block} (s other : Storage) : bool :=
  canon_equals_to s other && bool_decide (blocks s = blocks other).

Definition insert_cht_root (block : Z) (cht_root : Hash) : M unit :=
  modify (fun s => set_header_cht_roots (<[block := cht_root]> (header_cht_roots s)) s).

Definition chain_set_head (id : BlockId) : M unit :=
  let! header := gets (chain_header id) in
  let! header := ok_or header UnknownBlock in
  apply_head header.

Definition finalize_header (id : BlockId) (justification : option Justification) : M unit :=
  let! header := gets (chain_header id) in
  let! header := ok_or header UnknownBlock in
  let hash := header_hash header in
  modify (set_finalized_hash hash) ;;
  match justification with
  | Some j =>
      let! block := gets (fun s => blocks s !! hash) in
      let! block := unwrap block in
      modify (fun s => set_blocks (<[hash := set_justifications (Some [j]) block]> (blocks s)) s)
  | None => ret tt
  end.

(** *** Reading *)

Definition chain_info (s : Storage) : ChainInfo :=
  mkInfo (best_hash s) (best_number s) (genesis_hash s) (finalized_hash s) (finalized_number s)
    (if decide (finalized_hash s = 0%N) then None else Some (finalized_hash s, finalized_number s)) (leaf_count (leaves s)).

Definition chain_status (id : BlockId) (s : Storage) : BlockStatus :=
  if match chain_id id s with Some h => bool_decide (is_Some (blocks s !! h)) | None => false end then InChain else Unknown.

Definition chain_number (hash : Hash) (s : Storage) : option Z :=
  (fun b => header_number (stored_header b)) <$> blocks s !! hash.

Definition chain_hash (number : Z) (s : Storage) : option Hash := chain_id (IdNumber number) s.

Definition chain_body (id : BlockId) (s : Storage) : option (list Extrinsic) :=
  h ← chain_id id s; b ← blocks s !! h; stored_extrinsics b.

Definition chain_justifications (id : BlockId) (s : Storage) : option Justifications :=
  h ← chain_id id s; b ← blocks s !! h; stored_justifications b.

#[global] Instance in_mem_backend : ChainBackend Storage Header := {|
  get_header id := gets (chain_header id);
  get_info := chain_info;
  get_number h := gets (chain_number h);
  get_hash n := gets (chain_hash n);
  get_leaves := gets (fun s => leaf_hashes (leaves s))
|}.

(** *** Justifications and auxiliary data *)

Definition append_justification (id : BlockId) (justification : Justification) : M unit :=
  let! hash := expect_block_hash_from_id id in
  let! block := gets (fun s => blocks s !! hash) in
  let! block := unwrap block in
  match stored_justifications block with
  | Some stored =>
      let '(taken, stored') := justifications_append justification stored in
      if taken : bool then modify (fun s => set_blocks (<[hash := set_justifications (Some stored') block]> (blocks s)) s)
      else fail BadJustification
  | None => modify (fun s => set_blocks (<[hash := set_justifications (Some [justification]) block]> (blocks s)) s)
  end.

Definition write_aux (ops : list (bytes * option bytes)) : M unit :=
  for_each ops (fun '(k, v) => modify (fun s => set_aux (put_opt k v (aux s)) s)).

Definition insert_aux (insert : list (bytes * bytes)) (delete : list bytes) : M unit :=
  for_each insert (fun '(k, v) => modify (fun s => set_aux (<[k := v]> (aux s)) s)) ;;
  for_each delete (fun k => modify (fun s => set_aux (base.delete k (aux s)) s)).

Definition get_aux (key : bytes) (s : Storage) : option bytes := aux s !! key.

(** [light::Storage::import_header] *)
Definition import_header (header : Header) (state : NewBlockState) (aux_ops : list (bytes * option bytes)) : M unit :=
  chain_insert (header_hash header) header None None state ;;
  write_aux aux_ops.

Definition header_cht_root (block : Z) : M Hash :=
  let! r := gets (fun s => header_cht_roots s !! block) in ok_or r BackendError.
End Blockchain.
