(* ===== verification/InMemCanon.v ===== *)
(** * The canonical chain

    The block of a chain at a height, and what enacting and retracting the
    blocks of a route do to the map of canonical hashes. *)

From S2P Require Import Prelude HeaderMetadata HeaderChain HeaderRoutes.

Section Canon.
Implicit Types (c : Links) (b h x : Hash) (n : Z).

(** The block at height [n] of the chain that ends in [b]. *)
Definition canon_at c b n : option Hash :=
  l ← c !! b;
  if (0 <=? n) && (n <=? l_number l) then up c (Z.to_nat (l_number l - n)) b else None.

(** *** Larger trees *)

Lemma up_mono c c' k h x : c ⊆ c' -> up c k h = Some x -> up c' k h = Some x.
Proof.
  intros Hsub. revert h. induction k as [|k IH]; intros h; simpl; destruct (c !! h) as [l|] eqn:Hl; simpl; try done;
    rewrite (lookup_weaken _ _ _ _ Hl Hsub); simpl; auto.
Qed.

Lemma ancestor_mono c c' a h : c ⊆ c' -> ancestor c a h -> ancestor c' a h.
Proof. intros Hsub [k Hk]. exists k. by eapply up_mono. Qed.

Lemma canon_at_mono c c' b l n : chain_ok c -> c ⊆ c' -> c !! b = Some l -> canon_at c' b n = canon_at c b n.
Proof.
  intros Hc Hsub Hl. unfold canon_at. rewrite Hl, (lookup_weaken _ _ _ _ Hl Hsub). simpl.
  destruct (Z.leb_spec 0 n), (Z.leb_spec n (l_number l)); simpl; try done.
  destruct (up_total c Hc (Z.to_nat (l_number l - n)) b l Hl ltac:(lia)) as [x Hx]. rewrite Hx. by eapply up_mono.
Qed.

Section Ok.
Context c (Hc : chain_ok c).

Lemma canon_at_spec b n h :
  canon_at c b n = Some h <-> ancestor c h b /\ l_number <$> c !! h = Some n.
Proof using Hc.
  unfold canon_at. destruct (c !! b) as [l|] eqn:Hl; simpl.
  2:{ split; [done|]. intros [[_ [? ?]]%ancestor_known _]. congruence. }
  split.
  - destruct (Z.leb_spec 0 n), (Z.leb_spec n (l_number l)); simpl; try done. intros Hu.
    destruct (up_to _ _ _ _ Hu) as [lh Hh]. pose proof (up_number c Hc _ _ _ _ _ Hu Hl Hh).
    split; [by eexists|]. rewrite Hh. simpl. f_equal. lia.
  - intros [Ha Hn]. destruct (c !! h) as [lh|] eqn:Hh; simplify_eq/=.
    pose proof (ancestor_number c Hc _ _ _ _ Ha Hh Hl). destruct Ha as [k Hk]. pose proof (up_number c Hc _ _ _ _ _ Hk Hl Hh).
    rewrite (proj2 (Z.leb_le _ _)), (proj2 (Z.leb_le _ _)) by lia. simpl. by replace (Z.to_nat _) with k by lia.
Qed.

Lemma canon_at_self b l : c !! b = Some l -> canon_at c b (l_number l) = Some b.
Proof using Hc. intros Hl. apply canon_at_spec. split; [by eapply ancestor_refl|by rewrite Hl]. Qed.

Lemma canon_at_above b l n : c !! b = Some l -> l_number l < n -> canon_at c b n = None.
Proof using Hc. intros Hl Hn. unfold canon_at. rewrite Hl. simpl. rewrite (proj2 (Z.leb_gt n (l_number l))) by lia. by rewrite andb_false_r. Qed.

(** Below the top, the chain is that of the parent. *)
Lemma canon_at_parent b l p n :
  c !! b = Some l -> c !! l_parent l = Some p -> n <> l_number l -> canon_at c b n = canon_at c (l_parent l) n.
Proof using Hc.
  intros Hl Hp Hn. pose proof (parent_number c Hc b l p Hl Hp) as Hpn.
  unfold canon_at. rewrite Hl, Hp. simpl. rewrite Hpn.
  destruct (Z.leb_spec 0 n), (Z.leb_spec n (l_number l)), (Z.leb_spec n (l_number l - 1)); simpl; try done; try lia.
  replace (Z.to_nat (l_number l - n)) with (S (Z.to_nat (l_number l - 1 - n))) by lia. by rewrite (up_S _ _ _ l).
Qed.

Lemma canon_at_genesis b l n : c !! b = Some l -> l_number l = 0 -> canon_at c b n = if decide (n = 0) then Some b else None.
Proof using Hc.
  intros Hl H0. case_decide as Hn; [subst; rewrite <- H0; by apply canon_at_self|].
  unfold canon_at. rewrite Hl. simpl. rewrite H0.
  destruct (Z.leb_spec 0 n), (Z.leb_spec n 0); simpl; try done. lia.
Qed.

(** Two chains agree up to their common ancestor. *)
Lemma canon_at_below b b' x lx n :
  ancestor c x b -> ancestor c x b' -> c !! x = Some lx -> n <= l_number lx -> canon_at c b n = canon_at c b' n.
Proof using Hc.
  intros Hb Hb' Hx Hn. assert (forall b, ancestor c x b -> canon_at c b n = canon_at c x n) as Heq.
  { clear b b' Hb Hb'. intros b [k Hk]. destruct (up_from _ _ _ _ Hk) as [l Hl]. pose proof (up_number c Hc _ _ _ _ _ Hk Hl Hx).
    unfold canon_at. rewrite Hl, Hx. simpl. destruct (Z.leb_spec 0 n); simpl; [|done].
    rewrite !(proj2 (Z.leb_le _ _)) by lia.
    replace (Z.to_nat (l_number l - n)) with (k + Z.to_nat (l_number lx - n))%nat by lia. by apply up_add. }
  by rewrite (Heq b), (Heq b').
Qed.

(** *** Enacting and retracting *)

Definition enact (m : gmap Z Hash) (l : list HashAndNumber) : gmap Z Hash := foldl (fun m e => <[hn_number e := hn_hash e]> m) m l.
Definition retract (m : gmap Z Hash) (l : list HashAndNumber) : gmap Z Hash := foldl (fun m e => delete (hn_number e) m) m l.

Lemma enact_path k h l x lx m n :
  c !! h = Some l -> up c k h = Some x -> c !! x = Some lx ->
  enact m (rev (path c k h)) !! n = if (l_number lx <? n) && (n <=? l_number l) then canon_at c h n else m !! n.
Proof using Hc.
  revert h l. induction k as [|k IH]; intros h l Hl Hk Hx.
  - rewrite (up_0 _ _ l) in Hk by done. simplify_eq. simpl.
    destruct (Z.ltb_spec (l_number l) n), (Z.leb_spec n (l_number l)); simpl; try done. lia.
  - rewrite (up_S _ _ _ l) in Hk by done. destruct (up_from _ _ _ _ Hk) as [p Hp].
    pose proof (up_number c Hc _ _ _ _ _ Hk Hp Hx). pose proof (ok_number c Hc _ _ Hx).
    pose proof (parent_number c Hc h l p Hl Hp) as Hpn.
    cbn [path]. rewrite Hl. cbn [rev]. unfold enact. rewrite foldl_app. simpl.
    destruct (decide (n = l_number l)) as [->|Hn].
    + rewrite lookup_insert_eq, (canon_at_self h l) by done.
      by rewrite (proj2 (Z.ltb_lt _ _)), (proj2 (Z.leb_le _ _)) by lia.
    + rewrite lookup_insert_ne by done. fold (enact m (rev (path c k (l_parent l)))). rewrite (IH _ p Hp Hk Hx), Hpn.
      rewrite (canon_at_parent h l p) by done.
      destruct (Z.ltb_spec (l_number lx) n), (Z.leb_spec n (l_number l - 1)), (Z.leb_spec n (l_number l)); simpl; try done; lia.
Qed.

Lemma retract_path k h l x lx m n :
  c !! h = Some l -> up c k h = Some x -> c !! x = Some lx ->
  retract m (path c k h) !! n = if (l_number lx <? n) && (n <=? l_number l) then None else m !! n.
Proof using Hc.
  revert h l m. induction k as [|k IH]; intros h l m Hl Hk Hx.
  - rewrite (up_0 _ _ l) in Hk by done. simplify_eq. simpl.
    destruct (Z.ltb_spec (l_number l) n), (Z.leb_spec n (l_number l)); simpl; try done. lia.
  - rewrite (up_S _ _ _ l) in Hk by done. destruct (up_from _ _ _ _ Hk) as [p Hp].
    pose proof (up_number c Hc _ _ _ _ _ Hk Hp Hx). pose proof (ok_number c Hc _ _ Hx).
    pose proof (parent_number c Hc h l p Hl Hp) as Hpn.
    cbn [path]. rewrite Hl. unfold retract. simpl.
    fold (retract (delete (l_number l) m) (path c k (l_parent l))). rewrite (IH _ p _ Hp Hk Hx), Hpn.
    destruct (decide (n = l_number l)) as [->|Hn].
    + rewrite lookup_delete_eq, (proj2 (Z.ltb_lt _ _)), Z.leb_refl by lia. by case_match.
    + rewrite lookup_delete_ne by done.
      destruct (Z.ltb_spec (l_number lx) n), (Z.leb_spec n (l_number l - 1)), (Z.leb_spec n (l_number l)); simpl; try done; lia.
Qed.

(** Retracting one branch and enacting the other leaves the chain of the other. *)
Lemma rerouted_exactly best to lb lt x lx j k (m : gmap Z Hash) n :
  (forall n, m !! n = canon_at c best n) -> c !! best = Some lb -> c !! to = Some lt ->
  ancestor c x best -> ancestor c x to -> c !! x = Some lx -> up c j best = Some x -> up c k to = Some x ->
  enact (retract m (path c j best)) (rev (path c k to)) !! n = canon_at c to n.
Proof using Hc.
  intros Hm Hb Ht Hxb Hxt Hx Hj Hk. rewrite (enact_path k to lt x lx), (retract_path j best lb x lx), Hm by done.
  destruct (Z.ltb_spec (l_number lx) n), (Z.leb_spec n (l_number lt)), (Z.leb_spec n (l_number lb)); simpl; try done.
  - rewrite (canon_at_above to lt) by done. done.
  - rewrite (canon_at_above to lt), (canon_at_above best lb) by done. done.
  - eapply canon_at_below; [done..|lia].
  - eapply canon_at_below; [done..|lia].
  - eapply canon_at_below; [done..|lia].
  - eapply canon_at_below; [done..|lia].
Qed.
End Ok.
End Canon.
