(* ===== verification/InMemFacts.v ===== *)
(** * The blockchain in memory: invariant

    The blocks form a tree, the leaves are the blocks without children, and the
    canonical hashes are the chain of the head; inserting blocks, moving the head,
    finalizing and justifying keep it so, for the reorganizations that the map of
    canonical hashes survives. *)

From S2P Require Import Prelude HeaderMetadata HeaderChain HeaderRoutes HeaderDescent ChainBackend Leaves LeavesFacts InMem InMemCanon.

Section Facts.
Context {P : Profile} {Header Extrinsic : Type} `{!HeaderT Header}.
Local Abbreviation Storage := (BlockchainStorage Header Extrinsic).
Local Abbreviation never := (fun (_ : ChainError) (_ : Storage) => False).
Implicit Types (s : Storage) (header : Header) (h : Hash).

(** The tree of the blocks. *)
Definition links s : Links := (fun b => header_link (stored_header b)) <$> blocks s.

(** Every block is stored under its hash, and numbered in its type. *)
Definition keys_ok s : Prop :=
  map_Forall (fun h b => header_hash (stored_header b) = h /\ in_range U32 (header_number (stored_header b))) (blocks s).

Lemma links_lookup s h : links s !! h = (fun b => header_link (stored_header b)) <$> blocks s !! h.
Proof. apply lookup_fmap. Qed.

(** The backend in memory serves its tree and changes nothing. *)
Definition serves s (c : Links) s' : Prop := s' = s /\ links s = c /\ keys_ok s.

#[export] Instance in_mem_server s0 : HeaderServer (E := ChainError) (serves s0).
Proof.
  split.
  - intros c s h l (-> & <- & Hk) Hl. rewrite links_lookup in Hl. destruct (blocks s0 !! h) as [b|] eqn:Hb; [|done].
    simpl in *. unfold chain_header. wp_steps; simpl in *; rewrite Hb in *; simplify_eq/=.
    split; [|done]. split; simpl; [by rewrite links_lookup, Hb|by apply (Hk h b)|by left].
  - intros c s h (-> & <- & Hk) Hl. rewrite links_lookup in Hl. destruct (blocks s0 !! h) as [b|] eqn:Hb; [done|].
    simpl. unfold chain_header. wp_steps; simpl in *; rewrite Hb in *; done.
  - intros c s h m Hs _. by apply wp_ret.
  - intros c s h Hs. by apply wp_ret.
Qed.

(* ===================================================================== *)
(** ** The head *)

(** The canonical hashes are the chain of the best block. *)
Definition canonical s : Prop := forall n, hashes s !! n = canon_at (links s) (best_hash s) n.

(** A reorganization that the map of canonical hashes survives: back along the
    chain, or to a block whose parent is not below the best block. *)
Definition reorg_ok (c : Links) (best p : Hash) : Prop :=
  ancestor c p best \/ exists lb lp, c !! best = Some lb /\ c !! p = Some lp /\ l_number lb <= l_number lp.

Lemma wp_for_each_modify {S E A} (f : A -> S -> S) l (Q : unit -> S -> Prop) (R : E -> S -> Prop) (t : S) :
  Q tt (foldl (fun t x => f x t) t l) -> wp (for_each l (fun x => modify (f x))) Q R t.
Proof. revert t. induction l as [|x l IH]; intros t; simpl; [done|]. intros HQ. apply wp_bind, wp_modify. by apply IH. Qed.

Lemma foldl_set_hashes {A} (f : A -> gmap Z Hash -> gmap Z Hash) l s :
  foldl (fun s x => set_hashes (f x (hashes s)) s) s l = set_hashes (foldl (fun m x => f x m) (hashes s) l) s.
Proof. revert s. induction l as [|x l IH]; intros s; simpl; [by destruct s|]. by rewrite IH. Qed.

(** The hashes after the route from the best block to the parent of the head. *)
Lemma rerouted c best p lb lp x lx j k (m : gmap Z Hash) n :
  chain_ok c -> (forall n, m !! n = canon_at c best n) -> c !! best = Some lb -> c !! p = Some lp ->
  is_lca c best p x -> c !! x = Some lx -> up c j best = Some x -> up c k p = Some x -> reorg_ok c best p ->
  n <> l_number lp + 1 ->
  retract (enact m (rev (path c k p))) (drop k (path c j best)) !! n = canon_at c p n.
Proof.
  intros Hc Hm Hb Hp (Hxb & Hxp & Hl) Hx Hj Hk Hr Hn.
  pose proof (up_number c Hc _ _ _ _ _ Hj Hb Hx) as Ej. pose proof (up_number c Hc _ _ _ _ _ Hk Hp Hx) as Ek.
  assert (k = 0%nat \/ (j <= k)%nat) as [->|Hjk].
  { destruct Hr as [Ha|(lb' & lp' & Hb' & Hp' & Hle)]; [left|simplify_eq; lia].
    assert (ancestor c p x) as Hpx by (apply Hl; [done|by eapply ancestor_refl]).
    pose proof (ancestor_number c Hc _ _ _ _ Hpx Hp Hx). lia. }
  - assert (p = x) as -> by (rewrite (up_0 _ _ lp) in Hk by done; congruence). rewrite drop_0.
    assert (lp = lx) as -> by congruence.
    rewrite (retract_path c Hc j best lb x lx) by done. simpl. rewrite Hm.
    destruct (Z.ltb_spec (l_number lx) n), (Z.leb_spec n (l_number lb)); simpl; try (symmetry; by eapply canon_at_above).
    + rewrite (canon_at_above c Hc best lb), (canon_at_above c Hc x lx) by done. done.
    + eapply (canon_at_below c Hc _ _ x lx); [done..|lia].
    + eapply (canon_at_below c Hc _ _ x lx); [done..|lia].
  - rewrite drop_ge by (by rewrite (path_length c j best x)). simpl. rewrite (enact_path c Hc k p lp x lx), Hm by done.
    destruct (Z.ltb_spec (l_number lx) n), (Z.leb_spec n (l_number lp)); simpl; try done.
    + rewrite (canon_at_above c Hc best lb), (canon_at_above c Hc p lp) by (done || lia). done.
    + eapply (canon_at_below c Hc _ _ x lx); [done..|lia].
    + eapply (canon_at_below c Hc _ _ x lx); [done..|lia].
Qed.

(** The tree after a head is set, with the block of the head in it. *)
Record extends header (c c' : Links) : Prop := {
  ex_sub : c ⊆ c';
  ex_ok : chain_ok c';
  ex_head : c' !! header_hash header = Some (header_link header)
}.

(** A map that is the chain of the parent, with the head on top. *)
Lemma crown header c c' lp (m : gmap Z Hash) n :
  chain_ok c -> extends header c c' -> c !! header_parent_hash header = Some lp ->
  (n <> l_number lp + 1 -> m !! n = canon_at c (header_parent_hash header) n) ->
  <[header_number header := header_hash header]> m !! n = canon_at c' (header_hash header) n.
Proof.
  intros Hc [Hsub Hc' Hh] Hp Hm. pose proof (lookup_weaken _ _ _ _ Hp Hsub) as Hp'.
  pose proof (parent_number c' Hc' _ _ lp Hh Hp') as Hn. simpl in Hn.
  destruct (decide (n = header_number header)) as [->|Hne].
  - rewrite lookup_insert_eq. symmetry. exact (canon_at_self c' Hc' _ _ Hh).
  - rewrite lookup_insert_ne by done. rewrite (canon_at_parent c' Hc' _ _ lp _ Hh Hp') by done. simpl.
    rewrite (canon_at_mono c c' _ lp) by done. apply Hm. lia.
Qed.

(** What a move of the head does to the canonical hashes. *)
Definition head_hashes header s (m : gmap Z Hash) : Prop :=
  let c := links s in let p := header_parent_hash header in
  (best_hash s = p /\ m = hashes s) \/
  exists x lx j k, is_lca c (best_hash s) p x /\ c !! x = Some lx /\ up c j (best_hash s) = Some x /\ up c k p = Some x /\
    m = retract (enact (hashes s) (rev (path c k p))) (drop k (path c j (best_hash s))).

Lemma apply_head_run header s :
  chain_ok (links s) -> keys_ok s -> is_Some (links s !! header_parent_hash header) -> is_Some (links s !! best_hash s) ->
  wp (apply_head header)
    (fun _ s' => exists m, head_hashes header s m /\
       s' = set_hashes (<[header_number header := header_hash header]> m) (set_best (header_hash header) (header_number header) s)) never s.
Proof.
  intros Hc Hk [lp Hp] [lb Hb]. unfold apply_head. apply wp_bind, wp_gets, wp_bind.
  case_decide as Heq; [wp_steps; eexists; split; [by left|done]|].
  apply wp_bind. eapply wp_mono; [by eapply (tree_route_ok (shows := serves s) (links s) Hc)| |done].
  intros r s' [[-> _] Hroute]. apply wp_ret.
  destruct (route_parts (S := Storage) (E := ChainError) (links s) _ _ r Hroute) as (x & lx & j & k & Hl & Hx & Hj & Hku & Eret & _ & _ & Een).
  rewrite Een, Eret. apply wp_bind, wp_bind, wp_ret, wp_bind, wp_for_each_modify, wp_bind, wp_ret, wp_for_each_modify.
  rewrite length_rev, (path_length (links s) k (header_parent_hash header) x) by done. wp_steps.
  rewrite (foldl_set_hashes (fun e m => <[hn_number e := hn_hash e]> m)), (foldl_set_hashes (fun e m => delete (hn_number e) m)).
  eexists. split; [|done]. right. by exists x, lx, j, k.
Qed.

Lemma apply_head_ok header c' s :
  chain_ok (links s) -> keys_ok s -> canonical s -> extends header (links s) c' ->
  is_Some (links s !! header_parent_hash header) -> is_Some (links s !! best_hash s) ->
  reorg_ok (links s) (best_hash s) (header_parent_hash header) ->
  wp (apply_head header)
    (fun _ s' => exists m, s' = set_hashes m (set_best (header_hash header) (header_number header) s) /\
       forall n, m !! n = canon_at c' (header_hash header) n) never s.
Proof.
  intros Hc Hk Hcan Hex [lp Hp] [lb Hb] Hr. eapply wp_mono; [by apply apply_head_run; [..|by eexists|by eexists]| |done].
  intros [] s' (m & Hm & ->). eexists. split; [done|]. intros n. apply (crown header (links s) c' lp); [done..|]. intros Hn.
  destruct Hm as [[Heq ->]|(x & lx & j & k & Hl & Hx & Hj & Hku & ->)].
  - rewrite <- Heq. apply Hcan.
  - by eapply (rerouted (links s) (best_hash s) _ lb lp x lx).
Qed.

(* ===================================================================== *)
(** ** The invariant *)

(** A block that no block sits on. *)
Definition childless (c : Links) (n : Z) (h : Hash) : Prop :=
  l_number <$> c !! h = Some n /\ map_Forall (fun _ l => l_parent l <> h) c.

Record chain_inv s : Prop := {
  ci_chain : chain_ok (links s);
  ci_keys : keys_ok s;
  ci_zero : links s !! 0%N = None;
  ci_leaves : leaves_ok (leaves s);
  ci_childless n h : (n, h) ∈ members (leaves s) <-> childless (links s) n h;
  ci_canon : canonical s;
  ci_best : best_hash s = 0%N \/ l_number <$> links s !! best_hash s = Some (best_number s);
  ci_genesis h l : links s !! h = Some l -> l_number l = 0 -> genesis_hash s = h
}.

Lemma childless_extend (c : Links) h l n' h' :
  c !! h = None -> l_parent l <> h -> map_Forall (fun _ l => l_parent l <> h) c ->
  childless (<[h := l]> c) n' h' <-> (n', h') = (l_number l, h) \/ (childless c n' h' /\ h' <> l_parent l).
Proof.
  intros Hh Hp Hch. unfold childless. rewrite map_Forall_insert by done.
  destruct (decide (h' = h)) as [->|Hne].
  - rewrite lookup_insert_eq, Hh. simpl. naive_solver.
  - rewrite lookup_insert_ne by done. naive_solver.
Qed.

(** A header that the chain may take: new, with a parent one below it; the first
    one has number 0 and sits on nothing. *)
Record admissible header s : Prop := {
  ad_new : links s !! header_hash header = None;
  ad_zero : header_hash header <> 0%N;
  ad_range : in_range U32 (header_number header);
  ad_self : header_parent_hash header <> header_hash header;
  ad_children : map_Forall (fun _ l => l_parent l <> header_hash header) (links s);
  ad_parent : (header_number header = 0 /\ links s = ∅ /\ header_parent_hash header = 0%N) \/
    exists lp, links s !! header_parent_hash header = Some lp /\ l_number lp + 1 = header_number header
}.

(** The head may move onto the parent of the header. *)
Definition head_ok header s : Prop :=
  links s = ∅ \/ (is_Some (links s !! best_hash s) /\ reorg_ok (links s) (best_hash s) (header_parent_hash header)).

Lemma admissible_extends header s :
  chain_inv s -> admissible header s -> extends header (links s) (<[header_hash header := header_link header]> (links s)).
Proof.
  intros Hi [Hn Hz Hr Hs Hch Hpar]. split; [by apply insert_subseteq| |apply lookup_insert_eq].
  destruct Hpar as [(H0 & He & Hp)|(lp & Hp & Hnum)].
  - rewrite He, insert_empty. split.
    + intros h l [<- <-]%lookup_singleton_Some. simpl. apply Hr.
    + intros h l [<- <-]%lookup_singleton_Some. simpl. lia.
    + intros h l h' l' [<- <-]%lookup_singleton_Some [<- <-]%lookup_singleton_Some. done.
    + intros h l [<- <-]%lookup_singleton_Some _. simpl. rewrite lookup_singleton_None. congruence.
  - unfold header_link. rewrite <- Hnum. by apply (extend_chain_ok _ _ _ lp); [apply (ci_chain s Hi)|..].
Qed.

Lemma head_moves header s :
  chain_inv s -> admissible header s -> head_ok header s ->
  wp (apply_head header)
    (fun _ s' => exists m, s' = set_hashes m (set_best (header_hash header) (header_number header) s) /\
       forall n, m !! n = canon_at (<[header_hash header := header_link header]> (links s)) (header_hash header) n) never s.
Proof.
  intros Hi Had Hh. pose proof (admissible_extends header s Hi Had) as Hex.
  destruct (ad_parent _ _ Had) as [(H0 & He & Hp)|(lp & Hp & Hnum)].
  - assert (best_hash s = 0%N) as Hb by (destruct (ci_best s Hi) as [|Hb]; [done|by rewrite He, lookup_empty in Hb]).
    unfold apply_head. apply wp_bind, wp_gets, wp_bind. rewrite decide_True by congruence. wp_steps.
    eexists. split; [done|]. intros n. simpl. rewrite (canon_at_genesis _ (ex_ok _ _ _ Hex) _ _ n (ex_head _ _ _ Hex)) by done.
    rewrite lookup_insert, H0, (ci_canon s Hi n), He. unfold canon_at. rewrite lookup_empty. simpl. repeat case_decide; congruence.
  - destruct Hh as [He|[Hb Hr]]; [by rewrite He, lookup_empty in Hp|].
    apply apply_head_ok; try done; [apply (ci_chain s Hi)|apply (ci_keys s Hi)|apply (ci_canon s Hi)].
Qed.

(** A state between the move of the head and the insertion of its block. *)
Record head_moved header s t : Prop := {
  hm_blocks : blocks t = blocks s;
  hm_leaves : leaves t = leaves s;
  hm_genesis : genesis_hash t = genesis_hash s;
  hm_canon n : hashes t !! n = canon_at (<[header_hash header := header_link header]> (links s)) (best_hash t) n;
  hm_best : best_hash t = 0%N \/
    l_number <$> <[header_hash header := header_link header]> (links s) !! best_hash t = Some (best_number t)
}.

Lemma head_stays header s : chain_inv s -> admissible header s -> head_moved header s s.
Proof.
  intros Hi Had. pose proof (admissible_extends header s Hi Had) as [Hsub Hc' _]. split; try done.
  - intros n. rewrite (ci_canon s Hi n). destruct (links s !! best_hash s) as [l|] eqn:Hl.
    + symmetry. by apply (canon_at_mono _ _ _ l); [apply (ci_chain s Hi)|..].
    + assert (best_hash s = 0%N) as Hb by (destruct (ci_best s Hi) as [|Hb]; [done|by rewrite Hl in Hb]).
      unfold canon_at. rewrite Hl, Hb, lookup_insert_ne by apply (ad_zero _ _ Had). by rewrite (ci_zero s Hi).
  - destruct (ci_best s Hi) as [|Hb]; [by left|right]. destruct (links s !! best_hash s) as [l|] eqn:Hl; [|done].
    by rewrite (lookup_weaken _ _ _ _ Hl Hsub).
Qed.

(** The state after the insertion. *)
Lemma inserted_inv header just body s t lvs :
  chain_inv s -> admissible header s -> head_moved header s t ->
  leaves_ok lvs ->
  members lvs = {[(header_number header, header_hash header)]} ∪ members (leaves s) ∖ {[(header_number header - 1, header_parent_hash header)]} ->
  forall t', blocks t' = <[header_hash header := stored_new header body just]> (blocks s) -> hashes t' = hashes t ->
    best_hash t' = best_hash t -> best_number t' = best_number t -> leaves t' = lvs ->
    genesis_hash t' = (if header_number header =? 0 then header_hash header else genesis_hash s) -> chain_inv t'.
Proof.
  intros Hi Had Hm Hlv Hmem t' Eb Eh Ebh Ebn El Eg. pose proof (admissible_extends header s Hi Had) as [_ Hc' _].
  assert (links t' = <[header_hash header := header_link header]> (links s)) as Hlinks.
  { unfold links. rewrite Eb, fmap_insert. by destruct body. }
  destruct Had as [Hn Hz Hr Hs Hch Hpar]. split; rewrite ?Hlinks, ?El; try done.
  - unfold keys_ok. rewrite Eb. apply map_Forall_insert_2; [by destruct body|apply (ci_keys s Hi)].
  - rewrite lookup_insert_ne by done. apply (ci_zero s Hi).
  - intros n h. rewrite Hmem, elem_of_union, elem_of_difference, !elem_of_singleton, (ci_childless s Hi), childless_extend by done.
    apply or_iff_compat_l. split; intros [Hcl Hne]; (split; [done|]).
    + simpl. intros ->. apply Hne. destruct Hcl as [Hnum _]. destruct Hpar as [(_ & He & _)|(lp & Hp & Hlp)].
      * by rewrite He, lookup_empty in Hnum.
      * rewrite Hp in Hnum. simplify_eq/=. f_equal. lia.
    + simpl in Hne. congruence.
  - intros n. rewrite Eh, Ebh, Hlinks. apply (hm_canon _ _ _ Hm).
  - rewrite Ebh, Ebn. apply (hm_best _ _ _ Hm).
  - intros h l. rewrite Eg. intros [[<- <-]|[Hne Hl]]%lookup_insert_Some H0.
    + simpl in H0. by rewrite H0.
    + destruct Hpar as [(_ & He & _)|(lp & Hp & Hlp)]; [by rewrite He, lookup_empty in Hl|].
      pose proof (ok_number _ (ci_chain s Hi) _ _ Hp). destruct (Z.eqb_spec (header_number header) 0); [lia|].
      by apply (ci_genesis s Hi h l).
Qed.

Lemma chain_insert_ok header just body state s :
  chain_inv s -> admissible header s -> (is_best state -> head_ok header s) ->
  wp (chain_insert (header_hash header) header just body state)
    (fun _ s' => chain_inv s' /\ blocks s' = <[header_hash header := stored_new header body just]> (blocks s) /\
       best_hash s' = (if is_best state then header_hash header else best_hash s) /\
       finalized_hash s' = (if is_final state then header_hash header else finalized_hash s) /\
       finalized_number s' = (if is_final state then header_number header else finalized_number s)) never s.
Proof.
  intros Hi Had Hh. unfold chain_insert. apply wp_bind.
  eapply (wp_mono _ (fun _ t => head_moved header s t /\ best_hash t = (if is_best state then header_hash header else best_hash s) /\
    finalized_hash t = finalized_hash s /\ finalized_number t = finalized_number s) _ never); [| |done].
  { destruct (is_best state); [|apply wp_ret; split_and!; try done; by apply head_stays].
    eapply wp_mono; [by apply head_moves; [..|apply Hh]| |done]. intros [] t (m & -> & Hm). split_and!; try done.
    split; try done. simpl. right. by rewrite lookup_insert_eq. }
  intros [] t (Hm & Hb & Hf & Hfn). apply wp_bind, wp_zoom.
  assert ((header_number header, header_hash header) ∉ members (leaves t)) as Hnew.
  { rewrite (hm_leaves _ _ _ Hm), (ci_childless s Hi). intros [Hl _]. by rewrite (ad_new _ _ Had) in Hl. }
  eapply wp_mono; [apply import_ok; [rewrite (hm_leaves _ _ _ Hm); apply (ci_leaves s Hi)|apply (ad_range _ _ Had)|done]| |done].
  intros d lvs (Hok & Hmem & _). rewrite (hm_leaves _ _ _ Hm) in Hmem. apply wp_bind, wp_modify, wp_bind.
  pose proof (inserted_inv header just body s t lvs Hi Had Hm Hok Hmem) as Hinv.
  destruct (is_final state), (header_number header =? 0) eqn:H0; wp_steps; simpl;
    (split_and!; [apply Hinv; simpl; rewrite ?(hm_blocks _ _ _ Hm), ?(hm_genesis _ _ _ Hm); done|by rewrite (hm_blocks _ _ _ Hm)|done..]).
Qed.
End Facts.
