(* ===== verification/InMemOps.v ===== *)
(** * The blockchain in memory: every operation keeps the invariant *)

From S2P Require Import Prelude HeaderMetadata HeaderChain HeaderRoutes HeaderDescent ChainBackend Leaves LeavesFacts InMem InMemCanon InMemFacts.

Section Ops.
Context {P : Profile} {Header Extrinsic : Type} `{!HeaderT Header}.
Local Abbreviation Storage := (BlockchainStorage Header Extrinsic).
Local Abbreviation never := (fun (_ : ChainError) (_ : Storage) => False).
Implicit Types (s : Storage) (header : Header) (h : Hash).

(** *** Blocks by their identifier *)

Lemma chain_header_hash id header s : keys_ok s -> chain_header id s = Some header -> chain_id id s = Some (header_hash header).
Proof.
  intros Hk. unfold chain_header. destruct (chain_id id s) as [h|]; simpl; [|done].
  destruct (blocks s !! h) as [b|] eqn:Hb; simpl; [|done]. intros [= <-]. by destruct (Hk h b Hb) as [-> _].
Qed.

Lemma chain_header_block id header s :
  keys_ok s -> chain_header id s = Some header -> exists b, blocks s !! header_hash header = Some b /\ stored_header b = header.
Proof.
  intros Hk Hh. pose proof (chain_header_hash _ _ _ Hk Hh) as Hid. unfold chain_header in Hh. rewrite Hid in Hh. simpl in Hh.
  destruct (blocks s !! header_hash header) as [b|]; simpl in Hh; naive_solver.
Qed.

Lemma chain_header_link id header s :
  keys_ok s -> chain_header id s = Some header -> links s !! header_hash header = Some (header_link header).
Proof. intros Hk Hh. destruct (chain_header_block id header s Hk Hh) as (b & Hb & <-). by rewrite links_lookup, Hb. Qed.

(** *** The head *)

(** The invariant does not see the parts that an operation leaves alone. *)
Lemma chain_inv_ext s s' :
  chain_inv s -> links s' = links s -> keys_ok s' -> leaves s' = leaves s -> genesis_hash s' = genesis_hash s ->
  (forall n, hashes s' !! n = canon_at (links s) (best_hash s') n) ->
  best_hash s' = 0%N \/ l_number <$> links s !! best_hash s' = Some (best_number s') -> chain_inv s'.
Proof.
  intros [] Hl Hk Hlv Hg Hcan Hb. split; rewrite ?Hl, ?Hlv, ?Hg; try done. intros n. rewrite Hl. apply Hcan.
Qed.

Lemma known_extends id header s : chain_inv s -> chain_header id s = Some header -> extends header (links s) (links s).
Proof. intros Hi Hh. split; [done|apply (ci_chain s Hi)|]. by apply (chain_header_link id); [apply (ci_keys s Hi)|]. Qed.

(** The head may move to a known block. *)
Definition set_head_ok id s : Prop :=
  forall header, chain_header id s = Some header -> is_Some (links s !! header_parent_hash header) ->
    is_Some (links s !! best_hash s) -> reorg_ok (links s) (best_hash s) (header_parent_hash header).

(** Without a route, nothing changes. *)
Lemma no_route header s :
  keys_ok s -> best_hash s <> header_parent_hash header ->
  links s !! best_hash s = None \/ links s !! header_parent_hash header = None ->
  wp (apply_head header) (fun _ _ => False) (fun _ s' => s' = s) s.
Proof.
  intros Hk Hne Hu. unfold apply_head. apply wp_bind, wp_gets, wp_bind. rewrite decide_False by done.
  apply wp_bind. eapply wp_mono; [by apply (tree_route_unknown (shows := serves s) (links s))|done|]. by intros e s' [-> _].
Qed.

Lemma chain_set_head_ok id s :
  chain_inv s -> set_head_ok id s ->
  wp (chain_set_head id)
    (fun _ s' => chain_inv s' /\ blocks s' = blocks s /\ chain_id id s = Some (best_hash s')) (fun _ s' => s' = s) s.
Proof.
  intros Hi Hset. unfold chain_set_head. wp_steps; [|done]. rename a into header.
  pose proof (ci_keys s Hi) as Hk. pose proof (known_extends id header s Hi H) as Hex.
  pose proof (chain_header_hash id header s Hk H) as Hid.
  destruct (links s !! best_hash s) as [lb|] eqn:Hb, (links s !! header_parent_hash header) as [lp|] eqn:Hp.
  - eapply wp_mono; [apply (apply_head_ok header (links s) s); try done; [apply (ci_chain s Hi)|apply (ci_canon s Hi)|by apply Hset]| |done].
    intros [] t (m & -> & Hm). split_and!; [|done..]. eapply chain_inv_ext; [done..|]. right. simpl. by rewrite (ex_head _ _ _ Hex).
  - eapply wp_mono; [apply no_route; [done| |by right]|done|done]. congruence.
  - eapply wp_mono; [apply no_route; [done| |by left]|done|done]. congruence.
  - destruct (decide (best_hash s = header_parent_hash header)) as [Heq|Hne].
    + assert (header_number header = 0) as H0.
      { destruct (decide (header_number header = 0)) as [|H0]; [done|]. pose proof (ok_number _ (ci_chain s Hi) _ _ (ex_head _ _ _ Hex)).
        destruct (ok_parent _ (ci_chain s Hi) _ _ (ex_head _ _ _ Hex) ltac:(simpl in *; lia)) as (q & Hq & _). simpl in Hq. congruence. }
      unfold apply_head. apply wp_bind, wp_gets, wp_bind. rewrite decide_True by done. wp_steps. split_and!; [|done..].
      eapply chain_inv_ext; [done..| |right; simpl; by rewrite (ex_head _ _ _ Hex)]. intros n. simpl.
      rewrite (canon_at_genesis _ (ci_chain s Hi) _ _ n (ex_head _ _ _ Hex)) by done.
      rewrite lookup_insert, H0, (ci_canon s Hi n). unfold canon_at. rewrite Hb. simpl. repeat case_decide; congruence.
    + eapply wp_mono; [apply no_route; [done..|by left]|done|done].
Qed.

(** *** Justifications *)

(** A block whose justifications change keeps its place. *)
Lemma justify_links h b j s s' :
  blocks s !! h = Some b -> blocks s' = <[h := set_justifications j b]> (blocks s) -> links s' = links s.
Proof.
  intros Hb Eb. unfold links. rewrite Eb, fmap_insert. apply insert_id. rewrite lookup_fmap, Hb. by destruct b.
Qed.

Lemma justify_keys h b j s s' :
  blocks s !! h = Some b -> keys_ok s -> blocks s' = <[h := set_justifications j b]> (blocks s) -> keys_ok s'.
Proof.
  intros Hb Hk Eb. unfold keys_ok. rewrite Eb. apply map_Forall_insert_2; [|done]. destruct (Hk h b Hb). by destruct b.
Qed.

Lemma justify_inv h b j s :
  chain_inv s -> blocks s !! h = Some b -> chain_inv (set_blocks (<[h := set_justifications j b]> (blocks s)) s).
Proof.
  intros Hi Hb. eapply chain_inv_ext; [done|by eapply justify_links|by eapply justify_keys; [|apply (ci_keys s Hi)|]|done|done|..].
  - apply (ci_canon s Hi).
  - apply (ci_best s Hi).
Qed.

Lemma finalize_header_ok id j s :
  chain_inv s ->
  wp (finalize_header id j)
    (fun _ s' => chain_inv s' /\ links s' = links s /\ chain_id id s = Some (finalized_hash s') /\ finalized_number s' = finalized_number s /\
       (forall j', j = Some j' -> chain_justifications id s' = Some [j']))
    (fun e s' => e = UnknownBlock /\ s' = s /\ chain_header id s = None) s.
Proof.
  intros Hi. pose proof (ci_keys s Hi) as Hk. unfold finalize_header. wp_steps; [|done]. rename a into header.
  pose proof (chain_header_hash id header s Hk H) as Hid. destruct (chain_header_block id header s Hk H) as (b & Hb & Hbh).
  destruct j as [j|]; wp_steps; simpl.
  - eapply wp_unwrap; [exact Hb|]. wp_steps. simpl. split_and!; [|by eapply justify_links|done|done|].
    + refine (chain_inv_ext _ _ (justify_inv _ b (Some [j]) s Hi Hb) _ _ _ _ _ _); try done.
      * by eapply justify_keys.
      * intros n. simpl. rewrite (justify_links _ b (Some [j]) s) by done. apply (ci_canon s Hi).
      * simpl. rewrite (justify_links _ b (Some [j]) s) by done. apply (ci_best s Hi).
    + intros j' [= <-]. unfold chain_justifications. destruct id as [h|n]; simpl in *; rewrite ?Hid in *; simplify_eq/=;
        rewrite lookup_insert_eq; by destruct b.
  - split_and!; [|done..]. eapply chain_inv_ext; [done..| |]; [apply (ci_canon s Hi)|apply (ci_best s Hi)].
Qed.

(** A second justification of one engine is refused. *)
Lemma append_justification_ok id j h b s :
  chain_inv s -> chain_id id s = Some h -> blocks s !! h = Some b ->
  wp (append_justification id j)
    (fun _ s' => chain_inv s' /\ links s' = links s /\ chain_justifications id s' = Some (default [] (stored_justifications b) ++ [j]))
    (fun e s' => e = BadJustification /\ s' = s /\ exists js, stored_justifications b = Some js /\ is_Some (justification_of j.1 js)) s.
Proof.
  intros Hi Hid Hb. unfold append_justification. apply wp_bind.
  assert (expect_block_hash_from_id (S := Storage) id s = Ok h s) as Hex.
  { unfold expect_block_hash_from_id, bind. destruct id; cbn in *; [by simplify_eq|].
    unfold chain_hash. cbn. by rewrite Hid. }
  unfold wp at 1. rewrite Hex. wp_steps. eapply wp_unwrap; [exact Hb|]. cbv beta.
  assert (forall js, chain_inv (set_blocks (<[h := set_justifications (Some js) b]> (blocks s)) s) /\
    links (set_blocks (<[h := set_justifications (Some js) b]> (blocks s)) s) = links s /\
    chain_justifications id (set_blocks (<[h := set_justifications (Some js) b]> (blocks s)) s) = Some js) as Hj.
  { intros js. split_and!; [by apply justify_inv|by eapply justify_links|]. unfold chain_justifications.
    destruct id; simpl in *; rewrite ?Hid; simplify_eq/=; rewrite lookup_insert_eq; by destruct b. }
  destruct (stored_justifications b) as [js|] eqn:Hjs; [|wp_steps; apply (Hj [j])].
  unfold justifications_append. destruct (justification_of j.1 js) as [x|] eqn:Hx; wp_steps; [|apply Hj].
  split_and!; [done|done|]. exists js. by rewrite Hx.
Qed.

(** A hash that is not in the chain ends in a panic. *)
Lemma append_unknown h j s : blocks s !! h = None -> append_justification (IdHash h) j s = Panic.
Proof. intros Hb. unfold append_justification, bind. simpl. unfold unwrap. by rewrite Hb. Qed.

(** *** Auxiliary data *)

Lemma set_aux_inv m s : chain_inv s -> chain_inv (set_aux m s).
Proof. intros []. by split. Qed.

Lemma write_aux_ok ops s :
  chain_inv s ->
  wp (write_aux ops) (fun _ s' => chain_inv s' /\ s' = set_aux (foldl (fun m '(k, v) => put_opt k v m) (aux s) ops) s) never s.
Proof.
  intros Hi. unfold write_aux.
  assert (forall t, chain_inv t -> wp (for_each ops (fun '(k, v) => modify (fun s => set_aux (put_opt k v (aux s)) s)))
    (fun _ s' => s' = set_aux (foldl (fun m '(k, v) => put_opt k v m) (aux t) ops) t) never t) as Hl.
  { clear s Hi. induction ops as [|[k v] ops IH]; intros t Ht; simpl; [by destruct t|].
    apply wp_bind, wp_modify. eapply wp_mono; [by apply IH, set_aux_inv| |done]. by intros [] s' ->. }
  eapply wp_mono; [by apply Hl| |done]. intros [] s' ->. split; [by apply set_aux_inv|done].
Qed.
End Ops.
