(* ===== verification/InMemBest.v ===== *)
(** * The best chain that contains a block

    Over the blockchain in memory, the search ends with the highest block above
    the target, within the limit that was asked for. *)

From S2P Require Import Prelude HeaderMetadata HeaderChain HeaderRoutes HeaderDescent ChainBackend Leaves LeavesFacts InMem InMemCanon InMemFacts InMemOps.

Section Best.
Context {P : Profile} {Header Extrinsic : Type} `{!HeaderT Header}.
Local Abbreviation Storage := (BlockchainStorage Header Extrinsic).
Implicit Types (s : Storage) (header : Header) (h target : Hash).

Section Search.
Context s (Hi : chain_inv s).
Local Abbreviation c := (links s).

Lemma present_ok h l : c !! h = Some l -> exists header, present h s = Ok header s /\ header_link header = l /\ header_hash header = h.
Proof using Hi.
  rewrite links_lookup. destruct (blocks s !! h) as [b|] eqn:Hb; [|done]. intros [= <-].
  exists (stored_header b). split_and!; [|done|by apply (ci_keys s Hi h b)].
  unfold present, bind. cbn. unfold chain_header. cbn. by rewrite Hb.
Qed.

(** The block of a leaf's chain where the search enters the range. *)
Definition top (max : option Z) (leaf x : Hash) : Prop :=
  match max with
  | Some m => exists ll lx, ancestor c x leaf /\ c !! leaf = Some ll /\ c !! x = Some lx /\ l_number lx = Z.min m (l_number ll)
  | None => x = leaf
  end.

Lemma enter_range_ok fuel m leaf ll :
  0 <= m -> c !! leaf = Some ll -> (Z.to_nat (l_number ll) < fuel)%nat ->
  exists x, enter_range fuel m leaf s = Ok (x, x) s /\ top (Some m) leaf x.
Proof using Hi.
  intros Hm. revert leaf ll. induction fuel as [|fuel IH]; intros leaf ll Hl Hf; [lia|].
  cbn [enter_range]. destruct (present_ok leaf ll Hl) as (header & Hp & Hh & Hhash). unfold bind. rewrite Hp.
  assert (header_number header = l_number ll) as -> by (by rewrite <- Hh).
  destruct (Z.leb_spec (l_number ll) m) as [Hle|Hgt].
  - exists leaf. rewrite Hhash. split; [done|]. exists ll, ll. split_and!; [by eapply ancestor_refl|done|done|lia].
  - destruct (ok_parent c (ci_chain s Hi) leaf ll Hl ltac:(lia)) as (p & Hpp & Hn).
    assert (header_parent_hash header = l_parent ll) as -> by (by rewrite <- Hh).
    destruct (IH (l_parent ll) p Hpp ltac:(lia)) as (x & Hx & (lq & lx & Ha & Hlq & Hlx & Hnum)). exists x. split; [done|].
    assert (lq = p) as -> by congruence. exists ll, lx. split_and!; [|done|done|lia]. eapply ancestor_trans; [exact Ha|]. by eapply ancestor_parent.
Qed.

Lemma find_target_ok fuel target lt h l :
  c !! target = Some lt -> c !! h = Some l -> (Z.to_nat (l_number l) < fuel)%nat ->
  exists b, find_target fuel target (l_number lt) h s = Ok b s /\ (b = true <-> ancestor c target h).
Proof using Hi.
  intros Ht. revert h l. induction fuel as [|fuel IH]; intros h l Hl Hf; [lia|].
  pose proof (ci_chain s Hi) as Hc. cbn [find_target]. case_decide as He.
  { subst. exists true. split; [done|]. split; [|done]. intros _. by eapply ancestor_refl. }
  destruct (present_ok h l Hl) as (header & Hp & Hh & Hhash). unfold bind. rewrite Hp.
  assert (header_number header = l_number l) as -> by (by rewrite <- Hh).
  assert (header_parent_hash header = l_parent l) as -> by (by rewrite <- Hh).
  destruct (Z.ltb_spec (l_number l) (l_number lt)) as [Hlt|Hge].
  - exists false. split; [done|]. split; [done|]. intros Ha. pose proof (ancestor_number c Hc _ _ _ _ Ha Ht Hl). lia.
  - pose proof (ok_number c Hc _ _ Ht). assert (l_number l <> 0) as H0.
    { intros H0. apply He. eapply (ok_genesis c Hc); [exact Hl|exact Ht|done|lia]. }
    destruct (ok_parent c Hc h l Hl ltac:(lia)) as (p & Hpp & Hn).
    destruct (IH (l_parent l) p Hpp ltac:(lia)) as (b & Hb & Hiff). exists b. split; [done|]. rewrite Hiff. split; intros Ha.
    + eapply ancestor_trans; [exact Ha|]. by eapply ancestor_parent.
    + destruct (ancestor_step c Hc _ _ _ Hl Ha) as [->|]; done.
Qed.

(** The target is below a leaf exactly if it is below the part in range. *)
Lemma top_target max leaf x target lt :
  top max leaf x -> c !! target = Some lt -> (forall m, max = Some m -> l_number lt <= m) ->
  ancestor c target x <-> ancestor c target leaf.
Proof using Hi.
  intros Htop Ht Hmax. destruct max as [m|]; simpl in Htop; [|by subst].
  destruct Htop as (ll & lx & Ha & Hl & Hx & Hn). pose proof (ci_chain s Hi) as Hc.
  split; intros Hta; [by eapply ancestor_trans|].
  pose proof (ancestor_number c Hc _ _ _ _ Hta Ht Hl). specialize (Hmax m eq_refl).
  eapply (ancestor_linear c Hc); [exact Hta|exact Ha|exact Ht|exact Hx|lia].
Qed.

(** What the loop over the leaves finds: the first leaf above the target. *)
Lemma search_leaves_ok fuel target lt max ls :
  c !! target = Some lt -> (forall m, max = Some m -> l_number lt <= m) ->
  Forall (fun h => exists l, c !! h = Some l /\ (Z.to_nat (l_number l) < fuel)%nat) ls ->
  exists r, search_leaves fuel target (l_number lt) max ls s = Ok r s /\
    match r with
    | Some x => exists ls1 leaf ls2, ls = ls1 ++ leaf :: ls2 /\ ancestor c target leaf /\ top max leaf x /\
        Forall (fun h => ~ ancestor c target h) ls1
    | None => Forall (fun h => ~ ancestor c target h) ls
    end.
Proof using Hi.
  intros Ht Hmax. pose proof (ci_chain s Hi) as Hc. pose proof (ok_number c Hc _ _ Ht).
  induction ls as [|leaf ls IH]; intros Hls; cbn [search_leaves]; [by exists None|].
  apply Forall_cons in Hls as [(l & Hl & Hf) Hls].
  assert (exists x, match max with Some m => enter_range fuel m leaf | None => ret (leaf, leaf) end s = Ok (x, x) s /\ top max leaf x) as (x & Hx & Htop).
  { destruct max as [m|]; [|by exists leaf]. specialize (Hmax m eq_refl). apply (enter_range_ok fuel m leaf l); [lia|done|done]. }
  unfold bind. rewrite Hx. assert (exists lx, c !! x = Some lx /\ (Z.to_nat (l_number lx) < fuel)%nat) as (lx & Hlx & Hfx).
  { destruct max as [m|]; simpl in Htop; [|subst; eauto]. destruct Htop as (ll & lx & Ha & Hl' & Hlx & Hn). assert (ll = l) as -> by congruence.
    exists lx. split; [done|]. lia. }
  destruct (find_target_ok fuel target lt x lx Ht Hlx Hfx) as (b & Hb & Hiff). rewrite Hb.
  rewrite (top_target max leaf x target lt Htop Ht Hmax) in Hiff. destruct b.
  - exists (Some x). split; [done|]. exists [], leaf, ls. split_and!; [done|by apply Hiff|done|constructor].
  - destruct (IH Hls) as (r & Hr & Hspec). exists r. split; [done|].
    assert (~ ancestor c target leaf) as Hno by (intros Ha; by apply Hiff in Ha). destruct r as [y|].
    + destruct Hspec as (ls1 & lf & ls2 & -> & Ha & Hy & Hls1). exists (leaf :: ls1), lf, ls2. split_and!; try done. by constructor.
    + by constructor.
Qed.

(** Every block has a leaf above it. *)
Lemma leaf_above h l : c !! h = Some l -> exists n leaf, childless c n leaf /\ ancestor c h leaf.
Proof using Hi.
  remember (Z.to_nat (U32 - l_number l)) as d eqn:Hd. revert h l Hd. pose proof (ci_chain s Hi) as Hc.
  induction d as [d IH] using lt_wf_ind. intros h l Hd Hl.
  destruct (decide (map_Forall (fun _ l' => l_parent l' <> h) c)) as [Hch|Hch].
  { exists (l_number l), h. split; [split; [by rewrite Hl|done]|by eapply ancestor_refl]. }
  apply map_not_Forall in Hch as (h' & l' & Hl' & Hpar); [|apply _]. apply dec_stable in Hpar. subst h.
  pose proof (parent_number c Hc _ _ _ Hl' Hl) as Hn.
  assert (in_range U32 (l_number l')) as [? ?].
  { rewrite links_lookup in Hl'. destruct (blocks s !! h') as [b|] eqn:Hb; [|done]. simplify_eq/=. by apply (ci_keys s Hi h' b). }
  destruct (IH (Z.to_nat (U32 - l_number l')) ltac:(lia) h' l' eq_refl Hl') as (n & leaf & Hcl & Ha).
  exists n, leaf. split; [done|]. eapply ancestor_trans; [by eapply ancestor_parent|done].
Qed.

(* --------------------------------------------------------------------- *)
(** ** The best block *)

Definition within (max : option Z) (n : Z) : Prop := forall m, max = Some m -> n <= m.

(** The highest block above the target, in range. *)
Definition highest target max b : Prop :=
  ancestor c target b /\
  exists lb, c !! b = Some lb /\ within max (l_number lb) /\
    forall d ld, ancestor c target d -> c !! d = Some ld -> within max (l_number ld) -> l_number ld <= l_number lb.

Lemma leaf_hash_childless h n : (h, n) ∈ leaf_items (leaf_storage (leaves s)) <-> childless c n h.
Proof using Hi. by rewrite elem_of_leaf_items, <- elem_of_members, (ci_childless s Hi). Qed.

(** A leaf that stands above a block is no lower than it is. *)
Lemma first_leaf target ls1 leaf ls2 d ld :
  leaf_hashes (leaves s) = ls1 ++ leaf :: ls2 -> Forall (fun h => ~ ancestor c target h) ls1 ->
  ancestor c target d -> c !! d = Some ld -> exists ll, c !! leaf = Some ll /\ l_number ld <= l_number ll.
Proof using Hi.
  intros Hls Hno Hd Hld. pose proof (ci_chain s Hi) as Hc. rewrite leaf_hashes_items in Hls.
  apply fmap_app_inv in Hls as (i1 & i2 & -> & Hi2 & Hitems). symmetry in Hi2.
  apply fmap_cons_inv in Hi2 as ([lf n] & i2' & -> & -> & ->). simpl in *.
  pose proof (leaf_items_sorted (leaf_storage (leaves s))) as Hs. rewrite Hitems in Hs.
  apply StronglySorted_app in Hs as (_ & _ & Hs). apply StronglySorted_inv in Hs as [_ Hs].
  assert (childless c n lf) as [Hn _] by (apply leaf_hash_childless; rewrite Hitems; apply elem_of_app; right; by left).
  destruct (c !! lf) as [ll|] eqn:Hll; simplify_eq/=. exists ll. split; [done|].
  destruct (leaf_above d ld Hld) as (n' & leaf' & Hcl & Ha). pose proof Hcl as [Hn' _].
  destruct (c !! leaf') as [ll'|] eqn:Hll'; simplify_eq/=. pose proof (ancestor_number c Hc _ _ _ _ Ha Hld Hll').
  apply leaf_hash_childless in Hcl. rewrite Hitems in Hcl. apply elem_of_app in Hcl as [Hin|[He|Hin]%elem_of_cons].
  - rewrite Forall_forall in Hno. destruct (Hno leaf'); [|by eapply ancestor_trans]. apply list_elem_of_fmap. by exists (leaf', l_number ll').
  - injection He as -> ?. simplify_eq. lia.
  - rewrite Forall_forall in Hs. apply Hs in Hin. simpl in Hin. lia.
Qed.

Lemma search_finds fuel target lt max :
  c !! target = Some lt -> within max (l_number lt) -> map_Forall (fun _ l => (Z.to_nat (l_number l) < fuel)%nat) c ->
  exists b, search_leaves fuel target (l_number lt) max (leaf_hashes (leaves s)) s = Ok (Some b) s /\ highest target max b.
Proof using Hi.
  intros Ht Hmax Hf. pose proof (ci_chain s Hi) as Hc.
  destruct (search_leaves_ok fuel target lt max (leaf_hashes (leaves s)) Ht Hmax) as (r & Hr & Hspec).
  { apply Forall_forall. intros h. rewrite leaf_hashes_items. intros ([h' n] & -> & [Hn _]%leaf_hash_childless)%list_elem_of_fmap.
    simpl in *. destruct (c !! h') as [l|] eqn:Hl; [|done]. exists l. split; [done|]. by apply (Hf h'). }
  destruct r as [b|].
  - exists b. split; [done|]. destruct Hspec as (ls1 & leaf & ls2 & Hls & Ha & Htop & Hno). unfold highest.
    split; [by apply (top_target max leaf b target lt)|]. destruct max as [m|]; simpl in Htop.
    + destruct Htop as (ll & lx & Hax & Hll & Hlx & Hn). exists lx. split_and!; [done|intros ? [= <-]; lia|].
      intros d ld Hd Hld Hw. destruct (first_leaf target ls1 leaf ls2 d ld) as (ll' & Hll' & Hle); try done.
      specialize (Hw m eq_refl). simplify_eq. lia.
    + subst b. destruct (ancestor_known _ _ _ Ha) as [_ [ll Hll]]. exists ll. split_and!; [done|by intros ? ?|].
      intros d ld Hd Hld _. destruct (first_leaf target ls1 leaf ls2 d ld) as (ll' & Hll' & Hle); try done. by simplify_eq.
  - exfalso. destruct (leaf_above target lt Ht) as (n & leaf & Hcl & Ha). rewrite Forall_forall in Hspec.
    apply (Hspec leaf); [|done]. rewrite leaf_hashes_items. apply list_elem_of_fmap. exists (leaf, n). by rewrite leaf_hash_childless.
Qed.

(** The target is out of range, or on a fork that was finalized away. *)
Definition excluded target max : Prop :=
  match c !! target with
  | None => True
  | Some lt => ~ within max (l_number lt) \/ (hashes s !! l_number lt <> Some target /\ l_number lt <= finalized_number s)
  end.

(** On the canonical chain, the block at the limit is the highest. *)
Lemma canon_highest target lt m h :
  c !! target = Some lt -> l_number lt <= m -> hashes s !! l_number lt = Some target -> hashes s !! m = Some h ->
  highest target (Some m) h.
Proof using Hi.
  intros Ht Hle Hn Hm. pose proof (ci_chain s Hi) as Hc. rewrite (ci_canon s Hi) in Hn, Hm.
  apply (canon_at_spec c Hc) in Hn as [Ha _], Hm as [Hb Hnum].
  destruct (c !! h) as [lh|] eqn:Hh; simplify_eq/=. split.
  - by eapply (ancestor_linear c Hc); [exact Ha|exact Hb|exact Ht|exact Hh|].
  - exists lh. split_and!; [done|by intros ? [= <-]|]. intros d ld _ _ Hw. by apply Hw.
Qed.

Lemma best_containing_ok fuel target max :
  map_Forall (fun _ l => (Z.to_nat (l_number l) < fuel)%nat) c ->
  exists r, best_containing fuel target max s = Ok r s /\
    match r with Some b => ~ excluded target max /\ highest target max b | None => excluded target max end.
Proof using Hi.
  intros Hf. pose proof (ci_chain s Hi) as Hc. unfold excluded, best_containing. unfold bind at 1. cbn.
  unfold chain_header. cbn. destruct (blocks s !! target) as [b|] eqn:Hb; cbn.
  2:{ exists None. split; [done|]. by rewrite links_lookup, Hb. }
  assert (c !! target = Some (header_link (stored_header b))) as Ht by (by rewrite links_lookup, Hb).
  rewrite Ht. set (n := header_number (stored_header b)). cbn.
  assert ((if match max with Some m => m <? n | None => false end then ~ within max n else within max n)) as Hw.
  { unfold within. destruct max as [m|]; [|done]. destruct (Z.ltb_spec m n); [|naive_solver]. intros Hw. specialize (Hw m eq_refl). lia. }
  destruct (match max with Some m => m <? n | None => false end); [exists None; split; [done|by left]|].
  destruct (search_finds fuel target _ max Ht Hw Hf) as (x & Hx & Hhi). cbn in Hx. fold n in Hx.
  assert ((let! leaves := get_leaves in search_leaves fuel target n max leaves) s = Ok (Some x) s) as Hsearch by exact Hx.
  unfold bind at 1 2. cbn. unfold chain_hash. cbn. fold n. case_decide as Hcan.
  - assert (~ (~ within max n \/ hashes s !! n <> Some target /\ n <= finalized_number s)) as Hex by tauto.
    destruct max as [m|]; [|by exists (Some x)]. unfold bind at 1. cbn. destruct (hashes s !! m) as [h|] eqn:Hm; [|by exists (Some x)].
    exists (Some h). split; [done|]. split; [done|]. eapply canon_highest; [exact Ht|by apply Hw|done|done].
  - destruct (Z.leb_spec n (finalized_number s)); [exists None; split; [done|by right]|]. exists (Some x).
    split; [exact Hsearch|]. split; [|done]. intros [?|[_ ?]]; [done|lia].
Qed.
End Search.
End Best.
