(* ===== verification/InMemTheorems.v ===== *)
(** * The blockchain in memory: what it promises

    Over every history of operations the tree, the leaves and the canonical
    hashes stay coherent; the canonical hashes survive exactly the
    reorganizations that are not onto a shorter fork. *)

From S2P Require Import Prelude HeaderMetadata HeaderChain HeaderRoutes HeaderDescent ChainBackend Leaves LeavesFacts InMem InMemCanon InMemFacts InMemOps InMemBest ChainDemo.

Section Theorems.
Context {P : Profile} {Header Extrinsic : Type} `{!HeaderT Header}.
Local Abbreviation Storage := (BlockchainStorage Header Extrinsic).
Local Abbreviation never := (fun (_ : ChainError) (_ : Storage) => False).
Implicit Types (s : Storage) (header : Header) (h : Hash).

(** *** Histories *)

Inductive ChainCall :=
| CallInsert (header : Header) (justifications : option Justifications) (body : option (list Extrinsic)) (state : NewBlockState)
| CallImportHeader (header : Header) (state : NewBlockState) (aux_ops : list (bytes * option bytes))
| CallSetHead (id : BlockId)
| CallFinalize (id : BlockId) (justification : option Justification)
| CallAppend (id : BlockId) (justification : Justification)
| CallWriteAux (ops : list (bytes * option bytes))
| CallInsertAux (insert : list (bytes * bytes)) (delete : list bytes)
| CallChtRoot (block : Z) (root : Hash).

Definition chain_exec (call : ChainCall) : M Storage ChainError unit :=
  match call with
  | CallInsert header js body state => chain_insert (header_hash header) header js body state
  | CallImportHeader header state ops => import_header header state ops
  | CallSetHead id => chain_set_head id
  | CallFinalize id j => finalize_header id j
  | CallAppend id j => append_justification id j
  | CallWriteAux ops => write_aux ops
  | CallInsertAux ins del => insert_aux ins del
  | CallChtRoot block root => insert_cht_root block root
  end.

(** Blocks come after their parents, the head moves along a reorganization that
    the canonical hashes survive, and justifications are for known blocks. *)
Definition permitted (call : ChainCall) s : Prop :=
  match call with
  | CallInsert header _ _ state | CallImportHeader header state _ => admissible header s /\ (is_best state -> head_ok header s)
  | CallSetHead id => set_head_ok id s
  | CallAppend (IdHash h) _ => is_Some (blocks s !! h)
  | _ => True
  end.

Inductive chain_reachable : Storage -> Prop :=
| chain_reach_new : chain_reachable chain_new
| chain_reach_ok s call s' : chain_reachable s -> permitted call s -> chain_exec call s = Ok tt s' -> chain_reachable s'
| chain_reach_err s call e s' : chain_reachable s -> permitted call s -> chain_exec call s = Err e s' -> chain_reachable s'.

Lemma chain_new_inv : chain_inv (chain_new : Storage).
Proof.
  assert (links (chain_new : Storage) = ∅) as Hl by exact (fmap_empty _). split; rewrite ?Hl.
  - split; intros h l; by rewrite lookup_empty.
  - apply map_Forall_empty.
  - apply lookup_empty.
  - apply map_Forall_empty.
  - intros n h. rewrite elem_of_members. split; [intros (l & Hn & _)|intros [Hn _]]; discriminate Hn.
  - intros n. rewrite Hl. unfold canon_at. by rewrite !lookup_empty.
  - by left.
  - intros h l. by rewrite lookup_empty.
Qed.

(** A canonical hash is that of a known block. *)
Lemma canonical_known n h s : chain_inv s -> hashes s !! n = Some h -> is_Some (blocks s !! h).
Proof.
  intros Hi. rewrite (ci_canon s Hi). intros [[[l Hl] _]%ancestor_known _]%(canon_at_spec _ (ci_chain s Hi)).
  rewrite links_lookup in Hl. destruct (blocks s !! h); [done|]. discriminate.
Qed.

(** What a call that ends well does. *)
Definition inserted header js body state s s' : Prop :=
  blocks s' = <[header_hash header := stored_new header body js]> (blocks s) /\
  best_hash s' = (if is_best state then header_hash header else best_hash s) /\
  finalized_hash s' = (if is_final state then header_hash header else finalized_hash s) /\
  finalized_number s' = (if is_final state then header_number header else finalized_number s).

Definition chain_effect (call : ChainCall) s s' : Prop :=
  match call with
  | CallInsert header js body state => inserted header js body state s s'
  | CallImportHeader header state _ => inserted header None None state s s'
  | CallSetHead id => blocks s' = blocks s /\ chain_id id s = Some (best_hash s')
  | CallFinalize id j =>
      links s' = links s /\ chain_id id s = Some (finalized_hash s') /\ finalized_number s' = finalized_number s /\
      (forall j', j = Some j' -> chain_justifications id s' = Some [j'])
  | CallAppend id j => links s' = links s /\ chain_justifications id s' = Some (default [] (chain_justifications id s) ++ [j])
  | CallWriteAux ops => s' = set_aux (foldl (fun m '(k, v) => put_opt k v m) (aux s) ops) s
  | CallInsertAux ins del =>
      s' = set_aux (foldl (fun m k => delete k m) (foldl (fun m '(k, v) => <[k := v]> m) (aux s) ins) del) s
  | CallChtRoot block root => s' = set_header_cht_roots (<[block := root]> (header_cht_roots s)) s
  end.

Lemma append_ok id j s :
  chain_inv s -> permitted (CallAppend id j) s ->
  wp (append_justification id j) (fun _ s' => chain_inv s' /\ chain_effect (CallAppend id j) s s') (fun _ s' => s' = s) s.
Proof.
  intros Hi Hp. destruct (chain_id id s) as [h|] eqn:Hid.
  - assert (is_Some (blocks s !! h)) as [b Hb]. { destruct id; simpl in *; [by simplify_eq|by eapply canonical_known]. }
    eapply wp_mono; [by eapply append_justification_ok| |by intros e s' (_ & -> & _)]. intros [] s' (? & ? & Hj). simpl. split_and!; [done..|].
    rewrite Hj. unfold chain_justifications at 1. by rewrite Hid; simpl; rewrite Hb.
  - destruct id as [h|n]; [done|]. simpl in Hid. unfold append_justification, expect_block_hash_from_id. apply wp_bind.
    unfold wp, bind. cbn. unfold chain_hash. simpl. by rewrite Hid.
Qed.

Lemma foldl_set_aux {A} (f : A -> gmap bytes bytes -> gmap bytes bytes) l s :
  foldl (fun s x => set_aux (f x (aux s)) s) s l = set_aux (foldl (fun m x => f x m) (aux s) l) s.
Proof. revert s. induction l as [|x l IH]; intros s; simpl; [by destruct s|]. by rewrite IH. Qed.

Lemma insert_aux_ok ins del s :
  chain_inv s -> wp (insert_aux ins del) (fun _ s' => chain_inv s' /\ chain_effect (CallInsertAux ins del) s s') never s.
Proof.
  intros Hi. unfold insert_aux. apply wp_bind.
  assert (forall l : list (bytes * bytes), for_each l (fun '(k, v) => modify (fun s => set_aux (<[k := v]> (aux s)) s)) =
    for_each (E := ChainError) l (fun e => modify (fun s : Storage => set_aux (<[e.1 := e.2]> (aux s)) s))) as ->.
  { intros l. induction l as [|[k v] l IH]; simpl; [done|]. by rewrite IH. }
  apply wp_for_each_modify, wp_for_each_modify. rewrite (foldl_set_aux (fun e m => <[e.1 := e.2]> m)), (foldl_set_aux (fun k m => delete k m)).
  simpl. split; [by apply set_aux_inv, set_aux_inv|]. unfold set_aux. simpl. f_equal. f_equal.
  generalize (aux s). induction ins as [|[k v] ins IH]; intros m; simpl; [done|]. apply IH.
Qed.

Lemma chain_exec_ok call s :
  chain_inv s -> permitted call s ->
  wp (chain_exec call) (fun _ s' => chain_inv s' /\ chain_effect call s s') (fun _ s' => s' = s) s.
Proof.
  intros Hi Hp. destruct call as [header js body state|header state ops|id|id j|id j|ops|ins del|block root]; simpl chain_exec.
  - destruct Hp. eapply wp_mono; [by apply chain_insert_ok|done|done].
  - destruct Hp. unfold import_header. apply wp_bind. eapply wp_mono; [by apply chain_insert_ok| |done].
    intros [] s' [Hi' Hef]. eapply wp_mono; [by apply write_aux_ok| |done]. by intros [] ? [? ->].
  - eapply wp_mono; [by apply chain_set_head_ok|done|done].
  - eapply wp_mono; [by apply finalize_header_ok|done|by intros e s' (_ & -> & _)].
  - by apply append_ok.
  - eapply wp_mono; [by apply write_aux_ok|done|done].
  - eapply wp_mono; [by apply insert_aux_ok|done|done].
  - unfold insert_cht_root. apply wp_modify. split; [|done]. by destruct Hi; split.
Qed.

Lemma chain_reachable_ok s : chain_reachable s -> chain_inv s.
Proof.
  intros Hs. induction Hs as [|s call s' _ IH Hp He|s call e s' _ IH Hp He]; [apply chain_new_inv|..];
    pose proof (chain_exec_ok call s IH Hp) as Hw; unfold wp in Hw; rewrite He in Hw; [by destruct Hw|by subst].
Qed.

(** C10: Over every history of insertions, imports of headers, moves of the head,
    finalizations, justifications and auxiliary data, in which each block comes
    after its parent and only once, the head never moves onto a fork that is shorter
    than the chain it leaves (C26 is about those moves), and justifications are
    appended to known blocks only, the chain stays coherent: the blocks are a tree, stored under
    their hashes; the leaves are exactly the blocks without children; the canonical
    hashes are exactly the chain of the best block.  Each call ends without a panic
    and does what it says; a call that ends in an error changes nothing. *)
Theorem chain_stays_coherent s call :
  chain_reachable s -> permitted call s ->
  exists s', (chain_exec call s = Ok tt s' /\ chain_inv s' /\ chain_effect call s s') \/
    exists e, chain_exec call s = Err e s' /\ s' = s.
Proof.
  intros Hi%chain_reachable_ok Hp. pose proof (chain_exec_ok call s Hi Hp) as Hw. unfold wp in Hw.
  destruct (chain_exec call s) as [[] s'|e s'|]; [|by exists s'; right; exists e|done]. exists s'. by left.
Qed.

(** C23: The best block above a target, up to a number, after every history of such
    calls (those of C10, so without a move onto a shorter fork): with as much fuel as
    the chain is high, the search of the leaves ends; it finds the highest block in
    range that stands on the target, and finds none exactly if the target is not
    known, lies out of range, or is a fork at or below the last finalized number.
    A target above that number is found also if it is on another fork than the last
    finalized block, which the documentation of the search excludes. *)
Theorem best_containing_is_exact s fuel target max :
  chain_reachable s -> map_Forall (fun _ l => (Z.to_nat (l_number l) < fuel)%nat) (links s) ->
  exists r, best_containing fuel target max s = Ok r s /\
    match r with Some b => ~ excluded s target max /\ highest s target max b | None => excluded s target max end.
Proof. intros Hi%chain_reachable_ok Hf. by apply best_containing_ok. Qed.

(** *** The canonical hashes *)

Definition reorg_okb (c : Links) (best p : Hash) : bool :=
  ancestorb c p best ||
  match c !! best, c !! p with Some lb, Some lp => l_number lb <=? l_number lp | _, _ => false end.

Lemma reorg_okb_spec c best p : chain_ok c -> reorg_okb c best p <-> reorg_ok c best p.
Proof.
  intros Hc. unfold reorg_okb, reorg_ok. rewrite orb_True, ancestorb_spec by done.
  destruct (c !! best) as [lb|], (c !! p) as [lp|]; [|naive_solver..].
  destruct (Z.leb_spec (l_number lb) (l_number lp)); naive_solver lia.
Qed.

(** Onto a shorter fork, the lowest block of the fork is lost. *)
Lemma shorter_fork_lost header s c' m lp lb :
  chain_inv s -> extends header (links s) c' -> links s !! header_parent_hash header = Some lp ->
  links s !! best_hash s = Some lb -> ~ reorg_ok (links s) (best_hash s) (header_parent_hash header) -> head_hashes header s m ->
  exists n, n <> header_number header /\ m !! n = None /\ is_Some (canon_at c' (header_hash header) n).
Proof.
  intros Hi [Hsub Hc' Hh] Hp Hb Hno Hm. pose proof (ci_chain s Hi) as Hc.
  destruct Hm as [[Heq _]|(x & lx & j & k & (Hxb & Hxp & _) & Hx & Hj & Hk & ->)].
  { destruct Hno. left. rewrite <- Heq. by eapply ancestor_refl. }
  pose proof (up_number _ Hc _ _ _ _ _ Hj Hb Hx). pose proof (up_number _ Hc _ _ _ _ _ Hk Hp Hx).
  pose proof (ok_number _ Hc _ _ Hx). pose proof (lookup_weaken _ _ _ _ Hp Hsub) as Hp'.
  pose proof (parent_number c' Hc' _ _ lp Hh Hp') as Hn. simpl in Hn.
  assert (0 < k < j)%nat as [Hk0 Hkj].
  { split; apply Nat.nle_gt; intros Hle; apply Hno; [left|right; exists lb, lp; split_and!; [done..|lia]].
    replace k with 0%nat in Hk by lia. rewrite (up_0 _ _ lp) in Hk by done. by simplify_eq. }
  destruct (up_total _ Hc k _ lb Hb) as [y Hy]; [lia|]. destruct (up_to _ _ _ _ Hy) as [ly Hly].
  pose proof (up_number _ Hc _ _ _ _ _ Hy Hb Hly). replace j with (k + (j - k))%nat in * by lia.
  exists (l_number lx + 1). split_and!; [lia|..].
  - rewrite (path_add _ k (j - k) _ y) by done. rewrite drop_app_length' by (by rewrite (path_length _ k _ y)).
    rewrite (up_add _ k (j - k) _ y) in Hj by done. rewrite (retract_path _ Hc _ y ly x lx) by done.
    rewrite (proj2 (Z.ltb_lt _ _)), (proj2 (Z.leb_le _ _)) by lia. done.
  - rewrite (canon_at_parent c' Hc' _ _ lp) by (done || simpl; lia). simpl. unfold canon_at. rewrite Hp'. simpl.
    rewrite (proj2 (Z.leb_le 0 _)), (proj2 (Z.leb_le _ _)) by lia. apply (up_total c' Hc' _ _ lp); [done|lia].
Qed.

(** C26: Setting the head to a block above a known one ends without an error and
    moves the best block; the canonical hashes are afterwards the chain of the new
    head, at every number, if and only if the head stays on its chain or its parent
    is at least as high as the former best block.  After a move to a shorter fork
    the hash of a block of the new chain is missing. *)
Theorem reorganization_is_exact header c' s :
  chain_reachable s -> extends header (links s) c' ->
  is_Some (links s !! header_parent_hash header) -> is_Some (links s !! best_hash s) ->
  exists s', apply_head header s = Ok tt s' /\ best_hash s' = header_hash header /\ best_number s' = header_number header /\
    blocks s' = blocks s /\
    ((forall n, hashes s' !! n = canon_at c' (header_hash header) n) <->
     reorg_ok (links s) (best_hash s) (header_parent_hash header)).
Proof.
  intros Hi%chain_reachable_ok Hex [lp Hp] [lb Hb].
  pose proof (apply_head_run header s (ci_chain s Hi) (ci_keys s Hi) (mk_is_Some _ _ Hp) (mk_is_Some _ _ Hb)) as Hw. unfold wp in Hw.
  destruct (apply_head header s) as [[] s'| |] eqn:He; [|done|done]. destruct Hw as (m & Hm & ->).
  eexists. split; [done|]. split_and!; [done..|]. split.
  - intros Hall. rewrite <- reorg_okb_spec by apply (ci_chain s Hi). destruct (reorg_okb _ _ _) eqn:Hno; [done|].
    apply Is_true_false_2 in Hno. rewrite reorg_okb_spec in Hno by apply (ci_chain s Hi).
    destruct (shorter_fork_lost header s c' m lp lb) as (n & Hn & Hnone & [x Hx]); try done.
    specialize (Hall n). simpl in Hall. rewrite lookup_insert_ne in Hall by done. congruence.
  - intros Hr. pose proof (apply_head_ok header c' s (ci_chain s Hi) (ci_keys s Hi) (ci_canon s Hi) Hex (mk_is_Some _ _ Hp) (mk_is_Some _ _ Hb) Hr) as Hw.
    unfold wp in Hw. rewrite He in Hw. by destruct Hw as (m' & -> & ?).
Qed.
End Theorems.

(* ===================================================================== *)
(** ** Concrete histories *)
Section Play.
Context {P : Profile} {Header Extrinsic : Type} `{!HeaderT Header}.
Local Abbreviation Storage := (BlockchainStorage Header Extrinsic).
Implicit Types (s : Storage) (header : Header).

Definition admissibleb header s : bool :=
  bool_decide (links s !! header_hash header = None) && bool_decide (header_hash header <> 0%N) &&
  bool_decide (in_range U32 (header_number header)) && bool_decide (header_parent_hash header <> header_hash header) &&
  bool_decide (map_Forall (fun _ l => l_parent l <> header_hash header) (links s)) &&
  match links s !! header_parent_hash header with
  | Some lp => l_number lp + 1 =? header_number header
  | None => (header_number header =? 0) && bool_decide (links s = ∅) && bool_decide (header_parent_hash header = 0%N)
  end.

Lemma admissibleb_ok header s : admissibleb header s -> admissible header s.
Proof.
  unfold admissibleb. rewrite !andb_True, !bool_decide_spec. intros [[[[[? ?] ?] ?] ?] Hp]. split; try done.
  destruct (links s !! header_parent_hash header) as [lp|].
  - right. exists lp. split; [done|]. by apply Z.eqb_eq, Is_true_true_1.
  - rewrite !andb_True, !bool_decide_spec in Hp. destruct Hp as [[Hn ?] ?]. left. split; [|done]. by apply Z.eqb_eq, Is_true_true_1.
Qed.

Definition head_okb header s : bool :=
  bool_decide (links s = ∅) || (bool_decide (is_Some (links s !! best_hash s)) && reorg_okb (links s) (best_hash s) (header_parent_hash header)).

Lemma head_okb_ok header s : chain_inv s -> head_okb header s -> head_ok header s.
Proof.
  intros Hi. unfold head_okb, head_ok. by rewrite orb_True, andb_True, !bool_decide_spec, reorg_okb_spec by apply (ci_chain s Hi).
Qed.

(** A history of headers, each with its state. *)
Fixpoint play (headers : list (Header * NewBlockState)) s : option Storage :=
  match headers with
  | [] => Some s
  | (header, state) :: headers =>
      if admissibleb header s && (negb (is_best state) || head_okb header s) then
        match chain_exec (CallInsert header None None state) s with
        | Ok _ s' => play headers s'
        | _ => None
        end
      else None
  end.

Lemma chain_play_reachable headers s s' : chain_reachable s -> play headers s = Some s' -> chain_reachable s'.
Proof.
  revert s. induction headers as [|[header state] headers IH]; intros s Hs; cbn [play]; [by intros [= <-]|].
  destruct (admissibleb header s && _) eqn:Hp; [|done]. apply Is_true_true_2 in Hp. rewrite andb_True, orb_True in Hp.
  destruct Hp as [Had Hh]. destruct (chain_exec (CallInsert header None None state) s) as [[] t|? ?|] eqn:He; [|done|done]. apply IH.
  eapply chain_reach_ok; [done| |done]. split; [by apply admissibleb_ok|]. intros Hb. destruct Hh as [Hn|Hh].
  - by rewrite negb_True in Hn.
  - by apply head_okb_ok; [apply chain_reachable_ok|].
Qed.
End Play.

Module Demo.
#[export] Existing Instance release.
Abbreviation Storage := (BlockchainStorage Head unit).

(** The chain of the headers, one more on top, and the fork, which is not the best. *)
Definition history : list (Head * NewBlockState) :=
  [(mkHead 1 0 0, Final); (mkHead 2 1 1, Best); (mkHead 3 2 2, Best); (mkHead 4 1 1, Normal); (mkHead 6 3 3, Best)]%N.
Definition chain : Storage := Eval vm_compute in default chain_new (play history chain_new).

Lemma chain_reached : chain_reachable chain.
Proof. apply (chain_play_reachable history chain_new); [apply chain_reach_new|]. vm_compute. reflexivity. Qed.

(** A block on the fork. *)
Definition side : Head := mkHead 5 2 4.

Lemma side_extends : extends side (links chain) (<[5%N := header_link side]> (links chain)).
Proof.
  split; [apply insert_subseteq; vm_compute; reflexivity| |vm_compute; reflexivity].
  apply (bool_decide_unpack _). vm_compute. exact I.
Qed.

Lemma chain_stays_coherent_witness :
  let call := CallInsert side None (Some [tt]) Normal in
  exists s', (chain_exec call chain = Ok tt s' /\ chain_inv s' /\ chain_effect call chain s') \/
    exists e, chain_exec call chain = Err e s' /\ s' = chain.
Proof.
  intros call. apply (chain_stays_coherent chain call); [exact chain_reached|]. split; [|intros []].
  apply admissibleb_ok. vm_compute. exact I.
Defined.

Lemma best_containing_is_exact_witness :
  best_containing 10 2%N (Some 2) chain = Ok (Some 3%N) chain /\ highest chain 2%N (Some 2) 3%N.
Proof.
  destruct (best_containing_is_exact chain 10 2%N (Some 2)) as (r & Hr & Hspec); [exact chain_reached| |].
  - apply (bool_decide_unpack _). vm_compute. exact I.
  - assert (best_containing 10 2%N (Some 2) chain = Ok (Some 3%N) chain) as He by (vm_compute; reflexivity).
    split; [exact He|]. rewrite He in Hr. injection Hr as <-. exact (proj2 Hspec).
Defined.

(** The block 5 is found, although it is not on the chain of the finalized block 2. *)
Lemma found_off_the_finalized_chain :
  match play [(mkHead 1 0 0, Final); (mkHead 2 1 1, Final); (mkHead 4 1 1, Normal); (side, Normal)]%N chain_new with
  | Some s => finalized_hash s = 2%N /\ finalized_number s = 1 /\ best_containing 10 5%N None s = Ok (Some 5%N) (s : Storage)
  | None => False
  end.
Proof. vm_compute. split_and!; reflexivity. Qed.

(** After the move of the head onto the shorter fork, with the block 5, the search
    for it up to the number 3 gives the block 6, which is not above it. *)
Lemma shorter_fork_misleads_the_search :
  match chain_exec (CallInsert side None None Best) chain with
  | Ok _ s => best_containing 10 5%N (Some 3) s = Ok (Some 6%N) (s : Storage)
  | _ => False
  end.
Proof. vm_compute. reflexivity. Qed.

(** The head moves from the block 6 to the block 5 on the fork: its parent is lower than the best block. *)
Lemma reorganization_is_exact_witness :
  exists s', apply_head side chain = Ok tt s' /\ hashes s' !! 1 = None /\
    ~ (forall n, hashes s' !! n = canon_at (<[5%N := header_link side]> (links chain)) 5 n).
Proof.
  destruct (reorganization_is_exact side (<[5%N := header_link side]> (links chain)) chain) as (s' & He & _ & _ & _ & Hiff).
  - exact chain_reached.
  - exact side_extends.
  - by eexists.
  - by eexists.
  - exists s'. split; [exact He|]. split.
    + assert (match apply_head side chain with Ok _ s' => hashes s' !! 1 = None | _ => False end) as Hr by (vm_compute; reflexivity).
      rewrite He in Hr. exact Hr.
    + intros Hall. apply Hiff, reorg_okb_spec in Hall; [|apply (ci_chain _ (chain_reachable_ok _ chain_reached))].
      vm_compute in Hall. exact Hall.
Defined.
End Demo.
