(* ===== verification/InMemBackend.v ===== *)
(** * The backend in memory: import operations

    [client/api/src/in_mem.rs], the part around the blockchain: an operation
    collects a block, its state, what is to be finalized and the new head, and is
    committed.  The state of a block is a trie of the state machine; the trie
    library is not part of the sources, so the state is a class of the three
    methods that are used here.  The locks are not modelled. *)

From S2P Require Import Prelude HeaderMetadata HeaderChain ChainBackend Leaves OverlayChanges InMem InMemFacts InMemOps InMemTheorems.

(** [sp_core::storage::Storage] *)
Record GenesisStorage := mkGenesis {
  genesis_top : gmap bytes bytes;
  genesis_children : gmap bytes (gmap bytes bytes * ChildInfo)
}.

(** [InMemoryBackend], with its transactions: the empty state, the root and the
    changes for a full storage, and the state with changes merged in *)
Class InMemoryState (State Tx : Type) := {
  state_default : State;
  full_storage_root : State -> gmap bytes bytes -> gmap bytes (gmap bytes bytes * ChildInfo) -> Hash * Tx;
  update_backend : State -> Hash -> Tx -> State
}.

Definition check_genesis_storage (storage : GenesisStorage) : option ChainError :=
  if bool_decide (map_Exists (fun k _ => is_child_storage_key k) (genesis_top storage)) then Some InvalidState
  else if bool_decide (map_Exists (fun k _ => negb (is_child_storage_key k)) (genesis_children storage)) then Some InvalidState
  else None.

Section Backend.
Context {P : Profile} {Header Extrinsic State Tx : Type} `{!HeaderT Header, !InMemoryState State Tx}.
Local Abbreviation Storage := (BlockchainStorage Header Extrinsic).

(* --------------------------------------------------------------------- *)
(** ** An operation *)

Record PendingBlock := mkPending { pending_stored : StoredBlock Header Extrinsic; pending_state : NewBlockState }.

Record BlockImportOperation := mkOp {
  pending_block : option PendingBlock;
  old_state : State;
  new_state : option Tx;
  op_aux : list (bytes * option bytes);
  finalized_blocks : list (BlockId * option Justification);
  set_head : option BlockId
}.

Definition set_pending_block b o := mkOp b (old_state o) (new_state o) (op_aux o) (finalized_blocks o) (set_head o).
Definition set_old_state x o := mkOp (pending_block o) x (new_state o) (op_aux o) (finalized_blocks o) (set_head o).
Definition set_new_state x o := mkOp (pending_block o) (old_state o) x (op_aux o) (finalized_blocks o) (set_head o).
Definition push_aux x o := mkOp (pending_block o) (old_state o) (new_state o) (op_aux o ++ x) (finalized_blocks o) (set_head o).
Definition push_finalized x o := mkOp (pending_block o) (old_state o) (new_state o) (op_aux o) (finalized_blocks o ++ [x]) (set_head o).
Definition set_set_head x o := mkOp (pending_block o) (old_state o) (new_state o) (op_aux o) (finalized_blocks o) x.

Local Abbreviation OpM := (M BlockImportOperation ChainError).

Definition apply_storage (storage : GenesisStorage) (commit : bool) : OpM Hash :=
  match check_genesis_storage storage with Some e => fail e | None => ret tt end ;;
  let! old := gets old_state in
  let '(root, transaction) := full_storage_root old (genesis_top storage) (genesis_children storage) in
  (if commit then modify (set_new_state (Some transaction)) else ret tt) ;;
  ret root.

Definition set_block_data (header : Header) (body : option (list Extrinsic)) (justifications : option Justifications)
    (state : NewBlockState) : OpM unit :=
  let! pending := gets pending_block in
  assert (bool_decide (pending = None)) ;;
  modify (set_pending_block (Some (mkPending (stored_new header body justifications) state))).

Definition update_db_storage (update : Tx) : OpM unit := modify (set_new_state (Some update)).

Definition set_genesis_state (storage : GenesisStorage) (commit : bool) : OpM Hash := apply_storage storage commit.

Definition reset_storage (storage : GenesisStorage) : OpM Hash := apply_storage storage true.

Definition op_insert_aux (ops : list (bytes * option bytes)) : OpM unit := modify (push_aux ops).

Definition mark_finalized (block : BlockId) (justification : option Justification) : OpM unit :=
  modify (push_finalized (block, justification)).

Definition mark_head (block : BlockId) : OpM unit :=
  let! pending := gets pending_block in
  assert (bool_decide (pending = None)) ;;
  modify (set_set_head (Some block)).

(* --------------------------------------------------------------------- *)
(** ** The backend *)

Record Backend := mkBackend { states : gmap Hash State; blockchain : Storage }.
Definition set_states x b := mkBackend x (blockchain b).
Definition set_blockchain x b := mkBackend (states b) x.

Local Abbreviation BM := (M Backend ChainError).
Definition on_chain {A} (m : M Storage ChainError A) : BM A := zoom blockchain set_blockchain m.

Definition backend_new : Backend := mkBackend ∅ chain_new.

Definition state_at (block : BlockId) : BM State :=
  match block with
  | IdHash 0%N => ret state_default
  | _ =>
      let! state := gets (fun b => id ← chain_id block (blockchain b); states b !! id) in
      ok_or state UnknownBlock
  end.

Definition begin_operation : BM BlockImportOperation :=
  let! old := state_at (IdHash 0%N) in
  ret (mkOp None old None [] [] None).

Definition begin_state_operation (operation : BlockImportOperation) (block : BlockId) : BM BlockImportOperation :=
  let! old := state_at block in
  ret (set_old_state old operation).

Definition commit_block (operation : BlockImportOperation) (pending : PendingBlock) : BM unit :=
  let '(header, body, justification) := stored_into_inner (pending_stored pending) in
  let hash := header_hash header in
  let new := match new_state operation with
    | Some state => update_backend (old_state operation) (header_state_root header) state
    | None => old_state operation
    end in
  modify (fun b => set_states (<[hash := new]> (states b)) b) ;;
  on_chain (chain_insert hash header justification body (pending_state pending)).

Definition commit_operation (operation : BlockImportOperation) : BM unit :=
  for_each (finalized_blocks operation) (fun '(block, justification) => on_chain (finalize_header block justification)) ;;
  match pending_block operation with Some pending => commit_block operation pending | None => ret tt end ;;
  (if bool_decide (op_aux operation = []) then ret tt else on_chain (write_aux (op_aux operation))) ;;
  match set_head operation with Some head => on_chain (chain_set_head head) | None => ret tt end.

Definition finalize_block (block : BlockId) (justification : option Justification) : BM unit :=
  on_chain (finalize_header block justification).

Definition backend_append_justification (block : BlockId) (justification : Justification) : BM unit :=
  on_chain (append_justification block justification).

Definition backend_insert_aux (insert : list (bytes * bytes)) (delete : list bytes) : BM unit := on_chain (insert_aux insert delete).

Definition is_local_state_available (block : BlockId) (b : Backend) : bool :=
  match expect_block_number_from_id (S := Storage) (Header := Header) block (blockchain b) with Ok n _ => n =? 0 | _ => false end.
End Backend.
