(* ===== verification/InMemImport.v ===== *)
(** * The backend in memory: what an import promises

    Committing an operation is a history of calls on the blockchain, and keeps a
    state for every block. *)

From S2P Require Import Prelude HeaderMetadata HeaderChain ChainBackend Leaves OverlayChanges InMem InMemFacts InMemOps InMemTheorems InMemBackend ChainDemo.

Section Chain.
Context {P : Profile} {Header Extrinsic : Type} `{!HeaderT Header}.
Local Abbreviation Storage := (BlockchainStorage Header Extrinsic).
Implicit Types (s : Storage).

(** *** Several calls on the blockchain *)

Definition run_calls (calls : list ChainCall) : M Storage ChainError unit := for_each calls chain_exec.

Fixpoint permitted_run (calls : list ChainCall) s : Prop :=
  match calls with
  | [] => True
  | call :: calls => permitted call s /\ forall s', chain_exec call s = Ok tt s' -> permitted_run calls s'
  end.

(** The blocks that a history of calls adds. *)
Definition added (calls : list (ChainCall (Header := Header) (Extrinsic := Extrinsic))) : gset Hash :=
  list_to_set (omap (fun call => match call with CallInsert header _ _ _ | CallImportHeader header _ _ => Some (header_hash header) | _ => None end) calls).

Lemma links_dom s : dom (links s) = dom (blocks s).
Proof. unfold links. by rewrite dom_fmap_L. Qed.

Lemma effect_dom call s s' : chain_effect call s s' -> dom (blocks s') = added [call] ∪ dom (blocks s).
Proof.
  assert (forall header js body state, inserted header js body state s s' -> dom (blocks s') = {[header_hash header]} ∪ ∅ ∪ dom (blocks s)) as Hins.
  { intros header js body state (-> & _). rewrite dom_insert_L. set_solver. }
  destruct call; unfold added; simpl; try by eauto.
  - intros [-> _]. set_solver.
  - intros [Hl _]. rewrite <- !links_dom, Hl. set_solver.
  - intros [Hl _]. rewrite <- !links_dom, Hl. set_solver.
  - intros ->. simpl. set_solver.
  - intros ->. simpl. set_solver.
  - intros ->. simpl. set_solver.
Qed.

Lemma added_cons call calls : added (call :: calls) = added [call] ∪ added calls.
Proof. unfold added. destruct call; simpl; set_solver. Qed.

Lemma run_calls_ok calls s :
  chain_reachable s -> permitted_run calls s ->
  wp (run_calls calls) (fun _ s' => chain_reachable s' /\ dom (blocks s') = added calls ∪ dom (blocks s))
    (fun _ s' => chain_reachable s' /\ dom (blocks s') ⊆ added calls ∪ dom (blocks s)) s.
Proof.
  unfold run_calls. revert s. induction calls as [|call calls IH]; intros s Hs; [intros _; apply wp_ret; split; [exact Hs|set_solver]|].
  intros [Hp Hrest]. cbn [for_each]. rewrite (added_cons call calls). apply wp_bind.
  pose proof (chain_exec_ok call s (chain_reachable_ok s Hs) Hp) as Hw. unfold wp in Hw |- *.
  destruct (chain_exec call s) as [[] s1|e s1|] eqn:He; [|subst s1; split; [exact Hs|clear; set_solver]|exact Hw].
  destruct Hw as [_ Hd%effect_dom]. assert (chain_reachable s1) as Hs1 by exact (chain_reach_ok s call s1 Hs Hp He).
  pose proof (IH s1 Hs1 (Hrest s1 eq_refl)) as IH1. unfold wp in IH1. rewrite Hd in IH1. clear - IH1.
  destruct (for_each calls chain_exec s1) as [[] s2|e s2|]; [|..|exact IH1]; destruct IH1 as [Hr Hdom]; (split; [exact Hr|]).
  - rewrite Hdom. clear. set_solver.
  - clear Hr. set_solver.
Qed.
End Chain.

Lemma permitted_run_app {P : Profile} {Header Extrinsic : Type} `{!HeaderT Header} (l k : list ChainCall) (s : BlockchainStorage Header Extrinsic) :
  permitted_run (l ++ k) s <-> permitted_run l s /\ forall s', run_calls l s = Ok tt s' -> permitted_run k s'.
Proof.
  revert s. induction l as [|call l IH]; intros s; simpl.
  - split; [|naive_solver]. intros Hk. split; [done|]. by intros s' [= <-].
  - unfold run_calls in *. simpl. unfold bind. destruct (chain_exec call s) as [[] s1|e s1|]; [|naive_solver..].
    setoid_rewrite IH. naive_solver.
Qed.

Section Commit.
Context {P : Profile} {Header Extrinsic State Tx : Type} `{!HeaderT Header, !InMemoryState State Tx}.
Local Abbreviation Operation := (BlockImportOperation (Header := Header) (Extrinsic := Extrinsic) (State := State) (Tx := Tx)).
Local Abbreviation Store := (Backend (Header := Header) (Extrinsic := Extrinsic) (State := State)).
Implicit Types (op : Operation) (b : Store).

(** *** What a commit does, as calls on the blockchain *)

Definition final_calls op : list (ChainCall (Header := Header) (Extrinsic := Extrinsic)) :=
  map (fun e => CallFinalize e.1 e.2) (finalized_blocks op).

Definition block_calls op : list (ChainCall (Header := Header) (Extrinsic := Extrinsic)) :=
  match pending_block op with
  | Some pending =>
      let '(header, body, js) := stored_into_inner (pending_stored pending) in [CallInsert header js body (pending_state pending)]
  | None => []
  end ++
  (if bool_decide (op_aux op = []) then [] else [CallWriteAux (op_aux op)]) ++
  match set_head op with Some head => [CallSetHead head] | None => [] end.

(** The state of the block of an operation. *)
Definition block_state op (header : Header) : State :=
  match new_state op with
  | Some tx => update_backend (old_state op) (header_state_root header) tx
  | None => old_state op
  end.

Definition new_states op b : gmap Hash State :=
  match pending_block op with
  | Some pending => let header := stored_header (pending_stored pending) in <[header_hash header := block_state op header]> (states b)
  | None => states b
  end.

Lemma on_chain_bind {A B} (m : M _ _ A) (k : A -> M _ _ B) b :
  on_chain (let! x := m in k x) b = (let! x := on_chain m in on_chain (k x)) b.
Proof. unfold on_chain, zoom, bind. destruct (m (blockchain b)) as [a s|e s|]; simpl; [|done|done]. by destruct (k a s). Qed.

Lemma bind_ext {S E A B} (m m' : M S E A) (k k' : A -> M S E B) s :
  m s = m' s -> (forall a s', k a s' = k' a s') -> (let! x := m in k x) s = (let! x := m' in k' x) s.
Proof. intros Hm Hk. unfold bind. rewrite Hm. destruct (m' s); [apply Hk|done|done]. Qed.

Lemma for_each_app {S E X} (body : X -> M S E unit) l k s :
  for_each (l ++ k) body s = (for_each l body ;; for_each k body) s.
Proof.
  revert s. induction l as [|x l IH]; intros s; [reflexivity|]. cbn [app for_each]. unfold bind in *.
  destruct (body x s); [apply IH|done|done].
Qed.

(** [m] does the calls. *)
Definition does (m : M Store ChainError unit) (calls : list ChainCall) : Prop := forall b, m b = on_chain (run_calls calls) b.

Lemma does_none : does (ret tt) [].
Proof. intros []. reflexivity. Qed.

Lemma does_one call : does (on_chain (chain_exec call)) [call].
Proof.
  intros b. unfold on_chain, zoom, run_calls, for_each, bind. by destruct (chain_exec call (blockchain b)) as [[] ?| |].
Qed.

Lemma does_app m k l r : does m l -> does k r -> does (m ;; k) (l ++ r).
Proof.
  intros Hm Hk b. transitivity ((on_chain (run_calls l) ;; on_chain (run_calls r)) b); [by apply bind_ext|].
  unfold run_calls. rewrite <- on_chain_bind. unfold on_chain, zoom. by rewrite for_each_app.
Qed.

Lemma does_finalize op :
  does (for_each (finalized_blocks op) (fun '(block, justification) => on_chain (finalize_header block justification))) (final_calls op).
Proof.
  unfold final_calls. induction (finalized_blocks op) as [|[block j] l IH]; [apply does_none|].
  apply (does_app _ _ [CallFinalize block j]); [apply (does_one (CallFinalize block j))|done].
Qed.

Lemma does_head op :
  does (match set_head op with Some head => on_chain (chain_set_head head) | None => ret tt end)
    (match set_head op with Some head => [CallSetHead head] | None => [] end).
Proof. destruct (set_head op) as [head|]; [apply (does_one (CallSetHead head))|apply does_none]. Qed.

Lemma does_aux op :
  does (if bool_decide (op_aux op = []) then ret tt else on_chain (write_aux (op_aux op)))
    (if bool_decide (op_aux op = []) then [] else [CallWriteAux (op_aux op)]).
Proof. destruct (bool_decide _); [apply does_none|apply (does_one (CallWriteAux _))]. Qed.

Lemma commit_eq op b :
  commit_operation op b =
  (on_chain (run_calls (final_calls op)) ;; modify (fun b => set_states (new_states op b) b) ;; on_chain (run_calls (block_calls op))) b.
Proof.
  unfold commit_operation. apply bind_ext; [apply does_finalize|]. clear b. intros [] b.
  unfold new_states, block_calls, bind at 3. destruct (pending_block op) as [[block st]|]; unfold modify.
  - pose proof (does_one (CallInsert (stored_header block) (stored_justifications block) (stored_extrinsics block) st)) as Hi.
    pose proof (does_app _ _ _ _ Hi (does_app _ _ _ _ (does_aux op) (does_head op))) as Hd.
    unfold commit_block. destruct block; exact (Hd _).
  - destruct b. exact (does_app _ _ _ _ does_none (does_app _ _ _ _ (does_aux op) (does_head op)) _).
Qed.

(** *** Every block has a state *)

Record backend_inv b : Prop := {
  bi_chain : chain_reachable (blockchain b);
  bi_states : dom (blocks (blockchain b)) ⊆ dom (states b)
}.

Lemma on_chain_ok calls b :
  backend_inv b -> permitted_run calls (blockchain b) -> added calls ⊆ dom (states b) ->
  wp (on_chain (run_calls calls))
    (fun _ b' => backend_inv b' /\ states b' = states b /\ run_calls calls (blockchain b) = Ok tt (blockchain b'))
    (fun e b' => backend_inv b' /\ states b' = states b /\ run_calls calls (blockchain b) = Err e (blockchain b')) b.
Proof.
  intros [Hr Hd] Hp Ha. pose proof (run_calls_ok calls _ Hr Hp) as Hw. apply wp_zoom. unfold wp in *.
  destruct (run_calls calls (blockchain b)) as [[] s|e s|]; [| |exact Hw]; destruct Hw as [Hs Hb]; (split_and!; [split|done|done]);
    try exact Hs; simpl; clear - Ha Hd Hb; set_solver.
Qed.

Definition op_calls op : list (ChainCall (Header := Header) (Extrinsic := Extrinsic)) := final_calls op ++ block_calls op.

Lemma added_final op : added (final_calls op) = ∅.
Proof. unfold final_calls. induction (finalized_blocks op) as [|[id j] l IH]; [done|]. simpl. rewrite added_cons, IH. done. Qed.

Lemma new_states_dom op b : dom (states b) ⊆ dom (new_states op b) /\ added (block_calls op) ⊆ dom (new_states op b).
Proof.
  unfold new_states, block_calls, added. rewrite !omap_app, !list_to_set_app_L.
  destruct (pending_block op) as [[block st]|], (bool_decide _), (set_head op); try destruct block; simpl; rewrite ?dom_insert_L; set_solver.
Qed.

Lemma run_calls_app (l k : list ChainCall) (s : BlockchainStorage Header Extrinsic) :
  run_calls (l ++ k) s = (run_calls l ;; run_calls k) s.
Proof. apply for_each_app. Qed.

Lemma commit_ok op b :
  backend_inv b -> permitted_run (op_calls op) (blockchain b) ->
  wp (commit_operation op)
    (fun _ b' => backend_inv b' /\ states b' = new_states op b /\ run_calls (op_calls op) (blockchain b) = Ok tt (blockchain b'))
    (fun e b' => backend_inv b' /\ (states b' = states b \/ states b' = new_states op b) /\
       run_calls (op_calls op) (blockchain b) = Err e (blockchain b')) b.
Proof.
  intros Hi [Hf Hb]%permitted_run_app. destruct (new_states_dom op b) as [Hsub Hadd].
  unfold wp. rewrite commit_eq. change (wp (on_chain (run_calls (final_calls op)) ;;
    modify (fun b => set_states (new_states op b) b) ;; on_chain (run_calls (block_calls op)))
    (fun _ b' => backend_inv b' /\ states b' = new_states op b /\ run_calls (op_calls op) (blockchain b) = Ok tt (blockchain b'))
    (fun e b' => backend_inv b' /\ (states b' = states b \/ states b' = new_states op b) /\
       run_calls (op_calls op) (blockchain b) = Err e (blockchain b')) b).
  unfold op_calls. rewrite run_calls_app. unfold bind at 3 4.
  apply wp_bind. eapply wp_mono; [apply (on_chain_ok (final_calls op) b Hi Hf); rewrite added_final; set_solver| |].
  - intros [] b1 ([Hr1 Hd1] & Hs1 & He). rewrite He. apply wp_bind, wp_modify.
    assert (new_states op b1 = new_states op b) as Hn by (unfold new_states; by rewrite Hs1).
    eapply wp_mono; [apply (on_chain_ok (block_calls op))| |].
    + split; [exact Hr1|]. simpl. rewrite Hn. rewrite Hs1 in Hd1. set_solver.
    + simpl. by apply Hb.
    + simpl. by rewrite Hn.
    + intros [] b2 (? & Hs2 & He2). simpl in *. rewrite Hn in Hs2. done.
    + intros e b2 (? & Hs2 & He2). simpl in *. rewrite Hn in Hs2. split_and!; [done|by right|done].
  - intros e b1 (? & ? & He). rewrite He. split_and!; [done|by left|done].
Qed.
End Commit.

(* ===================================================================== *)
(** ** Imports, from the beginning of the operation to its commit *)
Section Histories.
Context {P : Profile} {Header Extrinsic State Tx : Type} `{!HeaderT Header, !InMemoryState State Tx}.
Local Abbreviation Operation := (BlockImportOperation (Header := Header) (Extrinsic := Extrinsic) (State := State) (Tx := Tx)).
Local Abbreviation Store := (Backend (Header := Header) (Extrinsic := Extrinsic) (State := State)).
Implicit Types (op : Operation) (b : Store).

Inductive OpStep :=
| StepBlock (header : Header) (body : option (list Extrinsic)) (justifications : option Justifications) (state : NewBlockState)
| StepUpdate (update : Tx)
| StepGenesis (storage : GenesisStorage) (commit : bool)
| StepReset (storage : GenesisStorage)
| StepAux (ops : list (bytes * option bytes))
| StepFinalized (block : BlockId) (justification : option Justification)
| StepHead (block : BlockId).

Definition op_step (step : OpStep) : M Operation ChainError unit :=
  match step with
  | StepBlock header body js state => set_block_data header body js state
  | StepUpdate tx => update_db_storage tx
  | StepGenesis storage commit => set_genesis_state storage commit ;; ret tt
  | StepReset storage => reset_storage storage ;; ret tt
  | StepAux ops => op_insert_aux ops
  | StepFinalized block j => mark_finalized block j
  | StepHead block => mark_head block
  end.

(** At most one block, and the head is marked before it. *)
Fixpoint steps_ok (steps : list OpStep) (taken : bool) : bool :=
  match steps with
  | [] => true
  | StepBlock _ _ _ _ :: steps => negb taken && steps_ok steps true
  | StepHead _ :: steps => negb taken && steps_ok steps taken
  | _ :: steps => steps_ok steps taken
  end.

(** The operation that is committed. *)
Definition prepare (parent : option BlockId) (steps : list OpStep) : M Store ChainError Operation :=
  let! op := begin_operation in
  let! op := match parent with Some block => begin_state_operation op block | None => ret op end in
  fun b => match for_each steps op_step op with Ok _ op => Ok op b | Err e _ => Err e b | Panic => Panic end.

Inductive BackendCall :=
| BackendImport (parent : option BlockId) (steps : list OpStep)
| BackendFinalize (block : BlockId) (justification : option Justification)
| BackendAppend (block : BlockId) (justification : Justification)
| BackendAux (insert : list (bytes * bytes)) (delete : list bytes).

Definition backend_exec (call : BackendCall) : M Store ChainError unit :=
  match call with
  | BackendImport parent steps => let! op := prepare parent steps in commit_operation op
  | BackendFinalize block j => finalize_block block j
  | BackendAppend block j => backend_append_justification block j
  | BackendAux ins del => backend_insert_aux ins del
  end.

Definition backend_permitted (call : BackendCall) b : Prop :=
  match call with
  | BackendImport parent steps =>
      steps_ok steps false /\ forall op, prepare parent steps b = Ok op b -> permitted_run (op_calls op) (blockchain b)
  | BackendAppend block j => permitted (CallAppend block j) (blockchain b)
  | _ => True
  end.

Inductive backend_reachable : Store -> Prop :=
| backend_start : backend_reachable backend_new
| backend_ok b call b' : backend_reachable b -> backend_permitted call b -> backend_exec call b = Ok tt b' -> backend_reachable b'
| backend_err b call e b' : backend_reachable b -> backend_permitted call b -> backend_exec call b = Err e b' -> backend_reachable b'.

(** *** What the steps collect *)

Definition block_of (step : OpStep) : option (Header * option (list Extrinsic) * option Justifications * NewBlockState) :=
  match step with StepBlock header body js state => Some (header, body, js, state) | _ => None end.

Definition update_of (old : State) (step : OpStep) : option Tx :=
  match step with
  | StepUpdate tx => Some tx
  | StepGenesis storage true | StepReset storage => Some (full_storage_root old (genesis_top storage) (genesis_children storage)).2
  | _ => None
  end.

Definition aux_of (step : OpStep) : list (bytes * option bytes) := match step with StepAux ops => ops | _ => [] end.
Definition finalized_of (step : OpStep) : option (BlockId * option Justification) :=
  match step with StepFinalized block j => Some (block, j) | _ => None end.
Definition head_of (step : OpStep) : option BlockId := match step with StepHead block => Some block | _ => None end.

(** The block of an operation, as it is committed. *)
Definition block_view op : option (Header * option (list Extrinsic) * option Justifications * NewBlockState) :=
  (fun p => (stored_into_inner (pending_stored p), pending_state p)) <$> pending_block op.

Definition latest {A} (l : list A) (o : option A) : option A := match last l with Some x => Some x | None => o end.

(** The operation after the steps: the last block, update and head, and all
    auxiliary data and finalized blocks, in order. *)
Definition collects (steps : list OpStep) op op' : Prop :=
  old_state op' = old_state op /\
  block_view op' = latest (omap block_of steps) (block_view op) /\
  new_state op' = latest (omap (update_of (old_state op)) steps) (new_state op) /\
  op_aux op' = op_aux op ++ (steps ≫= aux_of) /\
  finalized_blocks op' = finalized_blocks op ++ omap finalized_of steps /\
  set_head op' = latest (omap head_of steps) (set_head op).

Lemma latest_cons {A} (x : A) l o : latest (x :: l) o = latest l (Some x).
Proof. unfold latest. rewrite last_cons. by destruct (last l). Qed.

Lemma collects_cons step steps op op1 op2 :
  collects [step] op op1 -> collects steps op1 op2 -> collects (step :: steps) op op2.
Proof.
  intros (E1 & E2 & E3 & E4 & E5 & E6) (F1 & F2 & F3 & F4 & F5 & F6). unfold collects. rewrite F1, F2, F3, F4, F5, F6, E1, E2, E3, E4, E5, E6.
  cbn [omap list_omap mbind list_bind]. rewrite app_nil_r, <- !app_assoc.
  destruct (block_of step), (update_of (old_state op) step), (finalized_of step), (head_of step); rewrite ?latest_cons; done.
Qed.

(** A refused genesis, or a parent without a state. *)
Definition bad_genesis (steps : list OpStep) (e : ChainError) : Prop :=
  exists storage, (StepReset storage ∈ steps \/ exists commit, StepGenesis storage commit ∈ steps) /\ check_genesis_storage storage = Some e.

Definition refused (parent : option BlockId) (steps : list OpStep) b (e : ChainError) : Prop :=
  (exists block, parent = Some block /\ state_at block b = Err e b) \/ bad_genesis steps e.

Lemma bad_genesis_cons step steps e : bad_genesis steps e -> bad_genesis (step :: steps) e.
Proof. intros (storage & Hin & Hc). exists storage. split; [|done]. destruct Hin as [Hin|[c Hin]]; [left|right; exists c]; by right. Qed.

Lemma bad_genesis_split step steps e : bad_genesis (step :: steps) e -> bad_genesis [step] e \/ bad_genesis steps e.
Proof.
  intros (storage & Hin & He). unfold bad_genesis. setoid_rewrite list_elem_of_singleton.
  destruct Hin as [[Hin|Hin]%elem_of_cons|[c [Hin|Hin]%elem_of_cons]]; [left|right|left|right]; exists storage; eauto.
Qed.

Lemma wp_apply_storage storage commit op :
  wp (apply_storage storage commit ;; ret tt)
    (fun _ op' => check_genesis_storage storage = None /\
       op' = if commit then set_new_state (Some (full_storage_root (old_state op) (genesis_top storage) (genesis_children storage)).2) op else op)
    (fun e _ => check_genesis_storage storage = Some e) op.
Proof.
  unfold apply_storage. destruct (check_genesis_storage storage); [done|].
  unfold wp, bind. cbn. destruct (full_storage_root _ _ _) as [root tx]. by destruct commit; cbn.
Qed.

Lemma step_run step op :
  steps_ok [step] (bool_decide (is_Some (pending_block op))) ->
  wp (op_step step)
    (fun _ op' => collects [step] op op' /\ (forall e, ~ bad_genesis [step] e) /\ bool_decide (is_Some (pending_block op')) =
       match step with StepBlock _ _ _ _ => true | _ => bool_decide (is_Some (pending_block op)) end)
    (fun e _ => bad_genesis [step] e) op.
Proof.
  intros Hs. assert (forall A (l : list A), l = l ++ []) as Hnil by (intros; by rewrite app_nil_r).
  assert (forall storage step', check_genesis_storage storage = None -> step' = StepReset storage \/ (exists c, step' = StepGenesis storage c) ->
    forall e, ~ bad_genesis [step'] e) as Hgen.
  { intros storage step' Hn Hst e (storage' & Hin & He). rewrite !list_elem_of_singleton in Hin. destruct Hst as [->|[c ->]];
      destruct Hin as [Hin|[c' Hin%list_elem_of_singleton]]; congruence. }
  assert (forall step', (forall storage, step' <> StepReset storage /\ forall c, step' <> StepGenesis storage c) -> forall e, ~ bad_genesis [step'] e) as Hno.
  { intros step' Hst e (storage' & Hin & He). destruct (Hst storage') as [H1 H2].
    destruct Hin as [Hin%list_elem_of_singleton|[c' Hin%list_elem_of_singleton]]; [by apply H1|by apply (H2 c')]. }
  destruct step as [header body js state|tx|storage commit|storage|ops|block j|block]; cbn [op_step].
  - cbn [steps_ok] in Hs. apply andb_True in Hs as [Ht _]. unfold set_block_data. apply wp_bind, wp_gets, wp_bind, wp_assert; [by destruct (pending_block op)|].
    apply wp_modify. split; [|split; [by apply Hno|done]]. unfold collects, block_view, latest, stored_new. cbn. split_and!; try done. by destruct body.
  - apply wp_modify. split; [|split; [by apply Hno|done]]. unfold collects, latest. cbn. split_and!; done.
  - eapply wp_mono; [apply wp_apply_storage|..].
    + intros [] op' [Hn ->]. split; [|split; [apply (Hgen storage); eauto|by destruct commit]]. unfold collects, latest. destruct commit; cbn; split_and!; done.
    + intros e op' He. exists storage. split; [right; exists commit; by left|done].
  - eapply wp_mono; [apply wp_apply_storage|..].
    + intros [] op' [Hn ->]. split; [|split; [apply (Hgen storage); eauto|done]]. unfold collects, latest. cbn. split_and!; done.
    + intros e op' He. exists storage. split; [left; by left|done].
  - apply wp_modify. split; [|split; [by apply Hno|done]]. unfold collects, latest. cbn. rewrite app_nil_r. split_and!; done.
  - apply wp_modify. split; [|split; [by apply Hno|done]]. unfold collects, latest. cbn. split_and!; done.
  - cbn [steps_ok] in Hs. apply andb_True in Hs as [Ht _]. unfold mark_head. apply wp_bind, wp_gets, wp_bind, wp_assert; [by destruct (pending_block op)|].
    apply wp_modify. split; [|split; [by apply Hno|done]]. unfold collects, latest. cbn. split_and!; done.
Qed.

Lemma steps_run steps op :
  steps_ok steps (bool_decide (is_Some (pending_block op))) ->
  wp (for_each steps op_step) (fun _ op' => collects steps op op' /\ forall e, ~ bad_genesis steps e) (fun e _ => bad_genesis steps e) op.
Proof.
  revert op. induction steps as [|step steps IH]; intros op Hs.
  { apply wp_ret. split; [unfold collects, latest; cbn; by rewrite !app_nil_r|]. by intros e (storage & [Hin|[c Hin]] & _); apply elem_of_nil in Hin. }
  cbn [for_each]. apply wp_bind.
  assert (steps_ok [step] (bool_decide (is_Some (pending_block op))) /\
    steps_ok steps (match step with StepBlock _ _ _ _ => true | _ => bool_decide (is_Some (pending_block op)) end)) as [H1 H2].
  { destruct step; cbn [steps_ok] in *; rewrite ?andb_True in *; naive_solver. }
  eapply wp_mono; [by apply step_run| |].
  - intros [] op1 (Hc & Hok & Hb). rewrite <- Hb in H2. eapply wp_mono; [by apply IH| |].
    + intros [] op2 [Hc2 Hok2]. split; [by eapply collects_cons|]. by intros e [?%Hok|?%Hok2]%bad_genesis_split.
    + intros e op2 He. by apply bad_genesis_cons.
  - intros e op1 (storage & Hin & He). exists storage. split; [|done]. clear -Hin. set_solver.
Qed.

Lemma state_at_pure block b : exists r, state_at block b = match r with inl st => Ok st b | inr e => Err e b end.
Proof.
  assert (forall o, exists r : State + ChainError, ok_or o UnknownBlock b = match r with inl st => Ok st b | inr e => Err e b end) as Hok.
  { intros [st|]; [by exists (inl st)|by exists (inr UnknownBlock)]. }
  destruct block as [[|p]|n]; [by exists (inl state_default)|apply Hok..].
Qed.

(** An operation on the state of its parent. *)
Definition begun (parent : option BlockId) b op : Prop :=
  match parent with Some block => state_at block b = Ok (old_state op) b | None => old_state op = state_default end.

(** An operation that holds what the steps put into it. *)
Definition collected (steps : list OpStep) op : Prop :=
  block_view op = last (omap block_of steps) /\ new_state op = last (omap (update_of (old_state op)) steps) /\
  op_aux op = steps ≫= aux_of /\ finalized_blocks op = omap finalized_of steps /\ set_head op = last (omap head_of steps).

(** Preparing an operation changes nothing, and does not panic. *)
Lemma prepare_ok parent steps b :
  steps_ok steps false ->
  wp (prepare parent steps) (fun op b' => b' = b /\ begun parent b op /\ collected steps op /\ forall e, ~ refused parent steps b e) (fun e b' => b' = b /\ refused parent steps b e) b.
Proof.
  intros Hs. unfold prepare. apply wp_bind, wp_bind, wp_ret, wp_ret, wp_bind.
  eapply (wp_mono _ (fun op b' => b' = b /\ op = mkOp None (old_state op) None [] [] None /\ begun parent b op) _ (fun e b' => b' = b /\ refused parent steps b e)).
  - unfold begun. destruct parent as [block|]; [|by apply wp_ret]. unfold begin_state_operation, wp, bind.
    destruct (state_at_pure block b) as [[st|e] Hst]; rewrite Hst; [done|]. split; [done|]. left. by exists block.
  - intros [pb os ns ax fb sh] b' (-> & Hop & Hb). injection Hop as -> -> -> -> ->. pose proof (steps_run steps (mkOp None os None [] [] None) Hs) as Hw.
    unfold wp, begun in *. destruct (for_each steps op_step _) as [[] op'|e op'|]; [|split; [done|by right]|done].
    destruct Hw as [(E1 & E2 & E3 & E4 & E5 & E6) Hok]. unfold collected. rewrite E1, E2, E3, E4, E5, E6. unfold latest. cbn.
    split_and!; [done|done|by destruct (last _)..|done|done|by destruct (last _)|].
    intros e [(block & -> & He)|Hg]; [|by apply (Hok e)]. cbn in Hb. congruence.
  - done.
Qed.

Lemma one_call_ok call b :
  backend_inv b -> permitted call (blockchain b) -> added [call] = ∅ ->
  wp (on_chain (chain_exec call)) (fun _ => backend_inv) (fun _ => backend_inv) b.
Proof.
  intros Hi Hp Ha. pose proof (does_one (State := State) call b) as He. unfold wp. rewrite He.
  pose proof (on_chain_ok [call] b Hi) as Hw. unfold wp in Hw. rewrite Ha in Hw. specialize (Hw (conj Hp (fun _ _ => I)) (empty_subseteq _)).
  destruct (on_chain (run_calls [call]) b); naive_solver.
Qed.

Lemma backend_exec_ok call b :
  backend_inv b -> backend_permitted call b -> wp (backend_exec call) (fun _ => backend_inv) (fun _ => backend_inv) b.
Proof.
  intros Hi Hp. destruct call as [parent steps|block j|block j|ins del]; simpl backend_exec.
  - destruct Hp as [Hs Hrun]. apply wp_bind. pose proof (prepare_ok parent steps b Hs) as Hw. unfold wp at 1. unfold wp in Hw.
    destruct (prepare parent steps b) as [op b1|e b1|]; [|by destruct Hw as [-> _]|done]. destruct Hw as [-> _].
    eapply wp_mono; [apply commit_ok; [done|by apply Hrun]|naive_solver|naive_solver].
  - by apply (one_call_ok (CallFinalize block j)).
  - by apply (one_call_ok (CallAppend block j)).
  - by apply (one_call_ok (CallInsertAux ins del)).
Qed.

Lemma backend_reachable_ok b : backend_reachable b -> backend_inv b.
Proof.
  intros Hb. induction Hb as [|b call b' _ IH Hp He|b call e b' _ IH Hp He]; [split; [apply chain_reach_new|done]|..];
    pose proof (backend_exec_ok call b IH Hp) as Hw; unfold wp in Hw; by rewrite He in Hw.
Qed.

Lemma imported_state op b b' pending :
  pending_block op = Some pending -> states b' = new_states op b ->
  let header := stored_header (pending_stored pending) in
  header_hash header <> 0%N -> state_at (IdHash (header_hash header)) b' = Ok (block_state op header) b'.
Proof.
  intros Hp Hs header Hh. unfold new_states in Hs. rewrite Hp in Hs. fold header in Hs.
  unfold state_at. destruct (header_hash header) as [|p] eqn:Hz; [done|]. unfold bind. cbn. rewrite Hs.
  by rewrite lookup_insert_eq.
Qed.

(** C13: Over every history of imports, finalizations, justifications and auxiliary
    data, an import ends without a panic, if it has at most one block, with the
    head marked before it, and each of its calls on the blockchain is permitted in
    its turn: a block that the chain may take, and a head that does not move onto a
    shorter fork.  If the block that the caller names as parent has no state or the
    genesis is refused, and only then, the operation fails and changes nothing.
    Otherwise the operation holds what the steps put into it: the block with its
    header, body and justifications, the last update of the state, all auxiliary
    data and all blocks to finalize, in order, and the last head; and its state is
    that of the named parent, which is not compared with the parent in the header.
    The commit is the history of calls on the blockchain that the operation lists,
    in order, up to the first error; the chain stays coherent, and every block of
    it has a state.  After a commit without error the state of the block is that
    of the named parent with the update merged in, and the states of the other
    blocks are those from before. *)
Theorem imports_are_exact b parent steps :
  backend_reachable b -> backend_permitted (BackendImport parent steps) b ->
  (exists e, refused parent steps b e /\ prepare parent steps b = Err e b /\ backend_exec (BackendImport parent steps) b = Err e b) \/
  exists op b', prepare parent steps b = Ok op b /\ (forall e, ~ refused parent steps b e) /\
    begun parent b op /\ collected steps op /\ chain_inv (blockchain b') /\
    (forall h, is_Some (blocks (blockchain b') !! h) -> is_Some (states b' !! h)) /\
    ((backend_exec (BackendImport parent steps) b = Ok tt b' /\ run_calls (op_calls op) (blockchain b) = Ok tt (blockchain b') /\
      states b' = new_states op b /\
      forall pending, pending_block op = Some pending -> let header := stored_header (pending_stored pending) in
        header_hash header <> 0%N -> state_at (IdHash (header_hash header)) b' = Ok (block_state op header) b') \/
     exists e, backend_exec (BackendImport parent steps) b = Err e b' /\ run_calls (op_calls op) (blockchain b) = Err e (blockchain b')).
Proof.
  intros Hi%backend_reachable_ok [Hs Hrun]. pose proof (prepare_ok parent steps b Hs) as Hw.
  assert (backend_exec (BackendImport parent steps) b =
    match prepare parent steps b with Ok op b1 => commit_operation op b1 | Err e b1 => Err e b1 | Panic => Panic end) as -> by reflexivity.
  unfold wp in Hw. destruct (prepare parent steps b) as [op b1|e b1|]; [destruct Hw as (-> & Hbegun & Hcol & Hno)|left; exists e; by destruct Hw as [-> ?]|done].
  right. pose proof (commit_ok op b Hi (Hrun op eq_refl)) as Hc. unfold wp in Hc.
  assert (forall b', backend_inv b' -> chain_inv (blockchain b') /\ forall h, is_Some (blocks (blockchain b') !! h) -> is_Some (states b' !! h)) as Hinv.
  { intros b' [Hr Hd]. split; [by apply chain_reachable_ok|]. intros h. rewrite <- !elem_of_dom. apply Hd. }
  destruct (commit_operation op b) as [[] b'|e b'|]; [| |done]; destruct Hc as (Hi' & Hst & Hr); destruct (Hinv b' Hi') as [? ?];
    exists op, b'; (split_and!; [done..|]).
  - left. split_and!; [done..|]. intros pending Hp. by apply (imported_state op b b').
  - right. by exists e.
Qed.
End Histories.

Module Demo.
#[local] Existing Instance release.

(** The state of a block is the list of its changes, the last first. *)
#[global] Instance changes : InMemoryState (list N) N := {|
  state_default := [];
  full_storage_root _ top _ := (0%N, N.of_nat (base.size top));
  update_backend state _ tx := tx :: state
|}.

Abbreviation Store := (Backend (Header := Head) (Extrinsic := unit) (State := list N)).

Definition genesis : list (OpStep (Header := Head) (Extrinsic := unit) (Tx := N)) :=
  [StepGenesis (mkGenesis {[ [Byte.x01] := [Byte.x02] ]} ∅) true; StepBlock (mkHead 1 0 0) None None Final].
Definition second : list (OpStep (Header := Head) (Extrinsic := unit) (Tx := N)) :=
  [StepUpdate 7%N; StepFinalized (IdHash 1) None; StepBlock (mkHead 2 1 1) (Some [tt]) None Best].

Definition store : Store := Eval vm_compute in
  match backend_exec (BackendImport None genesis) backend_new with Ok _ b => b | _ => backend_new end.

Lemma prepared_calls parent steps calls b :
  match prepare parent steps b with Ok op _ => op_calls op = calls | _ => False end ->
  permitted_run calls (blockchain (b : Store)) -> forall op, prepare parent steps b = Ok op b -> permitted_run (op_calls op) (blockchain b).
Proof. intros Hc Hp op Hop. rewrite Hop in Hc. rewrite Hc. exact Hp. Qed.

Lemma genesis_permitted : backend_permitted (BackendImport None genesis) (backend_new : Store).
Proof.
  split; [exact I|]. apply (prepared_calls _ _ [CallInsert (mkHead 1 0 0) None None Final]); [vm_compute; reflexivity|].
  refine (conj (conj _ _) (fun _ _ => I)); [apply admissibleb_ok; vm_compute; exact I|]. intros _. left. vm_compute. reflexivity.
Qed.

Lemma store_reached : backend_reachable store.
Proof. apply (backend_ok backend_new (BackendImport None genesis)); [apply backend_start|apply genesis_permitted|vm_compute; reflexivity]. Qed.

Definition finalized : BlockchainStorage Head unit :=
  match finalize_header (IdHash 1) None (blockchain store) with Ok _ s => s | _ => blockchain store end.

Lemma second_permitted : backend_permitted (BackendImport (Some (IdNumber 0)) second) store.
Proof.
  split; [exact I|].
  apply (prepared_calls _ _ [CallFinalize (IdHash 1) None; CallInsert (mkHead 2 1 1) None (Some [tt]) Best]); [vm_compute; reflexivity|].
  split; [exact I|]. intros s' He. assert (s' = finalized) as ->.
  { unfold finalized. change (finalize_header (IdHash 1) None (blockchain store)) with
      (chain_exec (CallFinalize (IdHash 1) None) (blockchain store)). rewrite He. reflexivity. }
  refine (conj (conj _ _) (fun _ _ => I)); [apply admissibleb_ok; vm_compute; exact I|]. intros _. right.
  split; [eexists; vm_compute; reflexivity|]. left. exists 0%nat. vm_compute. reflexivity.
Qed.

Lemma second_ends : match backend_exec (BackendImport (Some (IdNumber 0)) second) store with Ok _ _ => True | _ => False end.
Proof. vm_compute. exact I. Qed.

Lemma second_prepared :
  match prepare (Some (IdNumber 0)) second store with
  | Ok op _ => (fun p => (header_hash (stored_header (pending_stored p)), block_state op (stored_header (pending_stored p)))) <$> pending_block op =
      Some (2%N, [7; 1]%N)
  | _ => False
  end.
Proof. vm_compute. reflexivity. Qed.

Lemma imports_are_exact_witness :
  exists b', backend_exec (BackendImport (Some (IdNumber 0)) second) store = Ok tt b' /\
    state_at (IdHash 2) b' = Ok [7; 1]%N b'.
Proof.
  pose proof second_ends as Hends. pose proof second_prepared as Hp.
  destruct (imports_are_exact store (Some (IdNumber 0)) second store_reached second_permitted)
    as [(e & _ & _ & He)|(op & b' & Hop & _ & _ & _ & _ & _ & [(He & _ & _ & Hst)|(e & He & _)])]; rewrite He in Hends; [destruct Hends| |destruct Hends].
  exists b'. split; [exact He|]. rewrite Hop in Hp. destruct (pending_block op) as [p|] eqn:Hpb; [|discriminate Hp].
  injection Hp as Hh Hbs. change (header_hash (stored_header (pending_stored p)) = 2%N) in Hh. specialize (Hst p eq_refl). cbv zeta in Hst. rewrite Hbs, Hh in Hst. apply Hst. discriminate.
Defined.
End Demo.
