(* ===== verification/HeaderTheorems.v ===== *)
(** * The tree of headers: what its algorithms promise

    Over any backend: common ancestors, routes and descent are exact, and the
    test of descent drives a fork tree as its abstract ancestry does. *)

From S2P Require Import Prelude HeaderMetadata HeaderChain HeaderRoutes HeaderDescent ChainBackend InMem InMemFacts ChainDemo InMemTheorems ForkTree ForkTreeFacts ForkTreeImport ForkTreeFinal ForkTreeSim ForkTreeFind ForkTreeDesc ForkTreeTheorems ForkTreeAgree.

(** [HeaderMetadata.is_descendent_of], which shares its name with the parameter
    of the fork tree. *)
Abbreviation client_is_descendent_of := HeaderMetadata.is_descendent_of.

Section Routes.
Context {S E : Type} `{!HeaderMetadata S E} {shows : Links -> S -> Prop} `{HS : !HeaderServer (E := E) shows}.
Implicit Types (s : S) (c : Links).

(** C22: The lowest common ancestor of two known blocks is found, whatever ancestor
    links the backend has cached: a block below both, above every other block that
    is below both, with its number; the backend shows the same tree afterwards.
    If one of the blocks is not known, the result is an error. *)
Theorem common_ancestor_is_exact c s a b :
  chain_ok c -> shows c s ->
  match c !! a, c !! b with
  | Some _, Some _ => exists x s', lowest_common_ancestor a b s = Ok x s' /\ shows c s' /\
      is_lca c a b (hn_hash x) /\ l_number <$> c !! hn_hash x = Some (hn_number x)
  | _, _ => exists e s', lowest_common_ancestor a b s = Err e s' /\ shows c s'
  end.
Proof using HS.
  intros Hc Hs. destruct (c !! a) as [la|] eqn:Ha; [destruct (c !! b) as [lb|] eqn:Hb|].
  - pose proof (lowest_common_ancestor_ok c Hc a b la lb s Hs Ha Hb) as Hw. unfold wp in Hw.
    destruct (lowest_common_ancestor a b s) as [x s'| |]; [|done|done]. destruct Hw as (? & ? & ?). by exists x, s'.
  - pose proof (lowest_common_ancestor_unknown c a b s Hs (or_intror Hb)) as Hw. unfold wp in Hw.
    destruct (lowest_common_ancestor a b s) as [|e s'|]; [done| |done]. by exists e, s'.
  - pose proof (lowest_common_ancestor_unknown c a b s Hs (or_introl Ha)) as Hw. unfold wp in Hw.
    destruct (lowest_common_ancestor a b s) as [|e s'|]; [done| |done]. by exists e, s'.
Qed.

(** C21: The route from one known block to another leads through their lowest common
    ancestor: the retracted blocks are those from the first block down to just
    above it, the enacted blocks those from just above it up to the second block;
    each is listed with its number, and none of the accessors panics. *)
Theorem tree_route_is_exact c s from to :
  chain_ok c -> shows c s -> is_Some (c !! from) -> is_Some (c !! to) ->
  exists r s' x lx j k, tree_route from to s = Ok r s' /\ shows c s' /\
    is_lca c from to x /\ c !! x = Some lx /\ up c j from = Some x /\ up c k to = Some x /\
    retracted (S := S) (E := E) r = ret (path c j from) /\ into_retracted r = path c j from /\
    common_block (S := S) (E := E) r = ret (mkHN (l_number lx) x) /\
    enacted (S := S) (E := E) r = ret (rev (path c k to)).
Proof using HS.
  intros Hc Hs [lf Hf] [lt Ht]. pose proof (tree_route_ok c Hc from to lf lt s Hs Hf Ht) as Hw. unfold wp in Hw.
  destruct (tree_route from to s) as [r s'| |]; [|done|done]. destruct Hw as [Hs' Hr].
  destruct (route_parts (S := S) (E := E) c from to r Hr) as (x & lx & j & k & Hrest). by exists r, s', x, lx, j, k.
Qed.

(** C25: The test of descent answers with the ancestry of the tree, also for a block
    that is being imported and not in the tree yet: a block descends from the base
    exactly if it is another block above it. *)
Theorem descent_is_exact c s current base hash :
  chain_ok c -> shows c s -> current_ok current c ->
  is_Some (with_current current c !! base) -> is_Some (with_current current c !! hash) ->
  exists s', client_is_descendent_of current base hash s = Ok (descends (with_current current c) base hash) s' /\ shows c s' /\
    (descends (with_current current c) base hash <-> base <> hash /\ ancestor (with_current current c) base hash).
Proof using HS.
  intros Hc Hs Hcur Hb Hh. pose proof (is_descendent_of_ok c Hc current base hash s Hs Hcur Hb Hh) as Hw. unfold wp in Hw.
  destruct (client_is_descendent_of current base hash s) as [b s'| |]; [|done|done]. destruct Hw as [Hs' ->].
  exists s'. split_and!; [done|done|]. apply descends_spec. by apply with_current_ok.
Qed.
End Routes.

(* ===================================================================== *)
(** ** A fork tree driven by the client *)
Section Driven.
Context {S E : Type} `{!HeaderMetadata S E}.

(** A client at one time: its tree, the block that is being imported with its
    parent, and the backend. *)
Record Client := mkClient { cl_links : Links; cl_current : option (Hash * Hash); cl_backend : S }.
Implicit Types (cl : Client).

(** The blocks that it knows, with the one that is being imported. *)
Definition knows cl : Links := with_current (cl_current cl) (cl_links cl).

(** The closure that the callers of the fork tree are given. *)
Definition asked cl (a b : Hash) : bool + option E :=
  match client_is_descendent_of (cl_current cl) a b (cl_backend cl) with
  | Ok answer _ => inl answer
  | Err e _ => inr (Some e)
  | Panic => inr None
  end.

(** *** Trees with the same blocks *)

(** The blocks of [c] are blocks of [all]; roots of states may differ. *)
Definition part_of (c all : Links) : Prop :=
  map_Forall (fun h l => (fun l' => (l_parent l', l_number l')) <$> all !! h = Some (l_parent l, l_number l)) c.

Lemma part_of_lookup c all h l :
  part_of c all -> c !! h = Some l -> exists l', all !! h = Some l' /\ l_parent l' = l_parent l /\ l_number l' = l_number l.
Proof. intros Hp Hl. specialize (Hp h l Hl). simpl in Hp. destruct (all !! h) as [l'|]; simplify_eq/=. eauto. Qed.

Lemma part_of_up c all k h a : part_of c all -> up c k h = Some a -> up all k h = Some a.
Proof.
  intros Hp. revert h. induction k as [|k IH]; intros h; simpl; destruct (c !! h) as [l|] eqn:Hl; try done;
    destruct (part_of_lookup _ _ _ _ Hp Hl) as (l' & -> & Hpar & _); simpl; [done|]. rewrite Hpar. apply IH.
Qed.

Lemma part_of_ancestor c all a b :
  chain_ok c -> chain_ok all -> part_of c all -> is_Some (c !! a) -> is_Some (c !! b) -> ancestor c a b <-> ancestor all a b.
Proof.
  intros Hc Hall Hp [la Ha] [lb Hb]. split; [intros [k Hk]; exists k; by eapply part_of_up|]. intros [k Hk].
  destruct (part_of_lookup _ _ _ _ Hp Ha) as (la' & Ha' & _ & Hna), (part_of_lookup _ _ _ _ Hp Hb) as (lb' & Hb' & _ & Hnb).
  pose proof (up_number _ Hall _ _ _ _ _ Hk Hb' Ha') as Hn. pose proof (ok_number _ Hc _ _ Ha).
  destruct (up_total _ Hc k b lb Hb) as [a' Ha1]; [lia|]. exists k. rewrite Ha1. pose proof (part_of_up _ _ _ _ _ Hp Ha1). congruence.
Qed.

Lemma part_of_descends c all a b :
  chain_ok c -> chain_ok all -> part_of c all -> is_Some (c !! a) -> is_Some (c !! b) -> descends c a b = descends all a b.
Proof.
  intros Hc Hall Hp Ha Hb. apply eq_bool_prop_intro. rewrite !descends_spec by done. by rewrite part_of_ancestor.
Qed.

(** What a block has above it sits on it. *)
Lemma up_sits c k h a : up c (Datatypes.S k) h = Some a -> exists x l, c !! x = Some l /\ l_parent l = a.
Proof.
  revert h. induction k as [|k IH]; intros h; simpl; destruct (c !! h) as [l|] eqn:Hl; try done; simpl.
  - destruct (c !! l_parent l); [|done]. intros [= <-]. eauto.
  - intros Hk. apply (IH (l_parent l)). done.
Qed.

Lemma nothing_above_current c h p b :
  chain_ok c -> current_ok (Some (h, p)) c -> ~ descends (with_current (Some (h, p)) c) h b.
Proof.
  intros Hc Hcur. pose proof (with_current_ok _ _ Hc Hcur) as Ht. rewrite descends_spec by done. intros [Hne [k Hk]].
  destruct k as [|k]; [destruct (up_from _ _ _ _ Hk) as [l Hl]; rewrite (up_0 _ _ _ Hl) in Hk; congruence|].
  apply up_sits in Hk as (x & l & Hx & Hl). destruct Hcur as (Hh & [lp Hp] & Hf). simpl in Hx. rewrite Hp in Hx.
  apply lookup_insert_Some in Hx as [[<- <-]|[_ Hx]]; simpl in Hl; [congruence|]. by apply (Hf x l).
Qed.

(** *** Histories *)

(** All blocks of a history. *)
Context (all : Links) (Hall : chain_ok all).

Definition number_of (h : Hash) : Z := default 0 (l_number <$> all !! h).

(** A client whose backend shows its tree, a part of all blocks. *)
Definition client_ok cl : Prop :=
  chain_ok (cl_links cl) /\ (exists shows, HeaderServer (E := E) shows /\ shows (cl_links cl) (cl_backend cl)) /\
  current_ok (cl_current cl) (cl_links cl) /\ part_of (knows cl) all.

(** It knows the blocks of the fork tree and of the call, and what is imported
    into the fork tree is the block that the client imports, or no ancestor of
    the blocks in it. *)
Definition may_call {V} cl (t : @ForkTree Hash V) (call : Call (H := Hash) (V := V)) : Prop :=
  Forall (fun e => is_Some (knows cl !! e.1.1)) (entries (roots t)) /\
  (forall h, call_hash call = Some h -> is_Some (knows cl !! h)) /\
  match call with
  | CImport hash _ => fst <$> cl_current cl = Some hash \/ Forall (fun e => ~ descends all hash e.1.1) (entries (roots t))
  | _ => True
  end.

(** The client may be another one at each call. *)
Inductive driven {V} : @ForkTree Hash V -> Prop :=
| driven_new : driven new_tree
| driven_ok t cl call a t' :
    driven t -> client_ok cl -> may_call cl t call -> exec (is_descendent_of := asked cl) (num := number_of) call t = Ok a t' -> driven t'
| driven_err t cl call e t' :
    driven t -> client_ok cl -> may_call cl t call -> exec (is_descendent_of := asked cl) (num := number_of) call t = Err e t' -> driven t'.

(** A client that knows all blocks. *)
Definition ideal (a b : Hash) : bool + option E := inl (descends all a b).

#[local] Instance ideal_ancestry : Ancestry ideal (descends all) number_of.
Proof using Hall.
  split; [done|..].
  - intros x y z. rewrite !descends_spec by done. intros [Hne Hxy] [Hne' Hyz]. split; [|by eapply ancestor_trans].
    intros ->. apply Hne'. by eapply (ancestor_antisym _ Hall).
  - intros x y. rewrite descends_spec by done. intros [Hne Hxy]. destruct (ancestor_known _ _ _ Hxy) as [[lx Hx] [ly Hy]].
    unfold number_of. rewrite Hx, Hy. simpl. pose proof (ancestor_number _ Hall _ _ _ _ Hxy Hx Hy).
    destruct (decide (l_number lx = l_number ly)) as [Heq|]; [|lia]. destruct Hne.
    eapply (ancestor_same _ Hall); [done|by eapply ancestor_refl|done|]. by rewrite Hy, Heq.
  - intros x y z. rewrite !descends_spec by done. intros [_ Hx] [_ Hy]. destruct (decide (x = y)) as [|Hne]; [by left|]. right.
    destruct (ancestor_known _ _ _ Hx) as [[lx Hlx] _], (ancestor_known _ _ _ Hy) as [[ly Hly] _].
    destruct (Z.le_ge_cases (l_number lx) (l_number ly)); [left|right]; (split; [done|]); by eapply (ancestor_linear _ Hall).
Qed.

Lemma asked_ideal cl a b : client_ok cl -> is_Some (knows cl !! a) -> is_Some (knows cl !! b) -> asked cl a b = ideal a b.
Proof using Hall.
  intros (Hc & (shows & HS & Hs) & Hcur & Hp) Ha Hb. unfold asked, ideal.
  pose proof (is_descendent_of_ok (shows := shows) _ Hc (cl_current cl) a b (cl_backend cl) Hs Hcur Ha Hb) as Hw. unfold wp in Hw.
  destruct (client_is_descendent_of _ a b _); [|done|done]. destruct Hw as [_ ->]. f_equal. apply part_of_descends; [by apply with_current_ok|done..].
Qed.

Lemma may_call_ideal {V} cl (t : @ForkTree Hash V) call :
  client_ok cl -> may_call cl t call ->
  in_order (anc := descends all) call (view t) /\
  exec (is_descendent_of := asked cl) (num := number_of) call t = exec (is_descendent_of := ideal) (num := number_of) call t.
Proof using Hall.
  intros Hok (Ht & Hh & Hord). rewrite Forall_forall in Ht. split.
  - destruct call as [hash data|?|?|? ?|? ?|]; simpl; try done. destruct Hord as [Hcur|Hord]; [|done].
    apply Forall_forall. intros e He. destruct Hok as (Hc & _ & Hcok & Hp).
    rewrite <- (part_of_descends (knows cl)); [|by apply with_current_ok|done|done|by apply Hh|by apply Ht].
    unfold knows. destruct (cl_current cl) as [[h p]|]; simplify_eq/=. by apply nothing_above_current.
  - apply (exec_agree (asked cl) ideal (fun h => is_Some (knows cl !! h))); [|done|done]. intros a b. by apply asked_ideal.
Qed.

Lemma driven_forest {V} (t : @ForkTree Hash V) : driven t -> forest_ok (anc := descends all) (num := number_of) (roots t).
Proof using Hall.
  intros Ht. apply (reachable_ok (is_descendent_of := ideal)). induction Ht as [|t cl call a t' _ IH Hok Hm He|t cl call e t' _ IH Hok Hm He].
  - apply reach_new.
  - destruct (may_call_ideal cl t call Hok Hm) as [Hin Heq]. rewrite Heq in He. by eapply reach_ok.
  - destruct (may_call_ideal cl t call Hok Hm) as [Hin Heq]. rewrite Heq in He. by eapply reach_err.
Qed.

(** C12: A fork tree whose callers ask the client about descent, as consensus does
    while it imports blocks and finalizes them.  The client may change from call to
    call: its tree grows, another block is being imported, its caches fill; at each
    call its tree is a part of one tree of all blocks, it knows the blocks of the
    fork tree and the one of the call, and a block is imported into the fork tree
    while the client imports it, or before its descendants.  Then over every history
    of calls the client answers every question, and each call ends, without a panic,
    with the result or the error that the set of blocks specifies with the ancestry
    of the tree of all blocks. *)
Theorem client_drives_the_fork_tree {V} (t : @ForkTree Hash V) cl call :
  driven t -> client_ok cl -> may_call cl t call ->
  exists r t', (exec (is_descendent_of := asked cl) (num := number_of) call t = match r with inl a => Ok a t' | inr e => Err e t' end) /\
    spec_call (anc := descends all) (num := number_of) call (view t) r (view t') /\
    forest_ok (anc := descends all) (num := number_of) (roots t').
Proof using Hall.
  intros Ht%driven_forest Hok Hm. destruct (may_call_ideal cl t call Hok Hm) as [Hin ->].
  pose proof (exec_implements (is_descendent_of := ideal) call t Ht Hin) as Hw. unfold implements, wp in Hw.
  destruct (exec call t) as [a t'|e t'|]; [exists (inl a), t'|exists (inr e), t'|done];
    destruct Hw as [Hf Hspec]; by split_and!.
Qed.
End Driven.

(* ===================================================================== *)
(** ** On the chain in memory *)
Module InMemory.
Import Demo.

Lemma chain_tree : chain_ok (links chain).
Proof. apply ci_chain, chain_reachable_ok, chain_reached. Qed.

Lemma chain_serves : serves chain (links chain) chain.
Proof. split_and!; [done..|]. apply ci_keys, chain_reachable_ok, chain_reached. Qed.

(** The block that is being imported, on the fork. *)
Definition importing : option (Hash * Hash) := Some (5, 4)%N.

Lemma importing_ok : current_ok importing (links chain).
Proof. split_and!; [vm_compute; reflexivity|by eexists|]. apply (bool_decide_unpack _). vm_compute. exact I. Qed.

Lemma common_ancestor_is_exact_witness :
  exists x s', lowest_common_ancestor 6 4 chain = Ok x s' /\ x = mkHN 0 1 /\ is_lca (links chain) 6 4 1.
Proof.
  pose proof (common_ancestor_is_exact (E := ChainError) (shows := serves chain) (links chain) chain 6 4 chain_tree chain_serves) as Hw.
  change (links chain !! 6%N) with (Some (mkLink 3 3 0)) in Hw. change (links chain !! 4%N) with (Some (mkLink 1 1 0)) in Hw.
  destruct Hw as (x & s' & He & _ & Hl & _).
  assert (match lowest_common_ancestor 6 4 chain with Ok x _ => x = mkHN 0 1 | _ => False end) as Hx by (vm_compute; reflexivity).
  rewrite He in Hx. subst x. exists (mkHN 0 1), s'. split; [exact He|]. split; [reflexivity|exact Hl].
Defined.

Lemma tree_route_is_exact_witness :
  exists r s', tree_route 6 4 chain = Ok r s' /\
    into_retracted r = [mkHN 3 6; mkHN 2 3; mkHN 1 2] /\ enacted (S := Storage) (E := ChainError) r = ret [mkHN 1 4].
Proof.
  destruct (tree_route_is_exact (E := ChainError) (shows := serves chain) (links chain) chain 6 4 chain_tree chain_serves)
    as (r & s' & x & lx & j & k & He & _ & _ & _ & _ & _ & _ & Hret & _ & Hen); [by eexists..|].
  exists r, s'. split; [exact He|].
  assert (match tree_route 6 4 chain with
    | Ok r _ => into_retracted r = [mkHN 3 6; mkHN 2 3; mkHN 1 2] /\ enacted (S := Storage) (E := ChainError) r = ret [mkHN 1 4]
    | _ => False end) as Hx by (vm_compute; split; reflexivity).
  rewrite He in Hx. exact Hx.
Defined.

Lemma descent_is_exact_witness :
  exists s', client_is_descendent_of importing 1 5 chain = Ok true s' /\ ancestor (with_current importing (links chain)) 1 5.
Proof.
  destruct (descent_is_exact (E := ChainError) (shows := serves chain) (links chain) chain importing 1 5 chain_tree chain_serves importing_ok)
    as (s' & He & _ & Hiff); [by eexists..|].
  exists s'. split; [exact He|]. apply Hiff. vm_compute. exact I.
Defined.

(** The client imports the block 4 on a chain of three blocks, and later, on the
    longer chain, the block 5 on it. *)
Definition early : Storage := Eval vm_compute in default chain_new (play (take 3 history) chain_new).
Definition all_blocks : Links := with_current importing (links chain).
Definition client1 : Client := mkClient (links early) (Some (4, 1)%N) early.
Definition client2 : Client := mkClient (links chain) importing chain.

Lemma all_blocks_ok : chain_ok all_blocks.
Proof. exact (with_current_ok _ _ chain_tree importing_ok). Qed.

Lemma early_reached : chain_reachable early.
Proof. apply (chain_play_reachable (take 3 history) chain_new); [apply chain_reach_new|]. vm_compute. reflexivity. Qed.

Lemma client1_ok : client_ok (E := ChainError) all_blocks client1.
Proof.
  split; [apply ci_chain, chain_reachable_ok, early_reached|]. split; [|split].
  - exists (serves early). split; [apply in_mem_server|]. split; [done|]. split; [done|]. apply ci_keys, chain_reachable_ok, early_reached.
  - split; [vm_compute; reflexivity|]. split; [by eexists|]. apply (bool_decide_unpack _). vm_compute. exact I.
  - apply (bool_decide_unpack _). vm_compute. exact I.
Qed.

Lemma client2_ok : client_ok (E := ChainError) all_blocks client2.
Proof.
  split; [exact chain_tree|]. split; [exists (serves chain); split; [apply in_mem_server|exact chain_serves]|]. split; [exact importing_ok|].
  apply (bool_decide_unpack _). vm_compute. exact I.
Qed.

Local Abbreviation run cl := (exec (is_descendent_of := asked (E := ChainError) cl) (num := number_of all_blocks)).

(** The fork tree with the block 4. *)
Definition empty : @ForkTree Hash Z := new_tree.
Definition one : @ForkTree Hash Z := Eval vm_compute in match run client1 (CImport 4%N 1) empty with Ok _ t => t | _ => empty end.

Lemma one_driven : driven (S := Storage) (E := ChainError) all_blocks one.
Proof.
  apply (driven_ok all_blocks empty client1 (CImport 4%N 1) (Root true)); [apply driven_new|exact client1_ok| |vm_compute; reflexivity].
  split; [apply Forall_nil_2|]. split; [|by left]. intros h [= <-]. by eexists.
Qed.

(** The block that is being imported goes on the fork: it is not a root. *)
Lemma client_drives_the_fork_tree_witness :
  let call := CImport 5%N 7 in
  exists r t', (run client2 call one = match r with inl a => Ok a t' | inr e => Err e t' end) /\ r = inl (Root false) /\
    spec_call (anc := descends all_blocks) (num := number_of all_blocks) call (view one) r (view t') /\
    forest_ok (anc := descends all_blocks) (num := number_of all_blocks) (roots t').
Proof.
  intros call.
  destruct (client_drives_the_fork_tree all_blocks all_blocks_ok one client2 call) as (r & t' & He & Hspec & Hok).
  - exact one_driven.
  - exact client2_ok.
  - split; [apply Forall_cons_2; [by eexists|apply Forall_nil_2]|]. split; [|by left]. intros h [= <-]. by eexists.
  - exists r, t'. split; [exact He|]. split; [|split; [exact Hspec|exact Hok]].
    assert (match run client2 call one with Ok a _ => a = Root false | _ => False end) as Hr by (vm_compute; reflexivity).
    rewrite He in Hr. destruct r; [by subst|done].
Defined.
End InMemory.
