(* ===== verification/BlockDb.v ===== *)
(** * The block database

    [client/db/src/utils.rs] and [client/db/src/lib.rs]: the keys under which
    blocks are stored and found, the headers and their metadata behind two caches,
    and the move of the head, which rewrites the canonical lookups in a
    transaction.

    The key-value store is a class.  The two cache types come from the crates [lru]
    and [linked-hash-map]: classes with what is documented of them.  The codec of
    headers and the bytes of a hash are parameters.  Bodies, justifications, state,
    the changes tries and the pruning of forks are not modelled. *)

From S2P Require Import Prelude Database HeaderMetadata ChainBackend Leaves.

(* ===================================================================== *)
(** ** Caches of other crates *)

(** [lru::LruCache] *)
Class LruCache (C V : Type) := {
  lru_new : nat -> C;
  lru_get : Hash -> C -> option V * C;
  lru_put : Hash -> V -> C -> C;
  lru_pop : Hash -> C -> C
}.

(** [linked_hash_map::LinkedHashMap] *)
Class LinkedHashMap (C V : Type) := {
  lhm_new : C;
  lhm_get_refresh : Hash -> C -> option V * C;
  lhm_insert : Hash -> V -> C -> C;
  lhm_len : C -> nat;
  lhm_pop_front : C -> C;
  lhm_remove : Hash -> C -> C
}.

(* ===================================================================== *)
(** ** Columns and keys *)

Definition COLUMN_META : ColumnId := 0.
Definition KEY_LOOKUP : ColumnId := 3.
Definition HEADER : ColumnId := 4.
Definition BEST_BLOCK : bytes := bytes_of_string "best".
Definition GENESIS_HASH : bytes := bytes_of_string "gen".
Definition FINALIZED_BLOCK : bytes := bytes_of_string "final".
Definition FINALIZED_STATE : bytes := bytes_of_string "fstate".

Definition CACHE_HEADERS : nat := 8.
Definition LRU_CACHE_SIZE : nat := 5000.

(** [utils::number_index_key]; the number must fit 32 bits *)
Definition number_index_key (n : Z) : bytes + ChainError :=
  if (0 <=? n) && (n <? U32) then
    inl [byte_of (Z.shiftr n 24); byte_of (Z.land (Z.shiftr n 16) 255); byte_of (Z.land (Z.shiftr n 8) 255); byte_of (Z.land n 255)]
  else inr BackendError.

Definition byte_Z (b : Byte.byte) : Z := Z.of_N (Byte.to_N b).

(** [utils::lookup_key_to_number] *)
Definition lookup_key_to_number (key : bytes) : Z + ChainError :=
  match key with
  | k0 :: k1 :: k2 :: k3 :: _ =>
      inl (Z.lor (Z.lor (Z.lor (Z.shiftl (byte_Z k0) 24) (Z.shiftl (byte_Z k1) 16)) (Z.shiftl (byte_Z k2) 8)) (byte_Z k3))
  | _ => inr BackendError
  end.

(** A [Result] as a computation. *)
Definition from_result {S E A} (r : A + E) : M S E A := match r with inl a => ret a | inr e => fail e end.

(** [utils::Meta] *)
Record Meta := mkMeta {
  meta_best_hash : Hash;
  meta_best_number : Z;
  meta_finalized_hash : Hash;
  meta_finalized_number : Z;
  meta_genesis_hash : Hash;
  meta_finalized_state : option (Hash * Z)
}.

Definition empty_meta : Meta := mkMeta 0%N 0 0%N 0 0%N None.

Section Keys.
Context {DbHash D Header : Type} `{!Database DbHash D ChainError, !HeaderT Header}.
Context (as_ref : Hash -> bytes) (header_encode : Header -> bytes) (header_decode : bytes -> option Header).
Context (hash_decode : bytes -> option Hash).
Local Abbreviation Tx := (Transaction DbHash).

Definition number_and_hash_to_lookup_key (number : Z) (hash : Hash) : bytes + ChainError :=
  match number_index_key number with inl key => inl (key ++ as_ref hash) | inr e => inr e end.

Definition remove_number_to_key_mapping (number : Z) (tx : Tx) : Tx + ChainError :=
  match number_index_key number with inl key => inl (tx_remove KEY_LOOKUP key tx) | inr e => inr e end.

Definition remove_key_mappings (number : Z) (hash : Hash) (tx : Tx) : Tx + ChainError :=
  match remove_number_to_key_mapping number tx with
  | inl tx => inl (tx_remove KEY_LOOKUP (as_ref hash) tx)
  | inr e => inr e
  end.

Definition insert_number_to_key_mapping (number : Z) (hash : Hash) (tx : Tx) : Tx + ChainError :=
  match number_index_key number, number_and_hash_to_lookup_key number hash with
  | inl key, inl value => inl (tx_set KEY_LOOKUP key value tx)
  | inr e, _ | _, inr e => inr e
  end.

Definition insert_hash_to_key_mapping (number : Z) (hash : Hash) (tx : Tx) : Tx + ChainError :=
  match number_and_hash_to_lookup_key number hash with
  | inl value => inl (tx_set KEY_LOOKUP (as_ref hash) value tx)
  | inr e => inr e
  end.

Definition block_id_to_lookup_key (db : D) (id : BlockId) : option bytes + ChainError :=
  match id with
  | IdNumber n => match number_index_key n with inl key => inl (db_get KEY_LOOKUP key db) | inr e => inr e end
  | IdHash h => inl (db_get KEY_LOOKUP (as_ref h) db)
  end.

Definition read_db (db : D) (col : ColumnId) (id : BlockId) : option bytes + ChainError :=
  match block_id_to_lookup_key db id with
  | inl (Some key) => inl (db_get col key db)
  | inl None => inl None
  | inr e => inr e
  end.

Definition remove_from_db (db : D) (col : ColumnId) (id : BlockId) (tx : Tx) : Tx + ChainError :=
  match block_id_to_lookup_key db id with
  | inl (Some key) => inl (tx_remove col key tx)
  | inl None => inl tx
  | inr e => inr e
  end.

Definition read_header (db : D) (id : BlockId) : option Header + ChainError :=
  match read_db db HEADER id with
  | inl (Some header) => match header_decode header with Some header => inl (Some header) | None => inr BackendError end
  | inl None => inl None
  | inr e => inr e
  end.

Definition require_header (db : D) (id : BlockId) : Header + ChainError :=
  match read_header db id with
  | inl (Some header) => inl header
  | inl None => inr UnknownBlock
  | inr e => inr e
  end.

Definition read_genesis_hash (db : D) : option Hash + ChainError :=
  match db_get COLUMN_META GENESIS_HASH db with
  | Some h => match hash_decode h with Some h => inl (Some h) | None => inr BackendError end
  | None => inl None
  end.

(** [load_meta_block]: a block that is missing or does not decode is the default *)
Definition load_meta_block (db : D) (key : bytes) : Hash * Z :=
  match (id ← db_get COLUMN_META key db; b ← db_get HEADER id db; header_decode b) with
  | Some header => (header_hash header, header_number header)
  | None => (0%N, 0)
  end.

Definition read_meta (db : D) : Meta + ChainError :=
  match read_genesis_hash db with
  | inr e => inr e
  | inl None => inl empty_meta
  | inl (Some genesis) =>
      let '(best_h, best_n) := load_meta_block db BEST_BLOCK in
      let '(final_h, final_n) := load_meta_block db FINALIZED_BLOCK in
      let '(state_h, state_n) := load_meta_block db FINALIZED_STATE in
      inl (mkMeta best_h best_n final_h final_n genesis (if decide (state_h = 0%N) then None else Some (state_h, state_n)))
  end.
End Keys.

(* ===================================================================== *)
(** ** The database with its caches *)
Section Db.
Context {DbHash D Header Lru Lhm : Type}.

Record BlockchainDb := mkDb {
  db : D;
  meta : Meta;
  db_leaves : LeafSet;
  header_metadata_cache : Lru;
  header_cache : Lhm
}.

Definition set_db d s : BlockchainDb := mkDb d (meta s) (db_leaves s) (header_metadata_cache s) (header_cache s).
Definition set_meta m s : BlockchainDb := mkDb (db s) m (db_leaves s) (header_metadata_cache s) (header_cache s).
Definition set_metadata_cache c s : BlockchainDb := mkDb (db s) (meta s) (db_leaves s) c (header_cache s).
Definition set_header_cache c s : BlockchainDb := mkDb (db s) (meta s) (db_leaves s) (header_metadata_cache s) c.

Context {P : Profile} `{!Database DbHash D ChainError, !HeaderT Header}.
Context `{!LruCache Lru CachedHeaderMetadata, !LinkedHashMap Lhm (option Header)}.
Context (as_ref : Hash -> bytes) (header_decode : bytes -> option Header).
Local Abbreviation M := (M BlockchainDb ChainError).
Local Abbreviation Tx := (Transaction DbHash).

(** [while cache.len() > CACHE_HEADERS { cache.pop_front() }] *)
Fixpoint trim (fuel : nat) (c : Lhm) : Lhm :=
  match fuel with
  | O => c
  | S fuel => if (CACHE_HEADERS <? lhm_len c)%nat then trim fuel (lhm_pop_front c) else c
  end.

Definition cache_header (hash : Hash) (header : option Header) (c : Lhm) : Lhm :=
  let c := lhm_insert hash header c in trim (lhm_len c) c.

Record MetaUpdate := mkUpdate { mu_hash : Hash; mu_number : Z; mu_is_best : bool; mu_is_finalized : bool; mu_with_state : bool }.

Definition update_meta (u : MetaUpdate) (m : Meta) : Meta :=
  let m :=
    if mu_number u =? 0 then
      mkMeta (meta_best_hash m) (meta_best_number m) (mu_hash u) (meta_finalized_number m) (mu_hash u) (meta_finalized_state m)
    else m in
  let m :=
    if mu_is_best u then
      mkMeta (mu_hash u) (mu_number u) (meta_finalized_hash m) (meta_finalized_number m) (meta_genesis_hash m) (meta_finalized_state m)
    else m in
  if mu_is_finalized u then
    mkMeta (meta_best_hash m) (meta_best_number m) (mu_hash u) (mu_number u) (meta_genesis_hash m)
      (if mu_with_state u then Some (mu_hash u, mu_number u) else meta_finalized_state m)
  else m.

Definition db_header (id : BlockId) : M (option Header) :=
  match id with
  | IdHash h =>
      let! cached := gets (fun s => lhm_get_refresh h (header_cache s)) in
      let '(hit, cache) := cached in
      modify (set_header_cache cache) ;;
      match hit with
      | Some result => ret result
      | None =>
          let! d := gets db in
          let! header := from_result (read_header as_ref header_decode d id) in
          modify (fun s => set_header_cache (cache_header h header (header_cache s)) s) ;;
          ret header
      end
  | IdNumber _ => let! d := gets db in from_result (read_header as_ref header_decode d id)
  end.

(** [HeaderMetadataCache], over the cache of the crate *)
Definition cached_metadata (hash : Hash) : M (option CachedHeaderMetadata) :=
  let! cached := gets (fun s => lru_get hash (header_metadata_cache s)) in
  let '(hit, cache) := cached in
  modify (set_metadata_cache cache) ;;
  ret hit.
Definition cache_metadata (hash : Hash) (m : CachedHeaderMetadata) : M unit :=
  modify (fun s => set_metadata_cache (lru_put hash m (header_metadata_cache s)) s).
Definition uncache_metadata (hash : Hash) : M unit :=
  modify (fun s => set_metadata_cache (lru_pop hash (header_metadata_cache s)) s).

#[global] Instance db_metadata : HeaderMetadata BlockchainDb ChainError := {|
  header_metadata hash :=
    let! hit := cached_metadata hash in
    match hit with
    | Some m => ret m
    | None =>
        let! header := db_header (IdHash hash) in
        match header with
        | Some header =>
            let m := metadata_from header in
            cache_metadata (m_hash m) m ;;
            ret m
        | None => fail UnknownBlock
        end
    end;
  insert_header_metadata := cache_metadata;
  remove_header_metadata hash :=
    modify (fun s => set_header_cache (lhm_remove hash (header_cache s)) s) ;;
    uncache_metadata hash
|}.

Definition db_info (s : BlockchainDb) : ChainInfo :=
  let m := meta s in
  mkInfo (meta_best_hash m) (meta_best_number m) (meta_genesis_hash m) (meta_finalized_hash m) (meta_finalized_number m)
    (meta_finalized_state m) (leaf_count (db_leaves s)).

Definition db_status (id : BlockId) : M BlockStatus :=
  match id with
  | IdHash _ => let! header := db_header id in ret (if header is Some _ then InChain else Unknown)
  | IdNumber n => let! best := gets (fun s => meta_best_number (meta s)) in ret (if n <=? best then InChain else Unknown)
  end.

Definition db_number (hash : Hash) : M (option Z) :=
  let! m := attempt (header_metadata hash) in ret (m_number <$> m).

Definition db_hash (number : Z) : M (option Hash) :=
  let! header := db_header (IdNumber number) in ret (header_hash <$> header).

#[global] Instance db_backend : ChainBackend BlockchainDb Header := {|
  get_header := db_header;
  get_info := db_info;
  get_number := db_number;
  get_hash := db_hash;
  get_leaves := gets (fun s => leaf_hashes (db_leaves s))
|}.

(* --------------------------------------------------------------------- *)
(** ** Moving the head *)
Context (canonicalization_delay : Z).

(** [for r in tree_route.retracted()] *)
Fixpoint uncanonicalize (finalized : Hash) (l : list HashAndNumber) (tx : Tx) : Tx + ChainError :=
  match l with
  | [] => inl tx
  | r :: l =>
      if decide (hn_hash r = finalized) then inr NotInFinalizedChain
      else match remove_number_to_key_mapping (hn_number r) tx with inl tx => uncanonicalize finalized l tx | inr e => inr e end
  end.

(** [for e in tree_route.enacted()] *)
Fixpoint canonicalize (l : list HashAndNumber) (tx : Tx) : Tx + ChainError :=
  match l with
  | [] => inl tx
  | e :: l => match insert_number_to_key_mapping as_ref (hn_number e) (hn_hash e) tx with inl tx => canonicalize l tx | inr e => inr e end
  end.

(** The transaction after it, the enacted and the retracted hashes *)
Definition set_head_with_transaction (tx : Tx) (route_to : Hash) (best_number : Z) (best_hash : Hash) :
    M (Tx * list Hash * list Hash) :=
  let! m := gets meta in
  let! too_old :=
    if best_number <? meta_best_number m then
      let! d := sub U32 (meta_best_number m) best_number in ret (canonicalization_delay <? d)
    else ret false in
  if too_old : bool then fail SetHeadTooOld
  else
    let! status := db_status (IdHash route_to) in
    let parent_exists := match status with InChain => true | Unknown => false end in
    let! moved :=
      if negb (bool_decide (meta_best_hash m = 0%N)) && parent_exists then
        let! r := tree_route (meta_best_hash m) route_to in
        let! retracted := retracted r in
        let! tx := from_result (uncanonicalize (meta_finalized_hash m) retracted tx) in
        let! enacted := enacted r in
        let! tx := from_result (canonicalize enacted tx) in
        ret (tx, map hn_hash enacted, map hn_hash retracted)
      else ret (tx, [], []) in
    let '(tx, enacted, retracted) := moved in
    let! lookup_key := from_result (number_and_hash_to_lookup_key as_ref best_number best_hash) in
    let tx := tx_set COLUMN_META BEST_BLOCK lookup_key tx in
    let! tx := from_result (insert_number_to_key_mapping as_ref best_number best_hash tx) in
    ret (tx, enacted, retracted).

Definition ensure_sequential_finalization (header : Header) (last_finalized : option Hash) : M unit :=
  let! m := gets meta in
  let last_finalized := default (meta_finalized_hash m) last_finalized in
  if negb (bool_decide (last_finalized = meta_genesis_hash m)) && negb (bool_decide (header_parent_hash header = last_finalized))
  then fail NonSequentialFinalization
  else ret tt.
End Db.

#[global] Arguments BlockchainDb : clear implicits.
