(* ===== verification/BlockDbFacts.v ===== *)
(** * The block database: headers behind caches, and keys

    Whatever the caches hold, the database serves the tree of the headers that
    are stored in it.  A number and its key determine each other; a key of a number
    is never the key of a hash; and the transaction that moves the head, committed,
    makes the canonical lookups the chain of the head. *)

From S2P Require Import Prelude Database HeaderMetadata HeaderChain HeaderRoutes HeaderDescent InMemCanon ChainBackend Leaves BlockDb.

(* ===================================================================== *)
(** ** What the crates document *)

(** A lookup does not change the entries; an insertion may push entries out. *)
Class LruLaws {C V : Type} `{!LruCache C V} (peek : C -> gmap Hash V) : Prop := {
  lru_new_peek n : peek (lru_new n) = ∅;
  lru_get_hit h c : (lru_get h c).1 = peek c !! h;
  lru_get_peek h c : peek (lru_get h c).2 = peek c;
  lru_put_peek h v c : peek (lru_put h v c) ⊆ <[h := v]> (peek c);
  lru_pop_peek h c : peek (lru_pop h c) = delete h (peek c)
}.

Class LhmLaws {C V : Type} `{!LinkedHashMap C V} (peek : C -> gmap Hash V) : Prop := {
  lhm_new_peek : peek lhm_new = ∅;
  lhm_get_hit h c : (lhm_get_refresh h c).1 = peek c !! h;
  lhm_get_peek h c : peek (lhm_get_refresh h c).2 = peek c;
  lhm_insert_peek h v c : peek (lhm_insert h v c) = <[h := v]> (peek c);
  lhm_len_peek c : lhm_len c = base.size (peek c);
  lhm_pop_front_peek c : peek (lhm_pop_front c) ⊆ peek c;
  lhm_pop_front_len c : lhm_len (lhm_pop_front c) = (lhm_len c - 1)%nat;
  lhm_remove_peek h c : peek (lhm_remove h c) = delete h (peek c)
}.

Section Facts.
Context {P : Profile} {DbHash D Header Lru Lhm : Type} `{!Database DbHash D ChainError, !HeaderT Header}.
Context `{!LruCache Lru CachedHeaderMetadata, !LinkedHashMap Lhm (option Header)}.
Context {lru_peek : Lru -> gmap Hash CachedHeaderMetadata} {lhm_peek : Lhm -> gmap Hash (option Header)}.
Context `{LL : !LruLaws lru_peek, HL : !LhmLaws lhm_peek}.
Context (as_ref : Hash -> bytes) (header_decode : bytes -> option Header).
Local Abbreviation Db := (BlockchainDb D Lru Lhm).
Local Abbreviation read := (read_header as_ref header_decode).
Local Abbreviation never := (fun (_ : ChainError) (_ : Db) => False).
Implicit Types (s : Db) (c : Links) (h : Hash).

(** The cache keeps to its bound, and to its entries. *)
Lemma trim_ok fuel (l : Lhm) :
  lhm_peek (trim fuel l) ⊆ lhm_peek l /\ ((lhm_len l <= fuel)%nat -> (lhm_len (trim fuel l) <= CACHE_HEADERS)%nat).
Proof using HL.
  revert l. induction fuel as [|fuel IH]; intros l; cbn [trim]; [split; [done|lia]|].
  destruct (Nat.ltb_spec CACHE_HEADERS (lhm_len l)) as [Hlt|Hge]; [|split; [done|lia]].
  destruct (IH (lhm_pop_front l)) as [Hsub Hlen]. pose proof (lhm_pop_front_len l) as Hpop. split.
  - etrans; [exact Hsub|apply lhm_pop_front_peek].
  - intros Hf. apply Hlen. lia.
Qed.

Lemma cache_header_peek h o (l : Lhm) : lhm_peek (cache_header h o l) ⊆ <[h := o]> (lhm_peek l).
Proof using HL. unfold cache_header. etrans; [apply trim_ok|]. by rewrite lhm_insert_peek. Qed.

(* --------------------------------------------------------------------- *)
(** ** The tree of the stored headers *)

(** The database stores the headers of [c], and the caches agree with it. *)
Record db_shows c s : Prop := {
  sh_read h : match c !! h with
    | Some l => exists header, read (db s) (IdHash h) = inl (Some header) /\ header_link header = l /\ header_hash header = h
    | None => read (db s) (IdHash h) = inl None
    end;
  sh_metadata h m : lru_peek (header_metadata_cache s) !! h = Some m -> metadata_ok c h m;
  sh_headers h o : lhm_peek (header_cache s) !! h = Some o -> read (db s) (IdHash h) = inl o
}.

(** Serving changes the caches only. *)
Definition db_serves s0 c s : Prop :=
  db s = db s0 /\ meta s = meta s0 /\ db_leaves s = db_leaves s0 /\ db_shows c s.

Lemma serves_headers s0 c s l :
  db_serves s0 c s -> (forall h o, lhm_peek l !! h = Some o -> read (db s) (IdHash h) = inl o) -> db_serves s0 c (set_header_cache l s).
Proof. intros (? & ? & ? & [Hr Hm Hh]) Hl. split_and!; [done..|]. by split. Qed.

Lemma serves_metadata s0 c s l :
  db_serves s0 c s -> (forall h m, lru_peek l !! h = Some m -> metadata_ok c h m) -> db_serves s0 c (set_metadata_cache l s).
Proof. intros (? & ? & ? & [Hr Hm Hh]) Hl. split_and!; [done..|]. by split. Qed.

Lemma db_header_ok s0 c h s :
  db_serves s0 c s ->
  wp (db_header as_ref header_decode (IdHash h)) (fun o s' => db_serves s0 c s' /\ read (db s0) (IdHash h) = inl o) never s.
Proof using HL.
  intros Hs. pose proof Hs as (Hd & _ & _ & Hsh). unfold db_header. apply wp_bind, wp_gets.
  destruct (lhm_get_refresh h (header_cache s)) as [hit l] eqn:Hg.
  assert (hit = lhm_peek (header_cache s) !! h) as Hhit by (by rewrite <- lhm_get_hit, Hg).
  pose proof (lhm_get_peek h (header_cache s)) as Hl. rewrite Hg in Hl. simpl in Hl.
  apply wp_bind, wp_modify. assert (db_serves s0 c (set_header_cache l s)) as Hs'.
  { apply serves_headers; [done|]. rewrite Hl. apply (sh_headers _ _ Hsh). }
  destruct hit as [o|].
  - apply wp_ret. split; [done|]. rewrite <- Hd. by apply (sh_headers _ _ Hsh).
  - apply wp_bind, wp_gets, wp_bind. simpl. rewrite Hd. pose proof (sh_read _ _ Hsh h) as Hr. rewrite Hd in Hr.
    assert (exists o, read (db s0) (IdHash h) = inl o) as [o Ho] by (destruct (c !! h); naive_solver).
    rewrite Ho. simpl. apply wp_ret, wp_bind, wp_modify, wp_ret. split; [|done]. apply serves_headers; [done|].
    intros h' o' Hin. eapply lookup_weaken in Hin; [|apply cache_header_peek]. simpl in *. rewrite Hl, Hd in *.
    apply lookup_insert_Some in Hin as [[-> ->]|[_ Hin]]; [done|]. rewrite <- Hd. by apply (sh_headers _ _ Hsh).
Qed.

#[local] Instance metadata_of_db : HeaderMetadata Db ChainError := db_metadata as_ref header_decode.

Lemma cache_metadata_ok s0 c h m s :
  db_serves s0 c s -> metadata_ok c h m -> wp (cache_metadata h m) (fun _ => db_serves s0 c) never s.
Proof using LL.
  intros Hs Hm. apply wp_modify, serves_metadata; [done|]. intros h' m' Hin.
  eapply lookup_weaken in Hin; [|apply lru_put_peek]. apply lookup_insert_Some in Hin as [[-> ->]|[_ Hin]]; [done|].
  destruct Hs as (_ & _ & _ & Hsh). by apply (sh_metadata _ _ Hsh).
Qed.

Lemma cached_metadata_ok s0 c h s :
  db_serves s0 c s ->
  wp (cached_metadata h) (fun hit s' => db_serves s0 c s' /\ forall m, hit = Some m -> metadata_ok c h m) never s.
Proof using LL.
  intros Hs. pose proof Hs as (_ & _ & _ & Hsh). unfold cached_metadata. apply wp_bind, wp_gets.
  destruct (lru_get h (header_metadata_cache s)) as [hit l] eqn:Hg. apply wp_bind, wp_modify, wp_ret. split.
  - apply serves_metadata; [done|]. replace l with (lru_get h (header_metadata_cache s)).2 by (by rewrite Hg).
    rewrite lru_get_peek. apply (sh_metadata _ _ Hsh).
  - intros m ->. apply (sh_metadata _ _ Hsh). rewrite <- lru_get_hit. by rewrite Hg.
Qed.

#[export] Instance db_server s0 : HeaderServer (E := ChainError) (db_serves s0).
Proof using LL HL.
  split.
  - intros c s h l Hs Hl. simpl. apply wp_bind. eapply wp_mono; [by apply cached_metadata_ok| |done].
    intros [m|] s1 [Hs1 Hm]; [apply wp_ret; split; [by apply Hm|done]|]. apply wp_bind.
    eapply wp_mono; [by apply db_header_ok| |done]. intros o s2 [Hs2 Ho]. pose proof Hs2 as (Hd & _ & _ & Hsh).
    pose proof (sh_read _ _ Hsh h) as Hr. rewrite Hl, Hd in Hr. destruct Hr as (header & Hr & Hlink & Hhash).
    assert (o = Some header) as -> by congruence. assert (metadata_ok c h (metadata_from header)) as Hmd.
    { split; simpl; [by rewrite Hl, <- Hlink|done|by left]. }
    apply wp_bind. eapply wp_mono; [apply (cache_metadata_ok s0 c); [done|simpl; by rewrite Hhash]| |done].
    intros [] s3 Hs3. by apply wp_ret.
  - intros c s h Hs Hl. simpl. apply wp_bind. eapply wp_mono; [by apply cached_metadata_ok| |done].
    intros [m|] s1 [Hs1 Hm]; [specialize (Hm m eq_refl) as [Hm _ _]; congruence|]. apply wp_bind.
    eapply wp_mono; [by apply db_header_ok| |done]. intros o s2 [Hs2 Ho]. pose proof Hs2 as (Hd & _ & _ & Hsh).
    pose proof (sh_read _ _ Hsh h) as Hr. rewrite Hl, Hd in Hr. assert (o = None) as -> by congruence. by apply wp_fail.
  - intros c s h m Hs Hm. by apply cache_metadata_ok.
  - intros c s h Hs. simpl. apply wp_bind, wp_modify, wp_modify. pose proof Hs as (_ & _ & _ & Hsh).
    apply serves_metadata; [apply serves_headers; [done|]|]; simpl.
    + intros h' o. rewrite lhm_remove_peek. intros [_ Hin]%lookup_delete_Some. by apply (sh_headers _ _ Hsh).
    + intros h' m. rewrite lru_pop_peek. intros [_ Hin]%lookup_delete_Some. by apply (sh_metadata _ _ Hsh).
Qed.
End Facts.

(* ===================================================================== *)
(** ** Numbers as bytes *)

Lemma testbit_mod_byte x i : 0 <= i -> Z.testbit (x mod 256) i = (i <? 8) && Z.testbit x i.
Proof.
  intros Hi. change 256 with (2 ^ 8). destruct (Z.ltb_spec i 8); simpl; [by apply Z.mod_pow2_bits_low|by apply Z.mod_pow2_bits_high].
Qed.

Lemma byte_Z_of x : byte_Z (byte_of x) = x mod 256.
Proof. apply byte_of_to. Qed.

Lemma land_255 x : Z.land x 255 mod 256 = x mod 256.
Proof. change 255 with (Z.ones 8). rewrite Z.land_ones by lia. by rewrite Z.mod_mod. Qed.

Lemma number_index_key_ok n : in_range U32 n -> exists key, number_index_key n = inl key /\ length key = 4%nat.
Proof.
  intros [H0 H1]. unfold number_index_key. rewrite (proj2 (Z.leb_le 0 n)), (proj2 (Z.ltb_lt n U32)) by done. by eexists.
Qed.

(** The number is read back from any key that starts with its own. *)
Lemma lookup_key_roundtrip n key rest :
  number_index_key n = inl key -> lookup_key_to_number (key ++ rest) = inl n.
Proof.
  unfold number_index_key. destruct (Z.leb_spec 0 n), (Z.ltb_spec n U32); simpl; try done. intros [= <-]. simpl. f_equal.
  rewrite !byte_Z_of, !land_255. apply Z.bits_inj'. intros i Hi.
  rewrite !Z.lor_spec, !Z.shiftl_spec by done.
  assert (forall x k, Z.testbit (x mod 256) (i - k) = (k <=? i) && (i <? k + 8) && Z.testbit x (i - k)) as Hb.
  { intros x k. destruct (Z.leb_spec k i); simpl; [|by apply Z.testbit_neg_r; lia].
    rewrite testbit_mod_byte by lia. f_equal. destruct (Z.ltb_spec (i - k) 8), (Z.ltb_spec i (k + 8)); try done; lia. }
  rewrite !Hb, testbit_mod_byte by done. change (24 + 8) with 32. change (16 + 8) with 24. change (8 + 8) with 16.
  assert (32 <= i -> Z.testbit n i = false) as Hhigh.
  { intros Hi'. destruct (decide (n = 0)) as [->|]; [apply Z.bits_0|]. apply Z.bits_above_log2; [done|].
    enough (Z.log2 n < 32) by lia. apply Z.log2_lt_pow2; [lia|done]. }
  destruct (Z.leb_spec 24 i), (Z.ltb_spec i 32), (Z.leb_spec 16 i), (Z.ltb_spec i 24), (Z.leb_spec 8 i), (Z.ltb_spec i 16), (Z.ltb_spec i 8);
    simpl; try lia; rewrite ?Z.shiftr_spec, ?orb_false_r, ?Z.sub_add by lia; try done. by rewrite Hhigh.
Qed.

(** Different numbers have different keys. *)
Lemma number_index_key_inj n n' key : number_index_key n = inl key -> number_index_key n' = inl key -> n = n'.
Proof.
  intros H1%(fun H => lookup_key_roundtrip _ _ [] H) H2%(fun H => lookup_key_roundtrip _ _ [] H). congruence.
Qed.

(* ===================================================================== *)
(** ** The canonical lookups in a transaction *)
Section Lookups.
Context {DbHash : Type} (as_ref : Hash -> bytes).
Local Abbreviation Tx := (Transaction DbHash).
Local Abbreviation Change := (Change DbHash).
Implicit Types (l : list HashAndNumber) (m : gmap Z Hash) (tx : Tx).

Definition index (n : Z) : bytes := match number_index_key n with inl key => key | inr _ => [] end.

(** The entry under a number, in the column of lookups. *)
Definition lookup_entry (n : Z) (o : option Hash) : option bytes := (fun h => index n ++ as_ref h) <$> o.

Lemma index_key n : in_range U32 n -> number_index_key n = inl (index n).
Proof. intros (key & Hk & _)%number_index_key_ok. unfold index. by rewrite Hk. Qed.

Lemma index_inj n n' : in_range U32 n -> in_range U32 n' -> index n = index n' -> n = n'.
Proof. intros Hn%index_key Hn'%index_key He. rewrite He in Hn. by eapply number_index_key_inj. Qed.

Definition in_numbers l : Prop := Forall (fun e => in_range U32 (hn_number e)) l.

Lemma uncanonicalize_eq f l tx :
  in_numbers l -> Forall (fun e => hn_hash e <> f) l ->
  uncanonicalize f l tx = inl (tx ++ map (fun e => CRemove KEY_LOOKUP (index (hn_number e)) : Change) l).
Proof.
  intros Hl Hf. revert tx. induction Hl as [|e l He _ IH]; intros tx; simpl; [by rewrite app_nil_r|].
  apply Forall_cons in Hf as [Hne Hf]. rewrite decide_False by done.
  unfold remove_number_to_key_mapping. rewrite (index_key _ He), IH by done. unfold tx_remove. by rewrite <- (assoc_L (++)).
Qed.

Lemma insert_number_eq n h tx :
  in_range U32 n -> insert_number_to_key_mapping as_ref n h tx = inl (tx ++ [CSet KEY_LOOKUP (index n) (index n ++ as_ref h)]).
Proof. intros Hn. unfold insert_number_to_key_mapping, number_and_hash_to_lookup_key. by rewrite (index_key _ Hn). Qed.

Lemma canonicalize_eq l tx :
  in_numbers l ->
  canonicalize as_ref l tx = inl (tx ++ map (fun e => CSet KEY_LOOKUP (index (hn_number e)) (index (hn_number e) ++ as_ref (hn_hash e)) : Change) l).
Proof.
  intros Hl. revert tx. induction Hl as [|e l He _ IH]; intros tx; simpl; [by rewrite app_nil_r|].
  rewrite (insert_number_eq _ _ _ He), IH. by rewrite <- (assoc_L (++)).
Qed.

(** The changes do to the entries what retracting and enacting do to the map. *)
Lemma change_remove_at n m i :
  in_range U32 n -> in_range U32 i ->
  change_at (CRemove KEY_LOOKUP (index n) : Change) KEY_LOOKUP (index i) (lookup_entry i (m !! i)) = lookup_entry i (delete n m !! i).
Proof.
  intros Hn Hi. simpl. case_decide as He.
  - injection He as He%index_inj; [|done..]. subst. by rewrite lookup_delete_eq.
  - rewrite lookup_delete_ne; [done|]. congruence.
Qed.

Lemma change_set_at n h m i :
  in_range U32 n -> in_range U32 i ->
  change_at (CSet KEY_LOOKUP (index n) (index n ++ as_ref h) : Change) KEY_LOOKUP (index i) (lookup_entry i (m !! i)) =
  lookup_entry i (<[n := h]> m !! i).
Proof.
  intros Hn Hi. simpl. case_decide as He.
  - injection He as He%index_inj; [|done..]. subst. by rewrite lookup_insert_eq.
  - rewrite lookup_insert_ne; [done|]. congruence.
Qed.

Lemma changes_retract l m i :
  in_numbers l -> in_range U32 i ->
  changes_at (map (fun e => CRemove KEY_LOOKUP (index (hn_number e)) : Change) l) KEY_LOOKUP (index i) (lookup_entry i (m !! i)) =
  lookup_entry i (retract m l !! i).
Proof.
  intros Hl Hi. revert m. induction Hl as [|e l He _ IH]; intros m; [done|]. unfold changes_at, retract. cbn [map foldl].
  rewrite change_remove_at by done. apply IH.
Qed.

Lemma changes_enact l m i :
  in_numbers l -> in_range U32 i ->
  changes_at (map (fun e => CSet KEY_LOOKUP (index (hn_number e)) (index (hn_number e) ++ as_ref (hn_hash e)) : Change) l)
    KEY_LOOKUP (index i) (lookup_entry i (m !! i)) = lookup_entry i (enact m l !! i).
Proof.
  intros Hl Hi. revert m. induction Hl as [|e l He _ IH]; intros m; [done|]. unfold changes_at, enact. cbn [map foldl].
  rewrite change_set_at by done. apply IH.
Qed.
End Lookups.

(** A chain as a map. *)
Lemma canon_map c b l : chain_ok c -> c !! b = Some l -> exists m : gmap Z Hash, forall n, m !! n = canon_at c b n.
Proof.
  intros Hc Hl. pose proof (ok_number c Hc b l Hl). set (k := Z.to_nat (l_number l)).
  destruct (up_total c Hc k b l Hl ltac:(lia)) as [g Hg]. destruct (up_to _ _ _ _ Hg) as [lg Hlg].
  pose proof (up_number c Hc _ _ _ _ _ Hg Hl Hlg) as Hn. assert (l_number lg = 0) as H0 by lia.
  exists (enact {[0 := g]} (rev (path c k b))). intros n. rewrite (enact_path c Hc k b l g lg) by done. rewrite H0.
  destruct (Z.ltb_spec 0 n), (Z.leb_spec n (l_number l)); simpl; try done.
  - rewrite lookup_singleton_ne by lia. symmetry. by eapply canon_at_above.
  - destruct (decide (n = 0)) as [->|].
    + rewrite lookup_singleton_eq. symmetry. apply (canon_at_spec c Hc). split; [by exists k|by rewrite Hlg, <- H0].
    + rewrite lookup_singleton_ne by done. unfold canon_at. rewrite Hl. simpl. rewrite (proj2 (Z.leb_gt 0 n)) by lia. done.
  - lia.
Qed.

(* ===================================================================== *)
(** ** The head of the database *)

(** The new head is a known block, or sits on one. *)
Inductive head_of (c : Links) (to : Hash) : Links -> Z -> Hash -> Prop :=
| head_known l : c !! to = Some l -> head_of c to c (l_number l) to
| head_new l h root : c !! to = Some l -> c !! h = None -> map_Forall (fun _ l => l_parent l <> h) c ->
    head_of c to (<[h := mkLink (l_number l + 1) to root]> c) (l_number l + 1) h.

Lemma head_of_canon c to c' n h (m : gmap Z Hash) i :
  chain_ok c -> head_of c to c' n h -> (forall i, m !! i = canon_at c to i) -> <[n := h]> m !! i = canon_at c' h i.
Proof.
  intros Hc Hh Hm. destruct Hh as [l Hl|l h root Hl Hh Hch].
  - destruct (decide (i = l_number l)) as [->|]; [rewrite lookup_insert_eq; symmetry; by apply canon_at_self|].
    rewrite lookup_insert_ne by done. apply Hm.
  - pose proof (extend_chain_ok c h to l root Hc Hh Hl Hch) as Hc'. set (c' := <[h := _]> c) in *.
    assert (c' !! h = Some (mkLink (l_number l + 1) to root)) as Hh' by apply lookup_insert_eq.
    destruct (decide (i = l_number l + 1)) as [->|Hne].
    + rewrite lookup_insert_eq. symmetry. exact (canon_at_self c' Hc' h _ Hh').
    + rewrite lookup_insert_ne, Hm by done. assert (c' !! to = Some l) as Hto by (by apply extend_old).
      rewrite (canon_at_parent c' Hc' h _ l _ Hh' Hto) by done. symmetry. simpl.
      apply (canon_at_mono c c' to l); [done|by apply insert_subseteq|done].
Qed.

Section Head.
Context {P : Profile} {DbHash D Header Lru Lhm : Type} `{!Database DbHash D ChainError, !HeaderT Header}.
Context `{!LruCache Lru CachedHeaderMetadata, !LinkedHashMap Lhm (option Header)}.
Context {lru_peek : Lru -> gmap Hash CachedHeaderMetadata} {lhm_peek : Lhm -> gmap Hash (option Header)}.
Context `{LL : !LruLaws lru_peek, HL : !LhmLaws lhm_peek}.
Context (as_ref : Hash -> bytes) (header_decode : bytes -> option Header) (delay : Z).
Local Abbreviation Db := (BlockchainDb D Lru Lhm).
Local Abbreviation serves := (db_serves (lru_peek := lru_peek) (lhm_peek := lhm_peek) as_ref header_decode).
Local Abbreviation never := (fun (_ : ChainError) (_ : Db) => False).
Implicit Types (s : Db) (c : Links).
#[local] Existing Instance metadata_of_db.

Definition numbers_ok c : Prop := map_Forall (fun _ l => in_range U32 (l_number l)) c.

Lemma path_numbers c k h : numbers_ok c -> in_numbers (path c k h).
Proof.
  intros Hc. unfold in_numbers. revert h. induction k as [|k IH]; intros h; simpl; [constructor|].
  destruct (c !! h) as [l|] eqn:Hl; [|constructor]. constructor; [by apply (Hc h l)|apply IH].
Qed.

(** A block below the common ancestor is not retracted. *)
Lemma path_avoids c best to x lx j f :
  chain_ok c -> is_lca c best to x -> c !! x = Some lx -> up c j best = Some x -> ancestor c f to ->
  Forall (fun e => hn_hash e <> f) (path c j best).
Proof.
  intros Hc (_ & _ & Hl) Hx Hj Hf.
  assert (forall k h, up c k h = Some x -> ancestor c h best -> Forall (fun e => hn_hash e <> f) (path c k h)) as Hp.
  { induction k as [|k IH]; intros h Hk Ha; simpl; [constructor|].
    destruct (up_from _ _ _ _ Hk) as [l Hlh]. rewrite Hlh. rewrite (up_S _ _ _ l) in Hk by done. constructor; simpl.
    - intros ->. assert (ancestor c f x) as Hfx by auto. pose proof (ancestor_number c Hc _ _ _ _ Hfx Hlh Hx).
      assert (up c (S k) f = Some x) as Hu by (by rewrite (up_S _ _ _ l)).
      pose proof (up_number c Hc _ _ _ _ _ Hu Hlh Hx). lia.
    - destruct (up_from _ _ _ _ Hk) as [lp Hlp]. apply IH; [done|]. eapply ancestor_trans; [|done]. by eapply ancestor_parent. }
  apply Hp; [done|]. destruct (up_from _ _ _ _ Hj) as [lb Hb]. by eapply ancestor_refl.
Qed.

Lemma known_status s0 c h l s :
  serves s0 c s -> c !! h = Some l ->
  wp (db_status as_ref header_decode (IdHash h)) (fun st s' => st = InChain /\ serves s0 c s') never s.
Proof using LL HL.
  intros Hs Hl. unfold db_status. apply wp_bind. eapply wp_mono; [by apply (db_header_ok (lru_peek := lru_peek) (lhm_peek := lhm_peek) as_ref header_decode s0 c)| |done].
  intros o s' [Hs' Ho]. apply wp_ret. split; [|done]. destruct Hs' as (Hd & _ & _ & Hsh).
  pose proof (sh_read _ _ _ _ Hsh h) as Hr. rewrite Hl, Hd in Hr. destruct Hr as (header & Hr & _).
  by assert (o = Some header) as -> by congruence.
Qed.

(** The lookups that a transaction leaves are those of the chain of [h]. *)
Definition leads_to s c' (tx : Transaction DbHash) n h : Prop :=
  forallb plain tx /\
  (forall i, in_range U32 i ->
     changes_at tx KEY_LOOKUP (index i) (db_get KEY_LOOKUP (index i) (db s)) = lookup_entry as_ref i (canon_at c' h i)) /\
  changes_at tx COLUMN_META BEST_BLOCK (db_get COLUMN_META BEST_BLOCK (db s)) = Some (index n ++ as_ref h).

(** The lookups are those of the chain of the best block. *)
Definition lookups_ok s c : Prop :=
  forall i, in_range U32 i -> db_get KEY_LOOKUP (index i) (db s) = lookup_entry as_ref i (canon_at c (meta_best_hash (meta s)) i).

Lemma forallb_plain_map {A} (f : A -> Change DbHash) l : (forall a, plain (f a) = true) -> forallb plain (map f l) = true.
Proof. intros Hf. induction l as [|a l IH]; simpl; [done|]. by rewrite Hf, IH. Qed.

(** The changes of a move of the head, along the route from the best block. *)
Lemma move_leads s c best to c' n h lb lt x lx j k :
  chain_ok c -> numbers_ok c -> in_range U32 n -> lookups_ok s c -> best = meta_best_hash (meta s) ->
  head_of c to c' n h -> c !! best = Some lb -> c !! to = Some lt -> is_lca c best to x -> c !! x = Some lx ->
  up c j best = Some x -> up c k to = Some x ->
  leads_to s c'
    (((map (fun e => CRemove KEY_LOOKUP (index (hn_number e))) (path c j best) ++
       map (fun e => CSet KEY_LOOKUP (index (hn_number e)) (index (hn_number e) ++ as_ref (hn_hash e))) (rev (path c k to))) ++
      [CSet COLUMN_META BEST_BLOCK (index n ++ as_ref h)]) ++ [CSet KEY_LOOKUP (index n) (index n ++ as_ref h)]) n h.
Proof.
  intros Hc Hnum Hn Hlook -> Hhead Hb Ht (Hxb & Hxt & Hl) Hx Hj Hk. split_and!.
  - by rewrite !forallb_app, !forallb_plain_map.
  - intros i Hi. destruct (canon_map c _ lb Hc Hb) as [m Hm]. rewrite (Hlook i Hi), <- Hm.
    rewrite !changes_at_app, (changes_retract as_ref) by (done || by apply path_numbers).
    rewrite (changes_enact as_ref) by (done || by apply Forall_rev, path_numbers).
    change (changes_at [CSet COLUMN_META BEST_BLOCK (index n ++ as_ref h)] KEY_LOOKUP (index i) ?o) with o.
    unfold changes_at. cbn [foldl]. rewrite (change_set_at as_ref) by done. f_equal.
    apply (head_of_canon c to c' n h); [done..|]. intros i'. by eapply rerouted_exactly.
  - rewrite (changes_at_app _ [CSet KEY_LOOKUP _ _]), (changes_at_app _ [CSet COLUMN_META _ _]).
    unfold changes_at at 1 2. cbn [foldl change_at]. rewrite (decide_True (P := (COLUMN_META, BEST_BLOCK) = _)) by done.
    by rewrite decide_False.
Qed.

Lemma set_head_ok s c to c' n h lb lt :
  serves s c s -> chain_ok c -> numbers_ok c -> in_range U32 n -> in_range U32 (meta_best_number (meta s)) ->
  lookups_ok s c -> head_of c to c' n h ->
  c !! meta_best_hash (meta s) = Some lb -> meta_best_hash (meta s) <> 0%N -> c !! to = Some lt ->
  ancestor c (meta_finalized_hash (meta s)) to -> meta_best_number (meta s) - n <= delay -> 
  wp (set_head_with_transaction as_ref header_decode delay [] to n h)
    (fun r s' => serves s c s' /\ leads_to s c' r.1.1 n h) never s.
Proof using LL HL.
  intros Hs Hc Hnum Hn Hbn Hlook Hhead Hb Hb0 Ht Hf Hd. unfold set_head_with_transaction.
  apply wp_bind, wp_gets, wp_bind. unfold in_range in Hn, Hbn.
  eapply (wp_mono _ (fun b s' => b = false /\ s' = s) _ never); [| |done].
  { destruct (Z.ltb_spec n (meta_best_number (meta s))); [|by apply wp_ret]. apply wp_bind, wp_arith; [lia|]. apply wp_ret.
    split; [|done]. apply Z.ltb_ge. lia. }
  intros ? ? [-> ->]. apply wp_bind. eapply wp_mono; [by eapply known_status| |done]. intros st s1 [-> Hs1].
  rewrite bool_decide_eq_false_2 by done. cbn [negb andb]. apply wp_bind, wp_bind.
  eapply wp_mono; [by eapply (tree_route_ok (shows := serves s) c Hc)| |done]. intros r s2 [Hs2 Hr].
  destruct (route_parts (S := Db) (E := ChainError) c _ _ r Hr) as (x & lx & j & k & Hl & Hx & Hj & Hk & Eret & _ & _ & Een).
  rewrite Eret, Een. apply wp_bind, wp_ret, wp_bind.
  rewrite uncanonicalize_eq by (by apply path_numbers || by eapply path_avoids). simpl. apply wp_ret, wp_bind, wp_ret, wp_bind.
  rewrite canonicalize_eq by (by apply Forall_rev, path_numbers). apply wp_ret, wp_ret. cbn [fst snd].
  apply wp_bind. unfold number_and_hash_to_lookup_key. rewrite (index_key n) by done. apply wp_ret, wp_bind. simpl.
  rewrite insert_number_eq by done. apply wp_ret, wp_ret. split; [done|]. cbn [fst snd]. by eapply move_leads.
Qed.
End Head.
