(* ===== verification/BlockDbTheorems.v ===== *)
(** * The block database: what it promises

    The caches in front of the headers never change an answer; a number is read
    back from its key; and moving the head leaves the lookups of its chain,
    whatever the reorganization. *)

From S2P Require Import Prelude Database HeaderMetadata HeaderChain HeaderRoutes HeaderDescent InMemCanon ChainBackend Leaves BlockDb BlockDbFacts ChainDemo.

(* ===================================================================== *)
(** ** Caches that keep what the crates document *)
Module Caches.
Section Assoc.
Context {V : Type}.
Implicit Types (l : list (Hash * V)).

Definition peek l : gmap Hash V := list_to_map l.
Definition without (h : Hash) l : list (Hash * V) := filter (fun e => e.1 <> h) l.

Lemma peek_without h l : peek (without h l) = delete h (peek l).
Proof.
  unfold peek, without. induction l as [|[k v] l IH]; simpl; [by rewrite delete_empty|].
  rewrite filter_cons. simpl. case_decide as Hk; simpl; rewrite IH.
  - by rewrite delete_insert_ne.
  - subst. by rewrite delete_insert_eq.
Qed.

Lemma peek_take n l : peek (take n l) ⊆ peek l.
Proof.
  unfold peek. revert n. induction l as [|[k v] l IH]; intros [|n]; simpl; try done; [apply map_empty_subseteq|].
  by apply insert_mono.
Qed.

(** The most recent entry first. *)
Definition lru : Type := nat * list (Hash * V).
#[global] Instance lru_cache : LruCache lru V := {|
  lru_new n := (n, []);
  lru_get h c := match peek c.2 !! h with Some v => (Some v, (c.1, (h, v) :: without h c.2)) | None => (None, c) end;
  lru_put h v c := (c.1, take c.1 ((h, v) :: without h c.2));
  lru_pop h c := (c.1, without h c.2)
|}.

#[global] Instance lru_cache_laws : LruLaws (C := lru) (fun c => peek c.2).
Proof.
  split; simpl.
  - done.
  - intros h c. by destruct (peek c.2 !! h).
  - intros h c. destruct (peek c.2 !! h) as [v|] eqn:Hv; simpl; [|done]. rewrite peek_without, insert_delete_eq. by apply insert_id.
  - intros h v c. etrans; [apply peek_take|]. simpl. by rewrite peek_without, insert_delete_eq.
  - intros h c. apply peek_without.
Qed.

(** The oldest entry first. *)
Definition linked : Type := list (Hash * V).
#[global] Instance linked_map : LinkedHashMap linked V := {|
  lhm_new := [];
  lhm_get_refresh h c := match peek c !! h with Some v => (Some v, without h c ++ [(h, v)]) | None => (None, c) end;
  lhm_insert h v c := without h c ++ [(h, v)];
  lhm_len c := base.size (peek c);
  lhm_pop_front c := match c with [] => [] | (h, _) :: c' => without h c' end;
  lhm_remove h c := without h c
|}.

Lemma peek_snoc h v l : peek (without h l ++ [(h, v)]) = <[h := v]> (peek l).
Proof.
  unfold peek. rewrite list_to_map_app. simpl. fold (peek (without h l)). rewrite peek_without.
  rewrite <- insert_union_r by apply lookup_delete_eq. by rewrite (right_id_L ∅ _), insert_delete_eq.
Qed.

#[global] Instance linked_map_laws : LhmLaws (C := linked) peek.
Proof.
  split; simpl.
  - done.
  - intros h c. by destruct (peek c !! h).
  - intros h c. destruct (peek c !! h) as [v|] eqn:Hv; simpl; [|done]. rewrite peek_snoc. by apply insert_id.
  - intros h v c. apply peek_snoc.
  - done.
  - intros [|[h v] c]; [done|]. rewrite peek_without. unfold peek. simpl. rewrite <- insert_delete_eq. apply insert_subseteq, lookup_delete_eq.
  - intros [|[h v] c]; [done|]. rewrite peek_without. unfold peek. simpl.
    rewrite <- insert_delete_eq, map_size_insert_None by apply lookup_delete_eq. lia.
  - intros h c. apply peek_without.
Qed.
End Assoc.
End Caches.

(* ===================================================================== *)
(** ** Queries *)
Section Queries.
Context {P : Profile} {DbHash D Header Lru Lhm : Type} `{!Database DbHash D ChainError, !HeaderT Header}.
Context `{!LruCache Lru CachedHeaderMetadata, !LinkedHashMap Lhm (option Header)}.
Context {lru_peek : Lru -> gmap Hash CachedHeaderMetadata} {lhm_peek : Lhm -> gmap Hash (option Header)}.
Context `{LL : !LruLaws lru_peek, HL : !LhmLaws lhm_peek}.
Context (as_ref : Hash -> bytes) (header_decode : bytes -> option Header).
Local Abbreviation Db := (BlockchainDb D Lru Lhm).
Local Abbreviation serves := (db_serves (lru_peek := lru_peek) (lhm_peek := lhm_peek) as_ref header_decode).
Implicit Types (s : Db) (c : Links).
#[local] Hint Extern 0 (HeaderMetadata _ _) => exact (metadata_of_db as_ref header_decode) : typeclass_instances.

Inductive Query :=
| QHeader (h : Hash)
| QNumber (h : Hash)
| QCommon (a b : Hash)
| QRoute (a b : Hash)
| QDescends (current : option (Hash * Hash)) (base h : Hash).

Inductive Reply :=
| RHeader (header : option Header)
| RNumber (n : option Z)
| RCommon (x : HashAndNumber)
| RRoute (r : TreeRoute)
| RDescends (b : bool).

Definition ask (q : Query) : M Db ChainError Reply :=
  match q with
  | QHeader h => let! header := db_header as_ref header_decode (IdHash h) in ret (RHeader header)
  | QNumber h => let! n := db_number as_ref header_decode h in ret (RNumber n)
  | QCommon a b => let! x := lowest_common_ancestor a b in ret (RCommon x)
  | QRoute a b => let! r := tree_route a b in ret (RRoute r)
  | QDescends current base h => let! b := is_descendent_of current base h in ret (RDescends b)
  end.

(** Descent is asked of blocks that are known, or about to be. *)
Definition query_ok c (q : Query) : Prop :=
  match q with
  | QDescends current base h =>
      current_ok current c /\ is_Some (with_current current c !! base) /\ is_Some (with_current current c !! h)
  | _ => True
  end.

(** The replies that the tree determines. *)
Definition reply_ok s0 c (q : Query) (r : Reply) : Prop :=
  match q, r with
  | QHeader h, RHeader o => read_header as_ref header_decode (db s0) (IdHash h) = inl o
  | QNumber h, RNumber n => n = l_number <$> c !! h
  | QCommon a b, RCommon x => is_lca c a b (hn_hash x) /\ l_number <$> c !! hn_hash x = Some (hn_number x)
  | QRoute a b, RRoute r => route_ok c a b r
  | QDescends current base h, RDescends b => b = descends (with_current current c) base h
  | _, _ => False
  end.

(** Blocks that are not known have neither ancestors nor routes. *)
Definition refused c (q : Query) : Prop :=
  match q with QCommon a b | QRoute a b => c !! a = None \/ c !! b = None | _ => False end.

Lemma route_ok_unique c a b r r' : chain_ok c -> route_ok c a b r -> route_ok c a b r' -> r = r'.
Proof.
  intros Hc (x & lx & j & k & Hl & Hx & Hj & Hk & Hr & Hp) (x' & lx' & j' & k' & Hl' & Hx' & Hj' & Hk' & Hr' & Hp').
  assert (x = x') as <- by (by eapply (is_lca_unique c Hc)). assert (lx = lx') as <- by congruence.
  destruct (up_from _ _ _ _ Hj) as [la Ha], (up_from _ _ _ _ Hk) as [lb Hb].
  pose proof (up_number c Hc _ _ _ _ _ Hj Ha Hx). pose proof (up_number c Hc _ _ _ _ _ Hj' Ha Hx).
  pose proof (up_number c Hc _ _ _ _ _ Hk Hb Hx). pose proof (up_number c Hc _ _ _ _ _ Hk' Hb Hx).
  assert (j = j') as <- by lia. assert (k = k') as <- by lia. destruct r, r'; simpl in *. congruence.
Qed.

Lemma reply_unique s0 c q r r' : chain_ok c -> reply_ok s0 c q r -> reply_ok s0 c q r' -> r = r'.
Proof.
  intros Hc. destruct q, r; simpl; try done; destruct r'; simpl; try done.
  - congruence.
  - congruence.
  - intros [Hl Hn] [Hl' Hn']. destruct x as [n h], x0 as [n' h']; simpl in *.
    assert (h = h') as <- by (by eapply (is_lca_unique c Hc)). congruence.
  - intros Hr Hr'. f_equal. by eapply route_ok_unique.
  - congruence.
Qed.

Lemma reply_not_refused s0 c q r : reply_ok s0 c q r -> ~ refused c q.
Proof.
  destruct q, r; simpl; try done; try (by intros _ []).
  - intros [(Ha & Hb & _) _]. apply ancestor_known in Ha as [_ [? ?]], Hb as [_ [? ?]]. intros [?|?]; congruence.
  - intros (x & lx & j & k & (Ha & Hb & _) & _). apply ancestor_known in Ha as [_ [? ?]], Hb as [_ [? ?]]. intros [?|?]; congruence.
Qed.

Lemma ask_ok s0 c q s :
  chain_ok c -> query_ok c q -> serves s0 c s ->
  wp (ask q) (fun r s' => serves s0 c s' /\ reply_ok s0 c q r) (fun _ s' => serves s0 c s' /\ refused c q) s.
Proof using LL HL.
  intros Hc Hq Hs. destruct q as [h|h|a b|a b|current base h]; simpl; apply wp_bind.
  - eapply wp_mono; [by apply (db_header_ok (lru_peek := lru_peek) (lhm_peek := lhm_peek) as_ref header_decode s0 c)| |done].
    intros o s' [? ?]. by apply wp_ret.
  - unfold db_number, attempt. wp_steps. destruct (c !! h) as [l|] eqn:Hl.
    + eapply wp_mono; [by eapply (serve_known (shows := serves s0) c s h l)| |done]. intros m s' [Hm Hs']. wp_steps.
      split; [done|]. simpl. rewrite (md_link _ _ _ Hm) in Hl. by simplify_eq.
    + eapply wp_mono; [by eapply (serve_unknown (shows := serves s0) c s h)|done|]. intros e s' Hs'. by wp_steps.
  - destruct (c !! a) as [la|] eqn:Ha; [destruct (c !! b) as [lb|] eqn:Hb|].
    + eapply wp_mono; [by eapply (lowest_common_ancestor_ok (shows := serves s0) c Hc)| |done]. intros x s' (? & ? & ?). by apply wp_ret.
    + eapply wp_mono; [apply (lowest_common_ancestor_unknown (shows := serves s0) c); [done|by right]|done|]. intros e s' ?. auto.
    + eapply wp_mono; [apply (lowest_common_ancestor_unknown (shows := serves s0) c); [done|by left]|done|]. intros e s' ?. auto.
  - destruct (c !! a) as [la|] eqn:Ha; [destruct (c !! b) as [lb|] eqn:Hb|].
    + eapply wp_mono; [by eapply (tree_route_ok (shows := serves s0) c Hc)| |done]. intros r s' [? ?]. by apply wp_ret.
    + eapply wp_mono; [apply (tree_route_unknown (shows := serves s0) c); [done|by right]|done|]. intros e s' ?. auto.
    + eapply wp_mono; [apply (tree_route_unknown (shows := serves s0) c); [done|by left]|done|]. intros e s' ?. auto.
  - destruct Hq as (Hcur & Hb & Hh). eapply wp_mono; [by apply (is_descendent_of_ok (shows := serves s0) c Hc)| |done].
    intros b s' [? ?]. by apply wp_ret.
Qed.

(** A history of queries, and the reply of one. *)
Definition after (q : Query) s : Db := match ask q s with Ok _ s' | Err _ s' => s' | Panic => s end.
Definition reply_of (q : Query) s : option Reply := match ask q s with Ok r _ => Some r | _ => None end.

Lemma after_serves s0 c q s : chain_ok c -> query_ok c q -> serves s0 c s -> serves s0 c (after q s).
Proof using LL HL.
  intros Hc Hq Hs. pose proof (ask_ok s0 c q s Hc Hq Hs) as Hw. unfold wp, after in *.
  destruct (ask q s) as [r s'|e s'|]; [by destruct Hw|by destruct Hw|done].
Qed.

Lemma reply_same s0 c q s s' :
  chain_ok c -> query_ok c q -> serves s0 c s -> serves s0 c s' -> reply_of q s = reply_of q s'.
Proof using LL HL.
  intros Hc Hq Hs Hs'. pose proof (ask_ok s0 c q s Hc Hq Hs) as Hw. pose proof (ask_ok s0 c q s' Hc Hq Hs') as Hw'.
  unfold wp, reply_of in *. destruct (ask q s) as [r t|e t|], (ask q s') as [r' t'|e' t'|]; try done.
  - destruct Hw as [_ Hr], Hw' as [_ Hr']. f_equal. by eapply reply_unique.
  - destruct Hw as [_ Hr], Hw' as [_ Hr']. by apply (reply_not_refused s0 c q r) in Hr.
  - destruct Hw as [_ Hr], Hw' as [_ Hr']. by apply (reply_not_refused s0 c q r') in Hr'.
Qed.

(** C11: The caches in front of the stored headers never change an answer.  After
    any queries for headers, numbers, common ancestors, routes and descent, in any
    order and with whatever links they have left in the caches, a query has the
    reply that it had at first. *)
Theorem caches_are_transparent c s qs q :
  chain_ok c -> serves s c s -> Forall (query_ok c) qs -> query_ok c q ->
  reply_of q (foldl (fun s q => after q s) s qs) = reply_of q s.
Proof using LL HL.
  intros Hc Hs Hqs Hq. assert (serves s c (foldl (fun s q => after q s) s qs)) as Hs'; [|by eapply reply_same].
  assert (forall t, serves s c t -> serves s c (foldl (fun s q => after q s) t qs)) as Hl; [|by apply Hl].
  induction Hqs as [|q' qs Hq' _ IH]; intros t Ht; simpl; [done|]. by apply IH, after_serves.
Qed.
End Queries.

Section Head.
Context {P : Profile} {DbHash D Header Lru Lhm : Type} `{!Database DbHash D ChainError, !DatabaseLaws (H := DbHash) (D := D) (E := ChainError), !HeaderT Header}.
Context `{!LruCache Lru CachedHeaderMetadata, !LinkedHashMap Lhm (option Header)}.
Context {lru_peek : Lru -> gmap Hash CachedHeaderMetadata} {lhm_peek : Lhm -> gmap Hash (option Header)}.
Context `{LL : !LruLaws lru_peek, HL : !LhmLaws lhm_peek}.
Context (as_ref : Hash -> bytes) (header_decode : bytes -> option Header) (delay : Z).
Local Abbreviation Db := (BlockchainDb D Lru Lhm).
Local Abbreviation serves := (db_serves (lru_peek := lru_peek) (lhm_peek := lhm_peek) as_ref header_decode).

(** A move of the head that is allowed: to a known block or onto one, at most
    [delay] numbers back, and above the finalized block. *)
Record move_ok (c : Links) (s : Db) (to : Hash) (c' : Links) (n : Z) (h : Hash) : Prop := {
  mv_chain : chain_ok c;
  mv_numbers : numbers_ok c;
  mv_number : in_range U32 n;
  mv_best : l_number <$> c !! meta_best_hash (meta s) = Some (meta_best_number (meta s));
  mv_some : meta_best_hash (meta s) <> 0%N;
  mv_head : head_of c to c' n h;
  mv_final : ancestor c (meta_finalized_hash (meta s)) to;
  mv_delay : meta_best_number (meta s) - n <= delay
}.

(** C20: Moving the head of the block database ends, and the transaction that it
    prepares, once committed, leaves exactly the chain of the new head: every
    number up to it finds the block of that chain, every higher number finds
    nothing, and the head is recorded as the best block.  This holds for every
    reorganization, however long the two branches are. *)
Theorem db_head_is_exact c s to c' n h :
  serves s c s -> lookups_ok as_ref s c -> move_ok c s to c' n h ->
  exists tx en re s', set_head_with_transaction as_ref header_decode delay [] to n h s = Ok (tx, en, re) s' /\
    wp (db_commit (E := ChainError) tx)
      (fun _ d => (forall i, in_range U32 i -> db_get KEY_LOOKUP (index i) d = lookup_entry as_ref i (canon_at c' h i)) /\
         db_get COLUMN_META BEST_BLOCK d = Some (index n ++ as_ref h)) (fun _ _ => False) (db s').
Proof using LL HL DatabaseLaws0.
  intros Hs Hlook [Hc Hnum Hn Hb Hb0 Hhead Hf Hd].
  destruct (c !! meta_best_hash (meta s)) as [lb|] eqn:Hlb; [|done]. injection Hb as Hbn.
  assert (exists lt, c !! to = Some lt) as [lt Ht] by (destruct Hhead; eauto).
  assert (in_range U32 (meta_best_number (meta s))) as Hr by (rewrite <- Hbn; by apply (Hnum _ lb Hlb)).
  pose proof (set_head_ok as_ref header_decode delay s c to c' n h lb lt Hs Hc Hnum Hn Hr Hlook Hhead Hlb Hb0 Ht Hf Hd) as Hw.
  unfold wp in Hw at 1. destruct (set_head_with_transaction _ _ _ _ _ _ _ s) as [[[tx en] re] s'| |]; [|done|done].
  destruct Hw as [(Hdb & _) (Hplain & Hch & Hbest)]. exists tx, en, re, s'. split; [done|]. cbn [fst snd] in *. rewrite Hdb.
  eapply wp_mono; [by apply commit_plain| |done]. intros [] d Hget. split; [|by rewrite Hget].
  intros i Hi. rewrite Hget. by apply Hch.
Qed.
End Head.

(* ===================================================================== *)
(** ** A database of four blocks *)
Module Store.
Definition as_ref (h : Hash) : bytes := repeat Byte.x09 5 ++ match h with N0 => [] | Npos p => pos_bytes p end.

Lemma as_ref_inj h h' : as_ref h = as_ref h' -> h = h'.
Proof.
  unfold as_ref. destruct h as [|p], h' as [|q]; [done|by destruct q|by destruct p|].
  intros [= He]. f_equal. by apply (inj pos_bytes).
Qed.

Definition decode (b : bytes) : option Head := snd <$> list_find (fun x => as_ref (hd_hash x) = b) heads.

Definition key (x : Head) : bytes := index (hd_number x) ++ as_ref (hd_hash x).
Definition entries : list (Z * bytes * bytes) :=
  flat_map (fun x => [(KEY_LOOKUP, as_ref (hd_hash x), key x); (HEADER, key x, as_ref (hd_hash x))]) heads ++
  map (fun x => (KEY_LOOKUP, index (hd_number x), key x)) (take 3 heads).

Definition store : MemDb := foldr (fun '(c, k, v) d => put_entry c k (Some (1, v)) d) ∅ entries.

Lemma store_get col k :
  mem_get col k store = foldr (fun '(c', k', v) o => if decide ((c', k') = (col, k)) then Some v else o) None entries.
Proof.
  unfold store. induction entries as [|[[c' k'] v] l IH]; simpl; [done|]. by rewrite mem_get_put, IH.
Qed.

#[global] Instance mem : Database Hash MemDb ChainError := mem_database (P := release) as_ref.
#[global] Instance mem_laws : DatabaseLaws (H := Hash) (D := MemDb) (E := ChainError) := mem_database_laws (P := release) as_ref.

Lemma not_stored h : h ∉ map hd_hash heads -> mem_get KEY_LOOKUP (as_ref h) store = None.
Proof.
  intros Hh. rewrite store_get. assert (Forall (fun e : Z * bytes * bytes => e.1 <> (KEY_LOOKUP, as_ref h)) entries) as Hne.
  { unfold entries. apply Forall_app. split.
    - apply Forall_flat_map, Forall_forall. intros x Hx. repeat constructor; simpl; [|done].
      intros He%(f_equal snd)%as_ref_inj. apply Hh. apply list_elem_of_fmap. by exists x.
    - apply Forall_map. repeat constructor; done. }
  induction Hne as [|[[c k] v] l Hc _ IH]; simpl; [done|]. by rewrite decide_False.
Qed.

(** The store holds the headers of the tree, and no other. *)
Lemma store_read h :
  read_header (DbHash := Hash) as_ref decode store (IdHash h) = inl (snd <$> list_find (fun x => hd_hash x = h) heads).
Proof.
  destruct (decide (h ∈ map hd_hash heads)) as [Hin|Hout].
  - repeat (apply elem_of_cons in Hin as [->|Hin]; [vm_compute; reflexivity|]). by apply elem_of_nil in Hin.
  - unfold read_header, read_db, block_id_to_lookup_key.
    change (db_get KEY_LOOKUP (as_ref h) store) with (mem_get KEY_LOOKUP (as_ref h) store). rewrite not_stored by done.
    rewrite (proj2 (list_find_None _ _)); [done|]. apply Forall_forall. intros x Hx Hh. apply Hout.
    apply list_elem_of_fmap. exists x. done.
Qed.

Local Abbreviation Lru := (@Caches.lru CachedHeaderMetadata).
Local Abbreviation Linked := (@Caches.linked (option Head)).
Definition start : BlockchainDb MemDb Lru Linked := mkDb store (mkMeta 3 2 1 0 1 None) leaves_new (lru_new 2) lhm_new.
Local Abbreviation serves := (db_serves (lru_peek := fun c => Caches.peek c.2) (lhm_peek := Caches.peek) as_ref decode).

Lemma start_serves : serves start tree start.
Proof.
  split_and!; [done..|]. split.
  - intros h. change (db start) with store. rewrite store_read. destruct (decide (h ∈ map hd_hash heads)) as [Hin|Hout].
    + repeat (apply elem_of_cons in Hin as [->|Hin]; [vm_compute; by eexists|]). by apply elem_of_nil in Hin.
    + unfold tree. rewrite not_elem_of_list_to_map_1 by done. f_equal.
      rewrite (proj2 (list_find_None _ _)); [done|]. apply Forall_forall. intros x Hx Hh. apply Hout.
      apply list_elem_of_fmap. by exists x.
  - intros h m. simpl. by rewrite lookup_empty.
  - intros h o. simpl. by rewrite lookup_empty.
Qed.

Lemma start_lookups : lookups_ok as_ref start tree.
Proof.
  intros i Hi. change (meta_best_hash (meta start)) with 3%N. destruct (decide (i = 0)) as [->|H0]; [by vm_compute|].
  destruct (decide (i = 1)) as [->|H1]; [by vm_compute|]. destruct (decide (i = 2)) as [->|H2]; [by vm_compute|].
  assert (canon_at tree 3%N i = None) as ->.
  { unfold in_range in Hi. apply (canon_at_above tree tree_ok _ (mkLink 2 2 0)); [done|]. simpl. lia. }
  change (db_get KEY_LOOKUP (index i) (db start)) with (mem_get KEY_LOOKUP (index i) store). rewrite store_get. assert (Forall (fun e : Z * bytes * bytes => e.1 <> (KEY_LOOKUP, index i)) entries) as Hne.
  { unfold entries. apply Forall_app. split.
    - apply Forall_flat_map, Forall_forall. intros x Hx. repeat constructor; simpl; [|done].
      intros He%(f_equal snd)%(f_equal length). simpl in He. destruct (number_index_key_ok i Hi) as (k & Hk & Hl).
      unfold index in He. rewrite Hk, Hl in He. done.
    - apply Forall_map. repeat constructor; intros He%(f_equal snd)%index_inj; try done; by unfold in_range, U32. }
  induction Hne as [|[[c k] v] l Hc _ IH]; simpl; [done|]. by rewrite decide_False.
Qed.

#[local] Existing Instance release.

Lemma caches_are_transparent_witness :
  let q := QCommon 3 4 in
  let qs := [QRoute 4 3; QCommon 3 4; QNumber 7; QDescends (Some (5, 4)) 1 5; QHeader 2]%N in
  reply_of as_ref decode q (foldl (fun s q => after as_ref decode q s) start qs) = reply_of as_ref decode q start /\
  reply_of as_ref decode q start = Some (RCommon (mkHN 0 1)).
Proof.
  split; [|vm_compute; reflexivity]. apply (caches_are_transparent as_ref decode tree); [apply tree_ok|apply start_serves| |exact I].
  repeat apply Forall_cons_2; try exact I; [|apply Forall_nil_2]. simpl. split_and!; [vm_compute; reflexivity|by eexists|..].
  - apply (bool_decide_unpack _). vm_compute. exact I.
  - by eexists.
  - by eexists.
Defined.

(** The head moves from 3 to a new block 5 on the fork 4. *)
Lemma db_head_is_exact_witness :
  exists tx en re s', set_head_with_transaction as_ref decode 10 [] 4 2 5 start = Ok (tx, en, re) s' /\ en = [4%N] /\ re = [3; 2]%N /\
    wp (db_commit (E := ChainError) tx)
      (fun _ d => (forall i, in_range U32 i ->
           db_get KEY_LOOKUP (index i) d = lookup_entry as_ref i (canon_at (<[5%N := mkLink (1 + 1) 4 0]> tree) 5 i)) /\
         db_get COLUMN_META BEST_BLOCK d = Some (index 2 ++ as_ref 5)) (fun _ _ => False) (db s').
Proof.
  destruct (db_head_is_exact as_ref decode 10 tree start 4 (<[5%N := mkLink (1 + 1) 4 0]> tree) 2 5) as (tx & en & re & s' & He & Hw).
  - apply start_serves.
  - apply start_lookups.
  - split; [apply tree_ok| | |vm_compute; reflexivity|discriminate| | |].
    + apply (bool_decide_unpack _). vm_compute. exact I.
    + unfold in_range, U32. lia.
    + apply (head_new tree 4 (mkLink 1 1 0) 5 0); [vm_compute; reflexivity..|]. apply (bool_decide_unpack _). vm_compute. exact I.
    + exists 1%nat. vm_compute. reflexivity.
    + vm_compute. discriminate.
  - exists tx, en, re, s'. assert (match set_head_with_transaction as_ref decode 10 [] 4 2 5 start with
      Ok (_, en, re) _ => en = [4%N] /\ re = [3; 2]%N | _ => False end) as Hr by (vm_compute; auto).
    rewrite He in Hr. destruct Hr as [Hen Hre]. split; [exact He|]. split; [exact Hen|]. split; [exact Hre|exact Hw].
Defined.
End Store.
